(** * code-to-flowcharts: the flow-graph renderers, embedded and verified

    The repository turns a snippet of C, Java or Python into a Mermaid
    flowchart.  This development embeds the four source modules

      - [parser.py]         (language detection and dispatch),
      - [c_parser.py]       (block reader, tree builder, renderer),
      - [java_parser.py]    (line splitter, tree builder, renderer),
      - [python_parser.py]  (renderer over the tree of [ast.parse]),

    as executable Rocq functions and proves the properties of the rendered
    graphs.

    Python values are modelled as follows.  A [str] is a [string] of code
    points below 256; [None] is [option]'s [None]; a list is a [list]; the
    mutable [lines], [nodes], [edges] buffers and the id counter of one call
    are a record threaded through the renderer.  The regular expressions of
    the sources are written as terms of a small regex type and run by a
    backtracking matcher with Python's priorities. *)

From Stdlib Require Import String Ascii List Arith Bool Lia PeanoNat.
From Stdlib Require Import DecimalString DecimalNat.
Import ListNotations.
#[local] Set Warnings "-register-all".
Local Open Scope list_scope.
Local Open Scope string_scope.

(** ** Python's [str] *)

Module PyStr.

Definition chr (n : nat) : ascii := ascii_of_nat n.
Definition ord (c : ascii) : nat := nat_of_ascii c.

(** The double quote, the single quote and the line feed, from their codes. *)
Definition dq : string := String (chr 34) EmptyString.
Definition sq : string := String (chr 39) EmptyString.
Definition nl : string := String (chr 10) EmptyString.

Definition in_range (lo hi n : nat) : bool := (lo <=? n)%nat && (n <=? hi)%nat.

(** [str.isspace] on one code point below 256. *)
Definition isspace (c : ascii) : bool :=
  let n := ord c in
  in_range 9 13 n || in_range 28 32 n || (n =? 133)%nat || (n =? 160)%nat.

(** [str.isalnum] on one code point below 256. *)
Definition isalnum (c : ascii) : bool :=
  let n := ord c in
  in_range 48 57 n || in_range 65 90 n || in_range 97 122 n
  || (n =? 170)%nat || (n =? 178)%nat || (n =? 179)%nat || (n =? 181)%nat || (n =? 185)%nat
  || (n =? 186)%nat || in_range 188 190 n || in_range 192 214 n
  || in_range 216 246 n || in_range 248 255 n.

(** The class [\w] of [re] on a [str] pattern. *)
Definition isword (c : ascii) : bool := isalnum c || (ord c =? 95)%nat.

(** The line boundaries of [str.splitlines]. *)
Definition islinebreak (c : ascii) : bool :=
  let n := ord c in
  in_range 10 13 n || in_range 28 30 n || (n =? 133)%nat.

Definition len (s : string) : nat := String.length s.

Definition is_empty (s : string) : bool :=
  match s with EmptyString => true | String _ _ => false end.

(** [s[i:]] *)
Fixpoint drop (i : nat) (s : string) : string :=
  match i, s with
  | 0, _ => s
  | S _, EmptyString => EmptyString
  | S i', String _ s' => drop i' s'
  end.

(** [s[:n]] *)
Fixpoint take (n : nat) (s : string) : string :=
  match n, s with
  | 0, _ => EmptyString
  | S _, EmptyString => EmptyString
  | S n', String c s' => String c (take n' s')
  end.

(** [s[i:j]] *)
Definition slice (i j : nat) (s : string) : string := take (j - i) (drop i s).

(** [s.startswith(p)] *)
Fixpoint startswith (p s : string) : bool :=
  match p, s with
  | EmptyString, _ => true
  | String _ _, EmptyString => false
  | String a p', String b s' => Ascii.eqb a b && startswith p' s'
  end.

(** [s.startswith(p, i)]: false once [i] is past the end of [s]. *)
Definition startswith_at (p s : string) (i : nat) : bool :=
  (i <=? len s)%nat && startswith p (drop i s).

Fixpoint rev_str (s acc : string) : string :=
  match s with
  | EmptyString => acc
  | String c s' => rev_str s' (String c acc)
  end.

(** [s.endswith(p)] *)
Definition endswith (p s : string) : bool :=
  startswith (rev_str p EmptyString) (rev_str s EmptyString).

(** [p in s] *)
Fixpoint contains (p s : string) : bool :=
  startswith p s ||
  match s with
  | EmptyString => false
  | String _ s' => contains p s'
  end.

(** [s.lstrip(chars)], [s.rstrip(chars)], with the stripped set as a predicate. *)
Fixpoint lstrip_by (p : ascii -> bool) (s : string) : string :=
  match s with
  | EmptyString => EmptyString
  | String c s' => if p c then lstrip_by p s' else s
  end.

Fixpoint rstrip_by (p : ascii -> bool) (s : string) : string :=
  match s with
  | EmptyString => EmptyString
  | String c s' =>
      let r := rstrip_by p s' in
      if is_empty r && p c then EmptyString else String c r
  end.

Definition lstrip : string -> string := lstrip_by isspace.
Definition rstrip : string -> string := rstrip_by isspace.
Definition strip (s : string) : string := rstrip (lstrip s).

Definition is_char (c : ascii) : ascii -> bool := Ascii.eqb c.

(** [s.replace(old, new)] for a non-empty [old]: leftmost occurrences that do
    not overlap.  [skip] counts the characters of [s] still covered by the
    occurrence that was just replaced. *)
Fixpoint replace_from (old new : string) (skip : nat) (s : string) : string :=
  match s with
  | EmptyString => EmptyString
  | String c s' =>
      match skip with
      | S k => replace_from old new k s'
      | 0 =>
          if startswith old s
          then new ++ replace_from old new (len old - 1) s'
          else String c (replace_from old new 0 s')
      end
  end.

Definition replace (old new s : string) : string := replace_from old new 0 s.

(** [sep.join(l)] *)
Definition join (sep : string) (l : list string) : string := String.concat sep l.

(** [s.split(c)] on a one-character separator: always at least one piece. *)
Fixpoint split_char (sep : ascii) (s : string) : list string :=
  match s with
  | EmptyString => [EmptyString]
  | String c s' =>
      if Ascii.eqb c sep then EmptyString :: split_char sep s'
      else match split_char sep s' with
           | [] => [String c EmptyString]
           | w :: ws => String c w :: ws
           end
  end.

(** [s.split()]: the maximal runs of non-space characters. *)
Fixpoint split_ws_from (cur : string) (s : string) : list string :=
  match s with
  | EmptyString => if is_empty cur then [] else [rev_str cur EmptyString]
  | String c s' =>
      if isspace c
      then (if is_empty cur then split_ws_from EmptyString s'
            else rev_str cur EmptyString :: split_ws_from EmptyString s')
      else split_ws_from (String c cur) s'
  end.

Definition split_ws (s : string) : list string := split_ws_from EmptyString s.

(** [s.splitlines()]: a carriage return directly followed by a line feed is
    one boundary, and a boundary at the very end opens no further line. *)
Fixpoint splitlines_from (cur : string) (after_cr : bool) (s : string) : list string :=
  match s with
  | EmptyString => if is_empty cur then [] else [rev_str cur EmptyString]
  | String c s' =>
      if after_cr && (ord c =? 10)%nat && is_empty cur
      then splitlines_from EmptyString false s'
      else if islinebreak c
      then rev_str cur EmptyString :: splitlines_from EmptyString (ord c =? 13)%nat s'
      else splitlines_from (String c cur) false s'
  end.

Definition splitlines (s : string) : list string :=
  splitlines_from EmptyString false s.

(** [str(n)] for a natural number. *)
Definition str_of_nat (n : nat) : string := NilZero.string_of_uint (Nat.to_uint n).

(** [html.escape(s, quote=False)]: the ampersand first, then the two angles. *)
Definition html_escape_noquote (s : string) : string :=
  replace ">" "&gt;" (replace "<" "&lt;" (replace "&" "&amp;" s)).

(** [html.escape(s)]: with [quote=True] the two quotes are escaped as well. *)
Definition html_escape (s : string) : string :=
  replace sq "&#x27;" (replace dq "&quot;" (html_escape_noquote s)).

(** Truthiness of a [str]: the empty string is false. *)
Definition truthy (s : string) : bool := negb (is_empty s).

(** What a call of a function from [str] to [str] does: it returns a value
    or raises an exception, named by its class. *)
Inductive outcome : Type :=
| Returns (value : string)
| Raises (exception_name : string).

End PyStr.

(** ** Python's [re]: a backtracking matcher

    The patterns of the sources only repeat single-character classes
    ([\s*], [.*], [[^,]+], [.*?], ...), so repetition is a star over a
    class.  Alternation tries its left branch first and a greedy star tries
    the longest run first, as [re] does; the first success in that order is
    the match. *)

Module Re.
Import PyStr.

Inductive regex : Type :=
| Eps                                  (* the empty pattern *)
| Chr (c : ascii)                      (* one literal character *)
| Cls (p : ascii -> bool)              (* one character of a class *)
| Cat (r1 r2 : regex)
| Alt (r1 r2 : regex)                  (* r1|r2 *)
| Star (p : ascii -> bool)             (* class*, greedy *)
| StarLazy (p : ascii -> bool)         (* class*?, lazy *)
| Group (n : nat) (r : regex)          (* capture group number n *)
| WordB                                (* \b *)
| Bos                                  (* ^ without MULTILINE *)
| Eos                                  (* $ without MULTILINE *)
| Ahead (r : regex).                   (* (?=r) *)

(** A literal string. *)
Fixpoint lit (s : string) : regex :=
  match s with
  | EmptyString => Eps
  | String c s' => Cat (Chr c) (lit s')
  end.

(** A sequence of patterns. *)
Definition seq (rs : list regex) : regex := fold_right Cat Eps rs.

(** class+ *)
Definition Plus (p : ascii -> bool) : regex := Cat (Cls p) (Star p).
(** (?:r)? *)
Definition Opt (r : regex) : regex := Alt r Eps.

(** The classes of the sources. *)
Definition ws : ascii -> bool := isspace.                       (* \s *)
Definition dot : ascii -> bool := fun c => negb (ord c =? 10)%nat. (* . *)
Definition any : ascii -> bool := fun _ => true.                 (* . under re.S *)
Definition not_char (c : ascii) : ascii -> bool := fun x => negb (Ascii.eqb c x).

(** The position of the matcher: the character before it (none at the start
    of the subject), the text from it on, and the groups captured so far. *)
Record mstate : Type := MState {
  prev : option ascii;
  rest : string;
  caps : list (nat * string)
}.

Definition at_word (c : option ascii) : bool :=
  match c with Some x => isword x | None => false end.

Definition next_char (s : string) : option ascii :=
  match s with EmptyString => None | String c _ => Some c end.

Section Matcher.
Context {A : Type}.

Fixpoint star_greedy (p : ascii -> bool) (pv : option ascii) (s : string)
  (k : option ascii -> string -> option A) : option A :=
  match s with
  | String c s' =>
      if p c
      then match star_greedy p (Some c) s' k with
           | Some x => Some x
           | None => k pv s
           end
      else k pv s
  | EmptyString => k pv s
  end.

Fixpoint star_lazy (p : ascii -> bool) (pv : option ascii) (s : string)
  (k : option ascii -> string -> option A) : option A :=
  match k pv s with
  | Some x => Some x
  | None =>
      match s with
      | String c s' => if p c then star_lazy p (Some c) s' k else None
      | EmptyString => None
      end
  end.

End Matcher.

(** [run r st k]: match [r] at [st] and hand the position after it to [k];
    a failure of [k] makes the matcher try its next alternative. *)
Fixpoint run {A : Type} (r : regex) (st : mstate) (k : mstate -> option A) : option A :=
  match r with
  | Eps => k st
  | Chr c =>
      match rest st with
      | String x s' => if Ascii.eqb c x then k (MState (Some x) s' (caps st)) else None
      | EmptyString => None
      end
  | Cls p =>
      match rest st with
      | String x s' => if p x then k (MState (Some x) s' (caps st)) else None
      | EmptyString => None
      end
  | Cat r1 r2 => run r1 st (fun st' => run r2 st' k)
  | Alt r1 r2 =>
      match run r1 st k with
      | Some x => Some x
      | None => run r2 st k
      end
  | Star p => star_greedy p (prev st) (rest st) (fun pv s => k (MState pv s (caps st)))
  | StarLazy p => star_lazy p (prev st) (rest st) (fun pv s => k (MState pv s (caps st)))
  | Group n r' =>
      run r' st (fun st' =>
        let text := take (len (rest st) - len (rest st')) (rest st) in
        k (MState (prev st') (rest st') ((n, text) :: caps st')))
  | WordB =>
      if xorb (at_word (prev st)) (at_word (next_char (rest st))) then k st else None
  | Bos => match prev st with None => k st | Some _ => None end
  | Eos =>
      match rest st with
      | EmptyString => k st
      | String c EmptyString => if (ord c =? 10)%nat then k st else None
      | _ => None
      end
  | Ahead r' =>
      match run r' st (fun _ => Some tt) with
      | Some _ => k st
      | None => None
      end
  end.

(** A match: how many characters it spans, and its groups. *)
Record rmatch : Type := RMatch { span : nat; groups : list (nat * string) }.

(** [m.group(n)]: the last capture of group [n]. *)
Fixpoint lookup (n : nat) (l : list (nat * string)) : option string :=
  match l with
  | [] => None
  | (m, s) :: l' => if (n =? m)%nat then Some s else lookup n l'
  end.

Definition group (n : nat) (m : rmatch) : string :=
  match lookup n (groups m) with Some s => s | None => EmptyString end.

(** The match of [r] that starts at this very position, if any. *)
Definition match_here (r : regex) (pv : option ascii) (s : string) : option rmatch :=
  run r (MState pv s []) (fun st => Some (RMatch (len s - len (rest st)) (caps st))).

(** [re.match(r, s)] *)
Definition re_match (r : regex) (s : string) : option rmatch := match_here r None s.

(** [re.search(r, s)]: the leftmost match, with the index it starts at. *)
Fixpoint search_from (r : regex) (pv : option ascii) (s : string) (i : nat)
  : option (nat * rmatch) :=
  match match_here r pv s with
  | Some m => Some (i, m)
  | None =>
      match s with
      | String c s' => search_from r (Some c) s' (S i)
      | EmptyString => None
      end
  end.

Definition search (r : regex) (s : string) : option (nat * rmatch) :=
  search_from r None s 0.

Definition found (r : regex) (s : string) : bool :=
  match search r s with Some _ => true | None => false end.

(** [re.sub(r, repl, s)] for a pattern no match of which is empty: every
    pattern the sources substitute starts with a literal character or a
    [+].  [skip] counts the characters still inside the last match. *)
Fixpoint sub_from (r : regex) (repl : rmatch -> string) (pv : option ascii)
  (skip : nat) (s : string) : string :=
  match s with
  | EmptyString => EmptyString
  | String c s' =>
      match skip with
      | S k => sub_from r repl (Some c) k s'
      | 0 =>
          match match_here r pv s with
          | Some m =>
              match span m with
              | 0 => String c (sub_from r repl (Some c) 0 s')
              | S k => repl m ++ sub_from r repl (Some c) k s'
              end
          | None => String c (sub_from r repl (Some c) 0 s')
          end
      end
  end.

Definition sub (r : regex) (repl : rmatch -> string) (s : string) : string :=
  sub_from r repl None 0 s.

(** [re.split(r, s, maxsplit=1)[0]]: the text before the leftmost match, the
    whole of [s] when there is none. *)
Definition before_first (r : regex) (s : string) : string :=
  match search r s with
  | Some (i, _) => take i s
  | None => s
  end.

(** [re.split(r, s)] for a zero-width [r] (a lookahead): [s] is cut at every
    position where [r] matches; a match at the very start leaves an empty
    first piece. *)
Fixpoint split_zero_from (r : regex) (pv : option ascii) (cur : string) (s : string)
  : list string :=
  match s with
  | EmptyString => [rev_str cur EmptyString]
  | String c s' =>
      match match_here r pv s with
      | Some _ => rev_str cur EmptyString :: split_zero_from r (Some c) (String c EmptyString) s'
      | None => split_zero_from r (Some c) (String c cur) s'
      end
  end.

Definition split_zero (r : regex) (s : string) : list string :=
  split_zero_from r None EmptyString s.

End Re.

(** ** The diagram text

    Every line the C and Python renderers append is a header, a node or an
    edge; an edge's end may declare its node in place
    ([n1 -- Yes --> n2["x = 1"]]).  The renderers build these lines and
    [show_line] gives the text the f-strings of the sources produce. *)

Module Mermaid.
Import PyStr.

Inductive shape : Type :=
| Rect          (* ["label"]   process *)
| Para          (* [/"label"/] input/output *)
| Diamond       (* {"label"}   decision *)
| Circle        (* ((label))   terminal *)
| Subroutine.   (* [[label]]   placeholder *)

Definition decl_text (sh : shape) (label : string) : string :=
  match sh with
  | Rect => "[" ++ dq ++ label ++ dq ++ "]"
  | Para => "[/" ++ dq ++ label ++ dq ++ "/]"
  | Diamond => "{" ++ dq ++ label ++ dq ++ "}"
  | Circle => "((" ++ label ++ "))"
  | Subroutine => "[[" ++ label ++ "]]"
  end.

(** A node as a line mentions it: its id, and its declaration when the
    line carries one. *)
Record nref : Type := NRef {
  ref_id : string;
  ref_decl : option (shape * string)
}.

Definition bare (id : string) : nref := NRef id None.
Definition decl (id : string) (sh : shape) (label : string) : nref :=
  NRef id (Some (sh, label)).

Inductive line : Type :=
| Header (text : string)
| Node (n : nref)
| Edge (a : nref) (label : option string) (b : nref).

Definition show_nref (n : nref) : string :=
  match ref_decl n with
  | Some (sh, l) => ref_id n ++ decl_text sh l
  | None => ref_id n
  end.

Definition show_line (l : line) : string :=
  match l with
  | Header t => t
  | Node n => show_nref n
  | Edge a None b => show_nref a ++ " --> " ++ show_nref b
  | Edge a (Some lbl) b => show_nref a ++ " -- " ++ lbl ++ " --> " ++ show_nref b
  end.

(** ["\n".join(lines)] *)
Definition show (ls : list line) : string := join nl (map show_line ls).

(** *** The graph a list of lines draws *)

Record edge : Type := MkEdge {
  src : string;
  elabel : option string;
  dst : string
}.

Definition edge_of (l : line) : list edge :=
  match l with
  | Edge a lbl b => [MkEdge (ref_id a) lbl (ref_id b)]
  | _ => []
  end.

Definition edges_of (ls : list line) : list edge := flat_map edge_of ls.

(** The declarations a line carries: (id, shape, label). *)
Definition decl_of (n : nref) : list (string * shape * string) :=
  match ref_decl n with
  | Some (sh, l) => [(ref_id n, sh, l)]
  | None => []
  end.

Definition decls_of_line (l : line) : list (string * shape * string) :=
  match l with
  | Header _ => []
  | Node n => decl_of n
  | Edge a _ b => decl_of a ++ decl_of b
  end.

Definition decls_of (ls : list line) : list (string * shape * string) :=
  flat_map decls_of_line ls.

Definition str_eqb : string -> string -> bool := String.eqb.

Definition opt_eqb (a b : option string) : bool :=
  match a, b with
  | Some x, Some y => str_eqb x y
  | None, None => true
  | _, _ => false
  end.

(** The edges that leave, and those that enter, a node. *)
Definition out_edges (id : string) (es : list edge) : list edge :=
  filter (fun e => str_eqb (src e) id) es.
Definition in_edges (id : string) (es : list edge) : list edge :=
  filter (fun e => str_eqb (dst e) id) es.

End Mermaid.

(** ** c_parser.py *)

Module c_parser.
Import PyStr Re Mermaid.

(** *** Utilities *)

(** [_clean_label]: quotes removed, stripped, runs of white space collapsed
    to one blank, then [html.escape(s, quote=False)]. *)
Definition _clean_label (s : string) : string :=
  let s := replace sq "" (replace dq "" s) in
  let s := strip s in
  let s := sub (Plus ws) (fun _ => " ") s in
  html_escape_noquote s.

(** [//.*] *)
Definition re_line_comment : regex := Cat (lit "//") (Star dot).
(** [/\*.*?\*/] under [re.S] *)
Definition re_block_comment : regex := Cat (lit "/*") (Cat (StarLazy any) (lit "*/")).

Definition _remove_comments_and_preproc (code : string) : string :=
  let code := sub re_line_comment (fun _ => "") code in
  let code := sub re_block_comment (fun _ => "") code in
  join nl (filter (fun ln => negb (startswith "#" (strip ln))) (splitlines code)).

(** *** The block reader *)

Definition char_is (c : ascii) (x : ascii) : bool := Ascii.eqb c x.

Definition lparen : ascii := chr 40.
Definition rparen : ascii := chr 41.
Definition lbrace : ascii := chr 123.
Definition rbrace : ascii := chr 125.
Definition semi : ascii := chr 59.

(** The [while j < n] loop of [_read_stmt], over the text from [j] on:
    where it stopped, and whether it stopped at a semicolon of depth 0. *)
Fixpoint read_stmt_scan (t : string) (depth j : nat) : nat * bool :=
  match t with
  | EmptyString => (j, false)
  | String ch t' =>
      if char_is lparen ch then read_stmt_scan t' (S depth) (S j)
      else if char_is rparen ch then read_stmt_scan t' (Nat.pred depth) (S j)
      else if char_is semi ch && (depth =? 0)%nat then (j, true)
      else read_stmt_scan t' depth (S j)
  end.

(** [_read_stmt(s, i)]: the statement up to and with its semicolon, and the
    index after it; without a semicolon, the rest of the text. *)
Definition _read_stmt (s : string) (i : nat) : string * nat :=
  let '(j, stopped) := read_stmt_scan (drop i s) 0 i in
  if stopped then (strip (slice i (j + 1) s), j + 1)
  else (strip (slice i j s), j).

(** The loop of [_read_block] over the text from [j] on; [buf] holds the
    content read so far, last character first.  The outermost opener and its
    closer are not part of the content. *)
Fixpoint read_block_scan (open_ch close_ch : ascii) (t : string) (depth j : nat)
  (buf : string) : string * nat :=
  match t with
  | EmptyString => (rev_str buf EmptyString, j)
  | String ch t' =>
      if char_is open_ch ch then
        if (S depth =? 1)%nat
        then read_block_scan open_ch close_ch t' 1 (S j) buf
        else read_block_scan open_ch close_ch t' (S depth) (S j) (String ch buf)
      else if char_is close_ch ch then
        if (Nat.pred depth =? 0)%nat
        then (rev_str buf EmptyString, S j)
        else read_block_scan open_ch close_ch t' (Nat.pred depth) (S j) (String ch buf)
      else read_block_scan open_ch close_ch t' depth (S j) (String ch buf)
  end.

(** [_read_block(s, i)].  Every call site tests [i < n] and that [s[i]] is an
    opening parenthesis or brace first, so the index error and the assertion
    of the source cannot fire; outside that domain the model returns the
    empty content. *)
Definition _read_block (s : string) (i : nat) : string * nat :=
  match String.get i s with
  | Some open_ch =>
      let close_ch := if char_is lparen open_ch then rparen else rbrace in
      read_block_scan open_ch close_ch (drop i s) 0 i EmptyString
  | None => (EmptyString, i)
  end.

(** *** The control tree *)

(** The tuples [_parse_block] builds: [('stmt', text)],
    [('if', cond, then_nodes, else_nodes)] with [else_nodes] possibly
    [None], [('for', header, body)], [('while', cond, body)],
    [('do', cond, body)] and [('switch', expr, cases)]. *)
Inductive node : Type :=
| stmt (text : string)
| if_ (cond : string) (then_nodes : list node) (else_nodes : option (list node))
| for_ (header : string) (body_nodes : list node)
| while_ (cond : string) (body_nodes : list node)
| do_ (cond : string) (body_nodes : list node)
| switch_ (expr : string) (cases : list (string * list node)).

Fixpoint skip_ws_scan (t : string) (i : nat) : nat :=
  match t with
  | String c t' => if isspace c then skip_ws_scan t' (S i) else i
  | EmptyString => i
  end.

(** [while i < n and s[i].isspace(): i += 1] *)
Definition skip_ws (s : string) (i : nat) : nat := skip_ws_scan (drop i s) i.

(** [i < n and s[i] == c] *)
Definition char_at_is (s : string) (i : nat) (c : ascii) : bool :=
  match String.get i s with
  | Some x => char_is c x
  | None => false
  end.

(** [s.startswith(kw, i) and (i+k == n or not s[i+k].isalnum() and s[i+k] != '_')] *)
Definition kw_at (kw s : string) (i : nat) : bool :=
  startswith_at kw s i &&
  ((i + len kw =? len s)%nat ||
   match String.get (i + len kw) s with
   | Some c => negb (isalnum c) && negb (char_is (chr 95) c)
   | None => false
   end).

(** [(?=(?:\bcase\b|\bdefault\b))] *)
Definition re_case_split : regex :=
  Ahead (Alt (Cat WordB (Cat (lit "case") WordB)) (Cat WordB (Cat (lit "default") WordB))).

(** [^(case\s+[^:]+|default)\s*:\s*(.* )$] under [re.S] (written here with a
    blank before the last parenthesis) *)
Definition re_case : regex :=
  Cat Bos
 (Cat (Group 1 (Alt (Cat (lit "case") (Cat (Plus ws) (Plus (not_char ":"%char))))
                    (lit "default")))
 (Cat (Star ws) (Cat (Chr ":"%char) (Cat (Star ws) (Cat (Group 2 (Star any)) Eos))))).

(** [\bbreak\s*;] *)
Definition re_break : regex :=
  Cat WordB (Cat (lit "break") (Cat (Star ws) (Chr semi))).

Definition obind {A B : Type} (x : option A) (f : A -> option B) : option B :=
  match x with Some a => f a | None => None end.

Notation "x <- e ;; k" := (obind e (fun x => k))
  (at level 61, e at next level, right associativity).
Notation "' p <- e ;; k" := (obind e (fun p => k))
  (at level 61, p pattern, e at next level, right associativity).

Fixpoint omap {A B : Type} (f : A -> option B) (l : list A) : option (list B) :=
  match l with
  | [] => Some []
  | a :: l' => b <- f a ;; bs <- omap f l' ;; Some (b :: bs)
  end.

(** [_parse_block], after its [s = s.strip()]: the [while True] loop from
    index [i] on, giving the nodes appended from there.  Python's recursion
    and loop are bounded here by [fuel], one unit for each iteration and each
    nested call; [None] means the fuel ran out. *)
Fixpoint parse_loop (fuel : nat) (s : string) (i : nat) : option (list node) :=
  match fuel with
  | 0 => None
  | S fuel' =>
    let n := len s in
    let parse := fun t : string => parse_loop fuel' (strip t) 0 in
    (* a body that is one statement: a list holding it *)
    let single := fun i : nat => let '(st, i) := _read_stmt s i in ([stmt st], i) in
    (* the body of a loop *)
    let loop_body := fun i : nat =>
      if char_at_is s i lbrace
      then (let '(inner, i) := _read_block s i in b <- parse inner ;; Some (b, i))
      else Some (single i) in
    (* a branch of a conditional: a single statement ending in a brace is
       parsed again as a block *)
    let branch := fun i : nat =>
      if char_at_is s i lbrace
      then (let '(inner, i) := _read_block s i in b <- parse inner ;; Some (b, i))
      else (let '(st, i) := _read_stmt s i in
            if endswith "}" st then (b <- parse st ;; Some (b, i))
            else Some ([stmt st], i)) in
    (* a parenthesised header, when there is one *)
    let header := fun i : nat =>
      if char_at_is s i lparen then _read_block s i else (EmptyString, i) in
    let i := skip_ws s i in
    if (n <=? i)%nat then Some []
    else if kw_at "if" s i then
      let i := skip_ws s (i + 2) in
      let '(cond, i) := header i in
      let cond := strip cond in
      let i := skip_ws s i in
      '(then_nodes, i) <- branch i ;;
      let i := skip_ws s i in
      '(else_nodes, i) <-
         (if kw_at "else" s i
          then (let i := skip_ws s (i + 4) in
                '(e, i) <- branch i ;; Some (Some e, i))
          else Some (None, i)) ;;
      rest <- parse_loop fuel' s i ;;
      Some (if_ cond then_nodes else_nodes :: rest)
    else if kw_at "for" s i then
      let i := skip_ws s (i + 3) in
      let '(hdr, i) := header i in
      let i := skip_ws s i in
      '(body, i) <- loop_body i ;;
      rest <- parse_loop fuel' s i ;;
      Some (for_ hdr body :: rest)
    else if kw_at "while" s i then
      let i := skip_ws s (i + 5) in
      let '(cond, i) := header i in
      let i := skip_ws s i in
      '(body, i) <- loop_body i ;;
      rest <- parse_loop fuel' s i ;;
      Some (while_ cond body :: rest)
    else if kw_at "do" s i then
      let i := skip_ws s (i + 2) in
      '(body, i) <- loop_body i ;;
      let i := skip_ws s i in
      let '(cond, i) :=
        if startswith_at "while" s i then
          let i := skip_ws s (i + 5) in
          let '(cond, i) := header i in
          (cond, if char_at_is s i semi then i + 1 else i)
        else (EmptyString, i) in
      rest <- parse_loop fuel' s i ;;
      Some (do_ cond body :: rest)
    else if kw_at "switch" s i then
      let i := skip_ws s (i + 6) in
      let '(expr, i) := header i in
      let i := skip_ws s i in
      '(cases, i) <-
         (if char_at_is s i lbrace then
            let '(body, i) := _read_block s i in
            let parts := filter truthy (map strip (split_zero re_case_split body)) in
            cs <- omap (fun part =>
                    match re_match re_case part with
                    | None => Some []
                    | Some m =>
                        let label := strip (group 1 m) in
                        let cbody := before_first re_break (strip (group 2 m)) in
                        b <- parse cbody ;; Some [(label, b)]
                    end) parts ;;
            Some (concat cs, i)
          else Some ([], i)) ;;
      rest <- parse_loop fuel' s i ;;
      Some (switch_ expr cases :: rest)
    else
      let '(st, j) := _read_stmt s i in
      rest <- parse_loop fuel' s j ;;
      Some (if truthy st then stmt (strip st) :: rest else rest)
  end.

(** [_parse_block(s)].  The fuel is the length of the stripped text plus
    one: every iteration moves the index forward and every nested call reads
    a strictly shorter text, so the fuel never runs out
    ([c_parse_block_total] below).  The limit Python puts on the depth of
    recursion is not modelled. *)
Definition _parse_block (s : string) : option (list node) :=
  parse_loop (S (len (strip s))) (strip s) 0.

(** *** Statement labels *)

Inductive kind : Type := io | proc | decision.

(** [(?:unsigned\s+|signed\s+)?\s*(?:short|long|int|char|float|double|size_t)\b],
    the part the two declaration patterns share. *)
Definition re_decl_head : regex :=
  seq [ Bos;
        Opt (Alt (Cat (lit "unsigned") (Plus ws)) (Cat (lit "signed") (Plus ws)));
        Star ws;
        Alt (lit "short") (Alt (lit "long") (Alt (lit "int") (Alt (lit "char")
          (Alt (lit "float") (Alt (lit "double") (lit "size_t"))))));
        WordB ].

(** The pattern of [_extract_var_names]: the head, then [( .* )$]. *)
Definition re_decl : regex := seq [ re_decl_head; Group 1 (Star dot); Eos ].

(** [\[.*\]] *)
Definition re_brackets : regex := seq [ Chr "["%char; Star dot; Chr "]"%char ].

(** [printf\s*\(\s*Q([^Q]* )Q], with Q standing for the double quote *)
Definition re_printf : regex :=
  seq [ lit "printf"; Star ws; Chr lparen; Star ws; Chr (chr 34);
        Group 1 (Star (not_char (chr 34))); Chr (chr 34) ].

(** [scanf\s*\([^,]+,\s*(.+)\)] *)
Definition re_scanf : regex :=
  seq [ lit "scanf"; Star ws; Chr lparen; Plus (not_char ","%char); Chr ","%char;
        Star ws; Group 1 (Plus dot); Chr rparen ].

(** [p.split()[-1]] for a non-empty stripped [p]. *)
Definition last_word (p : string) : string := last (split_ws p) EmptyString.

(** [_extract_var_names] *)
Definition _extract_var_names (decl_text : string) : list string :=
  let d := rstrip_by (is_char semi) (strip decl_text) in
  match re_match re_decl d with
  | None => []
  | Some m =>
      let rest := strip (group 1 m) in
      let parts := filter truthy (map strip (split_char ","%char rest)) in
      flat_map (fun p =>
        let p := strip (hd EmptyString (split_char "="%char p)) in
        let p := strip (replace "*" " " p) in
        let p := strip (sub re_brackets (fun _ => "") p) in
        if truthy p then [last_word p] else []) parts
  end.

(** [node[1].strip() if node[1] else default] *)
Definition or_default (text default : string) : string :=
  if truthy text then strip text else default.

(** [_label_and_kind] *)
Definition _label_and_kind (nd : node) : string * kind :=
  match nd with
  | stmt text =>
      let s := strip text in
      if startswith "printf" s then
        match search re_printf s with
        | Some (_, m) => ("Display " ++ group 1 m, io)
        | None => ("Output", io)
        end
      else if startswith "scanf" s then
        match search re_scanf s with
        | Some (_, m) => ("Input " ++ strip (replace "&" "" (strip (group 1 m))), io)
        | None => ("Input", io)
        end
      else if found re_decl_head s then
        match _extract_var_names s with
        | [] => ("Declare variable", proc)
        | [name] => ("Declare variable " ++ name, proc)
        | names => ("Declare variables " ++ join ", " names, proc)
        end
      else if startswith "return" s then ("Return", proc)
      else (strip (rstrip_by (is_char semi) s), proc)
  | if_ cond _ _ => (or_default cond "Condition", decision)
  | while_ cond _ => (or_default cond "Condition", decision)
  | for_ hdr _ => (or_default hdr "For", decision)
  | do_ cond _ => (or_default cond "Condition", decision)
  | switch_ expr _ => (or_default expr "Switch", decision)
  end.

(** *** Rendering *)

(** The buffer and the counter of one call of [code_to_flowchart]. *)
Record rstate : Type := RState {
  lines : list line;
  node_counter : nat
}.

Definition append (l : line) (st : rstate) : rstate :=
  RState (lines st ++ [l]) (node_counter st).

Definition new_id (st : rstate) : string * rstate :=
  let c := S (node_counter st) in
  ("N" ++ str_of_nat c, RState (lines st) c).

Definition shape_of (k : kind) : shape :=
  match k with
  | io => Para
  | decision => Diamond
  | proc => Rect
  end.

Definition add_node (label : string) (k : kind) (st : rstate) : string * rstate :=
  let '(nid, st) := new_id st in
  (nid, append (Node (decl nid (shape_of k) (_clean_label label))) st).

(** [connect(a, b, edge_label)]: an empty label counts as none. *)
Definition connect (a b : string) (edge_label : option string) (st : rstate) : rstate :=
  match edge_label with
  | Some l => if truthy l then append (Edge (bare a) (Some l) (bare b)) st
              else append (Edge (bare a) None (bare b)) st
  | None => append (Edge (bare a) None (bare b)) st
  end.

(** ['io' if t == 'io' else 'proc'] *)
Definition io_or_proc (t : kind) : kind :=
  match t with io => io | _ => proc end.

(** The [for tnode in then_nodes[1:]] loop: each node after the one before. *)
Fixpoint render_tail (cur : string) (ns : list node) (st : rstate) : string * rstate :=
  match ns with
  | [] => (cur, st)
  | nd :: ns' =>
      let '(l, t) := _label_and_kind nd in
      let '(nid, st) := add_node l (io_or_proc t) st in
      let st := connect cur nid None st in
      render_tail nid ns' st
  end.

(** One branch of a conditional; the source spells this block out twice,
    with "Yes" for the then-branch and "No" for the else-branch.  The result
    is the id of the branch's last node, [None] for an empty branch. *)
Definition render_branch (d_id : string) (ns : list node) (edge_label : string)
  (st : rstate) : option string * rstate :=
  match ns with
  | [] => (None, st)
  | first :: ns' =>
      let '(l, t) := _label_and_kind first in
      let '(fid, st) := add_node l (io_or_proc t) st in
      let st := connect d_id fid (Some edge_label) st in
      let '(cur, st) := render_tail fid ns' st in
      (Some cur, st)
  end.

(** The end of a branch joins [target]: from its last node, or from the
    decision itself, with the branch's label, when the branch is empty. *)
Definition join_branch (d_id : string) (branch_last : option string)
  (edge_label target : string) (st : rstate) : rstate :=
  match branch_last with
  | Some b => connect b target None st
  | None => connect d_id target (Some edge_label) st
  end.

Definition or_empty (l : option (list node)) : list node :=
  match l with Some x => x | None => [] end.

Definition end_line : line := Node (decl "End" Circle "End").

Definition is_nil {A : Type} (l : list A) : bool :=
  match l with [] => true | _ => false end.

(** The [while i < len(ast)] loop of [code_to_flowchart] from node [i] on:
    [ast] is the list of the nodes from [i]; the node is the last one
    ([i == len(ast) - 1]) when none follows it.  The result is the buffer at
    the [return]. *)
Fixpoint render_from (ast : list node) (prev : string)
  (last_label_added : option string) (st : rstate) : rstate :=
  match ast with
  | [] =>
      let st := connect prev "End" None st in
      append end_line st
  | nd :: rest =>
      let '(kind_label, kind_type) := _label_and_kind nd in
      match nd with
      | if_ _ then_nodes else_nodes =>
          let '(d_id, st) := add_node kind_label decision st in
          let st := connect prev d_id None st in
          let '(then_last, st) := render_branch d_id then_nodes "Yes" st in
          let '(else_last, st) := render_branch d_id (or_empty else_nodes) "No" st in
          if is_nil rest then
            let st := join_branch d_id then_last "Yes" "End" st in
            let st := join_branch d_id else_last "No" "End" st in
            append end_line st
          else
            let '(merge_id, st) := add_node "Merge" proc st in
            let st := join_branch d_id then_last "Yes" merge_id st in
            let st := join_branch d_id else_last "No" merge_id st in
            render_from rest merge_id last_label_added st
      | _ =>
          let label := kind_label in
          if negb (truthy label) then render_from rest prev last_label_added st
          else if opt_eqb (Some label) last_label_added
          then render_from rest prev last_label_added st
          else
            let '(nid, st) := add_node label (io_or_proc kind_type) st in
            let st := connect prev nid None st in
            if str_eqb label "Return" then
              let st := connect nid "End" None st in
              append end_line st
            else render_from rest nid (Some label) st
      end
  end.

Definition start_line : line := Node (decl "Start" Circle "Start").

(** The state when the loop starts: the header and the Start node. *)
Definition init_state : rstate := RState [Header "graph TD"; start_line] 0.

(** The rendering of a parsed tree. *)
Definition render (ast : list node) : list line :=
  lines (render_from ast "Start" None init_state).

(** [\bint\s+main\s*\([^)]*\)\s*\{] *)
Definition re_main : regex :=
  seq [ WordB; lit "int"; Plus ws; lit "main"; Star ws; Chr lparen;
        Star (not_char rparen); Chr rparen; Star ws; Chr lbrace ].

(** The text that is parsed: the body of [main] when there is one. *)
Definition main_body (code : string) : string :=
  match search re_main code with
  | Some (start, m) => fst (_read_block code (start + span m - 1))
  | None => code
  end.

(** [code_to_flowchart]; [None] would mean that the tree builder ran out of
    fuel, which it never does ([c_code_to_flowchart_total] below). *)
Definition code_to_flowchart (code : string) : option string :=
  let code := _remove_comments_and_preproc code in
  ast <- _parse_block (main_body code) ;;
  Some (show (render ast)).

(** *** The explanation *)

(** ["  " * depth] *)
Fixpoint indent_of (depth : nat) : string :=
  match depth with
  | 0 => EmptyString
  | S d => ("  " ++ indent_of d)%string
  end.

(** What [walk(block, depth)] appends to [explanation] for one node of the
    block.  An else-branch is walked when it is a non-empty list. *)
Fixpoint walk_node (depth : nat) (nd : node) {struct nd} : list string :=
  let indent := indent_of depth in
  match nd with
  | stmt _ => [(indent ++ "- " ++ fst (_label_and_kind nd) ++ ".")%string]
  | if_ cond then_nodes else_nodes =>
      ((indent ++ "- If condition **(" ++ strip cond ++ ")** is true:")%string
       :: flat_map (walk_node (S depth)) then_nodes
       ++ match else_nodes with
          | Some el =>
              if is_nil el then []
              else (indent ++ "- Otherwise:")%string :: flat_map (walk_node (S depth)) el
          | None => []
          end)%list
  | while_ cond body_nodes =>
      (indent ++ "- While **(" ++ strip cond ++ ")**, repeat:")%string
      :: flat_map (walk_node (S depth)) body_nodes
  | do_ cond body_nodes =>
      ((indent ++ "- Do the following at least once:")%string
       :: flat_map (walk_node (S depth)) body_nodes
       ++ [(indent ++ "- Then repeat while **(" ++ strip cond ++ ")**.")%string])%list
  | for_ header body_nodes =>
      (indent ++ "- For loop **(" ++ strip header ++ ")**, repeat:")%string
      :: flat_map (walk_node (S depth)) body_nodes
  | switch_ expr cases =>
      (indent ++ "- Switch on **(" ++ strip expr ++ ")**:")%string
      :: flat_map (fun lc : string * list node =>
                     (indent ++ "  - Case **" ++ fst lc ++ "**:")%string
                     :: flat_map (walk_node (S (S depth))) (snd lc))
                  cases
  end.

(** [walk(block, depth)] *)
Definition walk (block : list node) (depth : nat) : list string :=
  flat_map (walk_node depth) block.

(** The lines of the explanation of a parsed tree. *)
Definition explanation (ast : list node) : list string :=
  "Program Explanation:" :: walk ast 0.

(** [code_to_explanation]; [None] would mean that the tree builder ran out
    of fuel, which it never does ([c_parse_block_total] below). *)
Definition code_to_explanation (code : string) : option string :=
  let code := _remove_comments_and_preproc code in
  ast <- _parse_block (main_body code) ;;
  Some (join nl (explanation ast)).

End c_parser.

(** ** java_parser.py *)

Module java_parser.
Import PyStr Re Mermaid.

(** *** Utilities *)

Definition lparen : ascii := chr 40.
Definition rparen : ascii := chr 41.

(** [/\*.*?\*/] under [re.S], and [//.*] *)
Definition re_block_comment : regex := seq [ lit "/*"; StarLazy any; lit "*/" ].
Definition re_line_comment : regex := seq [ lit "//"; Star dot ].

Definition _remove_comments (code : string) : string :=
  sub re_line_comment (fun _ => "") (sub re_block_comment (fun _ => "") code).

(** [System\.out\.println\s*\(( .* )\)] *)
Definition re_println : regex :=
  seq [ lit "System.out.println"; Star ws; Chr lparen; Group 1 (Star dot); Chr rparen ].

(** [s[:-1]] *)
Definition drop_last (s : string) : string := take (len s - 1) s.

Definition _safe_label (s : string) : string :=
  let s := strip s in
  let s := sub re_println (fun m => "print(" ++ group 1 m ++ ")") s in
  let s := if endswith ";" s then rstrip (drop_last s) else s in
  replace dq sq s.

Definition _preprocess_lines (code : string) : list string :=
  let code := _remove_comments code in
  let code := replace "}" (nl ++ "}" ++ nl) (replace "{" (nl ++ "{" ++ nl) code) in
  map strip (filter (fun ln => truthy (strip ln)) (splitlines code)).

(** *** The control tree *)

(** The dictionaries [_parse_block] builds, by their ['type']. *)
Inductive node : Type :=
| stmt (code : string)
| if_chain (clauses : list (string * list node)) (else_block : option (list node))
| for_ (cond : string) (body : list node)
| while_ (cond : string) (body : list node)
| do_while (cond : string) (body : list node)
| switch (cond : string) (cases : list (string * list string)).

(** [\(( .* )\)] *)
Definition re_paren : regex := seq [ Chr lparen; Group 1 (Star dot); Chr rparen ].

Definition _extract_paren (text : string) : string :=
  match search re_paren text with
  | Some (_, m) => strip (group 1 m)
  | None => EmptyString
  end.

(** [\bclass\b] and [\bmain\s*\(] *)
Definition re_class : regex := seq [ WordB; lit "class"; WordB ].
Definition re_main : regex := seq [ WordB; lit "main"; Star ws; Chr lparen ].

(** [case .*?:] and [default:] *)
Definition re_case : regex := seq [ lit "case "; StarLazy dot; Chr ":"%char ].
Definition re_default : regex := lit "default:".

Definition is_match (r : regex) (s : string) : bool :=
  match re_match r s with Some _ => true | None => false end.

Fixpoint find_brace_scan (ls : list string) (j : nat) : nat :=
  match ls with
  | [] => j
  | l :: ls' => if str_eqb l "{" then j else find_brace_scan ls' (S j)
  end.

(** [while j < n and lines[j] != '{': j += 1] *)
Definition find_brace (lines : list string) (j : nat) : nat :=
  find_brace_scan (skipn j lines) j.

(** The loop over the lines of a switch body, up to its closing brace:
    [current] is the case being filled, as (label, body). *)
Fixpoint switch_scan (ls : list string) (j : nat) (cases : list (string * list string))
  (current : option (string * list string)) : list (string * list string) * nat :=
  let close := fun c : option (string * list string) =>
    match c with Some x => (cases ++ [x])%list | None => cases end in
  match ls with
  | [] => (close current, j)
  | l :: ls' =>
      if str_eqb l "}" then (close current, j)
      else if is_match re_case l || is_match re_default l then
        switch_scan ls' (S j) (close current) (Some (rstrip_by (is_char ":"%char) l, []))
      else
        match current with
        | Some (lbl, body) => switch_scan ls' (S j) cases (Some (lbl, (body ++ [l])%list))
        | None => switch_scan ls' (S j) cases None
        end
  end.

Definition obind {A B : Type} (x : option A) (f : A -> option B) : option B :=
  match x with Some a => f a | None => None end.

Notation "x <- e ;; k" := (obind e (fun x => k))
  (at level 61, e at next level, right associativity).
Notation "' p <- e ;; k" := (obind e (fun p => k))
  (at level 61, p pattern, e at next level, right associativity).

(** [_parse_block(lines, i)]: the nodes appended from line [i] to the end of
    the block, and the index after it.  [else_loop] is the
    [while k < n and lines[k].startswith('else')] loop of the conditional: it
    gives the clauses it adds, the else block and the index it ends at.
    [None] means the fuel ran out. *)
Fixpoint _parse_block_fuel (fuel : nat) (lines : list string) (i : nat)
  {struct fuel} : option (list node * nat) :=
  match fuel with
  | 0 => None
  | S fuel' =>
    let n := length lines in
    (* the braced block expected from line [start] on *)
    let braced := fun start : nat =>
      let j := find_brace lines start in
      if (n <=? j)%nat then Some ([], j) else _parse_block_fuel fuel' lines (j + 1) in
    match nth_error lines i with
    | None => Some ([], i)
    | Some line =>
      if str_eqb line "}" then Some ([], i + 1)
      else if found re_class line || found re_main line then
        let j := find_brace lines (i + 1) in
        if (j <? n)%nat then
          '(inner, j2) <- _parse_block_fuel fuel' lines (j + 1) ;;
          '(rest, e) <- _parse_block_fuel fuel' lines j2 ;;
          Some ((inner ++ rest)%list, e)
        else _parse_block_fuel fuel' lines (i + 1)
      else if startswith "if" line then
        let cond := _extract_paren line in
        '(then_block, j) <- braced (i + 1) ;;
        '(more, else_block, k) <- else_loop fuel' lines j ;;
        '(rest, e) <- _parse_block_fuel fuel' lines k ;;
        Some (if_chain ((cond, then_block) :: more) else_block :: rest, e)
      else if startswith "for" line then
        '(body, j) <- braced (i + 1) ;;
        '(rest, e) <- _parse_block_fuel fuel' lines j ;;
        Some (for_ (_extract_paren line) body :: rest, e)
      else if startswith "while" line then
        '(body, j) <- braced (i + 1) ;;
        '(rest, e) <- _parse_block_fuel fuel' lines j ;;
        Some (while_ (_extract_paren line) body :: rest, e)
      else if startswith "do" line then
        '(body, j) <- braced (i + 1) ;;
        let '(cond, j) :=
          match nth_error lines j with
          | Some l => if startswith "while" l then (_extract_paren l, j + 1)
                      else (EmptyString, j)
          | None => (EmptyString, j)
          end in
        '(rest, e) <- _parse_block_fuel fuel' lines j ;;
        Some (do_while cond body :: rest, e)
      else if startswith "switch" line then
        let j := find_brace lines (i + 1) + 1 in
        let '(cases, j) := switch_scan (skipn j lines) j [] None in
        '(rest, e) <- _parse_block_fuel fuel' lines (j + 1) ;;
        Some (switch (_extract_paren line) cases :: rest, e)
      else
        '(rest, e) <- _parse_block_fuel fuel' lines (i + 1) ;;
        Some (stmt line :: rest, e)
    end
  end
with else_loop (fuel : nat) (lines : list string) (k : nat) {struct fuel}
  : option (list (string * list node) * option (list node) * nat) :=
  match fuel with
  | 0 => None
  | S fuel' =>
    let n := length lines in
    let braced := fun start : nat =>
      let j := find_brace lines start in
      if (n <=? j)%nat then Some ([], j) else _parse_block_fuel fuel' lines (j + 1) in
    match nth_error lines k with
    | None => Some ([], None, k)
    | Some l =>
      if startswith "else" l then
        if startswith "else if" l then
          '(body2, m) <- braced (k + 1) ;;
          '(more, else_block, k') <- else_loop fuel' lines m ;;
          Some ((_extract_paren l, body2) :: more, else_block, k')
        else
          '(else_block, m) <- braced (k + 1) ;;
          Some ([], Some else_block, m)
      else Some ([], None, k)
    end
  end.

(** [_parse_block(lines, 0)].  Every call moves its index forward, so twice
    the number of lines, plus two, is fuel enough. *)
Definition _parse_block (lines : list string) : option (list node * nat) :=
  _parse_block_fuel (2 * length lines + 2) lines 0.

(** *** Rendering *)

(** An entry of [edges]: the tuple (from, to, label); each of the three may
    be [None]. *)
Record jedge : Type := JEdge {
  e_from : option string;
  e_to : option string;
  e_label : option string
}.

(** The buffers and the counter of one call of [parse_java_code]. *)
Record rstate : Type := RState {
  nodes : list line;
  edges : list jedge;
  id_counter : nat
}.

Definition new_id (st : rstate) : string * rstate :=
  let c := S (id_counter st) in
  ("N" ++ str_of_nat c, RState (nodes st) (edges st) c).

Definition push_node (l : line) (st : rstate) : rstate :=
  RState (nodes st ++ [l]) (edges st) (id_counter st).

(** [edges.append((a, b, label))] *)
Definition push_edge (a b label : option string) (st : rstate) : rstate :=
  RState (nodes st) (edges st ++ [JEdge a b label]) (id_counter st).

Definition add_node_rect (label : string) (st : rstate) : string * rstate :=
  let label := if truthy (strip label) then label else " " in
  let '(nid, st) := new_id st in
  (nid, push_node (Node (decl nid Rect label)) st).

Definition add_node_diamond (label : string) (st : rstate) : string * rstate :=
  let '(nid, st) := new_id st in
  (nid, push_node (Node (decl nid Diamond label)) st).

Definition add_node_circle (label : string) (st : rstate) : string * rstate :=
  let '(nid, st) := new_id st in
  (nid, push_node (Node (decl nid Circle label)) st).

(** The merge node of a conditional or a switch: a fresh id declared as
    a circle around one blank. *)
Definition add_merge (st : rstate) : string * rstate :=
  let '(nid, st) := new_id st in
  (nid, push_node (Node (decl nid Circle " ")) st).

Definition is_none {A : Type} (o : option A) : bool :=
  match o with None => true | Some _ => false end.

(** Truthiness of an id that may be [None]. *)
Definition opt_truthy (o : option string) : bool :=
  match o with Some s => truthy s | None => false end.

(** The two steps every construct of [render_block] takes with its entry
    node: [if first is None: first = entry] and
    [if last is not None: edges.append((last, entry, None))]. *)
Definition enter (entry first last : option string) (st : rstate)
  : option string * rstate :=
  (if is_none first then entry else first,
   if is_none last then st else push_edge last entry None st).

(** The text of a loop body: the label of each plain statement, three dots
    for anything else, one per line. *)
Definition body_text (body : list node) : string :=
  join nl (map (fun s => match s with stmt code => _safe_label code | _ => "..." end) body).

(** The cases of a switch: one rectangle each, entered from the switch under
    the label "case" and leaving for the merge node. *)
Fixpoint render_cases (switch_n merge_n : string) (cases : list (string * list string))
  (st : rstate) : rstate :=
  match cases with
  | [] => st
  | (label, body) :: cases' =>
      let case_body := join nl (map _safe_label body) in
      let case_label := if truthy case_body then label ++ ":" ++ nl ++ case_body else label in
      let '(case_n, st) := add_node_rect case_label st in
      let st := push_edge (Some switch_n) (Some case_n) (Some "case") st in
      let st := push_edge (Some case_n) (Some merge_n) None st in
      render_cases switch_n merge_n cases' st
  end.

Section Render.

(** The rendering of one statement of a block, given [first] and [last] as
    they stand before it. *)
Variable render_node :
  node -> option string -> option string -> rstate -> option string * option string * rstate.

(** The [for stmt in block] loop of [render_block]. *)
Fixpoint render_stmts (block : list node) (first last : option string) (st : rstate)
  : option string * option string * rstate :=
  match block with
  | [] => (first, last, st)
  | x :: block' =>
      let '(first, last, st) := render_node x first last st in
      render_stmts block' first last st
  end.

(** [render_block(block)]: [(None, None)] for an empty block. *)
Definition render_block_with (block : list node) (st : rstate)
  : option string * option string * rstate :=
  render_stmts block None None st.

(** The [for cond, then_block in clauses] loop of [render_if_chain]. *)
Fixpoint render_clauses (merge_id : string) (clauses : list (string * list node))
  (prev_cond_id first_cond_id : option string) (st : rstate)
  : option string * option string * rstate :=
  match clauses with
  | [] => (prev_cond_id, first_cond_id, st)
  | (cond, then_block) :: clauses' =>
      let '(cond_id, st) := add_node_diamond (_safe_label cond) st in
      let first_cond_id := if is_none first_cond_id then Some cond_id else first_cond_id in
      let st := if is_none prev_cond_id then st
                else push_edge prev_cond_id (Some cond_id) (Some "False") st in
      let '(then_first, then_last, st) := render_block_with then_block st in
      let st :=
        if opt_truthy then_first
        then push_edge then_last (Some merge_id) None
               (push_edge (Some cond_id) then_first (Some "True") st)
        else push_edge (Some cond_id) (Some merge_id) (Some "True") st in
      render_clauses merge_id clauses' (Some cond_id) first_cond_id st
  end.

(** [render_if_chain] *)
Definition render_if_chain_with (clauses : list (string * list node))
  (else_block : option (list node)) (st : rstate) : option string * option string * rstate :=
  let '(merge_id, st) := add_merge st in
  let '(prev_cond_id, first_cond_id, st) := render_clauses merge_id clauses None None st in
  let st :=
    match else_block with
    | Some eb =>
        let '(else_first, else_last, st) := render_block_with eb st in
        if opt_truthy else_first
        then push_edge else_last (Some merge_id) None
               (push_edge prev_cond_id else_first (Some "False") st)
        else push_edge prev_cond_id (Some merge_id) (Some "False") st
    | None => push_edge prev_cond_id (Some merge_id) (Some "False") st
    end in
  (first_cond_id, Some merge_id, st).

End Render.

(** One turn of the loop of [render_block]. *)
Fixpoint render_node (nd : node) (first last : option string) (st : rstate)
  {struct nd} : option string * option string * rstate :=
  match nd with
  | stmt code =>
      let lbl := _safe_label code in
      if found re_class lbl || contains "static void main" lbl then (first, last, st)
      else
        let '(nid, st) := add_node_rect lbl st in
        let '(first, st) := enter (Some nid) first last st in
        (first, Some nid, st)
  | if_chain clauses else_block =>
      let '(cond_first, cond_last, st) :=
        render_if_chain_with render_node clauses else_block st in
      let '(first, st) := enter cond_first first last st in
      (first, cond_last, st)
  | for_ cond body =>
      let '(cond_n, st) := add_node_diamond ("for (" ++ _safe_label cond ++ ")") st in
      let '(first, st) := enter (Some cond_n) first last st in
      let st :=
        match body with
        | [] => st
        | _ =>
            let '(body_n, st) := add_node_rect (body_text body) st in
            push_edge (Some body_n) (Some cond_n) None
              (push_edge (Some cond_n) (Some body_n) (Some "True") st)
        end in
      (first, Some cond_n, st)
  | while_ cond body =>
      let '(cond_n, st) := add_node_diamond ("while (" ++ _safe_label cond ++ ")") st in
      let '(first, st) := enter (Some cond_n) first last st in
      let st :=
        match body with
        | [] => st
        | _ =>
            let '(body_n, st) := add_node_rect (body_text body) st in
            push_edge (Some body_n) (Some cond_n) None
              (push_edge (Some cond_n) (Some body_n) (Some "True") st)
        end in
      (first, Some cond_n, st)
  | do_while cond body =>
      let '(body_first, body_last, st) := render_block_with render_node body st in
      let '(cond_n, st) := add_node_diamond ("do-while (" ++ _safe_label cond ++ ")") st in
      let '(first, st) := enter body_first first last st in
      let st := push_edge body_last (Some cond_n) None st in
      let st := push_edge (Some cond_n) body_first (Some "True") st in
      (first, Some cond_n, st)
  | switch cond cases =>
      let '(switch_n, st) := add_node_diamond ("switch (" ++ _safe_label cond ++ ")") st in
      let '(first, st) := enter (Some switch_n) first last st in
      let '(merge_n, st) := add_merge st in
      let st := render_cases switch_n merge_n cases st in
      (first, Some merge_n, st)
  end.

Definition render_block : list node -> rstate -> option string * option string * rstate :=
  render_block_with render_node.

Definition render_if_chain :
  list (string * list node) -> option (list node) -> rstate
  -> option string * option string * rstate :=
  render_if_chain_with render_node.

(** [f"{x}"] of an id that may be [None]. *)
Definition show_id (o : option string) : string :=
  match o with Some s => s | None => "None" end.

(** The line of one edge: labelled when its label is a non-empty string. *)
Definition show_edge (e : jedge) : string :=
  if opt_truthy (e_label e)
  then show_id (e_from e) ++ " -->|" ++ show_id (e_label e) ++ "| " ++ show_id (e_to e)
  else show_id (e_from e) ++ " --> " ++ show_id (e_to e).

(** The nodes and the edges of the diagram of a parsed tree: Start and End
    first, then the block; the edge out of Start is put in front of the
    others and the edge into End after them. *)
Definition render (ast_root : list node) : list line * list jedge :=
  let st := RState [] [] 0 in
  let '(start_id, st) := add_node_circle "Start" st in
  let '(end_id, st) := add_node_circle "End" st in
  let '(first_id, last_id, st) := render_block ast_root st in
  let es := edges st in
  let es :=
    if opt_truthy first_id then JEdge (Some start_id) first_id None :: es
    else JEdge (Some start_id) (Some end_id) None :: es in
  let es :=
    if opt_truthy last_id then (es ++ [JEdge last_id (Some end_id) None])%list
    else (es ++ [JEdge (Some start_id) (Some end_id) None])%list in
  (nodes st, es).

Definition mermaid_lines (g : list line * list jedge) : list string :=
  "flowchart TD" :: (map show_line (fst g) ++ map show_edge (snd g))%list.

(** [parse_java_code]; [None] would mean that the tree builder ran out of
    fuel, which it never does ([parse_java_code_total] below). *)
Definition parse_java_code (code : string) : option string :=
  '(ast_root, _) <- _parse_block (_preprocess_lines code) ;;
  Some (join nl (mermaid_lines (render ast_root))).

End java_parser.

(** ** python_parser.py

    [ast.parse] and [ast.unparse] belong to Python's library, not to the
    repository.  The renderer is embedded over the tree [ast.parse] returns:
    the node classes and fields [code_to_flowchart] reads, and beside them
    the text [ast.unparse] gives for each node the renderer unparses. *)

Module python_parser.
Import PyStr Re Mermaid.

(** The expressions [handle_expr] looks into. *)
Inductive expr : Type :=
| Call (func : expr) (args : list expr)   (* positional arguments only *)
| Name (id : string)
| Constant (str_value : option string)    (* the value when it is a str *)
| OtherExpr.

(** The statements.  [text] is [ast.unparse(node)]; [targets], [test],
    [subject], [target], [iter] and [pattern] hold the unparsed text of the
    field, the only use the renderer makes of them. *)
Inductive stmt : Type :=
| Assign (targets : list string) (value : expr) (text : string)
| Expr (value : expr) (text : string)
| If (test : string) (body orelse : list stmt) (text : string)
| Match (subject : string) (cases : list (option string * list stmt)) (text : string)
| For (target iter : string) (body : list stmt) (text : string)
| While (test : string) (body : list stmt) (text : string)
| OtherStmt (class_name : string) (text : string).

(** [ast.unparse(node)] *)
Definition unparse (node : stmt) : string :=
  match node with
  | Assign _ _ t | Expr _ t | If _ _ _ t | Match _ _ t | For _ _ _ t
  | While _ _ t | OtherStmt _ t => t
  end.

(** [type(node).__name__] *)
Definition type_name (node : stmt) : string :=
  match node with
  | Assign _ _ _ => "Assign"
  | Expr _ _ => "Expr"
  | If _ _ _ _ => "If"
  | Match _ _ _ => "Match"
  | For _ _ _ _ => "For"
  | While _ _ _ => "While"
  | OtherStmt c _ => c
  end.

Definition safe_label (text : string) : string :=
  replace "&#x27;" sq (replace "&quot;" dq (replace nl " " (html_escape_noquote text))).

(** *** handle_expr *)

(** [ast.unparse(node).strip().splitlines()[0]], cut to 47 characters and
    three dots when longer than 50; [None] is the [IndexError] of an empty
    list of lines. *)
Definition first_line (text : string) : option string :=
  match splitlines (strip text) with
  | [] => None
  | l :: _ => Some (if (50 <? len l)%nat then take 47 l ++ "..." else l)
  end.

(** A call of the function named [f] on exactly one str constant: its value. *)
Definition call_on_str (f : string) (e : expr) : option string :=
  match e with
  | Call (Name id) [Constant (Some s)] => if str_eqb id f then Some s else None
  | _ => None
  end.

(** The prompt and the conversion of [x = input("...")] and of
    [x = f(input("..."))]. *)
Definition input_call (rhs : expr) : option (string * option string) :=
  match call_on_str "input" rhs with
  | Some prompt => Some (prompt, None)
  | None =>
      match rhs with
      | Call (Name f) [inner] =>
          match call_on_str "input" inner with
          | Some prompt => Some (prompt, Some f)
          | None => None
          end
      | _ => None
      end
  end.

(** The shape and the label of a statement's node.  The [except Exception]
    of the source catches the one failure these steps can have, the empty
    list of lines, and falls back to the class name in a rectangle. *)
Definition shape_and_label (node : stmt) : shape * string :=
  let generic := fun sh : shape =>
    match first_line (unparse node) with
    | Some l => (sh, l)
    | None => (Rect, type_name node)
    end in
  match node with
  | Expr value _ =>
      match call_on_str "print" value with
      | Some content => (Para, "Output: " ++ content)
      | None =>
          match value with
          | Call _ _ => generic Para
          | _ => generic Rect
          end
      end
  | Assign targets value _ =>
      match input_call value with
      | Some (prompt, conversion_func) =>
          let target_name := match targets with t :: _ => strip t | [] => "value" end in
          match conversion_func with
          | Some f =>
              if truthy f
              then (Para, "Input " ++ target_name ++ ": " ++ prompt ++ " (as " ++ f ++ ")")
              else (Para, "Input " ++ target_name ++ ": " ++ prompt)
          | None => (Para, "Input " ++ target_name ++ ": " ++ prompt)
          end
      | None => generic Rect
      end
  | _ => generic Rect
  end.

(** [handle_expr(node)], as the declaration it formats:
    [shape_type.format(safe_label(label_text))]. *)
Definition handle_expr (node : stmt) : shape * string :=
  let '(sh, l) := shape_and_label node in (sh, safe_label l).

(** *** The renderer's state *)

Record rstate : Type := RState {
  lines : list line;
  node_counter : nat
}.

Definition append (l : line) (st : rstate) : rstate :=
  RState (lines st ++ [l]) (node_counter st).

Definition get_id (st : rstate) : string * rstate :=
  let c := S (node_counter st) in
  ("n" ++ str_of_nat c, RState (lines st) c).

(** A node declared at the end of an edge: [{a} -- label --> {sid}{handle_expr(stmt)}] *)
Definition stmt_ref (sid : string) (node : stmt) : nref :=
  let '(sh, l) := handle_expr node in decl sid sh l.

Definition placeholder (id text : string) : nref := decl id Subroutine text.

(** The statements of a branch, each entered from the one before under the
    same edge label: the loops over [if_node.body] and [if_node.orelse]. *)
Fixpoint chain_labelled (edge_label : string) (cur : string) (body : list stmt)
  (st : rstate) : string * rstate :=
  match body with
  | [] => (cur, st)
  | s :: body' =>
      let '(sid, st) := get_id st in
      let st := append (Edge (bare cur) (Some edge_label) (stmt_ref sid s)) st in
      chain_labelled edge_label sid body' st
  end.

(** The statements after the first of a loop or case body, joined by plain edges. *)
Fixpoint chain_plain (cur : string) (body : list stmt) (st : rstate) : string * rstate :=
  match body with
  | [] => (cur, st)
  | s :: body' =>
      let '(sid, st) := get_id st in
      let st := append (Edge (bare cur) None (stmt_ref sid s)) st in
      chain_plain sid body' st
  end.

(** [for branch_end in branch_ends: lines.append(f"{branch_end} --> {target}")] *)
Fixpoint join_ends (branch_ends : list string) (target : string) (st : rstate) : rstate :=
  match branch_ends with
  | [] => st
  | b :: bs => join_ends bs target (append (Edge (bare b) None (bare target)) st)
  end.

(** The merge logic shared by the conditional and the match: straight to
    End when the construct is the last top-level statement, through a fresh
    merge id otherwise. *)
Definition merge (branch_ends : list string) (is_last : bool) (st : rstate)
  : string * rstate :=
  if is_last then ("End", join_ends branch_ends "End" st)
  else
    let '(merge_id, st) := get_id st in
    (merge_id, join_ends branch_ends merge_id st).

(** *** handle_if_elif_else *)

Fixpoint handle_if_elif_else (if_node : stmt) (current_last_node : string)
  (is_top_level_if_last_statement : bool) (st : rstate) {struct if_node}
  : string * rstate :=
  match if_node with
  | If test body orelse _ =>
      let '(cond_id, st) := get_id st in
      let cond_lbl := safe_label (strip test) in
      let st := append (Node (decl cond_id Diamond cond_lbl)) st in
      let st := append (Edge (bare current_last_node) None (bare cond_id)) st in
      (* Yes branch *)
      let '(yes_last, st) :=
        match body with
        | [] =>
            let '(yes_id, st) := get_id st in
            (yes_id, append (Edge (bare cond_id) (Some "Yes") (placeholder yes_id "No action")) st)
        | _ => chain_labelled "Yes" cond_id body st
        end in
      (* No branch *)
      let '(no_end, st) :=
        match orelse with
        | [] =>
            let '(no_id, st) := get_id st in
            (no_id, append (Edge (bare cond_id) (Some "No") (placeholder no_id "No action")) st)
        | [If _ _ _ _ as elif_node] =>
            handle_if_elif_else elif_node cond_id is_top_level_if_last_statement st
        | _ => chain_labelled "No" cond_id orelse st
        end in
      merge [yes_last; no_end] is_top_level_if_last_statement st
  | _ => (current_last_node, st)   (* only ever called on an If node *)
  end.

(** *** handle_loop *)

Definition loop_cond_label (loop_node : stmt) : string :=
  match loop_node with
  | For target iter _ _ => "For " ++ strip target ++ " in " ++ strip iter
  | While test _ _ => strip test
  | _ => EmptyString
  end.

Definition loop_body (loop_node : stmt) : list stmt :=
  match loop_node with
  | For _ _ body _ | While _ body _ => body
  | _ => []
  end.

Definition handle_loop (loop_node : stmt) (current_last_node : string)
  (is_top_level_loop_last_statement : bool) (st : rstate) : string * rstate :=
  let '(loop_condition_id, st) := get_id st in
  let st := append (Node (decl loop_condition_id Diamond
                            (safe_label (loop_cond_label loop_node)))) st in
  let st := append (Edge (bare current_last_node) None (bare loop_condition_id)) st in
  let '(loop_body_last, st) :=
    match loop_body loop_node with
    | first_stmt_in_body :: others =>
        let '(first_body_node_id, st) := get_id st in
        let st := append (Edge (bare loop_condition_id) (Some "Yes")
                            (stmt_ref first_body_node_id first_stmt_in_body)) st in
        chain_plain first_body_node_id others st
    | [] =>
        let '(empty_body_id, st) := get_id st in
        (empty_body_id,
         append (Edge (bare loop_condition_id) (Some "Yes")
                   (placeholder empty_body_id "Empty Loop Body")) st)
    end in
  (* the back-edge *)
  let st := append (Edge (bare loop_body_last) None (bare loop_condition_id)) st in
  (* the exit *)
  let '(loop_exit_node_id, st) := get_id st in
  let st := append (Edge (bare loop_condition_id) (Some "No") (bare loop_exit_node_id)) st in
  if is_top_level_loop_last_statement
  then ("End", append (Edge (bare loop_exit_node_id) None (bare "End")) st)
  else (loop_exit_node_id, st).

(** *** The match statement *)

(** The [for case_num, case in enumerate(node.cases)] loop: the ends of the
    branches, in order. *)
Fixpoint handle_cases (match_id : string) (cases : list (option string * list stmt))
  (st : rstate) : list string * rstate :=
  match cases with
  | [] => ([], st)
  | (pattern, body) :: cases' =>
      let case_lbl :=
        match pattern with
        | Some p => safe_label ("case " ++ strip p)
        | None => "case (default)"
        end in
      let '(case_branch_last, st) :=
        match body with
        | first_stmt :: others =>
            let '(first_case_id, st) := get_id st in
            let st := append (Edge (bare match_id) (Some case_lbl)
                                (stmt_ref first_case_id first_stmt)) st in
            chain_plain first_case_id others st
        | [] =>
            let '(empty_case_id, st) := get_id st in
            (empty_case_id,
             append (Edge (bare match_id) (Some case_lbl)
                       (placeholder empty_case_id "No action")) st)
        end in
      let '(ends, st) := handle_cases match_id cases' st in
      (case_branch_last :: ends, st)
  end.

Definition handle_match (subject : string) (cases : list (option string * list stmt))
  (last : string) (is_last_statement : bool) (st : rstate) : string * rstate :=
  let '(match_id, st) := get_id st in
  let st := append (Node (decl match_id Diamond ("Match " ++ safe_label (strip subject)))) st in
  let st := append (Edge (bare last) None (bare match_id)) st in
  let '(branch_ends, st) := handle_cases match_id cases st in
  merge branch_ends is_last_statement st.

(** *** The top-level loop *)

Definition is_nil {A : Type} (l : list A) : bool :=
  match l with [] => true | _ => false end.

(** The plain statement of the first and of the last branch of the loop:
    its node, then the edge into it. *)
Definition plain_stmt (node : stmt) (last : string) (st : rstate) : string * rstate :=
  let '(nid, st) := get_id st in
  let st := append (Node (stmt_ref nid node)) st in
  let st := append (Edge (bare last) None (bare nid)) st in
  (nid, st).

(** One turn of [for i, node in enumerate(tree.body)]. *)
Definition step (node : stmt) (is_last_statement : bool) (last : string) (st : rstate)
  : string * rstate :=
  match node with
  | If _ _ _ _ => handle_if_elif_else node last is_last_statement st
  | Match subject cases _ => handle_match subject cases last is_last_statement st
  | For _ _ _ _ | While _ _ _ => handle_loop node last is_last_statement st
  | _ => plain_stmt node last st
  end.

(** The loop from statement [i] on: [body] lists the statements from [i];
    the statement is the last one when none follows. *)
Fixpoint run_body (body : list stmt) (last : string) (st : rstate) : string * rstate :=
  match body with
  | [] => (last, st)
  | node :: body' =>
      let '(last, st) := step node (is_nil body') last st in
      run_body body' last st
  end.

Definition start_line : line := Node (decl "Start" Circle "Start").
Definition end_line : line := Node (decl "End" Circle "End").
Definition init_state : rstate := RState [Header "graph TD"; start_line] 0.

(** The lines of the diagram of a parsed module. *)
Definition render (body : list stmt) : list line :=
  let '(last, st) := run_body body "Start" init_state in
  let st := if str_eqb last "End" then st
            else append (Edge (bare last) None (decl "End" Circle "End")) st in
  lines (append end_line st).

(** What [ast.parse(code)] does: it returns a tree, raises [SyntaxError]
    with a message, or raises something else. *)
Inductive parse_outcome : Type :=
| Parsed (body : list stmt)
| SyntaxError (message : string)
| OtherError (exception_name : string).

(** The diagram of the [except SyntaxError] branch. *)
Definition error_lines (message : string) : list line :=
  [ Header "graph TD"; start_line;
    Edge (decl "error" Rect ("Error: " ++ html_escape message)) None
         (decl "End" Circle "End") ].

(** [code_to_flowchart], given what [ast.parse] did with the code. *)
Definition code_to_flowchart_of (p : parse_outcome) : outcome :=
  match p with
  | Parsed body => Returns (show (render body))
  | SyntaxError message => Returns (show (error_lines message) ++ nl)
  | OtherError e => Raises e
  end.

Section WithParser.
Variable ast_parse : string -> parse_outcome.

Definition code_to_flowchart (code : string) : outcome :=
  code_to_flowchart_of (ast_parse code).

End WithParser.

End python_parser.

(** ** parser.py *)

Module parser.
Import PyStr.

Definition detect_language (code : string) : string :=
  if contains "public class" code || contains "System.out" code then "java"
  else if contains "#include" code || contains "printf" code || contains "scanf" code
  then "c"
  else "python".

(** What a name of a module is bound to: a function from [str] to [str], or
    anything else (another function, an imported module). *)
Inductive pyvalue : Type :=
| StrFunction (f : string -> outcome)
| OtherValue.

(** A module: the names its top level binds, in the order of the source. *)
Definition pymodule : Type := list (string * pyvalue).

Fixpoint getattr (m : pymodule) (name : string) : option pyvalue :=
  match m with
  | [] => None
  | (n, v) :: m' => if String.eqb n name then Some v else getattr m' name
  end.

(** [module.name(arg)]: an [AttributeError] when the module does not bind
    the name. *)
Definition call_attr (m : pymodule) (name : string) (arg : string) : outcome :=
  match getattr m name with
  | Some (StrFunction f) => f arg
  | Some OtherValue => Raises "TypeError"
  | None => Raises "AttributeError"
  end.

(** The tree builders of the model are bounded by fuel; an exhausted fuel,
    which the bounds chosen there exclude, is reported as an exception of
    that name. *)
Definition of_option (o : option string) : outcome :=
  match o with
  | Some d => Returns d
  | None => Raises "OutOfFuel"
  end.

(** The top level of [java_parser.py]: [re], three helpers, the tree
    builder and [parse_java_code]. *)
Definition java_parser_module : pymodule :=
  [ ("re", OtherValue);
    ("_remove_comments", StrFunction (fun s => Returns (java_parser._remove_comments s)));
    ("_safe_label", StrFunction (fun s => Returns (java_parser._safe_label s)));
    ("_preprocess_lines", OtherValue);
    ("_parse_block", OtherValue);
    ("parse_java_code", StrFunction (fun s => of_option (java_parser.parse_java_code s))) ].

(** The top level of [c_parser.py]. *)
Definition c_parser_module : pymodule :=
  [ ("re", OtherValue);
    ("html", OtherValue);
    ("_clean_label", StrFunction (fun s => Returns (c_parser._clean_label s)));
    ("_remove_comments_and_preproc",
       StrFunction (fun s => Returns (c_parser._remove_comments_and_preproc s)));
    ("_read_stmt", OtherValue);
    ("_read_block", OtherValue);
    ("_parse_block", OtherValue);
    ("_extract_var_names", OtherValue);
    ("_label_and_kind", OtherValue);
    ("code_to_flowchart", StrFunction (fun s => of_option (c_parser.code_to_flowchart s)));
    ("code_to_explanation", OtherValue) ].

Section Dispatch.
Variable ast_parse : string -> python_parser.parse_outcome.

(** The top level of [python_parser.py]. *)
Definition python_parser_module : pymodule :=
  [ ("ast", OtherValue);
    ("html", OtherValue);
    ("safe_label", StrFunction (fun s => Returns (python_parser.safe_label s)));
    ("code_to_flowchart", StrFunction (python_parser.code_to_flowchart ast_parse)) ].

Definition flowchart_from_input (code : string) : outcome :=
  let lang := detect_language code in
  if String.eqb lang "java" then call_attr java_parser_module "code_to_flowchart" code
  else if String.eqb lang "c" then call_attr c_parser_module "code_to_flowchart" code
  else call_attr python_parser_module "code_to_flowchart" code.

End Dispatch.

End parser.

(** ** app.py *)

Module app.
Import PyStr parser.

(** A decoded JSON value, as far as the handler tells values apart: an
    object, a string, or a value of another type (an array, a number, a
    boolean, null). *)
Inductive json : Type :=
| JDict (items : list (string * json))
| JStr (s : string)
| JOther.

(** What the handler reads of a request: [request.is_json], and what
    [request.get_json(force=True)] does with the body: it returns the decoded
    value, or raises [BadRequest] ([None]). *)
Record request : Type := Request {
  is_json : bool;
  get_json : option json
}.

(** [d.get(key, default)] on the items of a dict. *)
Fixpoint dict_get (items : list (string * json)) (key : string) (default : json) : json :=
  match items with
  | [] => default
  | (k, v) :: items' => if String.eqb k key then v else dict_get items' key default
  end.

(** The three answers of the handler: status 200 with the diagram, status
    400 with an error text, and status 500 for an exception caught, whose
    class is kept; the body then holds [str(e)] and the fallback diagram. *)
Inductive response : Type :=
| Ok200 (mermaid_syntax : string)
| Error400 (error : string)
| Error500 (exception_name : string).

(** The diagram of the [except Exception] branch, from [str(e)]. *)
Definition fallback (message : string) : string :=
  ("graph TD" ++ nl ++ "Error[" ++ dq ++ "Server Error" ++ dq ++ "] --> Msg["
   ++ dq ++ html_escape message ++ dq ++ "]")%string.

Section Handler.
Variable ast_parse : string -> python_parser.parse_outcome.

(** [generate_mermaid]: a value without the method called on it raises
    [AttributeError], inside the [try] like everything else. *)
Definition generate_mermaid (r : request) : response :=
  if negb (is_json r) then Error400 "Request must be JSON"
  else
    match get_json r with
    | None => Error500 "BadRequest"
    | Some (JDict items) =>
        match dict_get items "code" (JStr EmptyString) with
        | JStr code =>
            if negb (truthy (strip code)) then Error400 "No code provided"
            else
              match flowchart_from_input ast_parse code with
              | Returns mermaid => Ok200 mermaid
              | Raises e => Error500 e
              end
        | _ => Error500 "AttributeError"
        end
    | Some _ => Error500 "AttributeError"
    end.

End Handler.

End app.

(** ** Notions the statements below are written with *)

Module Graph.
Import PyStr Mermaid.

(** The edges of a path through [ids], in order: one per consecutive pair. *)
Fixpoint chain_edges (ids : list string) : list edge :=
  match ids with
  | a :: (b :: _) as rest => MkEdge a None b :: chain_edges rest
  | _ => []
  end.

(** The ids [p1], [p2], ..., [pn] a counter that starts at 0 hands out. *)
Definition ids_from (prefix : string) (first count : nat) : list string :=
  map (fun k => prefix ++ str_of_nat k) (seq first count).

(** The edges of a path through [ids] that all carry the label [lbl]. *)
Fixpoint labelled_chain (lbl : string) (ids : list string) : list edge :=
  match ids with
  | a :: (b :: _) as rest => MkEdge a (Some lbl) b :: labelled_chain lbl rest
  | _ => []
  end.

(** The edges of a branch that hangs off the decision [d] under the label
    [lbl]: into its first node, then along its nodes; none for an empty
    branch. *)
Definition branch_edges (d lbl : string) (ids : list string) : list edge :=
  match ids with
  | [] => []
  | i :: _ => MkEdge d (Some lbl) i :: chain_edges ids
  end.

(** The edge by which a branch joins [target]: from its last node, or, for
    an empty branch, from the decision itself under the branch's label. *)
Definition tail_edge (d lbl : string) (ids : list string) (target : string) : edge :=
  match ids with
  | [] => MkEdge d (Some lbl) target
  | _ :: _ => MkEdge (List.last ids d) None target
  end.

(** The labels on the edges that leave a node. *)
Definition out_labels (id : string) (es : list edge) : list (option string) :=
  map elabel (out_edges id es).

End Graph.

(** ** Notions for the C renderer *)

Module CSpec.
Import PyStr Mermaid c_parser.

Definition is_if (nd : node) : bool :=
  match nd with if_ _ _ _ => true | _ => false end.

Definition label_of (nd : node) : string := fst (_label_and_kind nd).
Definition kind_of (nd : node) : kind := snd (_label_and_kind nd).

(** The statements of a sequence without conditionals that get a node, by
    the words of the renderer's comments: a statement with an empty label
    is passed over, so is one whose label repeats the label emitted last,
    and nothing follows a statement labelled Return. *)
Fixpoint kept (ast : list node) (last_label_added : option string) : list node :=
  match ast with
  | [] => []
  | nd :: rest =>
      if negb (truthy (label_of nd)) then kept rest last_label_added
      else if opt_eqb (Some (label_of nd)) last_label_added then kept rest last_label_added
      else if str_eqb (label_of nd) "Return" then [nd]
      else nd :: kept rest (Some (label_of nd))
  end.

(** Whether the kept statements end in a Return. *)
Definition ends_in_return (ns : list node) : bool :=
  match rev ns with
  | nd :: _ => str_eqb (label_of nd) "Return"
  | [] => false
  end.

(** The declaration of the node of a statement, under the id [id]. *)
Definition node_decl (id : string) (nd : node) : string * shape * string :=
  (id, shape_of (io_or_proc (kind_of nd)), _clean_label (label_of nd)).

(** The lines the renderer has appended between two states. *)
Definition emitted (before after : rstate) : list line :=
  skipn (length (lines before)) (lines after).

End CSpec.

(** ** Notions for the Python renderer *)

Module PySpec.
Import PyStr Mermaid Graph python_parser.

(** A statement that is no conditional, match or loop. *)
Definition is_plain (node : stmt) : bool :=
  match node with
  | If _ _ _ _ | Match _ _ _ | For _ _ _ _ | While _ _ _ => false
  | _ => true
  end.

(** The declaration of the node of a statement, under the id [id]. *)
Definition node_decl (id : string) (node : stmt) : string * shape * string :=
  (id, fst (handle_expr node), snd (handle_expr node)).

(** An else part that is one nested conditional: an elif. *)
Definition is_elif (orelse : list stmt) : bool :=
  match orelse with
  | [If _ _ _ _] => true
  | _ => false
  end.

(** The declarations of the nodes of a branch: one per statement, or the
    placeholder of an empty branch. *)
Definition branch_decls (ids : list string) (body : list stmt) (placeholder_text : string)
  : list (string * shape * string) :=
  match body with
  | [] => map (fun id => (id, Subroutine, placeholder_text)) ids
  | _ :: _ => map (fun p => node_decl (fst p) (snd p)) (combine ids body)
  end.

(** The label of the edge into a case of a match. *)
Definition case_label (c : option string * list stmt) : string :=
  match fst c with
  | Some p => safe_label ("case " ++ strip p)
  | None => "case (default)"
  end.

(** The lines the renderer has appended between two states. *)
Definition emitted (before after : rstate) : list line :=
  skipn (length (lines before)) (lines after).

(** The edges the cases of a match add when the counter stands at [c]: for
    each case the edge from the match node under the case's label, then the
    path through the nodes of its body (one placeholder for an empty body). *)
Fixpoint cases_edges (match_id : string) (c : nat) (cases : list (option string * list stmt))
  : list edge :=
  match cases with
  | [] => []
  | cs :: rest =>
      let k := Nat.max 1 (length (snd cs)) in
      let ids := ids_from "n" (S c) k in
      (MkEdge match_id (Some (case_label cs)) (hd match_id ids) :: chain_edges ids)
      ++ cases_edges match_id (c + k) rest
  end.

(** The last node of each case, and the counter after the cases. *)
Fixpoint cases_ends (c : nat) (cases : list (option string * list stmt)) : list string :=
  match cases with
  | [] => []
  | cs :: rest =>
      let k := Nat.max 1 (length (snd cs)) in
      ("n" ++ str_of_nat (c + k))%string :: cases_ends (c + k) rest
  end.

Fixpoint cases_counter (c : nat) (cases : list (option string * list stmt)) : nat :=
  match cases with
  | [] => c
  | cs :: rest => cases_counter (c + Nat.max 1 (length (snd cs))) rest
  end.

(** An id the renderer has created after its counter stood at [c], or End. *)
Definition later_id (c : nat) (s : string) : Prop :=
  s = "End" \/ exists k, c < k /\ s = ("n" ++ str_of_nat k)%string.

(** What a conditional adds, elif chains included: the edge into its
    decision, the Yes branch, the edge from the decision to the No branch or
    to the decision of the elif, and edges that leave later nodes. *)
Definition if_grows (node : stmt) : Prop :=
  forall (cur : string) (is_last : bool) (st : rstate),
    match node with
    | If test body orelse text =>
        let c := node_counter st in
        let d := ("n" ++ str_of_nat (S c))%string in
        let ky := Nat.max 1 (length body) in
        let r := handle_if_elif_else node cur is_last st in
        S c + ky <= node_counter (snd r)
        /\ later_id (S c) (fst r)
        /\ exists rest,
             edges_of (lines (snd r))
             = (edges_of (lines st) ++ [MkEdge cur None d]
                ++ labelled_chain "Yes" (d :: ids_from "n" (S (S c)) ky)
                ++ [MkEdge d (if is_elif orelse then None else Some "No")
                      ("n" ++ str_of_nat (S (S c) + ky))%string]
                ++ rest)%list
             /\ Forall (fun e => later_id (S c) (src e)) rest
    | _ => True
    end.

End PySpec.

(** ** Notions for the Java renderer *)

Module JSpec.
Import PyStr Re Mermaid java_parser.

Definition is_stmt (nd : node) : bool :=
  match nd with stmt _ => true | _ => false end.

(** A plain statement [render_block] passes over: its label holds the word
    class, or the text static void main. *)
Definition skipped (nd : node) : bool :=
  match nd with
  | stmt code =>
      found re_class (_safe_label code) || contains "static void main" (_safe_label code)
  | _ => false
  end.

(** The label of the rectangle of a plain statement: one blank stands in for
    a blank label. *)
Definition rect_label (nd : node) : string :=
  match nd with
  | stmt code =>
      if truthy (strip (_safe_label code)) then _safe_label code else " "
  | _ => EmptyString
  end.

(** The edges of a path through [ids], as entries of [edges]. *)
Fixpoint chain (ids : list string) : list jedge :=
  match ids with
  | a :: (b :: _) as rest => JEdge (Some a) (Some b) None :: chain rest
  | _ => []
  end.

(** The path the loop of a block has drawn: from the node before the block,
    if there is one, through the ids of the block. *)
Definition path_from (last : option string) (ids : list string) : list string :=
  match last with Some l => l :: ids | None => ids end.

(** The edge by which a construct is entered from the node before it. *)
Definition enter_edges (last : option string) (entry : option string) : list jedge :=
  match last with
  | Some _ => [JEdge last entry None]
  | None => []
  end.

(** The edges the renderer has appended between two states. *)
Definition new_edges (before after : rstate) : list jedge :=
  skipn (length (edges before)) (edges after).

(** An id the renderer has created after its counter stood at [c0], or no
    id at all. *)
Definition later_id (c0 : nat) (o : option string) : Prop :=
  match o with
  | Some s => exists k, c0 < k /\ s = ("N" ++ str_of_nat k)%string
  | None => True
  end.

(** The edges that leave the node [d]. *)
Definition out_of (d : string) (es : list jedge) : list jedge :=
  filter (fun e => opt_eqb (e_from e) (Some d)) es.

(** From [st] to [st'] the counter has not gone back, the edges of [st'] are
    those of [st] and, after them, edges that leave later ids only; [last']
    is a later id as well. *)
Definition grows (c0 : nat) (st st' : rstate) (last' : option string) : Prop :=
  id_counter st <= id_counter st'
  /\ later_id c0 last'
  /\ exists added, edges st' = (edges st ++ added)%list
                   /\ Forall (fun e => later_id c0 (e_from e)) added.

(** What one turn of the loop of a block keeps. *)
Definition node_grows (nd : node) : Prop :=
  forall (c0 : nat) (first last : option string) (st : rstate),
    c0 <= id_counter st -> later_id c0 last ->
    grows c0 st (snd (render_node nd first last st))
      (snd (fst (render_node nd first last st))).

(** The tree builder returns from line [i] when its fuel exceeds the number
    of lines left, and the index it returns is not before [i]. *)
Definition parse_ok (fuel : nat) (lines : list string) : Prop :=
  forall i, length lines - i < fuel ->
    exists block e, _parse_block_fuel fuel lines i = Some (block, e)
                    /\ i <= e /\ (i < length lines -> i < e).

Definition else_ok (fuel : nat) (lines : list string) : Prop :=
  forall k, length lines - k < fuel ->
    exists more eb k', else_loop fuel lines k = Some (more, eb, k') /\ k <= k'.

End JSpec.

(** ** Notions for the matcher *)

Module ReSpec.
Import PyStr Re.

(** What the matcher holds is cut from its subject: the text left and every
    capture are no longer than [L]. *)
Definition bounded (L : nat) (st : mstate) : Prop :=
  len (rest st) <= L /\ Forall (fun p => len (snd p) <= L) (caps st).

End ReSpec.

(** ** Notions for texts *)

Module StrSpec.
Import PyStr.

(** Every character of [s] satisfies [p]. *)
Fixpoint all_chars (p : ascii -> bool) (s : string) : bool :=
  match s with
  | EmptyString => true
  | String c s' => p c && all_chars p s'
  end.

(** [s] with every character [c] replaced by the text [f c]. *)
Fixpoint map_chars (f : ascii -> string) (s : string) : string :=
  match s with
  | EmptyString => EmptyString
  | String c s' => f c ++ map_chars f s'
  end.

(** What [html.escape(s, quote=False)] makes of one character. *)
Definition escape_char (c : ascii) : string :=
  if Ascii.eqb c "&" then "&amp;"
  else if Ascii.eqb c "<" then "&lt;"
  else if Ascii.eqb c ">" then "&gt;"
  else String c EmptyString.

(** What [python_parser.safe_label] makes of one character. *)
Definition safe_char (c : ascii) : string :=
  if Ascii.eqb c (chr 10) then " " else escape_char c.

(** The character is none of the double quote, the single quote and the two
    angle brackets. *)
Definition plain_char (c : ascii) : bool :=
  negb (Ascii.eqb c (chr 34)) && negb (Ascii.eqb c (chr 39))
  && negb (Ascii.eqb c "<") && negb (Ascii.eqb c ">").

(** The only white space a label holds is the blank. *)
Definition blank_or_ink (c : ascii) : bool := negb (isspace c) || Ascii.eqb c " ".

End StrSpec.

(** ** Notions for the readers of the C adapter *)

Module ReadSpec.
Import PyStr c_parser.

(** Read with [d] brackets open, the text [t] closes every bracket it opens
    and the [d] that were open, and none besides. *)
Fixpoint nests (open_ch close_ch : ascii) (d : nat) (t : string) : bool :=
  match t with
  | EmptyString => (d =? 0)%nat
  | String ch t' =>
      if char_is open_ch ch then nests open_ch close_ch (S d) t'
      else if char_is close_ch ch then
        match d with
        | 0 => false
        | S d' => nests open_ch close_ch d' t'
        end
      else nests open_ch close_ch d t'
  end.

(** Read with [d] parentheses open, the text [t] holds no semicolon outside
    parentheses and leaves none open; a closing parenthesis that closes
    nothing counts for nothing, as in [_read_stmt]. *)
Fixpoint inside_stmt (d : nat) (t : string) : bool :=
  match t with
  | EmptyString => (d =? 0)%nat
  | String ch t' =>
      if char_is lparen ch then inside_stmt (S d) t'
      else if char_is rparen ch then inside_stmt (Nat.pred d) t'
      else if char_is semi ch && (d =? 0)%nat then false
      else inside_stmt d t'
  end.

End ReadSpec.

(** ** Notions for a diagram as a whole *)

Module FlowSpec.
Import PyStr Mermaid Graph.

(** The ids of the nodes a diagram declares, in the order of the lines. *)
Definition declared (ls : list line) : list string :=
  map (fun d => fst (fst d)) (decls_of ls).

(** Every edge leaves a node of [froms] and enters a node of [tos]. *)
Definition edges_within (froms tos : list string) (ls : list line) : Prop :=
  forall e, In e (edges_of ls) -> In (src e) froms /\ In (dst e) tos.

End FlowSpec.

(** ** Notions for the diagram of the C renderer *)

Module CFlowSpec.
Import PyStr Mermaid Graph c_parser FlowSpec.

(** What holds of the buffer each time the loop of [code_to_flowchart] comes
    round: the counter is [k], the nodes declared are Start and N1 .. Nk,
    every edge drawn joins two of them and enters none but the numbered
    ones, and [prev] is one of them. *)
Definition loop_inv (k : nat) (prev : string) (st : rstate) : Prop :=
  node_counter st = k
  /\ declared (lines st) = "Start" :: ids_from "N" 1 k
  /\ edges_within ("Start" :: ids_from "N" 1 k) (ids_from "N" 1 k) (lines st)
  /\ In prev ("Start" :: ids_from "N" 1 k).

(** What holds of the diagram returned. *)
Definition closed_diagram (k : nat) (ls : list line) : Prop :=
  declared ls = "Start" :: ids_from "N" 1 k ++ ["End"]
  /\ edges_within ("Start" :: ids_from "N" 1 k) (ids_from "N" 1 k ++ ["End"]) ls.

End CFlowSpec.

(** ** Notions for the explanation of a C program *)

Module ExplSpec.
Import PyStr c_parser.

(** The blocks that hang directly under a node. *)
Definition blocks_of (nd : node) : list (list node) :=
  match nd with
  | stmt _ => []
  | if_ _ then_nodes else_nodes =>
      then_nodes :: match else_nodes with Some el => [el] | None => [] end
  | for_ _ body_nodes | while_ _ body_nodes | do_ _ body_nodes => [body_nodes]
  | switch_ _ cases => map snd cases
  end.

(** A node occurs in a block: it is one of its nodes, or it occurs in a
    block under one of them, however deep. *)
Inductive occurs (x : node) : list node -> Prop :=
| occurs_here (block : list node) : In x block -> occurs x block
| occurs_under (nd : node) (block inner : list node) :
    In nd block -> In inner (blocks_of nd) -> occurs x inner -> occurs x block.

(** The bullet of a plain statement at a depth. *)
Definition bullet (depth : nat) (text : string) : string :=
  indent_of depth ++ "- " ++ fst (_label_and_kind (stmt text)) ++ ".".

End ExplSpec.

(** ** Notions for the error diagrams *)

Module AppSpec.
Import PyStr StrSpec.

(** What [html.escape] writes for one character. *)
Definition entity_char (c : ascii) : string :=
  if Ascii.eqb c (chr 34) then "&quot;"
  else if Ascii.eqb c (chr 39) then "&#x27;"
  else escape_char c.

End AppSpec.

(** ** Notions for the diagram of the Java renderer *)

Module JFlowSpec.
Import PyStr Mermaid Graph java_parser JSpec FlowSpec.

(** A statement that sets [first] in the loop of [render_block]: one that
    gets a node.  A plain statement does unless it is passed over, a
    conditional does with its first condition, a do-while loop does with the
    first node of its body. *)
Fixpoint draws (nd : node) : bool :=
  match nd with
  | stmt _ => negb (skipped nd)
  | if_chain clauses _ => match clauses with [] => false | _ :: _ => true end
  | do_while _ body => existsb draws body
  | for_ _ _ | while_ _ _ | switch _ _ => true
  end.

(** A tree in which every conditional has a condition and the body of
    every do-while loop draws a node.  The bodies of the other loops are not
    rendered as blocks and need nothing. *)
Fixpoint sound (nd : node) : bool :=
  match nd with
  | if_chain clauses else_block =>
      match clauses with [] => false | _ :: _ => true end
      && forallb (fun cl : string * list node => forallb sound (snd cl)) clauses
      && match else_block with Some eb => forallb sound eb | None => true end
  | do_while _ body => existsb draws body && forallb sound body
  | stmt _ | for_ _ _ | while_ _ _ | switch _ _ => true
  end.

(** The id [N k] for a [k] above [lo] and up to [hi]. *)
Definition numbered (lo hi : nat) (o : option string) : Prop :=
  exists k, lo < k <= hi /\ o = Some ("N" ++ str_of_nat k)%string.

Definition edge_within (lo hi : nat) (e : jedge) : Prop :=
  numbered lo hi (e_from e) /\ numbered lo hi (e_to e).

(** From [st] to [st'] the renderer has declared the ids the counter has
    passed, in order, and has added edges between ids above [lo] that the
    counter has reached. *)
Definition extends (lo : nat) (st st' : rstate) : Prop :=
  id_counter st <= id_counter st'
  /\ (exists more,
        nodes st' = (nodes st ++ more)%list
        /\ declared more
           = ids_from "N" (S (id_counter st)) (id_counter st' - id_counter st))
  /\ (exists added,
        edges st' = (edges st ++ added)%list
        /\ Forall (edge_within lo (id_counter st')) added).

(** [first] and [last] in the loop of a block: both unset, or both ids above
    [lo] that the counter has reached. *)
Definition ends_ok (lo : nat) (st : rstate) (first last : option string) : Prop :=
  (first = None \/ numbered lo (id_counter st) first)
  /\ (last = None \/ numbered lo (id_counter st) last)
  /\ (first = None <-> last = None).

(** What one turn of the loop of a block keeps; [drawn] tells whether the
    turn sets [first] when it was unset. *)
Definition step_closed (lo : nat) (drawn : bool) (first : option string) (st : rstate)
  (r : option string * option string * rstate) : Prop :=
  extends lo st (snd r)
  /\ ends_ok lo (snd r) (fst (fst r)) (snd (fst r))
  /\ (first <> None \/ drawn = true -> fst (fst r) <> None).

Definition node_closed (nd : node) : Prop :=
  forall (lo : nat) (first last : option string) (st : rstate),
    sound nd = true -> lo <= id_counter st -> ends_ok lo st first last ->
    step_closed lo (draws nd) first st (render_node nd first last st).

(** An edge of the finished diagram: it joins two of the ids N1 .. Nk, does
    not leave N2 (End) and does not enter N1 (Start). *)
Definition final_edge_ok (k : nat) (e : jedge) : Prop :=
  exists a b, e_from e = Some a /\ e_to e = Some b
              /\ In a (ids_from "N" 1 k) /\ In b (ids_from "N" 1 k)
              /\ a <> "N2" /\ b <> "N1".

End JFlowSpec.

(** ** Notions for the lines the Java tree builder reads *)

Module LineSpec.
Import PyStr StrSpec.

Definition is_brace (c : ascii) : bool := Ascii.eqb c "{" || Ascii.eqb c "}".

(** A character inside a line without braces: no line boundary, no brace. *)
Definition inner_char (c : ascii) : bool := negb (islinebreak c) && negb (is_brace c).

(** What the two replacements of [_preprocess_lines] write for a character. *)
Definition isolate (c : ascii) : string :=
  if Ascii.eqb c "{" then nl ++ "{" ++ nl
  else if Ascii.eqb c "}" then nl ++ "}" ++ nl
  else String c EmptyString.

(** A line in which a brace stands alone: the line is one brace, or it
    holds none; and it holds no line boundary. *)
Definition brace_alone (ln : string) : Prop :=
  ln = "{" \/ ln = "}" \/ all_chars inner_char ln = true.

End LineSpec.

(** ** Notions for the names of a C declaration *)

Module DeclSpec.
Import PyStr.

(** A character that can stand in a name [_extract_var_names] returns. *)
Definition name_char (c : ascii) : bool :=
  negb (isspace c) && negb (Ascii.eqb c ",") && negb (Ascii.eqb c "=")
  && negb (Ascii.eqb c "*").

End DeclSpec.

(** ** Notions for the diagram of the Python renderer *)

Module PyFlowSpec.
Import PyStr Mermaid Graph python_parser FlowSpec.

(** One of the ids n1, ..., nc the counter has handed out. *)
Definition handed_out (c : nat) (x : string) : Prop :=
  exists k, 1 <= k <= c /\ x = ("n" ++ str_of_nat k)%string.

(** A node an edge may leave, and one it may enter. *)
Definition known (c : nat) (x : string) : Prop :=
  x = "Start" \/ x = "End" \/ handed_out c x.

Definition enterable (c : nat) (x : string) : Prop :=
  x = "End" \/ handed_out c x.

Definition edge_ok (c : nat) (e : edge) : Prop :=
  known c (src e) /\ enterable c (dst e).

(** What holds of the buffer between two steps of the renderer: after Start
    the nodes declared are ids handed out, none twice, and every edge runs
    between Start, End and ids handed out. *)
Definition state_ok (st : rstate) : Prop :=
  exists ds,
    declared (lines st) = "Start" :: ds
    /\ NoDup ds
    /\ Forall (handed_out (node_counter st)) ds
    /\ Forall (edge_ok (node_counter st)) (edges_of (lines st)).

(** What a handler keeps: the buffer stays in order, the counter does not go
    back, and the node handed back is one an edge may leave. *)
Definition handler_ok (st : rstate) (r : string * rstate) : Prop :=
  state_ok (snd r)
  /\ node_counter st <= node_counter (snd r)
  /\ known (node_counter (snd r)) (fst r).

Definition if_ok (node : stmt) : Prop :=
  forall (cur : string) (is_last : bool) (st : rstate),
    state_ok st -> known (node_counter st) cur ->
    match node with
    | If _ _ _ _ => handler_ok st (handle_if_elif_else node cur is_last st)
    | _ => True
    end.

End PyFlowSpec.

(** ** Notions for the C tree builder on plain statements *)

Module CParseSpec.
Import PyStr c_parser ReadSpec.

(** The keywords [_parse_block] looks for where a statement begins. *)
Definition keywords : list string := ["if"; "for"; "while"; "do"; "switch"].

(** The statement [t;] does not begin with a keyword: where a keyword's
    letters stand first, a letter, a digit or an underscore follows them. *)
Definition no_keyword (t : string) : bool :=
  forallb (fun kw =>
             negb (startswith kw t)
             || match String.get (len kw) (t ++ ";") with
                | Some c => isalnum c || char_is (chr 95) c
                | None => true
                end)
          keywords.

Definition begins_with_ink (t : string) : bool :=
  match t with
  | String c _ => negb (isspace c)
  | EmptyString => false
  end.

(** The text of a plain statement, without its semicolon: it begins with a
    character that is no white space, its semicolons all stand between
    parentheses that close, and it does not begin with a keyword. *)
Definition simple (t : string) : bool :=
  begins_with_ink t && inside_stmt 0 t && no_keyword t.

(** The statements after the first, each behind one blank. *)
Fixpoint following (ts : list string) : string :=
  match ts with
  | [] => EmptyString
  | t :: ts' => " " ++ t ++ ";" ++ following ts'
  end.

(** The text of a block of plain statements. *)
Definition block_text (t : string) (ts : list string) : string :=
  t ++ ";" ++ following ts.

End CParseSpec.

(** ** Notions for the nodes a renderer adds *)

Module NodeSpec.
Import PyStr Mermaid Graph.









End NodeSpec.

(** ** Notions for input made of plain statements *)

Module PlainSpec.
Import PyStr Re Mermaid StrSpec CParseSpec.


(** The statements after the first, each behind its white space and closed
    by its semicolon. *)
Fixpoint after (items : list (string * string)) : string :=
  match items with
  | [] => EmptyString
  | (w, t) :: rest => w ++ t ++ ";" ++ after rest
  end.







End PlainSpec.

(** ** Notions for the ids of a diagram *)

Module IdSpec.
Import PyStr Mermaid.

(** The number a text of digits writes, when the text is that number as the
    counter writes it. *)
Definition counted (d : string) : option nat :=
  match NilZero.uint_of_string d with
  | Some u => if String.eqb (str_of_nat (Nat.of_uint u)) d then Some (Nat.of_uint u) else None
  | None => None
  end.

(** The id that stands for [s] when the counter starts [c] higher: an id the
    counter has made, the letter [p] before the number k, becomes the id of
    k + c; any other text, Start and End among them, stays. *)
Definition shift_id (p : ascii) (c : nat) (s : string) : string :=
  match s with
  | String a d =>
      if Ascii.eqb a p then
        match counted d with
        | Some k => String p (str_of_nat (k + c))
        | None => s
        end
      else s
  | EmptyString => s
  end.

(** A line with its ids renamed; labels and shapes stay. *)
Definition rename_nref (f : string -> string) (n : nref) : nref :=
  NRef (f (ref_id n)) (ref_decl n).

Definition rename_line (f : string -> string) (l : line) : line :=
  match l with
  | Header t => Header t
  | Node n => Node (rename_nref f n)
  | Edge a lbl b => Edge (rename_nref f a) lbl (rename_nref f b)
  end.

Definition rename_jedge (f : string -> string) (e : java_parser.jedge) : java_parser.jedge :=
  java_parser.JEdge (option_map f (java_parser.e_from e))
                    (option_map f (java_parser.e_to e)) (java_parser.e_label e).

(** The state of a renderer as it would be, had the counter started [c]
    higher. *)
Definition c_lift (c : nat) (st : c_parser.rstate) : c_parser.rstate :=
  c_parser.RState (map (rename_line (shift_id "N" c)) (c_parser.lines st))
                  (c_parser.node_counter st + c).

Definition py_lift (c : nat) (st : python_parser.rstate) : python_parser.rstate :=
  python_parser.RState (map (rename_line (shift_id "n" c)) (python_parser.lines st))
                       (python_parser.node_counter st + c).

Definition java_lift (c : nat) (st : java_parser.rstate) : java_parser.rstate :=
  java_parser.RState (map (rename_line (shift_id "N" c)) (java_parser.nodes st))
                     (map (rename_jedge (shift_id "N" c)) (java_parser.edges st))
                     (java_parser.id_counter st + c).

(** The diagrams of the three renderers with the counter starting at [c];
    the renderers themselves start it at 0. *)
Definition c_render_at (c : nat) (ast : list c_parser.node) : list line :=
  c_parser.lines
    (c_parser.render_from ast "Start" None
       (c_parser.RState [Header "graph TD"; c_parser.start_line] c)).

Definition py_render_at (c : nat) (body : list python_parser.stmt) : list line :=
  let '(last, st) :=
    python_parser.run_body body "Start"
      (python_parser.RState [Header "graph TD"; python_parser.start_line] c) in
  let st := if str_eqb last "End" then st
            else python_parser.append
                   (Edge (bare last) None (decl "End" Circle "End")) st in
  python_parser.lines (python_parser.append python_parser.end_line st).

Definition java_render_at (c : nat) (ast_root : list java_parser.node)
  : list line * list java_parser.jedge :=
  let st := java_parser.RState [] [] c in
  let '(start_id, st) := java_parser.add_node_circle "Start" st in
  let '(end_id, st) := java_parser.add_node_circle "End" st in
  let '(first_id, last_id, st) := java_parser.render_block ast_root st in
  let es := java_parser.edges st in
  let es :=
    if java_parser.opt_truthy first_id
    then java_parser.JEdge (Some start_id) first_id None :: es
    else java_parser.JEdge (Some start_id) (Some end_id) None :: es in
  let es :=
    if java_parser.opt_truthy last_id
    then (es ++ [java_parser.JEdge last_id (Some end_id) None])%list
    else (es ++ [java_parser.JEdge (Some start_id) (Some end_id) None])%list in
  (java_parser.nodes st, es).

(** What it is for a statement of the Java tree to be drawn alike from a
    counter that stands [c] higher. *)
Definition node_lifts (c : nat) (nd : java_parser.node) : Prop :=
  forall (first last : option string) (st : java_parser.rstate),
    java_parser.render_node nd (option_map (shift_id "N" c) first)
      (option_map (shift_id "N" c) last) (java_lift c st)
    = (let r := java_parser.render_node nd first last st in
       (option_map (shift_id "N" c) (fst (fst r)),
        option_map (shift_id "N" c) (snd (fst r)), java_lift c (snd r))).

End IdSpec.

(** * Properties *)

Import PyStr Mermaid Graph.
Local Open Scope list_scope.

(** Name the pairs the renderer binds with [let '(x, st) := ... in]. *)
Ltac split_lets :=
  repeat (cbn zeta;
          match goal with
          | |- context [match ?x with pair _ _ => _ end] => destruct x
          end).

(** ** Ids *)

Lemma to_uint_nonnil (n : nat) : Nat.to_uint n <> Decimal.Nil.
Proof.
  intros H.
  pose proof (Unsigned.to_of (Nat.to_uint n)) as E.
  rewrite Unsigned.of_to, H in E. discriminate E.
Qed.

Lemma str_of_nat_inj (a b : nat) : str_of_nat a = str_of_nat b -> a = b.
Proof.
  unfold str_of_nat. intros H.
  apply Unsigned.to_uint_inj.
  pose proof (to_uint_nonnil a) as Ha.
  pose proof (to_uint_nonnil b) as Hb.
  apply NilZero.usu in Ha. apply NilZero.usu in Hb.
  rewrite H in Ha. rewrite Ha in Hb. now injection Hb.
Qed.

Lemma id_inj (c : ascii) (a b : nat) :
  String c (str_of_nat a) = String c (str_of_nat b) -> a = b.
Proof. intros H. injection H. apply str_of_nat_inj. Qed.

Lemma id_eqb (c : ascii) (a b : nat) :
  str_eqb (String c (str_of_nat a)) (String c (str_of_nat b)) = (a =? b)%nat.
Proof.
  unfold str_eqb. destruct (Nat.eqb_spec a b) as [->|Hne].
  - apply String.eqb_refl.
  - apply String.eqb_neq. intros H. apply Hne. eapply id_inj, H.
Qed.

(** ** The dispatcher and the entry points *)

(** C10.  When the module [ast.parse] returns has no statement (an empty or
    blank source), [python_parser.code_to_flowchart] returns the four lines
    [graph TD], [Start((Start))], [Start --> End((End))], [End((End))]: Start
    runs straight into End and there is no content node. *)
Theorem python_empty_module_diagram :
  forall (ast_parse : string -> python_parser.parse_outcome) (code : string),
    ast_parse code = python_parser.Parsed [] ->
    python_parser.code_to_flowchart ast_parse code =
      Returns (join nl ["graph TD"; "Start((Start))"; "Start --> End((End))"; "End((End))"])
    /\ decls_of (python_parser.render []) =
         [("Start", Circle, "Start"); ("End", Circle, "End"); ("End", Circle, "End")]
    /\ edges_of (python_parser.render []) = [MkEdge "Start" None "End"].
Proof.
  intros ast_parse code Hparse.
  unfold python_parser.code_to_flowchart. rewrite Hparse.
  repeat split; reflexivity.
Qed.

Lemma python_empty_module_diagram_witness :
  python_parser.code_to_flowchart (fun _ => python_parser.Parsed []) "   " =
    Returns (join nl ["graph TD"; "Start((Start))"; "Start --> End((End))"; "End((End))"])
  /\ decls_of (python_parser.render []) =
       [("Start", Circle, "Start"); ("End", Circle, "End"); ("End", Circle, "End")]
  /\ edges_of (python_parser.render []) = [MkEdge "Start" None "End"].
Proof.
  apply (python_empty_module_diagram (fun _ => python_parser.Parsed []) "   ").
  reflexivity.
Defined.

(** C1 (the defect).  [parser.flowchart_from_input] sends Java input to
    [java_parser.code_to_flowchart], a name [java_parser.py] does not bind:
    its entry point is [parse_java_code].  The call raises [AttributeError]
    for every input detected as Java, whatever [ast.parse] would do. *)
Theorem dispatcher_raises_on_java_input :
  forall ast_parse : string -> python_parser.parse_outcome,
    parser.detect_language "System.out.println(1);" = "java"
    /\ parser.getattr parser.java_parser_module "code_to_flowchart" = None
    /\ parser.flowchart_from_input ast_parse "System.out.println(1);"
         = Raises "AttributeError"
    /\ (forall code : string,
          parser.detect_language code = "java" ->
          parser.flowchart_from_input ast_parse code = Raises "AttributeError").
Proof.
  intros ast_parse. split; [reflexivity|]. split; [reflexivity|]. split; [reflexivity|].
  intros code Hjava. unfold parser.flowchart_from_input. cbv zeta. rewrite Hjava.
  reflexivity.
Qed.

Lemma dispatcher_raises_on_java_input_witness :
  parser.flowchart_from_input (fun _ => python_parser.Parsed [])
    "public class A { }" = Raises "AttributeError".
Proof.
  apply (proj2 (proj2 (proj2
           (dispatcher_raises_on_java_input (fun _ => python_parser.Parsed []))))).
  reflexivity.
Defined.

(** ** The tree builders return *)

Lemma len_drop (i : nat) (s : string) : len (drop i s) = len s - i.
Proof.
  unfold len. revert s. induction i as [|i IH]; intros s; [cbn; lia|].
  destruct s as [|c s]; [reflexivity|]. cbn. apply IH.
Qed.

Lemma len_take (n : nat) (s : string) : len (take n s) <= len s /\ len (take n s) <= n.
Proof.
  unfold len. revert s. induction n as [|n IH]; intros s; [cbn; lia|].
  destruct s as [|c s]; [cbn; lia|]. cbn. specialize (IH s). lia.
Qed.

Lemma len_slice (i j : nat) (s : string) : len (slice i j s) <= len s - i.
Proof.
  unfold slice. pose proof (len_take (j - i) (drop i s)) as [H _].
  rewrite len_drop in H. exact H.
Qed.

Lemma len_lstrip_by (p : ascii -> bool) (s : string) : len (lstrip_by p s) <= len s.
Proof.
  unfold len. induction s as [|c s IH]; [cbn; lia|]. cbn. destruct (p c); cbn in *; lia.
Qed.

Lemma len_rstrip_by (p : ascii -> bool) (s : string) : len (rstrip_by p s) <= len s.
Proof.
  unfold len. induction s as [|c s IH]; [cbn; lia|]. cbn.
  destruct (is_empty (rstrip_by p s) && p c); cbn in *; lia.
Qed.

Lemma len_strip (s : string) : len (strip s) <= len s.
Proof.
  unfold strip, rstrip, lstrip.
  pose proof (len_rstrip_by isspace (lstrip_by isspace s)).
  pose proof (len_lstrip_by isspace s). lia.
Qed.

Lemma len_rev_str (s acc : string) : len (rev_str s acc) = len s + len acc.
Proof.
  unfold len. revert acc. induction s as [|c s IH]; intros acc; [reflexivity|].
  cbn. rewrite IH. cbn. lia.
Qed.

Lemma skip_ws_scan_ge (t : string) (i : nat) : i <= c_parser.skip_ws_scan t i.
Proof.
  revert i. induction t as [|c t IH]; intros i; cbn; [lia|].
  destruct (isspace c); [specialize (IH (S i))|]; lia.
Qed.

Lemma skip_ws_ge (s : string) (i : nat) : i <= c_parser.skip_ws s i.
Proof. apply skip_ws_scan_ge. Qed.

Lemma read_block_scan_bound (o c : ascii) (t : string) :
  forall depth j buf,
    len (fst (c_parser.read_block_scan o c t depth j buf)) <= len buf + len t.
Proof.
  induction t as [|ch t IH]; intros depth j buf; cbn [c_parser.read_block_scan].
  - cbn [fst]. rewrite len_rev_str. unfold len. cbn. lia.
  - assert (Hs : forall d, len (fst (c_parser.read_block_scan o c t d (S j) (String ch buf)))
                           <= len buf + len (String ch t)).
    { intros d. specialize (IH d (S j) (String ch buf)). unfold len in *. cbn in *. lia. }
    destruct (c_parser.char_is o ch).
    + destruct (S depth =? 1)%nat; [|apply Hs].
      specialize (IH 1 (S j) buf). unfold len in *. cbn [String.length]. lia.
    + destruct (c_parser.char_is c ch); [|apply Hs].
      destruct (Nat.pred depth =? 0)%nat; [|apply Hs].
      cbn [fst]. rewrite len_rev_str. unfold len. cbn. lia.
Qed.

Lemma read_block_bound (s : string) (i : nat) :
  len (fst (c_parser._read_block s i)) <= len s - i.
Proof.
  unfold c_parser._read_block. destruct (String.get i s) as [o|]; [|cbn; lia].
  match goal with |- context [c_parser.read_block_scan ?a ?b ?t ?d ?j ?buf] =>
    pose proof (read_block_scan_bound a b t d j buf) as H end.
  rewrite len_drop in H. unfold len in *. cbn in H. exact H.
Qed.

Lemma read_stmt_scan_spec (t : string) :
  forall depth j,
    if snd (c_parser.read_stmt_scan t depth j)
    then j <= fst (c_parser.read_stmt_scan t depth j)
         /\ fst (c_parser.read_stmt_scan t depth j) < j + len t
    else fst (c_parser.read_stmt_scan t depth j) = j + len t.
Proof.
  unfold len. induction t as [|ch t IH]; intros depth j; cbn [c_parser.read_stmt_scan].
  - cbn. lia.
  - assert (Hs : forall d,
               if snd (c_parser.read_stmt_scan t d (S j))
               then j <= fst (c_parser.read_stmt_scan t d (S j))
                    /\ fst (c_parser.read_stmt_scan t d (S j)) < j + String.length (String ch t)
               else fst (c_parser.read_stmt_scan t d (S j)) = j + String.length (String ch t)).
    { intros d. specialize (IH d (S j)). cbn [String.length].
      destruct (snd (c_parser.read_stmt_scan t d (S j))); lia. }
    destruct (c_parser.char_is c_parser.lparen ch); [apply Hs|].
    destruct (c_parser.char_is c_parser.rparen ch); [apply Hs|].
    destruct (c_parser.char_is c_parser.semi ch && (depth =? 0)%nat); [|apply Hs].
    cbn. lia.
Qed.

Lemma read_stmt_bound (s : string) (i : nat) :
  len (fst (c_parser._read_stmt s i)) <= len s - i
  /\ i <= snd (c_parser._read_stmt s i)
  /\ (i < len s -> i < snd (c_parser._read_stmt s i)).
Proof.
  unfold c_parser._read_stmt.
  pose proof (read_stmt_scan_spec (drop i s) 0 i) as H.
  rewrite len_drop in H.
  destruct (c_parser.read_stmt_scan (drop i s) 0 i) as [j stopped]. cbn [fst snd] in H.
  destruct stopped; cbn [fst snd].
  - pose proof (len_strip (slice i (j + 1) s)). pose proof (len_slice i (j + 1) s). lia.
  - pose proof (len_strip (slice i j s)). pose proof (len_slice i j s). lia.
Qed.


Lemma star_greedy_inv {A : Type} (P : A -> Prop) (p : ascii -> bool) (s : string) :
  forall (pv : option ascii) (k : option ascii -> string -> option A) (x : A),
    (forall pv' s', len s' <= len s -> forall y, k pv' s' = Some y -> P y) ->
    Re.star_greedy p pv s k = Some x -> P x.
Proof.
  induction s as [|c s IH]; intros pv k x Hk H; cbn in H.
  - eapply Hk; [|exact H]. lia.
  - destruct (p c); [|eapply Hk; [|exact H]; lia].
    destruct (Re.star_greedy p (Some c) s k) as [y|] eqn:E.
    + injection H as <-. eapply IH; [|exact E].
      intros pv' s' Hs' z Hz. eapply Hk; [|exact Hz]. unfold len in *. cbn. lia.
    + eapply Hk; [|exact H]. lia.
Qed.

Lemma star_lazy_inv {A : Type} (P : A -> Prop) (p : ascii -> bool) (s : string) :
  forall (pv : option ascii) (k : option ascii -> string -> option A) (x : A),
    (forall pv' s', len s' <= len s -> forall y, k pv' s' = Some y -> P y) ->
    Re.star_lazy p pv s k = Some x -> P x.
Proof.
  induction s as [|c s IH]; intros pv k x Hk H; cbn in H.
  - destruct (k pv EmptyString) as [y|] eqn:E; [|discriminate].
    injection H as <-. eapply Hk; [|exact E]. lia.
  - destruct (k pv (String c s)) as [y|] eqn:E.
    + injection H as <-. eapply Hk; [|exact E]. lia.
    + destruct (p c); [|discriminate]. eapply IH; [|exact H].
      intros pv' s' Hs' z Hz. eapply Hk; [|exact Hz]. unfold len in *. cbn. lia.
Qed.

Lemma run_inv (L : nat) (r : Re.regex) :
  forall (A : Type) (P : A -> Prop) (st : Re.mstate) (k : Re.mstate -> option A) (x : A),
    ReSpec.bounded L st ->
    (forall st', ReSpec.bounded L st' -> forall y, k st' = Some y -> P y) ->
    Re.run r st k = Some x -> P x.
Proof.
  induction r as [|c|p|r1 IH1 r2 IH2|r1 IH1 r2 IH2|p|p|n r IH| | | |r IH];
    intros A P st k x Hb Hk H; cbn [Re.run] in H.
  - eapply Hk; eassumption.
  - destruct (Re.rest st) as [|y s'] eqn:E; [discriminate|].
    destruct (Ascii.eqb c y); [|discriminate].
    eapply Hk; [|exact H]. destruct Hb as [Hr Hc]. split; [|exact Hc].
    cbn [Re.rest]. rewrite E in Hr. unfold len in *. cbn in Hr. lia.
  - destruct (Re.rest st) as [|y s'] eqn:E; [discriminate|].
    destruct (p y); [|discriminate].
    eapply Hk; [|exact H]. destruct Hb as [Hr Hc]. split; [|exact Hc].
    cbn [Re.rest]. rewrite E in Hr. unfold len in *. cbn in Hr. lia.
  - eapply IH1; [exact Hb| |exact H].
    intros st' Hb' y Hy. eapply IH2; eassumption.
  - destruct (Re.run r1 st k) as [y|] eqn:E.
    + injection H as <-. eapply IH1; eassumption.
    + eapply IH2; eassumption.
  - eapply star_greedy_inv; [|exact H].
    intros pv' s' Hs' y Hy. eapply Hk; [|exact Hy].
    destruct Hb as [Hr Hc]. split; [cbn [Re.rest]; lia|exact Hc].
  - eapply star_lazy_inv; [|exact H].
    intros pv' s' Hs' y Hy. eapply Hk; [|exact Hy].
    destruct Hb as [Hr Hc]. split; [cbn [Re.rest]; lia|exact Hc].
  - eapply IH; [exact Hb| |exact H].
    intros st' [Hr' Hc'] y Hy. eapply Hk; [|exact Hy].
    split; [exact Hr'|]. cbn [Re.caps]. constructor; [|exact Hc'].
    cbn [snd]. destruct Hb as [Hr _].
    pose proof (len_take (len (Re.rest st) - len (Re.rest st')) (Re.rest st)). lia.
  - destruct (xorb _ _); [|discriminate]. eapply Hk; eassumption.
  - destruct (Re.prev st); [discriminate|]. eapply Hk; eassumption.
  - destruct (Re.rest st) as [|c [|c' s']]; try discriminate.
    + eapply Hk; eassumption.
    + destruct (ord c =? 10)%nat; [|discriminate]. eapply Hk; eassumption.
  - destruct (Re.run r st (fun _ => Some tt)); [|discriminate]. eapply Hk; eassumption.
Qed.

Lemma lookup_bound (L n : nat) (l : list (nat * string)) :
  Forall (fun p => len (snd p) <= L) l ->
  len (match Re.lookup n l with Some s => s | None => EmptyString end) <= L.
Proof.
  induction 1 as [|[m s] l Hs Hl IH]; cbn; [lia|].
  destruct (n =? m)%nat; [exact Hs|exact IH].
Qed.

Lemma match_here_group_bound (r : Re.regex) (pv : option ascii) (s : string) (m : Re.rmatch) :
  Re.match_here r pv s = Some m -> forall n, len (Re.group n m) <= len s.
Proof.
  intros H. unfold Re.match_here in H.
  eapply (run_inv (len s) r _ (fun m => forall n, len (Re.group n m) <= len s)); [| |exact H].
  - split; [cbn [Re.rest]; lia|constructor].
  - intros st' [_ Hc] y Hy n. injection Hy as <-. unfold Re.group. cbn [Re.groups].
    apply lookup_bound, Hc.
Qed.

Lemma before_first_bound (r : Re.regex) (s : string) : len (Re.before_first r s) <= len s.
Proof.
  unfold Re.before_first. destruct (Re.search r s) as [[i m]|]; [|lia].
  apply (len_take i s).
Qed.

Lemma split_zero_from_bound (r : Re.regex) (s : string) :
  forall pv cur p, In p (Re.split_zero_from r pv cur s) -> len p <= len cur + len s.
Proof.
  induction s as [|c s IH]; intros pv cur p Hp; cbn in Hp.
  - destruct Hp as [<-|[]]. rewrite len_rev_str. unfold len. cbn. lia.
  - destruct (Re.match_here r pv (String c s)).
    + destruct Hp as [<-|Hp]; [rewrite len_rev_str; unfold len; cbn; lia|].
      apply IH in Hp. unfold len in *. cbn in *. lia.
    + apply IH in Hp. unfold len in *. cbn in *. lia.
Qed.

Lemma split_zero_bound (r : Re.regex) (s p : string) :
  In p (Re.split_zero r s) -> len p <= len s.
Proof. intros H. apply split_zero_from_bound in H. unfold len in *. cbn in H. exact H. Qed.

Lemma omap_total {A B : Type} (f : A -> option B) (l : list A) :
  (forall a, In a l -> exists b, f a = Some b) -> exists bs, c_parser.omap f l = Some bs.
Proof.
  induction l as [|a l IH]; intros H; cbn.
  - eexists. reflexivity.
  - destruct (H a) as [b ->]; [now left|].
    destruct IH as [bs ->]; [intros a' Ha'; apply H; now right|].
    eexists. reflexivity.
Qed.

Lemma read_block_scan_ge (o c : ascii) (t : string) :
  forall depth j buf, j <= snd (c_parser.read_block_scan o c t depth j buf).
Proof.
  induction t as [|ch t IH]; intros depth j buf; cbn [c_parser.read_block_scan].
  - cbn. lia.
  - assert (Hs : forall d b, j <= snd (c_parser.read_block_scan o c t d (S j) b)).
    { intros d b. specialize (IH d (S j) b). lia. }
    destruct (c_parser.char_is o ch).
    + destruct (S depth =? 1)%nat; apply Hs.
    + destruct (c_parser.char_is c ch); [|apply Hs].
      destruct (Nat.pred depth =? 0)%nat; [cbn; lia|apply Hs].
Qed.

Lemma read_block_ge (s : string) (i : nat) : i <= snd (c_parser._read_block s i).
Proof.
  unfold c_parser._read_block. destruct (String.get i s); [|cbn; lia].
  apply read_block_scan_ge.
Qed.

Section CParseStep.
Variable fuel : nat.
Variable s : string.
Hypothesis nested :
  forall t : string, len t < fuel -> exists b, c_parser.parse_loop fuel (strip t) 0 = Some b.

(** The header a keyword may have. *)
Lemma header_ge (X : nat) :
  X <= snd (if c_parser.char_at_is s X c_parser.lparen
            then c_parser._read_block s X else (EmptyString, X)).
Proof.
  destruct (c_parser.char_at_is s X c_parser.lparen); [apply read_block_ge|cbn; lia].
Qed.

(** A branch of a conditional. *)
Lemma branch_total (X : nat) :
  len s - X < fuel ->
  exists b j,
    (if c_parser.char_at_is s X c_parser.lbrace
     then (let '(inner, i1) := c_parser._read_block s X in
           c_parser.obind (c_parser.parse_loop fuel (strip inner) 0)
             (fun b => Some (b, i1)))
     else (let '(st, i1) := c_parser._read_stmt s X in
           if endswith "}" st
           then c_parser.obind (c_parser.parse_loop fuel (strip st) 0)
                  (fun b => Some (b, i1))
           else Some ([c_parser.stmt st], i1))) = Some (b, j)
    /\ X <= j.
Proof.
  intros HX. destruct (c_parser.char_at_is s X c_parser.lbrace).
  - pose proof (read_block_bound s X) as Hb. pose proof (read_block_ge s X) as Hg.
    destruct (c_parser._read_block s X) as [inner i1]. cbn [fst snd] in Hb, Hg.
    destruct (nested inner) as [b ->]; [lia|]. eexists _, _. split; [reflexivity|exact Hg].
  - pose proof (read_stmt_bound s X) as (Hb & Hg & _).
    destruct (c_parser._read_stmt s X) as [st i1]. cbn [fst snd] in Hb, Hg.
    destruct (endswith "}" st).
    + destruct (nested st) as [b ->]; [lia|]. eexists _, _. split; [reflexivity|exact Hg].
    + eexists _, _. split; [reflexivity|exact Hg].
Qed.

(** The body of a loop. *)
Lemma loop_body_total (X : nat) :
  len s - X < fuel ->
  exists b j,
    (if c_parser.char_at_is s X c_parser.lbrace
     then (let '(inner, i1) := c_parser._read_block s X in
           c_parser.obind (c_parser.parse_loop fuel (strip inner) 0)
             (fun b => Some (b, i1)))
     else Some (let '(st, i1) := c_parser._read_stmt s X in ([c_parser.stmt st], i1)))
    = Some (b, j)
    /\ X <= j.
Proof.
  intros HX. destruct (c_parser.char_at_is s X c_parser.lbrace).
  - pose proof (read_block_bound s X) as Hb. pose proof (read_block_ge s X) as Hg.
    destruct (c_parser._read_block s X) as [inner i1]. cbn [fst snd] in Hb, Hg.
    destruct (nested inner) as [b ->]; [lia|]. eexists _, _. split; [reflexivity|exact Hg].
  - pose proof (read_stmt_bound s X) as (Hb & Hg & _).
    destruct (c_parser._read_stmt s X) as [st i1]. cbn [fst snd] in Hb, Hg.
    eexists _, _. split; [reflexivity|exact Hg].
Qed.

End CParseStep.

(** [skip s X as j H]: name the index after the white space from [X]. *)
Ltac skip s X j H :=
  pose proof (skip_ws_ge s X) as H;
  generalize dependent (c_parser.skip_ws s X); intros j H.

Ltac header s X c j H :=
  pose proof (header_ge s X) as H;
  destruct (if c_parser.char_at_is s X c_parser.lparen then _ else _) as [c j];
  cbn [snd] in H.

Lemma parse_loop_total :
  forall fuel s i, len s - i < fuel -> exists r, c_parser.parse_loop fuel s i = Some r.
Proof.
  induction fuel as [|fuel IH]; intros s i Hf; [lia|].
  cbn [c_parser.parse_loop].
  assert (nested : forall t : string, len t < fuel ->
             exists b, c_parser.parse_loop fuel (strip t) 0 = Some b).
  { intros t Ht. apply IH. pose proof (len_strip t). lia. }
  skip s i i0 Hi0.
  destruct (Nat.leb_spec (len s) i0) as [|Hlt]; [eexists; reflexivity|].
  destruct (c_parser.kw_at "if" s i0).
  { skip s (i0 + 2) i1 H1. header s i1 cond i2 H2. skip s i2 i3 H3.
    destruct (branch_total fuel s nested i3) as (tb & i4 & -> & H4); [lia|].
    cbn [c_parser.obind]. skip s i4 i5 H5.
    destruct (c_parser.kw_at "else" s i5).
    - skip s (i5 + 4) i6 H6.
      destruct (branch_total fuel s nested i6) as (eb & i7 & -> & H7); [lia|].
      cbn [c_parser.obind].
      destruct (IH s i7) as [r ->]; [lia|]. eexists; reflexivity.
    - cbn [c_parser.obind].
      destruct (IH s i5) as [r ->]; [lia|]. eexists; reflexivity. }
  destruct (c_parser.kw_at "for" s i0).
  { skip s (i0 + 3) i1 H1. header s i1 hdr i2 H2. skip s i2 i3 H3.
    destruct (loop_body_total fuel s nested i3) as (b & i4 & -> & H4); [lia|].
    cbn [c_parser.obind].
    destruct (IH s i4) as [r ->]; [lia|]. eexists; reflexivity. }
  destruct (c_parser.kw_at "while" s i0).
  { skip s (i0 + 5) i1 H1. header s i1 hdr i2 H2. skip s i2 i3 H3.
    destruct (loop_body_total fuel s nested i3) as (b & i4 & -> & H4); [lia|].
    cbn [c_parser.obind].
    destruct (IH s i4) as [r ->]; [lia|]. eexists; reflexivity. }
  destruct (c_parser.kw_at "do" s i0).
  { skip s (i0 + 2) i1 H1.
    destruct (loop_body_total fuel s nested i1) as (b & i2 & -> & H2); [lia|].
    cbn [c_parser.obind]. skip s i2 i3 H3.
    destruct (startswith_at "while" s i3).
    - skip s (i3 + 5) i4 H4. header s i4 cond i5 H5.
      destruct (c_parser.char_at_is s i5 c_parser.semi);
        (destruct (IH s (i5 + 1)) as [r ->] || destruct (IH s i5) as [r ->]);
        first [lia | eexists; reflexivity].
    - destruct (IH s i3) as [r ->]; [lia|]. eexists; reflexivity. }
  destruct (c_parser.kw_at "switch" s i0).
  { skip s (i0 + 6) i1 H1. header s i1 expr i2 H2. skip s i2 i3 H3.
    destruct (c_parser.char_at_is s i3 c_parser.lbrace).
    - pose proof (read_block_bound s i3) as Hb. pose proof (read_block_ge s i3) as Hg.
      destruct (c_parser._read_block s i3) as [body i4]. cbn [fst snd] in Hb, Hg.
      match goal with
      | |- context [c_parser.omap ?f ?l] => destruct (omap_total f l) as [cs ->]
      end.
      + intros part Hpart. apply filter_In in Hpart as [Hpart _].
        apply in_map_iff in Hpart as (p0 & <- & Hp0). apply split_zero_bound in Hp0.
        pose proof (len_strip p0) as Hs.
        destruct (Re.re_match c_parser.re_case (strip p0)) as [m|] eqn:Em;
          [|eexists; reflexivity].
        pose proof (match_here_group_bound _ _ _ _ Em 2) as Hgr.
        pose proof (len_strip (Re.group 2 m)).
        pose proof (before_first_bound c_parser.re_break (strip (Re.group 2 m))).
        destruct (nested (Re.before_first c_parser.re_break (strip (Re.group 2 m)))) as [b ->];
          [lia|].
        eexists; reflexivity.
      + cbn [c_parser.obind].
        destruct (IH s i4) as [r ->]; [lia|]. eexists; reflexivity.
    - cbn [c_parser.obind].
      destruct (IH s i3) as [r ->]; [lia|]. eexists; reflexivity. }
  pose proof (read_stmt_bound s i0) as (_ & _ & Hg).
  destruct (c_parser._read_stmt s i0) as [st j]. cbn [snd] in Hg. specialize (Hg Hlt).
  destruct (IH s j) as [r ->]; [lia|]. eexists; reflexivity.
Qed.

Lemma c_parse_block_total (s : string) : exists ast, c_parser._parse_block s = Some ast.
Proof. apply parse_loop_total. lia. Qed.

Lemma c_code_to_flowchart_total (code : string) :
  exists diagram, c_parser.code_to_flowchart code = Some diagram.
Proof.
  unfold c_parser.code_to_flowchart.
  destruct (c_parse_block_total
              (c_parser.main_body (c_parser._remove_comments_and_preproc code))) as [ast ->].
  eexists. reflexivity.
Qed.

(** The tree builder of the Java adapter. *)

Lemma find_brace_scan_ge (ls : list string) (j : nat) :
  j <= java_parser.find_brace_scan ls j.
Proof.
  revert j. induction ls as [|l ls IH]; intros j; cbn; [lia|].
  destruct (str_eqb l "{"); [lia|]. specialize (IH (S j)). lia.
Qed.

Lemma find_brace_ge (lines : list string) (j : nat) : j <= java_parser.find_brace lines j.
Proof. apply find_brace_scan_ge. Qed.

Lemma switch_scan_ge (ls : list string) :
  forall j cases current, j <= snd (java_parser.switch_scan ls j cases current).
Proof.
  induction ls as [|l ls IH]; intros j cases current; cbn; [lia|].
  destruct (str_eqb l "}"); [cbn; lia|].
  destruct (_ || _).
  - specialize (IH (S j) (match current with Some x => cases ++ [x] | None => cases end)
                   (Some (rstrip_by (is_char ":"%char) l, []))). lia.
  - destruct current as [[lbl body]|].
    + specialize (IH (S j) cases (Some (lbl, body ++ [l]))). lia.
    + specialize (IH (S j) cases None). lia.
Qed.

Lemma braced_ok (fuel : nat) (lines : list string) (start : nat) :
  JSpec.parse_ok fuel lines -> length lines - start < fuel ->
  exists block j,
    (if (length lines <=? java_parser.find_brace lines start)%nat
     then Some ([], java_parser.find_brace lines start)
     else java_parser._parse_block_fuel fuel lines (java_parser.find_brace lines start + 1))
    = Some (block, j)
    /\ start <= j.
Proof.
  intros IH Hf. pose proof (find_brace_ge lines start) as Hj.
  destruct (Nat.leb_spec (length lines) (java_parser.find_brace lines start)).
  - eexists _, _. split; [reflexivity|lia].
  - destruct (IH (java_parser.find_brace lines start + 1)) as (b & e & -> & He & _); [lia|].
    eexists _, _. split; [reflexivity|lia].
Qed.

Lemma java_parse_block_fuel_total (lines : list string) :
  forall fuel, JSpec.parse_ok fuel lines /\ JSpec.else_ok fuel lines.
Proof.
  induction fuel as [|fuel [IHp IHe]].
  - split; intros i Hi; lia.
  - split.
    + intros i Hi. cbn [java_parser._parse_block_fuel].
      destruct (nth_error lines i) as [line|] eqn:Hline.
      2:{ eexists _, _. split; [reflexivity|]. apply nth_error_None in Hline. lia. }
      assert (Hin : i < length lines) by (apply nth_error_Some; congruence).
      destruct (str_eqb line "}"); [eexists _, _; split; [reflexivity|lia]|].
      destruct (_ || _).
      { pose proof (find_brace_ge lines (i + 1)) as Hj.
        destruct (Nat.ltb_spec (java_parser.find_brace lines (i + 1)) (length lines)).
        - destruct (IHp (java_parser.find_brace lines (i + 1) + 1)) as (b & e & -> & He & _);
            [lia|].
          cbn [java_parser.obind].
          destruct (IHp e) as (b' & e' & -> & He' & _); [lia|].
          eexists _, _. split; [reflexivity|lia].
        - destruct (IHp (i + 1)) as (b & e & -> & He & _); [lia|].
          eexists _, _. split; [reflexivity|lia]. }
      destruct (startswith "if" line).
      { destruct (braced_ok fuel lines (i + 1) IHp) as (b & j & -> & Hj); [lia|].
        cbn [java_parser.obind].
        destruct (IHe j) as (more & eb & k & -> & Hk); [lia|].
        cbn [java_parser.obind].
        destruct (IHp k) as (b' & e' & -> & He' & _); [lia|].
        eexists _, _. split; [reflexivity|lia]. }
      destruct (startswith "for" line).
      { destruct (braced_ok fuel lines (i + 1) IHp) as (b & j & -> & Hj); [lia|].
        cbn [java_parser.obind].
        destruct (IHp j) as (b' & e' & -> & He' & _); [lia|].
        eexists _, _. split; [reflexivity|lia]. }
      destruct (startswith "while" line).
      { destruct (braced_ok fuel lines (i + 1) IHp) as (b & j & -> & Hj); [lia|].
        cbn [java_parser.obind].
        destruct (IHp j) as (b' & e' & -> & He' & _); [lia|].
        eexists _, _. split; [reflexivity|lia]. }
      destruct (startswith "do" line).
      { destruct (braced_ok fuel lines (i + 1) IHp) as (b & j & -> & Hj); [lia|].
        cbn [java_parser.obind].
        match goal with
        | |- context [let '(cond, j0) := ?X in _] =>
            assert (Hc : j <= snd X)
              by (destruct (nth_error lines j) as [l|];
                  [destruct (startswith "while" l)|]; cbn; lia);
            destruct X as [cond j']
        end.
        cbn [snd] in Hc.
        destruct (IHp j') as (b' & e' & -> & He' & _); [lia|].
        eexists _, _. split; [reflexivity|lia]. }
      destruct (startswith "switch" line).
      { pose proof (find_brace_ge lines (i + 1)) as Hj.
        match goal with
        | |- context [java_parser.switch_scan ?ls ?j ?c ?cur] =>
            pose proof (switch_scan_ge ls j c cur) as Hs;
            destruct (java_parser.switch_scan ls j c cur) as [cases j']
        end.
        cbn [snd] in Hs.
        destruct (IHp (j' + 1)) as (b' & e' & -> & He' & _); [lia|].
        eexists _, _. split; [reflexivity|lia]. }
      destruct (IHp (i + 1)) as (b' & e' & -> & He' & _); [lia|].
      eexists _, _. split; [reflexivity|lia].
    + intros k Hk. cbn [java_parser.else_loop].
      destruct (nth_error lines k) as [l|] eqn:Hl.
      2:{ eexists _, _, _. split; [reflexivity|lia]. }
      assert (Hin : k < length lines) by (apply nth_error_Some; congruence).
      destruct (startswith "else" l); [|eexists _, _, _; split; [reflexivity|lia]].
      destruct (startswith "else if" l).
      * destruct (braced_ok fuel lines (k + 1) IHp) as (b & j & -> & Hj); [lia|].
        cbn [java_parser.obind].
        destruct (IHe j) as (more & eb & k' & -> & Hk'); [lia|].
        eexists _, _, _. split; [reflexivity|lia].
      * destruct (braced_ok fuel lines (k + 1) IHp) as (b & j & -> & Hj); [lia|].
        eexists _, _, _. split; [reflexivity|lia].
Qed.

Lemma java_parse_block_total (lines : list string) :
  exists block e, java_parser._parse_block lines = Some (block, e).
Proof.
  destruct (proj1 (java_parse_block_fuel_total lines (2 * length lines + 2)) 0) as (b & e & H & _); [lia|].
  eexists _, _. exact H.
Qed.

Lemma parse_java_code_total (code : string) :
  exists diagram, java_parser.parse_java_code code = Some diagram.
Proof.
  unfold java_parser.parse_java_code.
  destruct (java_parse_block_total (java_parser._preprocess_lines code)) as (b & e & ->).
  eexists. reflexivity.
Qed.

(** ** Lists of lines *)

Lemma last_default {A : Type} (l : list A) (a d d' : A) :
  List.last (a :: l) d = List.last (a :: l) d'.
Proof.
  revert a. induction l as [|b l IH]; intros a; [reflexivity|].
  change (List.last (b :: l) d = List.last (b :: l) d'). apply IH.
Qed.

Lemma last_cons2 {A : Type} (l : list A) (a b d d' : A) :
  List.last (a :: b :: l) d = List.last (b :: l) d'.
Proof. change (List.last (b :: l) d = List.last (b :: l) d'). apply last_default. Qed.

Lemma last_map_some {A : Type} (l : list A) (a d : A) :
  List.last (map Some (a :: l)) None = Some (List.last (a :: l) d).
Proof.
  revert a. induction l as [|b l IH]; intros a; [reflexivity|].
  cbn [map]. rewrite (last_cons2 _ _ _ None None), (last_cons2 _ _ _ d d).
  apply (IH b).
Qed.

Lemma last_cons_default {A : Type} (l : list A) (a d : A) :
  List.last (a :: l) d = List.last l a.
Proof.
  destruct l as [|b l]; [reflexivity|]. rewrite (last_cons2 _ _ _ d a). reflexivity.
Qed.

Lemma edges_of_app (a b : list line) : edges_of (a ++ b) = edges_of a ++ edges_of b.
Proof. apply flat_map_app. Qed.

Lemma decls_of_app (a b : list line) : decls_of (a ++ b) = decls_of a ++ decls_of b.
Proof. apply flat_map_app. Qed.

Lemma ids_from_S (prefix : string) (first count : nat) :
  ids_from prefix first (S count)
  = (prefix ++ str_of_nat first)%string :: ids_from prefix (S first) count.
Proof. reflexivity. Qed.

Ltac graph_norm :=
  repeat (rewrite ?edges_of_app, ?decls_of_app; cbn;
          rewrite <- ?app_assoc, ?app_nil_r; cbn).

Lemma last_ids_from (prefix : string) (count first : nat) (d : string) :
  count <> 0 ->
  List.last (ids_from prefix first count) d
  = (prefix ++ str_of_nat (first + count - 1))%string.
Proof.
  revert first. induction count as [|k IH]; intros first Hk; [easy|].
  rewrite ids_from_S. destruct k as [|k].
  - cbn. now replace (first + 1 - 1) with first by lia.
  - rewrite ids_from_S, (last_cons2 _ _ _ d d), <- ids_from_S, IH by easy.
    f_equal. f_equal. lia.
Qed.

Lemma chain_edges_app_last (ids : list string) (a b : string) :
  chain_edges ((a :: ids) ++ [b])
  = chain_edges (a :: ids) ++ [MkEdge (List.last (a :: ids) EmptyString) None b].
Proof.
  revert a. induction ids as [|x ids IH]; intros a; [reflexivity|].
  change (chain_edges ((a :: x :: ids) ++ [b]))
    with (MkEdge a None x :: chain_edges ((x :: ids) ++ [b])).
  rewrite IH. reflexivity.
Qed.

(** ** Edges into and out of fresh ids *)

Lemma pid_eqb (c : ascii) (a b : nat) :
  str_eqb (String c EmptyString ++ str_of_nat a) (String c EmptyString ++ str_of_nat b)
  = (a =? b)%nat.
Proof. apply id_eqb. Qed.

Lemma in_ids_from (prefix x : string) (first count : nat) :
  In x (ids_from prefix first count) <->
  exists j, first <= j < first + count /\ x = (prefix ++ str_of_nat j)%string.
Proof.
  unfold ids_from. rewrite in_map_iff. split.
  - intros (j & <- & Hj). apply in_seq in Hj. now exists j.
  - intros (j & Hj & ->). exists j. split; [reflexivity|]. now apply in_seq.
Qed.

Lemma pid_not_in_later (c : ascii) (d first count : nat) :
  d < first ->
  ~ In (String c EmptyString ++ str_of_nat d)%string
       (ids_from (String c EmptyString) first count).
Proof.
  intros Hd Hin. apply in_ids_from in Hin as (j & Hj & E).
  apply id_inj in E. lia.
Qed.

Lemma str_eqb_false_of_not_in (d a : string) (l : list string) :
  ~ In d (a :: l) -> str_eqb a d = false.
Proof.
  intros H. apply String.eqb_neq. intros ->. apply H. now left.
Qed.

Lemma in_edges_app (d : string) (a b : list edge) :
  in_edges d (a ++ b) = in_edges d a ++ in_edges d b.
Proof. apply filter_app. Qed.

Lemma out_edges_app (d : string) (a b : list edge) :
  out_edges d (a ++ b) = out_edges d a ++ out_edges d b.
Proof. apply filter_app. Qed.

(** No edge of a path enters a node the path does not visit after its
    start, and none leaves a node that is not on it. *)
Lemma in_edges_chain (d a : string) (ids : list string) :
  ~ In d ids -> in_edges d (chain_edges (a :: ids)) = [].
Proof.
  revert a. induction ids as [|b ids IH]; intros a Hd; [reflexivity|].
  cbn [chain_edges in_edges filter dst].
  rewrite (str_eqb_false_of_not_in d b ids Hd).
  apply IH. intros H. apply Hd. now right.
Qed.

Lemma out_edges_chain (d a : string) (ids : list string) :
  ~ In d (a :: ids) -> out_edges d (chain_edges (a :: ids)) = [].
Proof.
  revert a. induction ids as [|b ids IH]; intros a Hd; [reflexivity|].
  cbn [chain_edges out_edges filter src].
  rewrite (str_eqb_false_of_not_in d a (b :: ids) Hd).
  apply IH. intros H. apply Hd. now right.
Qed.

Lemma in_edges_labelled_chain (lbl d a : string) (ids : list string) :
  ~ In d ids -> in_edges d (labelled_chain lbl (a :: ids)) = [].
Proof.
  revert a. induction ids as [|b ids IH]; intros a Hd; [reflexivity|].
  cbn [labelled_chain in_edges filter dst].
  rewrite (str_eqb_false_of_not_in d b ids Hd).
  apply IH. intros H. apply Hd. now right.
Qed.

Lemma out_edges_labelled_chain (lbl d a : string) (ids : list string) :
  ~ In d (a :: ids) -> out_edges d (labelled_chain lbl (a :: ids)) = [].
Proof.
  revert a. induction ids as [|b ids IH]; intros a Hd; [reflexivity|].
  cbn [labelled_chain out_edges filter src].
  rewrite (str_eqb_false_of_not_in d a (b :: ids) Hd).
  apply IH. intros H. apply Hd. now right.
Qed.

(** ** The C renderer: the top-level loop *)

Section CTopLevel.
Import c_parser CSpec.

#[local] Arguments _label_and_kind : simpl never.
#[local] Arguments _clean_label : simpl never.
#[local] Arguments str_of_nat : simpl never.
#[local] Arguments String.append : simpl never.

(** One turn of the loop on a node that is not a conditional. *)
Lemma render_from_plain (nd : node) (rest : list node) (prev : string)
  (last : option string) (st : rstate) :
  is_if nd = false ->
  render_from (nd :: rest) prev last st =
    if negb (truthy (label_of nd)) then render_from rest prev last st
    else if opt_eqb (Some (label_of nd)) last then render_from rest prev last st
    else
      let '(nid, st1) := add_node (label_of nd) (io_or_proc (kind_of nd)) st in
      let st2 := connect prev nid None st1 in
      if str_eqb (label_of nd) "Return"
      then append end_line (connect nid "End" None st2)
      else render_from rest nid (Some (label_of nd)) st2.
Proof.
  intros Hif. unfold label_of, kind_of.
  destruct nd; try discriminate Hif; cbn [render_from];
    destruct (_label_and_kind _) as [l k]; reflexivity.
Qed.

(** One turn of the loop on a conditional that another node follows: the
    decision, the two branches, the merge node, and on from the merge node
    with the label emitted last unchanged. *)
Lemma render_from_if_more (cond : string) (t : list node) (e : option (list node))
  (nd : node) (rest : list node) (prev : string) (last : option string) (st : rstate) :
  render_from (if_ cond t e :: nd :: rest) prev last st =
    let '(d_id, st) := add_node (label_of (if_ cond t e)) decision st in
    let st := connect prev d_id None st in
    let '(then_last, st) := render_branch d_id t "Yes" st in
    let '(else_last, st) := render_branch d_id (or_empty e) "No" st in
    let '(merge_id, st) := add_node "Merge" proc st in
    let st := join_branch d_id then_last "Yes" merge_id st in
    let st := join_branch d_id else_last "No" merge_id st in
    render_from (nd :: rest) merge_id last st.
Proof.
  unfold label_of. cbn [render_from is_nil].
  destruct (_label_and_kind (if_ cond t e)) as [l k]. reflexivity.
Qed.


(** Nothing after a top-level Return is rendered.  The label emitted last
    is never Return while the loop runs, since a Return ends it. *)
Lemma render_from_return_cut (ast1 : list node) (r : node) (ast2 : list node) :
  is_if r = false -> label_of r = "Return" ->
  forall (prev : string) (last : option string) (st : rstate),
    last <> Some "Return" ->
    render_from (ast1 ++ r :: ast2) prev last st = render_from (ast1 ++ [r]) prev last st.
Proof.
  intros Hr Hl.
  induction ast1 as [|a ast1 IH]; intros prev last st Hlast.
  - cbn [app]. rewrite !(render_from_plain r) by assumption. rewrite Hl.
    cbn [truthy is_empty negb].
    destruct (opt_eqb (Some "Return") last) eqn:E.
    + exfalso. apply Hlast. destruct last as [x|]; [|discriminate E].
      cbn [opt_eqb] in E. apply String.eqb_eq in E. now subst x.
    + destruct (add_node _ _ st) as [nid st1]. reflexivity.
  - cbn [app]. destruct (is_if a) eqn:Ha.
    + destruct a as [|cond t e| | | |]; try discriminate Ha.
      destruct ast1 as [|b ast1]; cbn [app] in *;
        rewrite !render_from_if_more; split_lets; now apply IH.
    + rewrite !(render_from_plain a) by assumption.
      destruct (negb (truthy (label_of a))); [now apply IH|].
      destruct (opt_eqb (Some (label_of a)) last); [now apply IH|].
      destruct (add_node _ _ st) as [nid st1]. cbn zeta.
      destruct (str_eqb (label_of a) "Return") eqn:E; [reflexivity|].
      apply IH. intros [= Hx]. rewrite Hx in E.
      unfold str_eqb in E. rewrite String.eqb_refl in E. discriminate E.
Qed.

(** A sequence without conditionals is drawn as a chain: the nodes of the
    statements that are kept, in order, each entered from the one before,
    the last one running into End. *)
Lemma render_from_chain (ast : list node) :
  forallb (fun nd => negb (is_if nd)) ast = true ->
  forall (prev : string) (last : option string) (st : rstate),
    let ks := kept ast last in
    let ids := ids_from "N" (S (node_counter st)) (length ks) in
    let out := lines (render_from ast prev last st) in
    edges_of out = edges_of (lines st) ++ chain_edges (prev :: ids ++ ["End"])
    /\ decls_of out
       = decls_of (lines st)
         ++ map (fun p => node_decl (fst p) (snd p)) (combine ids ks)
         ++ [("End", Circle, "End")].
Proof.
  induction ast as [|a ast IH]; intros Hplain prev last st; cbn zeta.
  - cbn. graph_norm. split; reflexivity.
  - cbn [forallb] in Hplain. apply andb_true_iff in Hplain as [Ha Hrest].
    apply negb_true_iff in Ha. specialize (IH Hrest).
    rewrite (render_from_plain a) by assumption. cbn [kept].
    destruct (negb (truthy (label_of a))); [apply IH|].
    destruct (opt_eqb (Some (label_of a)) last); [apply IH|].
    unfold add_node, new_id. cbn zeta.
    destruct (str_eqb (label_of a) "Return").
    + cbn. graph_norm. split; reflexivity.
    + cbn [length]. rewrite ids_from_S.
      destruct (IH (("N" ++ str_of_nat (S (node_counter st)))%string) (Some (label_of a))
                  (connect prev ("N" ++ str_of_nat (S (node_counter st))) None
                     (append (Node (decl ("N" ++ str_of_nat (S (node_counter st)))
                                      (shape_of (io_or_proc (kind_of a)))
                                      (_clean_label (label_of a))))
                        (RState (lines st) (S (node_counter st))))))
        as [IHe IHd].
      cbn in IHe, IHd. cbn. rewrite IHe, IHd.
      graph_norm. split; reflexivity.
Qed.

(** *** Conditionals *)

Lemma render_tail_spec (ns : list node) (cur : string) (st : rstate) :
  let ids := ids_from "N" (S (node_counter st)) (length ns) in
  let r := render_tail cur ns st in
  fst r = List.last ids cur
  /\ node_counter (snd r) = node_counter st + length ns
  /\ edges_of (lines (snd r)) = edges_of (lines st) ++ chain_edges (cur :: ids)
  /\ decls_of (lines (snd r))
     = decls_of (lines st) ++ map (fun p => node_decl (fst p) (snd p)) (combine ids ns).
Proof.
  revert cur st. induction ns as [|a ns IH]; intros cur st; cbn zeta.
  - cbn. rewrite !app_nil_r. repeat split; try reflexivity. lia.
  - cbn [render_tail].
    destruct (_label_and_kind a) as [l k] eqn:Ea.
    unfold add_node, new_id. cbn zeta. cbn [length]. rewrite ids_from_S.
    match goal with
    | |- context [render_tail ?l ns ?s] => destruct (IH l s) as (IHl & IHc & IHe & IHd)
    end.
    destruct (render_tail _ ns _) as [last' st'].
    cbn [fst snd node_counter append lines connect] in *. subst last'.
    rewrite IHc, IHe, IHd. cbn [combine map fst snd].
    assert (Hnd : forall id, node_decl id a = (id, shape_of (io_or_proc k), _clean_label l))
      by (intros; unfold node_decl, label_of, kind_of; now rewrite Ea).
    rewrite Hnd. graph_norm.
    split; [|split; [|split]]; try reflexivity; try lia.
    destruct (ids_from "N" _ _); [reflexivity|]. apply last_default.
Qed.

Lemma render_branch_spec (d : string) (ns : list node) (lbl : string) (st : rstate) :
  truthy lbl = true ->
  let ids := ids_from "N" (S (node_counter st)) (length ns) in
  let r := render_branch d ns lbl st in
  fst r = match ns with [] => None | _ :: _ => Some (List.last ids d) end
  /\ node_counter (snd r) = node_counter st + length ns
  /\ edges_of (lines (snd r)) = edges_of (lines st) ++ branch_edges d lbl ids
  /\ decls_of (lines (snd r))
     = decls_of (lines st) ++ map (fun p => node_decl (fst p) (snd p)) (combine ids ns).
Proof.
  intros Hlbl. cbn zeta. destruct ns as [|a ns].
  - cbn. rewrite !app_nil_r. repeat split; try reflexivity. lia.
  - cbn [render_branch].
    destruct (_label_and_kind a) as [l k] eqn:Ea.
    unfold add_node, new_id. cbn zeta. cbn [length]. rewrite ids_from_S.
    match goal with
    | |- context [render_tail ?l ns ?s] =>
        destruct (render_tail_spec ns l s) as (IHl & IHc & IHe & IHd)
    end.
    destruct (render_tail _ ns _) as [last' st'].
    unfold connect in *. rewrite Hlbl in *.
    cbn [fst snd node_counter append lines] in *. subst last'.
    rewrite IHc, IHe, IHd. cbn [combine map fst snd].
    assert (Hnd : forall id, node_decl id a = (id, shape_of (io_or_proc k), _clean_label l))
      by (intros; unfold node_decl, label_of, kind_of; now rewrite Ea).
    rewrite Hnd. unfold branch_edges. graph_norm.
    split; [|split; [|split]]; try reflexivity; try lia.
    f_equal. destruct (ids_from "N" _ _); [reflexivity|]. apply last_default.
Qed.

Lemma join_branch_spec (d lbl target : string) (ns : list node) (ids : list string)
  (st : rstate) :
  truthy lbl = true -> length ids = length ns ->
  let tail := match ns with [] => None | _ :: _ => Some (List.last ids d) end in
  node_counter (join_branch d tail lbl target st) = node_counter st
  /\ edges_of (lines (join_branch d tail lbl target st))
     = edges_of (lines st) ++ [tail_edge d lbl ids target]
  /\ decls_of (lines (join_branch d tail lbl target st)) = decls_of (lines st).
Proof.
  intros Hlbl Hlen. cbn zeta.
  destruct ns as [|a ns], ids as [|i ids]; try discriminate Hlen;
    unfold join_branch, connect; rewrite ?Hlbl; graph_norm; repeat split; reflexivity.
Qed.

Lemma length_ids_from (prefix : string) (first count : nat) :
  length (ids_from prefix first count) = count.
Proof. unfold ids_from. now rewrite length_map, length_seq. Qed.

(** The state after the decision and the two branches of a conditional. *)
Lemma render_if_branches (cond : string) (t : list node) (e : option (list node))
  (prev : string) (st : rstate) :
  let c := node_counter st in
  let d := ("N" ++ str_of_nat (S c))%string in
  let ids_t := ids_from "N" (S (S c)) (length t) in
  let ids_e := ids_from "N" (S (S c) + length t) (length (or_empty e)) in
  let '(d_id, st1) := add_node (label_of (if_ cond t e)) decision st in
  let st2 := connect prev d_id None st1 in
  let '(then_last, st3) := render_branch d_id t "Yes" st2 in
  let '(else_last, st4) := render_branch d_id (or_empty e) "No" st3 in
  d_id = d
  /\ then_last = match t with [] => None | _ :: _ => Some (List.last ids_t d) end
  /\ else_last = match or_empty e with [] => None | _ :: _ => Some (List.last ids_e d) end
  /\ node_counter st4 = S c + length t + length (or_empty e)
  /\ edges_of (lines st4)
     = edges_of (lines st) ++ [MkEdge prev None d]
       ++ branch_edges d "Yes" ids_t ++ branch_edges d "No" ids_e
  /\ decls_of (lines st4)
     = decls_of (lines st)
       ++ [(d, Diamond, _clean_label (label_of (if_ cond t e)))]
       ++ map (fun p => node_decl (fst p) (snd p)) (combine ids_t t)
       ++ map (fun p => node_decl (fst p) (snd p)) (combine ids_e (or_empty e)).
Proof.
  cbn zeta. unfold add_node, new_id. cbn zeta.
  match goal with
  | |- context [render_branch ?d t "Yes" ?s] =>
      destruct (render_branch_spec d t "Yes" s eq_refl) as (Ht & Hc3 & He3 & Hd3)
  end.
  destruct (render_branch _ t "Yes" _) as [then_last st3].
  cbn [fst snd node_counter append lines connect] in *.
  destruct (render_branch_spec ("N" ++ str_of_nat (S (node_counter st))) (or_empty e) "No"
              st3 eq_refl) as (Hel & Hc4 & He4 & Hd4).
  destruct (render_branch _ (or_empty e) "No" st3) as [else_last st4].
  cbn [fst snd] in *. rewrite Hc3 in *.
  replace (S (S (node_counter st) + length t)) with (S (S (node_counter st)) + length t)
    in * by lia.
  rewrite He4, Hd4, He3, Hd3, Hc4. graph_norm.
  repeat split; try assumption; try reflexivity.
Qed.

(** A conditional that is the last top-level node: the decision, the two
    branches, and each branch end joined to End.  The nodes declared are
    the decision, one per branch statement, and End: no merge node. *)
Lemma c_if_last (cond : string) (t : list node) (e : option (list node))
  (prev : string) (last : option string) (st : rstate) :
  let c := node_counter st in
  let d := ("N" ++ str_of_nat (S c))%string in
  let ids_t := ids_from "N" (S (S c)) (length t) in
  let ids_e := ids_from "N" (S (S c) + length t) (length (or_empty e)) in
  let out := lines (render_from [if_ cond t e] prev last st) in
  edges_of out
  = edges_of (lines st) ++ [MkEdge prev None d]
    ++ branch_edges d "Yes" ids_t ++ branch_edges d "No" ids_e
    ++ [tail_edge d "Yes" ids_t "End"; tail_edge d "No" ids_e "End"]
  /\ decls_of out
     = decls_of (lines st)
       ++ [(d, Diamond, _clean_label (label_of (if_ cond t e)))]
       ++ map (fun p => node_decl (fst p) (snd p)) (combine ids_t t)
       ++ map (fun p => node_decl (fst p) (snd p)) (combine ids_e (or_empty e))
       ++ [("End", Circle, "End")].
Proof.
  cbn zeta. cbn [render_from is_nil].
  pose proof (render_if_branches cond t e prev st) as H.
  unfold label_of in *.
  destruct (_label_and_kind (if_ cond t e)) as [l k] eqn:El.
  cbn zeta in H. cbn [fst] in *.
  destruct (add_node l decision st) as [d_id st1].
  destruct (render_branch d_id t "Yes" _) as [then_last st3].
  destruct (render_branch d_id (or_empty e) "No" st3) as [else_last st4].
  destruct H as (-> & -> & -> & Hc & He & Hd).
  match goal with
  | |- context [join_branch ?d _ "Yes" "End" st4] =>
      destruct (join_branch_spec d "Yes" "End" t
                  (ids_from "N" (S (S (node_counter st))) (length t)) st4 eq_refl
                  (length_ids_from _ _ _)) as (Hc5 & He5 & Hd5)
  end.
  cbn zeta in Hc5, He5, Hd5.
  match goal with
  | |- context [join_branch ?d _ "No" "End" ?s] =>
      destruct (join_branch_spec d "No" "End" (or_empty e)
                  (ids_from "N" (S (S (node_counter st)) + length t)
                     (length (or_empty e))) s eq_refl
                  (length_ids_from _ _ _)) as (Hc6 & He6 & Hd6)
  end.
  cbn zeta in Hc6, He6, Hd6.
  cbn [append lines]. rewrite edges_of_app, decls_of_app.
  rewrite He6, Hd6, He5, Hd5, He, Hd. graph_norm. split; reflexivity.
Qed.

(** A conditional that another node follows: after the decision and the
    branches one node labelled Merge is declared, both branch ends are
    joined to it, and the loop goes on from it. *)
Lemma c_if_more (cond : string) (t : list node) (e : option (list node))
  (nd : node) (rest : list node) (prev : string) (last : option string) (st : rstate) :
  let c := node_counter st in
  let d := ("N" ++ str_of_nat (S c))%string in
  let ids_t := ids_from "N" (S (S c)) (length t) in
  let ids_e := ids_from "N" (S (S c) + length t) (length (or_empty e)) in
  let m := ("N" ++ str_of_nat (S (S c) + length t + length (or_empty e)))%string in
  exists st' : rstate,
    render_from (if_ cond t e :: nd :: rest) prev last st
    = render_from (nd :: rest) m last st'
    /\ node_counter st' = S (S c) + length t + length (or_empty e)
    /\ edges_of (lines st')
       = edges_of (lines st) ++ [MkEdge prev None d]
         ++ branch_edges d "Yes" ids_t ++ branch_edges d "No" ids_e
         ++ [tail_edge d "Yes" ids_t m; tail_edge d "No" ids_e m]
    /\ decls_of (lines st')
       = decls_of (lines st)
         ++ [(d, Diamond, _clean_label (label_of (if_ cond t e)))]
         ++ map (fun p => node_decl (fst p) (snd p)) (combine ids_t t)
         ++ map (fun p => node_decl (fst p) (snd p)) (combine ids_e (or_empty e))
         ++ [(m, Rect, "Merge")].
Proof.
  cbv zeta. rewrite render_from_if_more.
  pose proof (render_if_branches cond t e prev st) as H. cbv zeta in H.
  destruct (add_node (label_of (if_ cond t e)) decision st) as [d_id st1].
  cbv zeta.
  destruct (render_branch d_id t "Yes" _) as [then_last st3].
  destruct (render_branch d_id (or_empty e) "No" st3) as [else_last st4].
  destruct H as (-> & -> & -> & Hc & He & Hd).
  unfold add_node at 1, new_id. cbv zeta.
  rewrite Hc.
  replace (S (S (node_counter st) + length t + length (or_empty e)))
    with (S (S (node_counter st)) + length t + length (or_empty e)) by lia.
  set (m := ("N" ++ str_of_nat (S (S (node_counter st)) + length t + length (or_empty e)))%string).
  change (_clean_label "Merge") with "Merge".
  eexists. split; [reflexivity|].
  match goal with
  | |- context [join_branch ?d _ "Yes" m ?s] =>
      destruct (join_branch_spec d "Yes" m t
                  (ids_from "N" (S (S (node_counter st))) (length t)) s eq_refl
                  (length_ids_from _ _ _)) as (Hc5 & He5 & Hd5)
  end.
  cbn zeta in Hc5, He5, Hd5.
  match goal with
  | |- context [join_branch ?d _ "No" m ?s] =>
      destruct (join_branch_spec d "No" m (or_empty e)
                  (ids_from "N" (S (S (node_counter st)) + length t)
                     (length (or_empty e))) s eq_refl
                  (length_ids_from _ _ _)) as (Hc6 & He6 & Hd6)
  end.
  cbn zeta in Hc6, He6, Hd6.
  rewrite Hc6, He6, Hd6, Hc5, He5, Hd5. cbn [append lines node_counter shape_of].
  rewrite edges_of_app, decls_of_app, He, Hd. graph_norm.
  repeat split; reflexivity.
Qed.

End CTopLevel.

(** ** The Python renderer: plain statements *)

Section PyPlain.
Import python_parser PySpec.

#[local] Arguments handle_expr : simpl never.
#[local] Arguments str_of_nat : simpl never.
#[local] Arguments String.append : simpl never.

Lemma step_plain (node : stmt) (is_last : bool) (last : string) (st : rstate) :
  is_plain node = true -> step node is_last last st = plain_stmt node last st.
Proof. destruct node; intros H; try discriminate H; reflexivity. Qed.

(** The loop over plain statements: one node each, entered from the node
    before. *)
Lemma run_body_chain (body : list stmt) :
  forallb is_plain body = true ->
  forall (last : string) (st : rstate),
    let ids := ids_from "n" (S (node_counter st)) (length body) in
    let r := run_body body last st in
    fst r = List.last ids last
    /\ edges_of (lines (snd r)) = edges_of (lines st) ++ chain_edges (last :: ids)
    /\ decls_of (lines (snd r))
       = decls_of (lines st) ++ map (fun p => node_decl (fst p) (snd p)) (combine ids body).
Proof.
  induction body as [|a body IH]; intros Hplain last st; cbn zeta.
  - cbn. rewrite !app_nil_r. repeat split; reflexivity.
  - cbn [forallb] in Hplain. apply andb_true_iff in Hplain as [Ha Hrest].
    specialize (IH Hrest).
    cbn [run_body]. rewrite step_plain by assumption.
    unfold plain_stmt, get_id. cbn zeta.
    cbn [length]. rewrite ids_from_S.
    match goal with
    | |- context [run_body body ?l ?s] => destruct (IH l s) as (IHl & IHe & IHd)
    end.
    cbn in IHl, IHe, IHd.
    destruct (run_body body _ _) as [last' st'] eqn:E.
    cbn [fst snd] in *. subst last'. rewrite IHe, IHd.
    unfold stmt_ref, node_decl. graph_norm.
    destruct (handle_expr a) as [sh l]. graph_norm.
    repeat split; try reflexivity.
    destruct (ids_from "n" (S (S (node_counter st))) (length body)); [reflexivity|].
    apply last_default.
Qed.

End PyPlain.

(** ** The Java renderer: plain statements *)

Section JavaPlain.
Import java_parser JSpec.

#[local] Arguments _safe_label : simpl never.
#[local] Arguments str_of_nat : simpl never.
#[local] Arguments String.append : simpl never.
#[local] Arguments Re.found : simpl never.
#[local] Arguments contains : simpl never.
#[local] Arguments strip : simpl never.

Lemma chain_snoc (ids : list string) (a b : string) :
  chain ((ids ++ [a]) ++ [b]) = chain (ids ++ [a]) ++ [JEdge (Some a) (Some b) None].
Proof.
  induction ids as [|x ids IH]; [reflexivity|].
  cbn [app]. destruct ids as [|y ids]; [reflexivity|].
  cbn [app] in *. cbn [chain]. cbn [chain] in IH. now rewrite IH.
Qed.

(** The loop of [render_block] over plain statements: one rectangle for
    each statement that is not passed over, each entered from the one
    before. *)
Lemma render_stmts_chain (block : list node) :
  forallb is_stmt block = true ->
  forall (first last : option string) (st : rstate),
    let ks := filter (fun nd => negb (skipped nd)) block in
    let ids := ids_from "N" (S (id_counter st)) (length ks) in
    let r := render_stmts render_node block first last st in
    fst (fst r) = match first with Some f => Some f | None => hd_error ids end
    /\ snd (fst r) = List.last (map Some ids) last
    /\ edges (snd r) = edges st ++ chain (path_from last ids)
    /\ nodes (snd r)
       = nodes st ++ map (fun p => Node (decl (fst p) Rect (rect_label (snd p))))
                         (combine ids ks).
Proof.
  induction block as [|a block IH]; intros Hplain first last st; cbn zeta.
  - destruct first, last; cbn; rewrite ?app_nil_r; repeat split; reflexivity.
  - cbn [forallb] in Hplain. apply andb_true_iff in Hplain as [Ha Hrest].
    specialize (IH Hrest).
    destruct a as [code| | | | |]; try discriminate Ha.
    cbn [render_stmts render_node filter skipped].
    destruct (Re.found re_class (_safe_label code)
              || contains "static void main" (_safe_label code)) eqn:Hskip.
    + cbn [negb]. apply IH.
    + cbn [negb length]. rewrite ids_from_S.
      unfold add_node_rect, new_id, enter. cbn zeta.
      destruct first as [f|], last as [l|];
        cbn [is_none push_node push_edge id_counter nodes edges];
        match goal with
        | |- context [render_stmts render_node block ?f ?l ?s] =>
            destruct (IH f l s) as (IHf & IHl & IHe & IHn)
        end;
        destruct (render_stmts render_node block _ _ _) as [[first' last'] st'];
        cbn [fst snd id_counter nodes edges] in *; subst first' last';
        rewrite IHe, IHn; clear IHe IHn;
        cbn [rect_label combine map hd_error path_from fst snd];
        (split; [|split; [|split]];
         [ reflexivity
         | destruct (ids_from "N" _ _); [reflexivity|]; cbn [map]; symmetry; apply last_cons2
         | cbn; rewrite <- ?app_assoc; reflexivity
         | cbn; rewrite <- ?app_assoc; reflexivity ]).
Qed.

End JavaPlain.

(** ** C5: input without control constructs *)


Lemma jchain_app_last (ids : list string) (a b : string) :
  JSpec.chain ((a :: ids) ++ [b])
  = JSpec.chain (a :: ids)
    ++ [java_parser.JEdge (Some (List.last (a :: ids) EmptyString)) (Some b) None].
Proof.
  revert a. induction ids as [|x ids IH]; intros a; [reflexivity|].
  change (JSpec.chain ((a :: x :: ids) ++ [b]))
    with (java_parser.JEdge (Some a) (Some x) None :: JSpec.chain ((x :: ids) ++ [b])).
  rewrite IH. reflexivity.
Qed.

(** The diagram of a Python module of plain statements. *)
Lemma python_render_plain (body : list python_parser.stmt) :
  forallb PySpec.is_plain body = true ->
  let ids := ids_from "n" 1 (length body) in
  edges_of (python_parser.render body) = chain_edges ("Start" :: ids ++ ["End"])
  /\ decls_of (python_parser.render body)
     = ("Start", Circle, "Start")
       :: map (fun p => PySpec.node_decl (fst p) (snd p)) (combine ids body)
       ++ [("End", Circle, "End"); ("End", Circle, "End")].
Proof.
  intros Hplain ids. unfold python_parser.render.
  destruct (run_body_chain body Hplain "Start" python_parser.init_state)
    as (Hl & He & Hd).
  destruct (python_parser.run_body body "Start" python_parser.init_state)
    as [last st] eqn:E.
  cbn [fst snd python_parser.node_counter python_parser.init_state] in Hl, He, Hd.
  fold ids in Hl, He, Hd.
  assert (Hne : str_eqb last "End" = false).
  { subst last. destruct body as [|b body]; [reflexivity|].
    unfold ids. now rewrite last_ids_from by easy. }
  rewrite Hne. cbn. rewrite edges_of_app, decls_of_app, edges_of_app, decls_of_app.
  rewrite He, Hd. cbn. rewrite <- !app_assoc. cbn. subst last. split; [|reflexivity].
  change (chain_edges ("Start" :: ids) ++ [MkEdge (List.last ids "Start") None "End"]
          = chain_edges (("Start" :: ids) ++ ["End"])).
  rewrite chain_edges_app_last, (last_cons_default ids "Start"). reflexivity.
Qed.

(** The diagram of a Java block of plain statements. *)
Lemma java_render_plain (block : list java_parser.node) :
  forallb JSpec.is_stmt block = true ->
  let ks := filter (fun nd => negb (JSpec.skipped nd)) block in
  let ids := ids_from "N" 3 (length ks) in
  ks <> [] ->
  snd (java_parser.render block) = JSpec.chain ("N1" :: ids ++ ["N2"])
  /\ fst (java_parser.render block)
     = Node (decl "N1" Circle "Start") :: Node (decl "N2" Circle "End")
       :: map (fun p => Node (decl (fst p) Rect (JSpec.rect_label (snd p))))
              (combine ids ks).
Proof.
  intros Hstmt ks ids Hne. unfold java_parser.render, java_parser.render_block,
    java_parser.render_block_with.
  unfold java_parser.add_node_circle, java_parser.new_id. cbn zeta.
  cbn [java_parser.push_node java_parser.id_counter java_parser.nodes
       java_parser.edges app].
  match goal with
  | |- context [java_parser.render_stmts _ block None None ?s] =>
      destruct (render_stmts_chain block Hstmt None None s) as (Hf & Hl & He & Hn)
  end.
  destruct (java_parser.render_stmts _ block None None _) as [[first last] st] eqn:E.
  cbn [fst snd java_parser.id_counter java_parser.push_node java_parser.edges
       java_parser.nodes] in Hf, Hl, He, Hn.
  fold ks in Hf, Hl, He, Hn. fold ids in Hf, Hl, He, Hn.
  assert (Hids : exists i rest, ids = ("N" ++ i)%string :: rest).
  { unfold ids. destruct ks as [|k0 ks0]; [easy|]. eexists _, _. reflexivity. }
  destruct Hids as (i & rest & Hids).
  subst first last. rewrite He, Hn, Hids.
  rewrite (last_map_some _ _ EmptyString).
  cbn [hd_error fst snd app JSpec.path_from]. split; [|reflexivity].
  change (java_parser.opt_truthy (Some ("N" ++ i)%string)) with true. cbv iota.
  replace (java_parser.opt_truthy
             (Some (List.last (("N" ++ i)%string :: rest) EmptyString))) with true.
  2:{ symmetry. rewrite <- Hids. unfold ids.
      rewrite last_ids_from by (intros H0; apply Hne, length_zero_iff_nil, H0).
      reflexivity. }
  change (JSpec.chain ("N1" :: ("N" ++ i)%string :: rest ++ ["N2"]))
    with (java_parser.JEdge (Some "N1") (Some ("N" ++ i)%string) None
          :: JSpec.chain ((("N" ++ i)%string :: rest) ++ ["N2"])).
  rewrite jchain_app_last. reflexivity.
Qed.


(** ** C7: repeated labels *)




(** ** C3: return statements *)

Lemma return_label_is_process (r : c_parser.node) :
  CSpec.label_of r = "Return" -> c_parser.io_or_proc (CSpec.kind_of r) = c_parser.proc.
Proof.
  unfold CSpec.label_of, CSpec.kind_of.
  destruct r as [text| | | | |]; try reflexivity.
  unfold c_parser._label_and_kind.
  destruct (startswith "printf" (strip text)).
  { destruct (Re.search _ _) as [[? ?]|]; cbn; discriminate. }
  destruct (startswith "scanf" (strip text)).
  { destruct (Re.search _ _) as [[? ?]|]; cbn; discriminate. }
  destruct (Re.found _ _).
  { destruct (c_parser._extract_var_names _) as [|? [|? ?]]; reflexivity. }
  destruct (startswith "return" (strip text)); reflexivity.
Qed.

(** C3, as the renderers have it.  In the C adapter a top-level statement
    labelled Return ends the diagram: nothing that follows it is drawn, and
    where the loop reaches it the lines it appends are its node, the edge
    into the node, the edge from the node straight into End, and End.  (The
    label emitted last is never Return at that point, since a Return ends
    the loop.)  The Python and the Java adapter draw a return like any
    other plain statement: the chain goes on through the statements after
    it. *)
Theorem c_top_level_return_ends_diagram :
  (forall (ast1 : list c_parser.node) (r : c_parser.node) (ast2 : list c_parser.node),
     CSpec.is_if r = false -> CSpec.label_of r = "Return" ->
     c_parser.render (ast1 ++ r :: ast2) = c_parser.render (ast1 ++ [r])
     /\ forall (prev : string) (last : option string) (st : c_parser.rstate),
          last <> Some "Return" ->
          let nid := ("N" ++ str_of_nat (S (c_parser.node_counter st)))%string in
          c_parser.lines (c_parser.render_from (r :: ast2) prev last st)
          = c_parser.lines st
            ++ [ Node (decl nid Rect "Return");
                 Edge (bare prev) None (bare nid);
                 Edge (bare nid) None (bare "End");
                 c_parser.end_line ])
  /\
  (forall (text : string) (body : list python_parser.stmt),
     forallb PySpec.is_plain body = true ->
     edges_of (python_parser.render (python_parser.OtherStmt "Return" text :: body))
     = chain_edges ("Start" :: ids_from "n" 1 (S (length body)) ++ ["End"]))
  /\
  (forall (code : string) (block : list java_parser.node),
     JSpec.skipped (java_parser.stmt code) = false ->
     forallb JSpec.is_stmt block = true ->
     let ks := filter (fun nd => negb (JSpec.skipped nd)) block in
     snd (java_parser.render (java_parser.stmt code :: block))
     = JSpec.chain ("N1" :: ids_from "N" 3 (S (length ks)) ++ ["N2"])).
Proof.
  split; [|split].
  - intros ast1 r ast2 Hr Hl. split.
    + unfold c_parser.render. now rewrite (render_from_return_cut ast1 r ast2).
    + intros prev last st Hlast nid.
      rewrite render_from_plain by assumption.
      rewrite (return_label_is_process r Hl), Hl.
      cbn [truthy is_empty negb].
      destruct (opt_eqb (Some "Return") last) eqn:E.
      * exfalso. apply Hlast. destruct last as [x|]; [|discriminate E].
        cbn [opt_eqb] in E. apply String.eqb_eq in E. now subst x.
      * unfold c_parser.add_node, c_parser.new_id. cbn zeta.
        change (str_eqb "Return" "Return") with true. cbv iota.
        change (c_parser._clean_label "Return") with "Return".
        cbn [c_parser.connect c_parser.append c_parser.lines c_parser.shape_of].
        now rewrite <- !app_assoc.
  - intros text body Hplain.
    apply (python_render_plain (python_parser.OtherStmt "Return" text :: body)).
    exact Hplain.
  - intros code block Hskip Hstmt ks.
    assert (Hks : filter (fun nd => negb (JSpec.skipped nd)) (java_parser.stmt code :: block)
                  = java_parser.stmt code :: ks).
    { cbn [filter]. rewrite Hskip. reflexivity. }
    destruct (java_render_plain (java_parser.stmt code :: block)) as [He _].
    + exact Hstmt.
    + rewrite Hks. discriminate.
    + rewrite He, Hks. reflexivity.
Qed.

Lemma c_top_level_return_ends_diagram_witness :
  c_parser.render ([c_parser.stmt "x = 1;"] ++ c_parser.stmt "return x;" :: [c_parser.stmt "y = 2;"])
  = c_parser.render ([c_parser.stmt "x = 1;"] ++ [c_parser.stmt "return x;"])
  /\ c_parser.lines (c_parser.render_from (c_parser.stmt "return x;" :: [c_parser.stmt "y = 2;"])
                       "Start" None c_parser.init_state)
     = c_parser.lines c_parser.init_state
       ++ [ Node (decl "N1" Rect "Return");
            Edge (bare "Start") None (bare "N1");
            Edge (bare "N1") None (bare "End");
            c_parser.end_line ].
Proof.
  destruct (proj1 c_top_level_return_ends_diagram
              [c_parser.stmt "x = 1;"] (c_parser.stmt "return x;") [c_parser.stmt "y = 2;"]
              eq_refl eq_refl) as [Hcut Hlines].
  split; [exact Hcut|].
  apply (Hlines "Start" None c_parser.init_state). discriminate.
Defined.

(** C3 does not hold as stated: the Java adapter draws [return x;] as an
    ordinary statement.  Its node N3 has one outgoing edge, into the node of
    the statement after it, and that statement is drawn. *)
Lemma java_return_is_ordinary_statement :
  java_parser.parse_java_code ("return x;" ++ nl ++ "y = 2;")
  = Some (join nl [ "flowchart TD"; "N1((Start))"; "N2((End))";
                    "N3[" ++ dq ++ "return x" ++ dq ++ "]";
                    "N4[" ++ dq ++ "y = 2" ++ dq ++ "]";
                    "N1 --> N3"; "N3 --> N4"; "N4 --> N2" ])%string
  /\ filter (fun e => java_parser.opt_truthy (java_parser.e_from e)
                      && str_eqb (java_parser.show_id (java_parser.e_from e)) "N3")
       (snd (java_parser.render [java_parser.stmt "return x;"; java_parser.stmt "y = 2;"]))
     = [java_parser.JEdge (Some "N3") (Some "N4") None].
Proof. split; vm_compute; reflexivity. Qed.

(** ** The Python renderer: branches, loops and cases *)

Section PyHandlers.
Import python_parser PySpec.

#[local] Arguments handle_expr : simpl never.
#[local] Arguments str_of_nat : simpl never.
#[local] Arguments String.append : simpl never.
#[local] Arguments safe_label : simpl never.

Lemma ref_id_stmt_ref (sid : string) (node : stmt) : ref_id (stmt_ref sid node) = sid.
Proof. unfold stmt_ref. now destruct (handle_expr node). Qed.

(** The statements of a body joined by plain edges, after [cur]. *)
Lemma chain_plain_spec (body : list stmt) (cur : string) (st : rstate) :
  let ids := ids_from "n" (S (node_counter st)) (length body) in
  let r := chain_plain cur body st in
  fst r = List.last ids cur
  /\ node_counter (snd r) = node_counter st + length body
  /\ edges_of (lines (snd r)) = edges_of (lines st) ++ chain_edges (cur :: ids)
  /\ decls_of (lines (snd r))
     = decls_of (lines st) ++ map (fun p => node_decl (fst p) (snd p)) (combine ids body).
Proof.
  revert cur st. induction body as [|a body IH]; intros cur st; cbn zeta.
  - cbn. rewrite !app_nil_r. repeat split; try reflexivity. lia.
  - cbn [chain_plain]. unfold get_id. cbn zeta.
    cbn [length]. rewrite ids_from_S.
    match goal with
    | |- context [chain_plain ?l body ?s] => destruct (IH l s) as (IHl & IHc & IHe & IHd)
    end.
    destruct (chain_plain _ body _) as [last' st'].
    cbn [fst snd node_counter append lines] in *. subst last'. rewrite IHc, IHe, IHd.
    unfold stmt_ref, node_decl. graph_norm.
    destruct (handle_expr a) as [sh l]. graph_norm.
    split; [|split; [|split]]; try reflexivity; try lia.
    destruct (ids_from "n" _ _); [reflexivity|]. apply last_default.
Qed.

(** The statements of a branch, each edge carrying the branch's label. *)
Lemma chain_labelled_spec (lbl : string) (body : list stmt) (cur : string) (st : rstate) :
  let ids := ids_from "n" (S (node_counter st)) (length body) in
  let r := chain_labelled lbl cur body st in
  fst r = List.last ids cur
  /\ node_counter (snd r) = node_counter st + length body
  /\ edges_of (lines (snd r)) = edges_of (lines st) ++ labelled_chain lbl (cur :: ids)
  /\ decls_of (lines (snd r))
     = decls_of (lines st) ++ map (fun p => node_decl (fst p) (snd p)) (combine ids body).
Proof.
  revert cur st. induction body as [|a body IH]; intros cur st; cbn zeta.
  - cbn. rewrite !app_nil_r. repeat split; try reflexivity. lia.
  - cbn [chain_labelled]. unfold get_id. cbn zeta.
    cbn [length]. rewrite ids_from_S.
    match goal with
    | |- context [chain_labelled lbl ?l body ?s] =>
        destruct (IH l s) as (IHl & IHc & IHe & IHd)
    end.
    destruct (chain_labelled lbl _ body _) as [last' st'].
    cbn [fst snd node_counter append lines] in *. subst last'. rewrite IHc, IHe, IHd.
    unfold stmt_ref, node_decl. graph_norm.
    destruct (handle_expr a) as [sh l]. graph_norm.
    split; [|split; [|split]]; try reflexivity; try lia.
    destruct (ids_from "n" _ _); [reflexivity|]. apply last_default.
Qed.

Lemma join_ends_spec (ends : list string) (target : string) (st : rstate) :
  node_counter (join_ends ends target st) = node_counter st
  /\ edges_of (lines (join_ends ends target st))
     = edges_of (lines st) ++ map (fun b => MkEdge b None target) ends
  /\ decls_of (lines (join_ends ends target st)) = decls_of (lines st).
Proof.
  revert st. induction ends as [|b ends IH]; intros st.
  - cbn. now rewrite app_nil_r.
  - cbn [join_ends]. destruct (IH (append (Edge (bare b) None (bare target)) st))
      as (Hc & He & Hd).
    rewrite Hc, He, Hd. graph_norm. repeat split; reflexivity.
Qed.

(** The edges of a loop: into the decision, Yes into the body, along the
    body, back from its end to the decision, No to the exit, and from the
    exit to End when the loop is the last statement.  An empty body stands
    as one placeholder node. *)
Lemma handle_loop_edges (loop_node : stmt) (cur : string) (is_last : bool) (st : rstate) :
  let c := node_counter st in
  let d := ("n" ++ str_of_nat (S c))%string in
  let body_ids := ids_from "n" (S (S c)) (Nat.max 1 (length (loop_body loop_node))) in
  let exit := ("n" ++ str_of_nat (S (S c) + Nat.max 1 (length (loop_body loop_node))))%string in
  let r := handle_loop loop_node cur is_last st in
  fst r = (if is_last then "End" else exit)
  /\ edges_of (lines (snd r))
     = edges_of (lines st)
       ++ [MkEdge cur None d; MkEdge d (Some "Yes") (hd d body_ids)]
       ++ chain_edges body_ids
       ++ [MkEdge (List.last body_ids d) None d; MkEdge d (Some "No") exit]
       ++ (if is_last then [MkEdge exit None "End"] else []).
Proof.
  cbn zeta. unfold handle_loop, get_id. cbn zeta.
  destruct (loop_body loop_node) as [|first others].
  - cbn [length Nat.max ids_from seq map hd List.last chain_edges app].
    replace (S (S (node_counter st)) + 1) with (S (S (S (node_counter st)))) by lia.
    destruct is_last; graph_norm; split; reflexivity.
  - cbn [length Nat.max]. rewrite ids_from_S. cbn [hd].
    match goal with
    | |- context [chain_plain ?l others ?s] =>
        destruct (chain_plain_spec others l s) as (Hl & Hc & He & _)
    end.
    destruct (chain_plain _ others _) as [body_last st'].
    cbn [fst snd node_counter append lines] in *. subst body_last.
    replace (S (S (node_counter st)) + S (length others))
      with (S (S (S (node_counter st)) + length others)) by lia.
    rewrite <- Hc.
    rewrite (last_cons_default _ _ ("n" ++ str_of_nat (S (node_counter st)))%string).
    destruct is_last; graph_norm; rewrite He; graph_norm;
      rewrite ?ref_id_stmt_ref; split; reflexivity.
Qed.

Lemma merge_spec (ends : list string) (is_last : bool) (st : rstate) :
  let target := if is_last then "End"
                else ("n" ++ str_of_nat (S (node_counter st)))%string in
  let r := merge ends is_last st in
  fst r = target
  /\ node_counter (snd r) = (if is_last then node_counter st else S (node_counter st))
  /\ edges_of (lines (snd r))
     = edges_of (lines st) ++ map (fun b => MkEdge b None target) ends
  /\ decls_of (lines (snd r)) = decls_of (lines st).
Proof.
  cbn zeta. unfold merge, get_id. destruct is_last; cbn zeta.
  - destruct (join_ends_spec ends "End" st) as (Hc & He & Hd).
    cbn [fst snd]. now rewrite Hc, He, Hd.
  - match goal with
    | |- context [join_ends ends ?t ?s] =>
        destruct (join_ends_spec ends t s) as (Hc & He & Hd)
    end.
    cbn [fst snd]. now rewrite Hc, He, Hd.
Qed.

(** One branch of a conditional: its statements under the branch's label,
    or the placeholder of an empty branch. *)
Lemma branch_spec (lbl text : string) (body : list stmt) (d : string) (st : rstate) :
  let ids := ids_from "n" (S (node_counter st)) (Nat.max 1 (length body)) in
  let r := match body with
           | [] =>
               let '(id, st) := get_id st in
               (id, append (Edge (bare d) (Some lbl) (placeholder id text)) st)
           | _ :: _ => chain_labelled lbl d body st
           end in
  fst r = List.last ids d
  /\ node_counter (snd r) = node_counter st + Nat.max 1 (length body)
  /\ edges_of (lines (snd r)) = edges_of (lines st) ++ labelled_chain lbl (d :: ids)
  /\ decls_of (lines (snd r)) = decls_of (lines st) ++ branch_decls ids body text.
Proof.
  cbn zeta. destruct body as [|a body].
  - unfold get_id. cbn. graph_norm. repeat split; try reflexivity. lia.
  - destruct (chain_labelled_spec lbl (a :: body) d st) as (Hl & Hc & He & Hd).
    cbn [length Nat.max] in *. unfold branch_decls. now rewrite Hl, Hc, He, Hd.
Qed.


End PyHandlers.

(** ** C2: loops *)

Lemma last_in {A : Type} (l : list A) (a d : A) : In (List.last (a :: l) d) (a :: l).
Proof.
  revert a. induction l as [|b l IH]; intros a; [now left|].
  right. change (In (List.last (b :: l) d) (b :: l)). apply IH.
Qed.

Lemma max_1_pos (k : nat) : Nat.max 1 k = S (Nat.pred (Nat.max 1 k)).
Proof. lia. Qed.

(** The edges of a Python loop that enter its decision: the entry edge and
    one back-edge, from the last node of the body. *)
Lemma py_loop_in_edges (loop_node : python_parser.stmt) (cur : string) (is_last : bool)
  (st : python_parser.rstate) :
  let c := python_parser.node_counter st in
  let d := ("n" ++ str_of_nat (S c))%string in
  let k := Nat.max 1 (length (python_parser.loop_body loop_node)) in
  let body_last := ("n" ++ str_of_nat (S c + k))%string in
  let r := python_parser.handle_loop loop_node cur is_last st in
  exists added : list edge,
    edges_of (python_parser.lines (snd r)) = edges_of (python_parser.lines st) ++ added
    /\ in_edges d added = [MkEdge cur None d; MkEdge body_last None d].
Proof.
  cbv zeta. destruct (handle_loop_edges loop_node cur is_last st) as [_ He].
  cbv zeta in He. eexists. split; [exact He|].
  set (c := python_parser.node_counter st) in *.
  set (k := Nat.max 1 (length (python_parser.loop_body loop_node))) in *.
  assert (Hk : k = S (Nat.pred k)) by (unfold k; lia).
  assert (Hfresh : ~ In ("n" ++ str_of_nat (S c))%string (ids_from "n" (S (S c)) k))
    by (apply (pid_not_in_later "n"); lia).
  assert (Hlast : List.last (ids_from "n" (S (S c)) k) ("n" ++ str_of_nat (S c))%string
                  = ("n" ++ str_of_nat (S c + k))%string).
  { rewrite last_ids_from by lia.
    now replace (S (S c) + k - 1) with (S c + k) by lia. }
  rewrite Hlast.
  assert (Hhd : exists i rest, ids_from "n" (S (S c)) k = i :: rest).
  { rewrite Hk, ids_from_S. eauto. }
  destruct Hhd as (i & rest & Hids). rewrite Hids in *. cbn [hd].
  rewrite !in_edges_app.
  rewrite (in_edges_chain _ i rest) by (intros H; apply Hfresh; now right).
  cbn [in_edges filter dst app].
  unfold str_eqb at 1. rewrite String.eqb_refl.
  rewrite (str_eqb_false_of_not_in _ i rest Hfresh).
  unfold str_eqb at 1. rewrite String.eqb_refl.
  replace (str_eqb ("n" ++ str_of_nat (S (S c) + k)) ("n" ++ str_of_nat (S c))) with false
    by (symmetry; rewrite (pid_eqb "n"); apply Nat.eqb_neq; lia).
  destruct is_last; reflexivity.
Qed.

(** The edges of a Java for or while loop with a body: the entry edge, the
    True edge into the one body node, and the back-edge from the body node
    to the loop's decision. *)
Lemma java_loop_edges (is_for : bool) (cond : string) (body : list java_parser.node)
  (first last : option string) (st : java_parser.rstate) :
  body <> [] ->
  let nd := if is_for then java_parser.for_ cond body else java_parser.while_ cond body in
  let cond_n := ("N" ++ str_of_nat (S (java_parser.id_counter st)))%string in
  let body_n := ("N" ++ str_of_nat (S (S (java_parser.id_counter st))))%string in
  let r := java_parser.render_node nd first last st in
  snd (fst r) = Some cond_n
  /\ java_parser.edges (snd r)
     = java_parser.edges st ++ JSpec.enter_edges last (Some cond_n)
       ++ [ java_parser.JEdge (Some cond_n) (Some body_n) (Some "True");
            java_parser.JEdge (Some body_n) (Some cond_n) None ].
Proof.
  intros Hbody. destruct body as [|b body]; [easy|].
  destruct is_for, last as [l|]; cbn; rewrite <- ?app_assoc; split; reflexivity.
Qed.

(** The edges of a Java do-while: after the body's own edges and the entry
    edge come the edge from the end of the body to the decision and the True
    edge from the decision back to the first node of the body. *)
Lemma java_do_while_edges (cond : string) (body : list java_parser.node)
  (first last : option string) (st : java_parser.rstate) :
  let b := java_parser.render_block body st in
  let body_first := fst (fst b) in
  let body_last := snd (fst b) in
  let cond_n := ("N" ++ str_of_nat (S (java_parser.id_counter (snd b))))%string in
  let r := java_parser.render_node (java_parser.do_while cond body) first last st in
  snd (fst r) = Some cond_n
  /\ java_parser.edges (snd r)
     = java_parser.edges (snd b) ++ JSpec.enter_edges last body_first
       ++ [ java_parser.JEdge body_last (Some cond_n) None;
            java_parser.JEdge (Some cond_n) body_first (Some "True") ].
Proof.
  cbv zeta. cbn [java_parser.render_node].
  change (java_parser.render_block_with java_parser.render_node body st)
    with (java_parser.render_block body st).
  destruct (java_parser.render_block body st) as [[bf bl] st1].
  destruct last as [l|]; cbn; rewrite <- ?app_assoc; split; reflexivity.
Qed.

(** C2, as the renderers have it.  A top-level Python loop has, among the
    edges it adds, exactly two into its decision node: the entry edge and
    one back-edge from the last node of its body.  A Java for or while loop
    with a body adds one back-edge, from its body node to its decision
    node.  A Java do-while adds a True edge from its decision node back to
    the first node of its body.  The C adapter draws a sequence without
    conditionals, loops included, as a chain of single nodes, a loop as a
    rectangle: no edge returns to a node drawn before. *)
Theorem loop_back_edges :
  (forall (loop_node : python_parser.stmt) (cur : string) (is_last : bool)
          (st : python_parser.rstate),
     let c := python_parser.node_counter st in
     let d := ("n" ++ str_of_nat (S c))%string in
     let k := Nat.max 1 (length (python_parser.loop_body loop_node)) in
     let body_last := ("n" ++ str_of_nat (S c + k))%string in
     let r := python_parser.handle_loop loop_node cur is_last st in
     exists added : list edge,
       edges_of (python_parser.lines (snd r)) = edges_of (python_parser.lines st) ++ added
       /\ in_edges d added = [MkEdge cur None d; MkEdge body_last None d])
  /\
  (forall (is_for : bool) (cond : string) (body : list java_parser.node)
          (first last : option string) (st : java_parser.rstate),
     body <> [] ->
     let nd := if is_for then java_parser.for_ cond body else java_parser.while_ cond body in
     let cond_n := ("N" ++ str_of_nat (S (java_parser.id_counter st)))%string in
     let body_n := ("N" ++ str_of_nat (S (S (java_parser.id_counter st))))%string in
     java_parser.edges (snd (java_parser.render_node nd first last st))
     = java_parser.edges st ++ JSpec.enter_edges last (Some cond_n)
       ++ [ java_parser.JEdge (Some cond_n) (Some body_n) (Some "True");
            java_parser.JEdge (Some body_n) (Some cond_n) None ])
  /\
  (forall (cond : string) (body : list java_parser.node) (first last : option string)
          (st : java_parser.rstate),
     let b := java_parser.render_block body st in
     let cond_n := ("N" ++ str_of_nat (S (java_parser.id_counter (snd b))))%string in
     java_parser.edges
       (snd (java_parser.render_node (java_parser.do_while cond body) first last st))
     = java_parser.edges (snd b) ++ JSpec.enter_edges last (fst (fst b))
       ++ [ java_parser.JEdge (snd (fst b)) (Some cond_n) None;
            java_parser.JEdge (Some cond_n) (fst (fst b)) (Some "True") ])
  /\
  (forall ast : list c_parser.node,
     forallb (fun nd => negb (CSpec.is_if nd)) ast = true ->
     let ks := CSpec.kept ast None in
     let ids := ids_from "N" 1 (length ks) in
     edges_of (c_parser.render ast) = chain_edges ("Start" :: ids ++ ["End"])
     /\ decls_of (c_parser.render ast)
        = ("Start", Circle, "Start")
          :: map (fun p => CSpec.node_decl (fst p) (snd p)) (combine ids ks)
          ++ [("End", Circle, "End")]
     /\ (forall (id : string) (nd : c_parser.node),
           match nd with
           | c_parser.stmt _ =>
               snd (fst (CSpec.node_decl id nd)) = Rect
               \/ snd (fst (CSpec.node_decl id nd)) = Para
           | _ => snd (fst (CSpec.node_decl id nd)) = Rect
           end)).
Proof.
  split; [|split; [|split]].
  - exact py_loop_in_edges.
  - intros is_for cond body first last st Hbody. cbv zeta.
    apply (java_loop_edges is_for cond body first last st Hbody).
  - intros cond body first last st. cbv zeta.
    apply (java_do_while_edges cond body first last st).
  - intros ast Hast ks ids.
    destruct (render_from_chain ast Hast "Start" None c_parser.init_state) as [He Hd].
    split; [exact He|]. split; [exact Hd|].
    intros id nd. unfold CSpec.node_decl. cbn [fst snd].
    destruct nd; try reflexivity.
    destruct (CSpec.kind_of _); [right|left|left]; reflexivity.
Qed.

Lemma loop_back_edges_witness :
  java_parser.edges
    (snd (java_parser.render_node
            (java_parser.while_ "n < 5" [java_parser.stmt "n = n + 1;"]) None (Some "N2")
            (java_parser.RState [] [] 2)))
  = [ java_parser.JEdge (Some "N2") (Some "N3") None;
      java_parser.JEdge (Some "N3") (Some "N4") (Some "True");
      java_parser.JEdge (Some "N4") (Some "N3") None ]
  /\ edges_of (c_parser.render
                 [ c_parser.while_ "n < 5" [c_parser.stmt "n = n + 1;"];
                   c_parser.stmt "return n;" ])
     = [MkEdge "Start" None "N1"; MkEdge "N1" None "N2"; MkEdge "N2" None "End"].
Proof.
  split.
  - refine (proj1 (proj2 loop_back_edges) false "n < 5" [java_parser.stmt "n = n + 1;"]
              None (Some "N2") (java_parser.RState [] [] 2) _).
    discriminate.
  - refine (proj1 (proj2 (proj2 (proj2 loop_back_edges))
                     [ c_parser.while_ "n < 5" [c_parser.stmt "n = n + 1;"];
                       c_parser.stmt "return n;" ] _)).
    reflexivity.
Defined.

(** C2 does not hold as stated: the C adapter recognises the while loop of
    [while (n < 5) { n = n + 1; }] and draws it as one rectangle between
    Start and End.  No edge enters that node but the one from Start: there
    is no back-edge. *)
Lemma c_while_loop_has_no_back_edge :
  c_parser._parse_block "while (n < 5) { n = n + 1; }"
    = Some [c_parser.while_ "n < 5" [c_parser.stmt "n = n + 1;"]]
  /\ c_parser.code_to_flowchart "while (n < 5) { n = n + 1; }"
     = Some (join nl [ "graph TD"; "Start((Start))";
                       "N1[" ++ dq ++ "n &lt; 5" ++ dq ++ "]";
                       "Start --> N1"; "N1 --> End"; "End((End))" ])%string
  /\ in_edges "N1"
       (edges_of (c_parser.render [c_parser.while_ "n < 5" [c_parser.stmt "n = n + 1;"]]))
     = [MkEdge "Start" None "N1"].
Proof. repeat split; vm_compute; reflexivity. Qed.

(** ** C4: conditionals and merge nodes *)



(** ** C8: empty branches *)

Section EmptyBranches.
Import python_parser PySpec.

#[local] Arguments handle_expr : simpl never.
#[local] Arguments str_of_nat : simpl never.
#[local] Arguments String.append : simpl never.
#[local] Arguments safe_label : simpl never.




End EmptyBranches.


(** ** C6: the edges that leave a decision node *)

Lemma out_edges_labelled_from (lbl d i : string) (rest : list string) :
  ~ In d (i :: rest) ->
  out_edges d (labelled_chain lbl (d :: i :: rest)) = [MkEdge d (Some lbl) i].
Proof.
  intros Hd. cbn [labelled_chain out_edges filter src].
  unfold str_eqb at 1. rewrite String.eqb_refl. f_equal.
  now apply out_edges_labelled_chain.
Qed.

Lemma out_edges_branch (lbl d : string) (ids : list string) :
  ~ In d ids ->
  out_edges d (branch_edges d lbl ids)
  = match ids with [] => [] | i :: _ => [MkEdge d (Some lbl) i] end.
Proof.
  intros Hd. destruct ids as [|i rest]; [reflexivity|].
  cbn [branch_edges out_edges filter src].
  unfold str_eqb at 1. rewrite String.eqb_refl. f_equal.
  now apply out_edges_chain.
Qed.

Lemma out_edges_tail (lbl d target : string) (ids : list string) :
  ~ In d ids ->
  out_edges d [tail_edge d lbl ids target]
  = match ids with [] => [MkEdge d (Some lbl) target] | _ :: _ => [] end.
Proof.
  intros Hd. destruct ids as [|i rest]; cbn [tail_edge out_edges filter src].
  - unfold str_eqb. now rewrite String.eqb_refl.
  - rewrite (str_eqb_false_of_not_in d (List.last (i :: rest) d) []); [reflexivity|].
    intros [E|[]]. apply Hd. rewrite <- E. apply last_in.
Qed.

(** The two edges that leave the decision of a C conditional. *)
Lemma c_if_out_edges (d prev target : string) (ids_t ids_e : list string) :
  prev <> d -> ~ In d ids_t -> ~ In d ids_e ->
  let added := [MkEdge prev None d]
               ++ branch_edges d "Yes" ids_t ++ branch_edges d "No" ids_e
               ++ [tail_edge d "Yes" ids_t target; tail_edge d "No" ids_e target] in
  length (out_edges d added) = 2
  /\ NoDup (out_labels d added)
  /\ In (Some "Yes") (out_labels d added) /\ In (Some "No") (out_labels d added).
Proof.
  intros Hprev Ht He. cbv zeta. unfold out_labels.
  change [tail_edge d "Yes" ids_t target; tail_edge d "No" ids_e target]
    with ([tail_edge d "Yes" ids_t target] ++ [tail_edge d "No" ids_e target]).
  rewrite !out_edges_app.
  rewrite (out_edges_branch "Yes" d ids_t Ht), (out_edges_branch "No" d ids_e He).
  rewrite (out_edges_tail "Yes" d target ids_t Ht), (out_edges_tail "No" d target ids_e He).
  cbn [out_edges filter src].
  rewrite (str_eqb_false_of_not_in d prev []) by (intros [E|[]]; now apply Hprev).
  destruct ids_t, ids_e; cbn; repeat split; auto;
    repeat constructor; cbn; intuition discriminate.
Qed.

Lemma ids_from_pos (prefix : string) (first k : nat) :
  exists rest, ids_from prefix first (Nat.max 1 k)
               = (prefix ++ str_of_nat first)%string :: rest.
Proof.
  rewrite (max_1_pos k), ids_from_S. eauto.
Qed.

Lemma last_fresh_neq (c : ascii) (d first k : nat) (dflt : string) :
  d < first ->
  str_eqb (List.last (ids_from (String c EmptyString) first (Nat.max 1 k)) dflt)
          (String c EmptyString ++ str_of_nat d) = false.
Proof.
  intros Hd. rewrite last_ids_from by lia. rewrite pid_eqb. apply Nat.eqb_neq. lia.
Qed.

Lemma last_fresh_neq_cons (c : ascii) (d first k : nat) (dflt : string) (es : list edge)
  (lbl : option string) (target : string) :
  d < first ->
  out_edges (String c EmptyString ++ str_of_nat d)
    (MkEdge (List.last (ids_from (String c EmptyString) first (Nat.max 1 k)) dflt) lbl target
     :: es)
  = out_edges (String c EmptyString ++ str_of_nat d) es.
Proof.
  intros Hd. cbn [out_edges filter src]. now rewrite last_fresh_neq.
Qed.

(** The two edges that leave the decision of a Python conditional without
    elif: Yes into the then-branch, No into the else-branch. *)
Lemma py_if_out_edges (c : nat) (cur target : string) (ky kn : nat) :
  let d := ("n" ++ str_of_nat (S c))%string in
  let ids_y := ids_from "n" (S (S c)) (Nat.max 1 ky) in
  let ids_n := ids_from "n" (S (S c) + Nat.max 1 ky) (Nat.max 1 kn) in
  cur <> d ->
  out_edges d ([MkEdge cur None d]
               ++ labelled_chain "Yes" (d :: ids_y) ++ labelled_chain "No" (d :: ids_n)
               ++ [ MkEdge (List.last ids_y d) None target;
                    MkEdge (List.last ids_n d) None target ])
  = [ MkEdge d (Some "Yes") ("n" ++ str_of_nat (S (S c)))%string;
      MkEdge d (Some "No") ("n" ++ str_of_nat (S (S c) + Nat.max 1 ky))%string ].
Proof.
  cbv zeta. intros Hcur.
  assert (Hy : ~ In ("n" ++ str_of_nat (S c))%string (ids_from "n" (S (S c)) (Nat.max 1 ky)))
    by (apply (pid_not_in_later "n"); lia).
  assert (Hn : ~ In ("n" ++ str_of_nat (S c))%string
                    (ids_from "n" (S (S c) + Nat.max 1 ky) (Nat.max 1 kn)))
    by (apply (pid_not_in_later "n"); lia).
  rewrite !out_edges_app.
  cbn [out_edges filter src].
  rewrite (str_eqb_false_of_not_in _ cur []) by (intros [E|[]]; now apply Hcur).
  rewrite (last_fresh_neq "n") by lia. rewrite (last_fresh_neq "n") by lia.
  destruct (ids_from_pos "n" (S (S c)) ky) as [ry Ey].
  destruct (ids_from_pos "n" (S (S c) + Nat.max 1 ky) kn) as [rn En].
  rewrite Ey, En in *.
  change (filter (fun e => str_eqb (src e) ("n" ++ str_of_nat (S c))))
    with (out_edges ("n" ++ str_of_nat (S c))).
  rewrite !out_edges_labelled_from by assumption. reflexivity.
Qed.

(** The two edges that leave the decision of a Python loop. *)
Lemma py_loop_out_edges (loop_node : python_parser.stmt) (cur : string) (is_last : bool)
  (st : python_parser.rstate) :
  let c := python_parser.node_counter st in
  let d := ("n" ++ str_of_nat (S c))%string in
  let k := Nat.max 1 (length (python_parser.loop_body loop_node)) in
  let r := python_parser.handle_loop loop_node cur is_last st in
  cur <> d ->
  exists added : list edge,
    edges_of (python_parser.lines (snd r)) = edges_of (python_parser.lines st) ++ added
    /\ out_edges d added
       = [ MkEdge d (Some "Yes") ("n" ++ str_of_nat (S (S c)))%string;
           MkEdge d (Some "No") ("n" ++ str_of_nat (S (S c) + k))%string ].
Proof.
  cbv zeta. intros Hcur. destruct (handle_loop_edges loop_node cur is_last st) as [_ He].
  cbv zeta in He. eexists. split; [exact He|].
  set (c := python_parser.node_counter st) in *.
  set (k := length (python_parser.loop_body loop_node)) in *.
  assert (Hfresh : ~ In ("n" ++ str_of_nat (S c))%string (ids_from "n" (S (S c)) (Nat.max 1 k)))
    by (apply (pid_not_in_later "n"); lia).
  rewrite !out_edges_app.
  rewrite (last_fresh_neq_cons "n" (S c) (S (S c)) k) by lia.
  destruct (ids_from_pos "n" (S (S c)) k) as [rest Eids].
  rewrite Eids in *.
  rewrite (out_edges_chain _ _ rest) by exact Hfresh.
  cbn [out_edges filter src app hd].
  rewrite (str_eqb_false_of_not_in _ cur []) by (intros [E|[]]; now apply Hcur).
  unfold str_eqb at 1. rewrite String.eqb_refl.
  unfold str_eqb at 1. rewrite String.eqb_refl.
  destruct is_last; [|reflexivity].
  cbn [out_edges filter src].
  replace (str_eqb ("n" ++ str_of_nat (S (S c) + Nat.max 1 k)) ("n" ++ str_of_nat (S c)))
    with false by (symmetry; rewrite (pid_eqb "n"); apply Nat.eqb_neq; lia).
  reflexivity.
Qed.

Section PyMatch.
Import python_parser PySpec.

#[local] Arguments handle_expr : simpl never.
#[local] Arguments str_of_nat : simpl never.
#[local] Arguments String.append : simpl never.
#[local] Arguments safe_label : simpl never.

Lemma handle_cases_spec (match_id : string) (cases : list (option string * list stmt))
  (st : rstate) :
  let c := node_counter st in
  let r := handle_cases match_id cases st in
  fst r = cases_ends c cases
  /\ node_counter (snd r) = cases_counter c cases
  /\ edges_of (lines (snd r)) = edges_of (lines st) ++ cases_edges match_id c cases.
Proof.
  revert st. induction cases as [|[pattern body] cases IH]; intros st; cbv zeta.
  - cbn. now rewrite app_nil_r.
  - cbn [handle_cases cases_ends cases_counter cases_edges snd].
    assert (Hb : forall lbl : string,
      let r := match body with
               | first_stmt :: others =>
                   let '(first_case_id, st0) := get_id st in
                   chain_plain first_case_id others
                     (append (Edge (bare match_id) (Some lbl)
                                (stmt_ref first_case_id first_stmt)) st0)
               | [] =>
                   let '(empty_case_id, st0) := get_id st in
                   (empty_case_id,
                    append (Edge (bare match_id) (Some lbl)
                              (placeholder empty_case_id "No action")) st0)
               end in
      let k := Nat.max 1 (length body) in
      fst r = ("n" ++ str_of_nat (node_counter st + k))%string
      /\ node_counter (snd r) = node_counter st + k
      /\ edges_of (lines (snd r))
         = edges_of (lines st)
           ++ MkEdge match_id (Some lbl)
                (hd match_id (ids_from "n" (S (node_counter st)) k))
              :: chain_edges (ids_from "n" (S (node_counter st)) k)).
    { intros lbl. cbv zeta. destruct body as [|b body]; unfold get_id; cbv zeta.
      - cbn [length Nat.max fst snd append lines node_counter].
        replace (node_counter st + 1) with (S (node_counter st)) by lia.
        graph_norm. repeat split; reflexivity.
      - match goal with
        | |- context [chain_plain ?l body ?s] =>
            destruct (chain_plain_spec body l s) as (Hl & Hc & He & _)
        end.
        cbn [length Nat.max]. rewrite ids_from_S. cbn [hd].
        destruct (chain_plain _ body _) as [case_last st1].
        cbn [fst snd append lines node_counter] in *. rewrite Hl, Hc, He.
        graph_norm. rewrite ref_id_stmt_ref.
        split; [|split; [lia|reflexivity]].
        rewrite <- (last_cons_default _ _ EmptyString), <- ids_from_S.
        rewrite last_ids_from by lia.
        now replace (S (node_counter st) + S (length body) - 1)
          with (node_counter st + S (length body)) by lia. }
    specialize (Hb (case_label (pattern, body))). cbv zeta in Hb.
    change (match pattern with
            | Some p => safe_label ("case " ++ strip p)
            | None => "case (default)"
            end) with (case_label (pattern, body)).
    match type of Hb with
    | fst ?e = _ /\ _ => destruct e as [case_last st1]
    end.
    cbn [fst snd] in Hb. destruct Hb as (Hl & Hc & He).
    destruct (IH st1) as (IHl & IHc & IHe).
    destruct (handle_cases match_id cases st1) as [ends st2].
    cbn [fst snd] in *. rewrite IHl, IHc, IHe, He, Hl, Hc.
    rewrite <- app_assoc. repeat split; reflexivity.
Qed.

(** Every end of a case is a node created after the counter stood at [c]. *)
Lemma cases_ends_fresh (c : nat) (cases : list (option string * list stmt)) (x : string) :
  In x (cases_ends c cases) -> exists j, c < j /\ x = ("n" ++ str_of_nat j)%string.
Proof.
  revert c. induction cases as [|cs cases IH]; intros c Hin; [easy|].
  cbn [cases_ends] in Hin. destruct Hin as [<-|Hin].
  - eexists. split; [|reflexivity]. lia.
  - destruct (IH _ Hin) as (j & Hj & ->). exists j. split; [lia|reflexivity].
Qed.

(** The edges that leave the match node among those of the cases: one per
    case, labelled by the case. *)
Lemma cases_out_labels (m c : nat) (cases : list (option string * list stmt)) :
  m <= c ->
  out_labels ("n" ++ str_of_nat m) (cases_edges ("n" ++ str_of_nat m) c cases)
  = map (fun cs => Some (case_label cs)) cases.
Proof.
  revert c. induction cases as [|cs cases IH]; intros c Hm; [reflexivity|].
  cbn [cases_edges map]. unfold out_labels in *. rewrite out_edges_app.
  cbn [out_edges filter src]. unfold str_eqb at 1. rewrite String.eqb_refl.
  destruct (ids_from_pos "n" (S c) (length (snd cs))) as [rest Eids]. rewrite Eids.
  change (filter (fun e => str_eqb (src e) ("n" ++ str_of_nat m)))
    with (out_edges ("n" ++ str_of_nat m)).
  rewrite out_edges_chain.
  - cbn [app map elabel]. f_equal. apply IH. lia.
  - rewrite <- Eids. apply (pid_not_in_later "n"). lia.
Qed.

Lemma out_edges_joins (d target : string) (ends : list string) :
  (forall x, In x ends -> str_eqb x d = false) ->
  out_edges d (map (fun b => MkEdge b None target) ends) = [].
Proof.
  induction ends as [|x xs IH]; intros H; [reflexivity|].
  cbn [map out_edges filter src]. rewrite (H x) by now left.
  apply IH. intros y Hy. apply H. now right.
Qed.

(** The edges a match adds, and those of them that leave the match node. *)
Lemma handle_match_out_labels (subject : string) (cases : list (option string * list stmt))
  (last : string) (is_last : bool) (st : rstate) :
  let match_id := ("n" ++ str_of_nat (S (node_counter st)))%string in
  last <> match_id ->
  exists added : list edge,
    edges_of (lines (snd (handle_match subject cases last is_last st)))
    = edges_of (lines st) ++ added
    /\ out_labels match_id added = map (fun cs => Some (case_label cs)) cases.
Proof.
  cbv zeta. intros Hlast. unfold handle_match, get_id. cbv zeta.
  match goal with
  | |- context [handle_cases ?m cases ?s] =>
      destruct (handle_cases_spec m cases s) as (Hl & Hc & He)
  end.
  destruct (handle_cases _ cases _) as [ends st1].
  cbn [fst snd append lines node_counter] in Hl, Hc, He.
  destruct (merge_spec ends is_last st1) as (_ & _ & Hme & _).
  cbv zeta in Hme. rewrite Hme, He. graph_norm.
  eexists. split; [reflexivity|].
  unfold out_labels.
  cbn [out_edges filter src app].
  rewrite (str_eqb_false_of_not_in _ last []) by (intros [E|[]]; now apply Hlast).
  change (filter (fun e => str_eqb (src e) ("n" ++ str_of_nat (S (node_counter st)))))
    with (out_edges ("n" ++ str_of_nat (S (node_counter st)))).
  rewrite out_edges_app, map_app.
  fold (out_labels ("n" ++ str_of_nat (S (node_counter st)))
          (cases_edges ("n" ++ str_of_nat (S (node_counter st))) (S (node_counter st)) cases)).
  rewrite cases_out_labels by lia.
  rewrite out_edges_joins; [now rewrite app_nil_r|].
  subst ends. intros x Hx. apply cases_ends_fresh in Hx as (j & Hj & ->).
  rewrite (pid_eqb "n"). apply Nat.eqb_neq. lia.
Qed.

End PyMatch.

(** The edges of a Java switch: the entry edge, then for each case the edge
    from the switch node under the label case and the edge from the case
    node to the merge node. *)
Lemma java_switch_edges (cond : string) (cases : list (string * list string))
  (first last : option string) (st : java_parser.rstate) :
  let c := java_parser.id_counter st in
  let switch_n := ("N" ++ str_of_nat (S c))%string in
  let merge_n := ("N" ++ str_of_nat (S (S c)))%string in
  let r := java_parser.render_node (java_parser.switch cond cases) first last st in
  java_parser.edges (snd r)
  = java_parser.edges st ++ JSpec.enter_edges last (Some switch_n)
    ++ flat_map (fun case_n =>
                   [ java_parser.JEdge (Some switch_n) (Some case_n) (Some "case");
                     java_parser.JEdge (Some case_n) (Some merge_n) None ])
                (ids_from "N" (S (S (S c))) (length cases)).
Proof.
  cbv zeta. cbn [java_parser.render_node].
  unfold java_parser.add_node_diamond, java_parser.add_merge, java_parser.new_id,
    java_parser.enter.
  cbv zeta.
  assert (H : forall (cs : list (string * list string)) (sw mg : string)
                     (s : java_parser.rstate),
    java_parser.edges (java_parser.render_cases sw mg cs s)
    = java_parser.edges s
      ++ flat_map (fun case_n =>
                     [ java_parser.JEdge (Some sw) (Some case_n) (Some "case");
                       java_parser.JEdge (Some case_n) (Some mg) None ])
                  (ids_from "N" (S (java_parser.id_counter s)) (length cs))
    /\ java_parser.id_counter (java_parser.render_cases sw mg cs s)
       = java_parser.id_counter s + length cs).
  { induction cs as [|[label body] cs IH]; intros sw mg s.
    - cbn. rewrite app_nil_r. split; [reflexivity|lia].
    - cbn [java_parser.render_cases]. unfold java_parser.add_node_rect, java_parser.new_id.
      cbv zeta. cbn [length]. rewrite ids_from_S.
      match goal with
      | |- context [java_parser.render_cases sw mg cs ?s'] =>
          destruct (IH sw mg s') as [IHe IHc]
      end.
      rewrite IHe, IHc.
      cbn [java_parser.push_edge java_parser.push_node java_parser.edges
           java_parser.id_counter flat_map app].
      rewrite <- !app_assoc. split; [reflexivity|lia]. }
  match goal with
  | |- context [java_parser.render_cases ?sw ?mg cases ?s] =>
      destruct (H cases sw mg s) as [He _]
  end.
  cbn [fst snd]. rewrite He.
  destruct last as [l|];
    cbn [java_parser.is_none java_parser.push_edge java_parser.push_node
         java_parser.edges java_parser.id_counter JSpec.enter_edges app];
    rewrite <- ?app_assoc; reflexivity.
Qed.

(** *** The Python renderer: conditionals with elif *)

Section ElifInd.
Import python_parser.
Variable P : stmt -> Prop.
Hypothesis Hif : forall test body orelse text,
  match orelse with [e] => P e | _ => True end -> P (If test body orelse text).
Hypothesis Hother : forall s, match s with If _ _ _ _ => False | _ => True end -> P s.

(** Induction along a chain of elif clauses. *)
Lemma elif_chain_ind : forall s, P s.
Proof.
  refine (fix IH (s : stmt) : P s :=
    match s with
    | If test body orelse text =>
        Hif test body orelse text
          (match orelse as o return match o with [e] => P e | _ => True end with
           | [] => I
           | e :: l =>
               match l as l0 return match e :: l0 with [e'] => P e' | _ => True end with
               | [] => IH e
               | _ :: _ => I
               end
           end)
    | Assign a b c => Hother (Assign a b c) I
    | Expr a b => Hother (Expr a b) I
    | Match a b c => Hother (Match a b c) I
    | For a b c d => Hother (For a b c d) I
    | While a b c => Hother (While a b c) I
    | OtherStmt a b => Hother (OtherStmt a b) I
    end).
Qed.
End ElifInd.

Section PyElif.
Import python_parser PySpec.

#[local] Arguments handle_expr : simpl never.
#[local] Arguments str_of_nat : simpl never.
#[local] Arguments String.append : simpl never.
#[local] Arguments safe_label : simpl never.

Lemma py_later_fresh (c k : nat) : c < k -> later_id c ("n" ++ str_of_nat k)%string.
Proof. intros H. right. exists k. split; [exact H|reflexivity]. Qed.

Lemma py_later_mono (c c' : nat) (s : string) : c <= c' -> later_id c' s -> later_id c s.
Proof.
  intros Hc [->|(k & Hk & ->)]; [now left|]. right. exists k. split; [lia|reflexivity].
Qed.

Lemma py_later_ids (c first count : nat) :
  c < first -> Forall (later_id c) (ids_from "n" first count).
Proof.
  intros Hc. apply Forall_forall. intros x Hx.
  apply in_ids_from in Hx as (j & Hj & ->). apply py_later_fresh. lia.
Qed.

Lemma py_later_neq (c d : nat) (s : string) :
  d <= c -> later_id c s -> str_eqb s ("n" ++ str_of_nat d) = false.
Proof.
  intros Hd [->|(k & Hk & ->)].
  - reflexivity.
  - rewrite (pid_eqb "n"). apply Nat.eqb_neq. lia.
Qed.

Lemma out_edges_later (c d : nat) (es : list edge) :
  d <= c -> Forall (fun e => later_id c (src e)) es ->
  out_edges ("n" ++ str_of_nat d) es = [].
Proof.
  intros Hd. induction 1 as [|e es He _ IH]; [reflexivity|].
  cbn [out_edges filter]. rewrite (py_later_neq c d _ Hd He). exact IH.
Qed.

Lemma labelled_chain_later (c : nat) (lbl : string) (ids : list string) :
  Forall (later_id c) ids ->
  Forall (fun e => later_id c (src e)) (labelled_chain lbl ids).
Proof.
  induction 1 as [|a ids Ha Hids IH]; [constructor|].
  destruct ids as [|b ids]; [constructor|].
  cbn [labelled_chain]. constructor; [exact Ha|exact IH].
Qed.

Lemma last_later (c : nat) (ids : list string) (d : string) :
  ids <> [] -> Forall (later_id c) ids -> later_id c (List.last ids d).
Proof.
  intros Hne H. destruct ids as [|a ids]; [easy|].
  eapply Forall_forall; [exact H|]. apply last_in.
Qed.

Lemma ids_from_max_nonnil (first k : nat) : ids_from "n" first (Nat.max 1 k) <> [].
Proof. destruct (ids_from_pos "n" first k) as [rest ->]. discriminate. Qed.

(** The edges of a conditional, elif chains included. *)
Lemma py_if_grows : forall node, if_grows node.
Proof.
  apply elif_chain_ind; [|intros s Hs cur is_last st; destruct s; easy].
  intros test body orelse text IH cur is_last st. cbv zeta.
  remember (handle_if_elif_else (If test body orelse text) cur is_last st) as r eqn:Er.
  cbn [handle_if_elif_else] in Er. unfold get_id at 1 in Er. cbv zeta in Er.
  match type of Er with
  | context [match body with [] => _ | _ :: _ => chain_labelled "Yes" ?d body ?s end] =>
      destruct (branch_spec "Yes" "No action" body d s) as (Hyl & Hyc & Hye & _)
  end.
  cbv zeta in Hyl, Hyc, Hye.
  match type of Er with
  | context [match body with [] => ?x | _ :: _ => ?y end] =>
      destruct (match body with [] => x | _ :: _ => y end) as [yes_last st2]
  end.
  cbn [fst snd node_counter append lines] in Hyl, Hyc, Hye.
  set (c := node_counter st) in *.
  set (d := ("n" ++ str_of_nat (S c))%string) in *.
  set (ky := Nat.max 1 (length body)) in *.
  assert (Hylater : later_id (S c) yes_last).
  { rewrite Hyl. apply last_later; [apply ids_from_max_nonnil|apply py_later_ids; lia]. }
  assert (Hno :
    exists no_end st3 rest,
      match orelse with
      | [] =>
          let '(no_id, st') := get_id st2 in
          (no_id, append (Edge (bare d) (Some "No") (placeholder no_id "No action")) st')
      | [If _ _ _ _ as elif_node] => handle_if_elif_else elif_node d is_last st2
      | _ => chain_labelled "No" d orelse st2
      end = (no_end, st3)
      /\ node_counter st2 <= node_counter st3
      /\ later_id (S c) no_end
      /\ edges_of (lines st3)
         = edges_of (lines st2)
           ++ [MkEdge d (if is_elif orelse then None else Some "No")
                 ("n" ++ str_of_nat (S (S c) + ky))%string]
           ++ rest
      /\ Forall (fun e => later_id (S c) (src e)) rest).
  { assert (Hpair : forall e : string * rstate, e = (fst e, snd e)) by now intros [? ?].
    assert (Hplain : is_elif orelse = false ->
              exists no_end st3 rest,
                match orelse with
                | [] =>
                    let '(no_id, st') := get_id st2 in
                    (no_id, append (Edge (bare d) (Some "No")
                                      (placeholder no_id "No action")) st')
                | _ :: _ => chain_labelled "No" d orelse st2
                end = (no_end, st3)
                /\ node_counter st2 <= node_counter st3
                /\ later_id (S c) no_end
                /\ edges_of (lines st3)
                   = edges_of (lines st2)
                     ++ [MkEdge d (Some "No") ("n" ++ str_of_nat (S (S c) + ky))%string]
                     ++ rest
                /\ Forall (fun e => later_id (S c) (src e)) rest).
    { intros _.
      destruct (branch_spec "No" "No action" orelse d st2) as (Hnl & Hnc & Hne & _).
      cbv zeta in Hnl, Hnc, Hne.
      match type of Hnl with
      | fst ?e = _ => exists (fst e), (snd e)
      end.
      destruct (ids_from_pos "n" (S (node_counter st2)) (length orelse)) as [ids' Eids].
      exists (labelled_chain "No" (ids_from "n" (S (node_counter st2))
                                     (Nat.max 1 (length orelse)))).
      split; [apply Hpair|]. split; [lia|]. split; [|split].
      - rewrite Hnl. apply last_later; [apply ids_from_max_nonnil|].
        apply py_later_ids. lia.
      - rewrite Hne, Eids. cbn [labelled_chain app].
        replace (S (node_counter st2)) with (S (S c) + ky) by lia. reflexivity.
      - apply labelled_chain_later, py_later_ids. lia. }
    destruct orelse as [|o1 [|o2 orelse'']].
    - apply Hplain. reflexivity.
    - destruct o1 as [? ? ?|? ?|t b o x|? ? ?|? ? ? ?|? ? ?|? ?];
        try (apply Hplain; reflexivity).
      cbn [is_elif].
      specialize (IH d is_last st2). cbv zeta in IH.
      destruct IH as (Hc & Hl & rest & He & Hf).
      exists (fst (handle_if_elif_else (If t b o x) d is_last st2)),
             (snd (handle_if_elif_else (If t b o x) d is_last st2)).
      eexists. split; [apply Hpair|]. split; [lia|]. split; [|split].
      + eapply py_later_mono; [|exact Hl]. lia.
      + rewrite He. cbn [app]. replace (S (node_counter st2)) with (S (S c) + ky) by lia.
        reflexivity.
      + apply Forall_app. split.
        * apply labelled_chain_later. constructor; [apply py_later_fresh; lia|].
          apply py_later_ids. lia.
        * constructor; [cbn [src]; apply py_later_fresh; lia|].
          eapply Forall_impl; [|exact Hf]. intros e. apply py_later_mono. lia.
    - destruct o1; apply Hplain; reflexivity. }
  destruct Hno as (no_end & st3 & rest & Eno & Hc3 & Hnl & Hne & Hnf).
  rewrite Eno in Er. cbv beta iota zeta in Er. subst r.
  match goal with
  | |- context [merge ?ends is_last st3] =>
      destruct (merge_spec ends is_last st3) as (Hml & Hmc & Hme & _)
  end.
  cbv zeta in Hml, Hmc, Hme.
  split; [destruct is_last; lia|]. split.
  - rewrite Hml. destruct is_last; [now left|]. apply py_later_fresh. lia.
  - eexists. split.
    + rewrite Hme, Hne, Hye, !edges_of_app.
      cbn [edges_of flat_map edge_of ref_id bare decl app].
      rewrite <- !app_assoc. cbn [app]. reflexivity.
    + apply Forall_app. split; [exact Hnf|].
      constructor; [exact Hylater|]. constructor; [exact Hnl|constructor].
Qed.

End PyElif.

(** The two edges that leave the decision of a Python conditional: Yes into
    the then-branch, and No into the else-branch or, when the conditional
    goes on with an elif, an edge without label into the decision of the
    elif. *)
Lemma py_if_out_edges_any (test : string) (body orelse : list python_parser.stmt)
  (text cur : string) (is_last : bool) (st : python_parser.rstate) :
  let c := python_parser.node_counter st in
  let d := ("n" ++ str_of_nat (S c))%string in
  let r := python_parser.handle_if_elif_else
             (python_parser.If test body orelse text) cur is_last st in
  cur <> d ->
  exists added : list edge,
    edges_of (python_parser.lines (snd r)) = edges_of (python_parser.lines st) ++ added
    /\ out_edges d added
       = [ MkEdge d (Some "Yes") ("n" ++ str_of_nat (S (S c)))%string;
           MkEdge d (if PySpec.is_elif orelse then None else Some "No")
             ("n" ++ str_of_nat (S (S c) + Nat.max 1 (length body)))%string ].
Proof.
  cbv zeta. intros Hcur.
  destruct (py_if_grows (python_parser.If test body orelse text) cur is_last st)
    as (_ & _ & rest & He & Hf).
  eexists. split; [exact He|].
  set (c := python_parser.node_counter st) in *.
  rewrite !out_edges_app.
  rewrite (out_edges_later (S c) (S c) rest (le_n _) Hf).
  destruct (ids_from_pos "n" (S (S c)) (length body)) as [ids' Eids]. rewrite Eids.
  rewrite out_edges_labelled_from.
  2:{ rewrite <- Eids. apply (pid_not_in_later "n"). lia. }
  cbn [out_edges filter src app].
  rewrite (str_eqb_false_of_not_in _ cur []) by (intros [E|[]]; now apply Hcur).
  unfold str_eqb. rewrite String.eqb_refl. reflexivity.
Qed.

(** *** The Java renderer: where the edges of a construct start *)

(** Induction over the control tree of the Java adapter, through the blocks
    nested in it. *)
Section JavaNodeInd.
Variable P : java_parser.node -> Prop.
Hypothesis Hstmt : forall code, P (java_parser.stmt code).
Hypothesis Hif : forall clauses else_block,
  Forall (fun cl => Forall P (snd cl)) clauses ->
  match else_block with Some eb => Forall P eb | None => True end ->
  P (java_parser.if_chain clauses else_block).
Hypothesis Hfor : forall cond body, Forall P body -> P (java_parser.for_ cond body).
Hypothesis Hwhile : forall cond body, Forall P body -> P (java_parser.while_ cond body).
Hypothesis Hdo : forall cond body, Forall P body -> P (java_parser.do_while cond body).
Hypothesis Hswitch : forall cond cases, P (java_parser.switch cond cases).

Lemma java_node_nested_ind : forall nd, P nd.
Proof.
  refine (fix IH (nd : java_parser.node) : P nd :=
    match nd with
    | java_parser.stmt code => Hstmt code
    | java_parser.if_chain clauses else_block =>
        Hif clauses else_block
          ((fix IHc (cl : list (string * list java_parser.node))
              : Forall (fun cl => Forall P (snd cl)) cl :=
              match cl with
              | [] => Forall_nil _
              | (c, b) :: cl' =>
                  Forall_cons (c, b)
                    ((fix IHb (b : list java_parser.node) : Forall P b :=
                        match b with
                        | [] => Forall_nil P
                        | x :: b' => Forall_cons x (IH x) (IHb b')
                        end) b)
                    (IHc cl')
              end) clauses)
          (match else_block as o
                 return match o with Some eb => Forall P eb | None => True end with
           | Some eb =>
               (fix IHb (b : list java_parser.node) : Forall P b :=
                  match b with
                  | [] => Forall_nil P
                  | x :: b' => Forall_cons x (IH x) (IHb b')
                  end) eb
           | None => I
           end)
    | java_parser.for_ cond body =>
        Hfor cond body
          ((fix IHb (b : list java_parser.node) : Forall P b :=
              match b with
              | [] => Forall_nil P
              | x :: b' => Forall_cons x (IH x) (IHb b')
              end) body)
    | java_parser.while_ cond body =>
        Hwhile cond body
          ((fix IHb (b : list java_parser.node) : Forall P b :=
              match b with
              | [] => Forall_nil P
              | x :: b' => Forall_cons x (IH x) (IHb b')
              end) body)
    | java_parser.do_while cond body =>
        Hdo cond body
          ((fix IHb (b : list java_parser.node) : Forall P b :=
              match b with
              | [] => Forall_nil P
              | x :: b' => Forall_cons x (IH x) (IHb b')
              end) body)
    | java_parser.switch cond cases => Hswitch cond cases
    end).
Qed.
End JavaNodeInd.


Lemma later_id_fresh (c0 c : nat) : c0 <= c -> JSpec.later_id c0 (Some ("N" ++ str_of_nat (S c))%string).
Proof. intros H. exists (S c). split; [lia|reflexivity]. Qed.

Lemma grows_refl (c0 : nat) (st : java_parser.rstate) (l : option string) :
  JSpec.later_id c0 l -> JSpec.grows c0 st st l.
Proof.
  intros Hl. split; [lia|]. split; [exact Hl|].
  exists []. split; [symmetry; apply app_nil_r|constructor].
Qed.

Lemma grows_trans (c0 : nat) (st st1 st2 : java_parser.rstate) (l1 l2 : option string) :
  JSpec.grows c0 st st1 l1 -> JSpec.grows c0 st1 st2 l2 -> JSpec.grows c0 st st2 l2.
Proof.
  intros (H1 & _ & a1 & E1 & F1) (H2 & L2 & a2 & E2 & F2).
  split; [lia|]. split; [exact L2|].
  exists (a1 ++ a2). split; [rewrite E2, E1, app_assoc; reflexivity|].
  apply Forall_app. split; assumption.
Qed.

Lemma grows_step (c0 : nat) (st st' : java_parser.rstate) (l : option string)
  (es : list java_parser.jedge) :
  java_parser.id_counter st <= java_parser.id_counter st' ->
  java_parser.edges st' = java_parser.edges st ++ es ->
  Forall (fun e => JSpec.later_id c0 (java_parser.e_from e)) es ->
  JSpec.later_id c0 l -> JSpec.grows c0 st st' l.
Proof. intros H E F L. split; [exact H|]. split; [exact L|]. exists es. split; assumption. Qed.

Lemma grows_last (c0 : nat) (st st' : java_parser.rstate) (l l' : option string) :
  JSpec.grows c0 st st' l -> JSpec.later_id c0 l' -> JSpec.grows c0 st st' l'.
Proof. intros (H & _ & Ha) L. split; [exact H|]. split; [exact L|exact Ha]. Qed.

Lemma render_stmts_grows (block : list java_parser.node) :
  Forall JSpec.node_grows block ->
  forall (c0 : nat) (first last : option string) (st : java_parser.rstate),
    c0 <= java_parser.id_counter st -> JSpec.later_id c0 last ->
    JSpec.grows c0 st (snd (java_parser.render_stmts java_parser.render_node block first last st))
      (snd (fst (java_parser.render_stmts java_parser.render_node block first last st))).
Proof.
  induction 1 as [|x block Hx _ IH]; intros c0 first last st Hc Hl; cbn [java_parser.render_stmts].
  - apply grows_refl, Hl.
  - specialize (Hx c0 first last st Hc Hl).
    destruct (java_parser.render_node x first last st) as [[f1 l1] st1]. cbn [fst snd] in Hx.
    eapply grows_trans; [exact Hx|]. apply IH; [destruct Hx; lia|apply Hx].
Qed.

Lemma render_cases_grows (switch_n merge_n : string)
  (cases : list (string * list string)) :
  forall (c0 : nat) (st : java_parser.rstate) (l : option string),
    c0 <= java_parser.id_counter st ->
    JSpec.later_id c0 (Some switch_n) -> JSpec.later_id c0 l ->
    JSpec.grows c0 st (java_parser.render_cases switch_n merge_n cases st) l.
Proof.
  induction cases as [|[label body] cases IH]; intros c0 st l Hc Hs Hl;
    cbn [java_parser.render_cases].
  - apply grows_refl, Hl.
  - cbv zeta. unfold java_parser.add_node_rect, java_parser.new_id. cbv zeta.
    eapply grows_trans; [|apply IH; [cbn; lia|exact Hs|exact Hl]].
    eapply (grows_step c0 _ _ l); [cbn; lia|cbn; rewrite <- app_assoc; reflexivity| |exact Hl].
    constructor; [exact Hs|]. constructor; [|constructor].
    cbn. apply later_id_fresh, Hc.
Qed.

Lemma render_block_grows (block : list java_parser.node) :
  Forall JSpec.node_grows block ->
  forall (c0 : nat) (st : java_parser.rstate),
    c0 <= java_parser.id_counter st ->
    JSpec.grows c0 st (snd (java_parser.render_block block st))
      (snd (fst (java_parser.render_block block st))).
Proof.
  intros Hb c0 st Hc.
  apply (render_stmts_grows block Hb c0 None None st Hc I).
Qed.

Lemma render_clauses_grows (merge_id : string)
  (clauses : list (string * list java_parser.node)) :
  Forall (fun cl => Forall JSpec.node_grows (snd cl)) clauses ->
  forall (c0 : nat) (prev_cond_id first_cond_id : option string) (st : java_parser.rstate),
    c0 <= java_parser.id_counter st ->
    JSpec.later_id c0 prev_cond_id -> JSpec.later_id c0 (Some merge_id) ->
    let r := java_parser.render_clauses java_parser.render_node merge_id clauses
               prev_cond_id first_cond_id st in
    JSpec.grows c0 st (snd r) (fst (fst r)).
Proof.
  induction 1 as [|[cond then_block] clauses Hb _ IH];
    intros c0 prev first st Hc Hp Hm; cbv zeta; cbn [java_parser.render_clauses].
  - apply grows_refl, Hp.
  - cbn [snd] in Hb.
    unfold java_parser.add_node_diamond, java_parser.new_id. cbv zeta.
    set (cond_id := ("N" ++ str_of_nat (S (java_parser.id_counter st)))%string).
    assert (Hcond : JSpec.later_id c0 (Some cond_id)) by apply later_id_fresh, Hc.
    match goal with
    | |- context [java_parser.render_block_with _ then_block ?s] =>
        pose proof (render_block_grows then_block Hb c0 s) as Hthen;
        assert (Hs : JSpec.grows c0 st s (Some cond_id));
        [|change (java_parser.render_block_with java_parser.render_node then_block s)
            with (java_parser.render_block then_block s);
          destruct (java_parser.render_block then_block s) as [[tf tl] st3]]
    end.
    { destruct prev as [p|]; cbn [java_parser.is_none].
      - eapply grows_step; [cbn; lia|cbn; reflexivity| |exact Hcond].
        constructor; [exact Hp|constructor].
      - eapply grows_step; [cbn; lia|cbn; symmetry; apply app_nil_r|constructor|exact Hcond]. }
    cbn [fst snd] in Hthen.
    assert (Hthen' : JSpec.grows c0 st st3 tl).
    { eapply grows_trans; [exact Hs|]. apply Hthen. destruct Hs as [Hs _].
      cbn in Hs |- *. destruct prev; cbn in *; lia. }
    match goal with
    | |- context [java_parser.render_clauses _ _ clauses _ _ ?s] =>
        assert (Hs4 : JSpec.grows c0 st s (Some cond_id))
    end.
    { destruct (java_parser.opt_truthy tf).
      - eapply grows_trans; [exact Hthen'|].
        eapply grows_step; [cbn; lia|cbn; rewrite <- app_assoc; reflexivity| |exact Hcond].
        constructor; [exact Hcond|]. constructor; [apply Hthen'|constructor].
      - eapply grows_trans; [exact Hthen'|].
        eapply grows_step; [cbn; lia|cbn; reflexivity| |exact Hcond].
        constructor; [exact Hcond|constructor]. }
    eapply grows_trans; [exact Hs4|].
    apply IH; [destruct Hs4 as [H4 _]; lia|exact Hcond|exact Hm].
Qed.

Lemma render_if_chain_grows (clauses : list (string * list java_parser.node))
  (else_block : option (list java_parser.node)) :
  Forall (fun cl => Forall JSpec.node_grows (snd cl)) clauses ->
  match else_block with Some eb => Forall JSpec.node_grows eb | None => True end ->
  forall (c0 : nat) (st : java_parser.rstate),
    c0 <= java_parser.id_counter st ->
    let r := java_parser.render_if_chain clauses else_block st in
    JSpec.grows c0 st (snd r) (snd (fst r)).
Proof.
  intros Hcl Helse c0 st Hc. cbv zeta.
  unfold java_parser.render_if_chain, java_parser.render_if_chain_with,
    java_parser.add_merge, java_parser.new_id. cbv zeta.
  set (merge_id := ("N" ++ str_of_nat (S (java_parser.id_counter st)))%string).
  assert (Hm : JSpec.later_id c0 (Some merge_id)) by apply later_id_fresh, Hc.
  match goal with
  | |- context [java_parser.render_clauses _ merge_id clauses None None ?s] =>
      pose proof (render_clauses_grows merge_id clauses Hcl c0 None None s) as Hr;
      assert (Hs : JSpec.grows c0 st s None);
      [|destruct (java_parser.render_clauses java_parser.render_node merge_id clauses
                    None None s) as [[prev first] st2]]
  end.
  { eapply grows_step; [cbn; lia|cbn; symmetry; apply app_nil_r|constructor|exact I]. }
  cbv zeta in Hr. cbn [fst snd] in Hr.
  assert (Hr' : JSpec.grows c0 st st2 prev).
  { eapply grows_trans; [exact Hs|]. apply Hr; [cbn; lia|exact I|exact Hm]. }
  clear Hr Hs.
  destruct else_block as [eb|].
  - pose proof (render_block_grows eb Helse c0 st2) as He.
    change (java_parser.render_block_with java_parser.render_node eb st2)
      with (java_parser.render_block eb st2).
    destruct (java_parser.render_block eb st2) as [[ef el] st3]. cbn [fst snd] in He |- *.
    assert (He' : JSpec.grows c0 st st3 el).
    { eapply grows_trans; [exact Hr'|]. apply He. destruct Hr'; lia. }
    destruct (java_parser.opt_truthy ef).
    + eapply grows_trans; [exact He'|].
      eapply grows_step; [cbn; lia|cbn; rewrite <- app_assoc; reflexivity| |exact Hm].
      constructor; [apply Hr'|]. constructor; [apply He'|constructor].
    + eapply grows_trans; [exact He'|].
      eapply grows_step; [cbn; lia|cbn; reflexivity| |exact Hm].
      constructor; [apply Hr'|constructor].
  - cbn [fst snd]. eapply grows_trans; [exact Hr'|].
    eapply grows_step; [cbn; lia|cbn; reflexivity| |exact Hm].
    constructor; [apply Hr'|constructor].
Qed.

(** Every edge a construct adds leaves a node the construct has created, the
    node before the construct, or no node at all. *)
Lemma render_node_grows : forall nd, JSpec.node_grows nd.
Proof.
  apply java_node_nested_ind.
  - intros code c0 first last st Hc Hl. cbn [java_parser.render_node].
    destruct (_ || _); [apply grows_refl, Hl|].
    unfold java_parser.add_node_rect, java_parser.new_id, java_parser.enter. cbv zeta.
    destruct last as [l|]; cbn [java_parser.is_none fst snd].
    + eapply grows_step; [cbn; lia|cbn; reflexivity| |apply later_id_fresh, Hc].
      constructor; [exact Hl|constructor].
    + eapply grows_step; [cbn; lia|cbn; symmetry; apply app_nil_r|constructor
                         |apply later_id_fresh, Hc].
  - intros clauses else_block Hcl Helse c0 first last st Hc Hl.
    cbn [java_parser.render_node].
    pose proof (render_if_chain_grows clauses else_block Hcl Helse c0 st Hc) as Hr.
    cbv zeta in Hr.
    change (java_parser.render_if_chain_with java_parser.render_node clauses else_block st)
      with (java_parser.render_if_chain clauses else_block st).
    destruct (java_parser.render_if_chain clauses else_block st) as [[cf cl] st1].
    cbn [fst snd] in Hr. unfold java_parser.enter.
    destruct last as [l|]; cbn [java_parser.is_none fst snd].
    + eapply grows_trans; [exact Hr|].
      eapply grows_step; [cbn; lia|cbn; reflexivity| |apply Hr].
      constructor; [exact Hl|constructor].
    + exact Hr.
  - intros cond body _ c0 first last st Hc Hl. cbn [java_parser.render_node].
    unfold java_parser.add_node_diamond, java_parser.add_node_rect, java_parser.new_id,
      java_parser.enter. cbv zeta.
    destruct last as [l|], body as [|b body]; cbn [java_parser.is_none fst snd];
      (eapply grows_step;
       [cbn; lia
       |cbn; rewrite <- ?app_assoc; first [reflexivity | symmetry; apply app_nil_r]
       |repeat constructor; cbn; first [exact Hl | apply later_id_fresh; lia]
       |apply later_id_fresh, Hc]).
  - intros cond body _ c0 first last st Hc Hl. cbn [java_parser.render_node].
    unfold java_parser.add_node_diamond, java_parser.add_node_rect, java_parser.new_id,
      java_parser.enter. cbv zeta.
    destruct last as [l|], body as [|b body]; cbn [java_parser.is_none fst snd];
      (eapply grows_step;
       [cbn; lia
       |cbn; rewrite <- ?app_assoc; first [reflexivity | symmetry; apply app_nil_r]
       |repeat constructor; cbn; first [exact Hl | apply later_id_fresh; lia]
       |apply later_id_fresh, Hc]).
  - intros cond body Hb c0 first last st Hc Hl. cbn [java_parser.render_node].
    pose proof (render_block_grows body Hb c0 st Hc) as Hr.
    change (java_parser.render_block_with java_parser.render_node body st)
      with (java_parser.render_block body st).
    destruct (java_parser.render_block body st) as [[bf bl] st1]. cbn [fst snd] in Hr.
    unfold java_parser.add_node_diamond, java_parser.new_id, java_parser.enter. cbv zeta.
    assert (Hc1 : c0 <= java_parser.id_counter st1) by (destruct Hr; lia).
    eapply grows_trans; [exact Hr|].
    destruct last as [l|]; cbn [java_parser.is_none fst snd];
      (eapply grows_step;
       [cbn; lia
       |cbn; rewrite <- ?app_assoc; reflexivity
       |repeat constructor; cbn; first [exact Hl | apply Hr | apply later_id_fresh; lia]
       |apply later_id_fresh, Hc1]).
  - intros cond cases c0 first last st Hc Hl. cbn [java_parser.render_node].
    unfold java_parser.add_node_diamond, java_parser.add_merge, java_parser.new_id,
      java_parser.enter. cbv zeta.
    set (switch_n := ("N" ++ str_of_nat (S (java_parser.id_counter st)))%string).
    assert (Hsw : JSpec.later_id c0 (Some switch_n)) by apply later_id_fresh, Hc.
    destruct last as [l|]; cbn [java_parser.is_none fst snd].
    + eapply grows_trans;
        [|apply render_cases_grows; [cbn; lia|exact Hsw|apply later_id_fresh; cbn; lia]].
      eapply (grows_step c0 _ _ None); [cbn; lia|cbn; reflexivity| |exact I].
      constructor; [exact Hl|constructor].
    + eapply grows_trans;
        [|apply render_cases_grows; [cbn; lia|exact Hsw|apply later_id_fresh; cbn; lia]].
      eapply (grows_step c0 _ _ None);
        [cbn; lia|cbn; symmetry; apply app_nil_r|constructor|exact I].
Qed.

Lemma later_id_neq (c0 k : nat) (o : option string) :
  k <= c0 -> JSpec.later_id c0 o -> opt_eqb o (Some ("N" ++ str_of_nat k)%string) = false.
Proof.
  intros Hk Ho. destruct o as [s|]; [|reflexivity].
  destruct Ho as (k' & Hk' & ->). cbn [opt_eqb].
  change ("N" ++ str_of_nat k')%string with (String "N" (str_of_nat k')).
  change ("N" ++ str_of_nat k)%string with (String "N" (str_of_nat k)).
  rewrite id_eqb. apply Nat.eqb_neq. lia.
Qed.

Lemma out_of_later (c0 k : nat) (es : list java_parser.jedge) :
  k <= c0 -> Forall (fun e => JSpec.later_id c0 (java_parser.e_from e)) es ->
  JSpec.out_of ("N" ++ str_of_nat k) es = [].
Proof.
  intros Hk. induction 1 as [|e es He _ IH]; [reflexivity|].
  cbn [JSpec.out_of filter]. rewrite (later_id_neq c0 k _ Hk He). exact IH.
Qed.

Lemma out_of_app (d : string) (a b : list java_parser.jedge) :
  JSpec.out_of d (a ++ b) = JSpec.out_of d a ++ JSpec.out_of d b.
Proof. apply filter_app. Qed.

(** The edges of a block leave none of the nodes drawn before the block. *)
Lemma render_block_out (block : list java_parser.node) (st : java_parser.rstate) (k : nat) :
  k <= java_parser.id_counter st ->
  let r := java_parser.render_block block st in
  java_parser.id_counter st <= java_parser.id_counter (snd r)
  /\ opt_eqb (snd (fst r)) (Some ("N" ++ str_of_nat k)%string) = false
  /\ exists added,
       java_parser.edges (snd r) = java_parser.edges st ++ added
       /\ JSpec.out_of ("N" ++ str_of_nat k) added = [].
Proof.
  intros Hk. cbv zeta.
  assert (Hb : Forall JSpec.node_grows block).
  { apply Forall_forall. intros nd _. apply render_node_grows. }
  destruct (render_block_grows block Hb (java_parser.id_counter st) st (le_n _))
    as (Hc & Hl & added & He & Hf).
  split; [exact Hc|]. split; [apply (later_id_neq _ k _ Hk Hl)|].
  exists added. split; [exact He|]. apply (out_of_later _ k _ Hk Hf).
Qed.

(** The decision of a Java conditional with one clause: of the edges the
    conditional adds, two leave it, the first labelled True and the second
    False, whatever its branches hold. *)
Lemma java_if_out_edges (cond : string) (then_block : list java_parser.node)
  (else_block : option (list java_parser.node)) (st : java_parser.rstate) :
  let d := ("N" ++ str_of_nat (S (S (java_parser.id_counter st))))%string in
  let r := java_parser.render_if_chain [(cond, then_block)] else_block st in
  exists added,
    java_parser.edges (snd r) = java_parser.edges st ++ added
    /\ map java_parser.e_label (JSpec.out_of d added) = [Some "True"; Some "False"].
Proof.
  cbv zeta.
  unfold java_parser.render_if_chain, java_parser.render_if_chain_with,
    java_parser.add_merge, java_parser.new_id. cbv zeta.
  cbn [java_parser.render_clauses]. unfold java_parser.add_node_diamond, java_parser.new_id.
  cbv zeta. cbn [java_parser.is_none java_parser.push_node java_parser.id_counter
                 java_parser.nodes java_parser.edges].
  set (c := java_parser.id_counter st).
  set (m := ("N" ++ str_of_nat (S c))%string).
  set (d := ("N" ++ str_of_nat (S (S c)))%string).
  assert (Hdd : opt_eqb (Some d) (Some d) = true) by apply String.eqb_refl.
  match goal with
  | |- context [java_parser.render_block_with _ then_block ?s] =>
      change (java_parser.render_block_with java_parser.render_node then_block s)
        with (java_parser.render_block then_block s);
      destruct (render_block_out then_block s (S (S c)) (le_n _))
        as (Hc1 & Hl1 & a1 & He1 & Ho1);
      destruct (java_parser.render_block then_block s) as [[tf tl] st1]
  end.
  cbn [fst snd java_parser.id_counter java_parser.edges] in Hc1, Hl1, He1.
  fold d in Hl1, Ho1.
  assert (Hthen : exists a2,
             java_parser.edges
               (if java_parser.opt_truthy tf
                then java_parser.push_edge tl (Some m) None
                       (java_parser.push_edge (Some d) tf (Some "True") st1)
                else java_parser.push_edge (Some d) (Some m) (Some "True") st1)
             = java_parser.edges st ++ a2
             /\ map java_parser.e_label (JSpec.out_of d a2) = [Some "True"]
             /\ S (S c) <= java_parser.id_counter
                  (if java_parser.opt_truthy tf
                   then java_parser.push_edge tl (Some m) None
                          (java_parser.push_edge (Some d) tf (Some "True") st1)
                   else java_parser.push_edge (Some d) (Some m) (Some "True") st1)).
  { destruct (java_parser.opt_truthy tf).
    - exists (a1 ++ [java_parser.JEdge (Some d) tf (Some "True");
                     java_parser.JEdge tl (Some m) None]).
      cbn [java_parser.push_edge java_parser.edges java_parser.id_counter].
      split; [rewrite He1, <- !app_assoc; reflexivity|]. split; [|exact Hc1].
      rewrite out_of_app, Ho1. cbn [JSpec.out_of filter java_parser.e_from app].
      rewrite Hdd, Hl1. reflexivity.
    - exists (a1 ++ [java_parser.JEdge (Some d) (Some m) (Some "True")]).
      cbn [java_parser.push_edge java_parser.edges java_parser.id_counter].
      split; [rewrite He1, <- !app_assoc; reflexivity|]. split; [|exact Hc1].
      rewrite out_of_app, Ho1. cbn [JSpec.out_of filter java_parser.e_from app].
      rewrite Hdd. reflexivity. }
  destruct Hthen as (a2 & He2 & Ho2 & Hc2).
  match goal with
  | H : java_parser.edges ?s = _ ++ a2 |- _ => generalize dependent s; intros st2 He2 Hc2
  end.
  destruct else_block as [eb|].
  - change (java_parser.render_block_with java_parser.render_node eb st2)
      with (java_parser.render_block eb st2).
    destruct (render_block_out eb st2 (S (S c)) Hc2) as (Hc3 & Hl3 & a3 & He3 & Ho3).
    destruct (java_parser.render_block eb st2) as [[ef el] st3].
    cbn [fst snd] in Hc3, Hl3, He3 |- *. fold d in Hl3, Ho3.
    destruct (java_parser.opt_truthy ef).
    + exists (a2 ++ a3 ++ [java_parser.JEdge (Some d) ef (Some "False");
                           java_parser.JEdge el (Some m) None]).
      cbn [java_parser.push_edge java_parser.edges].
      split; [rewrite He3, He2, <- !app_assoc; reflexivity|].
      rewrite !out_of_app, Ho3, map_app, Ho2. cbn [JSpec.out_of filter java_parser.e_from app].
      rewrite Hdd, Hl3. reflexivity.
    + exists (a2 ++ a3 ++ [java_parser.JEdge (Some d) (Some m) (Some "False")]).
      cbn [java_parser.push_edge java_parser.edges].
      split; [rewrite He3, He2, <- !app_assoc; reflexivity|].
      rewrite !out_of_app, Ho3, map_app, Ho2. cbn [JSpec.out_of filter java_parser.e_from app].
      rewrite Hdd. reflexivity.
  - exists (a2 ++ [java_parser.JEdge (Some d) (Some m) (Some "False")]).
    cbn [fst snd java_parser.push_edge java_parser.edges].
    split; [rewrite He2, <- app_assoc; reflexivity|].
    rewrite out_of_app, map_app, Ho2. cbn [JSpec.out_of filter java_parser.e_from app].
    rewrite Hdd. reflexivity.
Qed.

(** The decision of a Java for or while loop with a body: of the edges the
    loop adds, one leaves it, the True edge into the body node; the loop
    hands its decision on as the node the next construct is entered from. *)
Lemma java_loop_out_edges (is_for : bool) (cond : string) (body : list java_parser.node)
  (first last : option string) (st : java_parser.rstate) :
  let nd := if is_for then java_parser.for_ cond body else java_parser.while_ cond body in
  let cond_n := ("N" ++ str_of_nat (S (java_parser.id_counter st)))%string in
  let body_n := ("N" ++ str_of_nat (S (S (java_parser.id_counter st))))%string in
  let r := java_parser.render_node nd first last st in
  body <> [] -> last <> Some cond_n ->
  snd (fst r) = Some cond_n
  /\ exists added,
       java_parser.edges (snd r) = java_parser.edges st ++ added
       /\ JSpec.out_of cond_n added
          = [java_parser.JEdge (Some cond_n) (Some body_n) (Some "True")].
Proof.
  cbv zeta. intros Hbody Hlast.
  destruct (java_loop_edges is_for cond body first last st Hbody) as [Hl He].
  cbv zeta in Hl, He. split; [exact Hl|]. eexists. split; [exact He|].
  rewrite out_of_app.
  change ("N" ++ str_of_nat (S (S (java_parser.id_counter st))))%string
    with (String "N" (str_of_nat (S (S (java_parser.id_counter st))))).
  change ("N" ++ str_of_nat (S (java_parser.id_counter st)))%string
    with (String "N" (str_of_nat (S (java_parser.id_counter st)))) in *.
  set (cond_n := String "N" (str_of_nat (S (java_parser.id_counter st)))) in *.
  assert (Hin : JSpec.out_of cond_n (JSpec.enter_edges last (Some cond_n)) = []).
  { destruct last as [l|]; [|reflexivity].
    cbn [JSpec.enter_edges JSpec.out_of filter java_parser.e_from opt_eqb].
    destruct (str_eqb l cond_n) eqn:E; [|reflexivity].
    apply String.eqb_eq in E. subst l. now contradiction Hlast. }
  rewrite Hin. cbn [app JSpec.out_of filter java_parser.e_from opt_eqb].
  unfold cond_n. rewrite !id_eqb, Nat.eqb_refl.
  replace (S (S (java_parser.id_counter st)) =? S (java_parser.id_counter st))%nat
    with false by (symmetry; apply Nat.eqb_neq; lia).
  reflexivity.
Qed.

(** C6, as the renderers have it.  Among the edges a top-level conditional
    adds, exactly two leave its decision node, with distinct labels: Yes
    and No, in the C adapter and in the Python adapter; where a Python
    conditional goes on with an elif, the second edge has no label and
    enters the decision of the elif.  The decision of a top-level Python loop has a Yes and a
    No edge.  The node of a Python match has one outgoing edge per case,
    labelled by the case.  The node of a Java switch has one outgoing edge
    per case, default included, and every one of them carries the same
    label, case.  The decision of a Java conditional with one clause has
    two outgoing edges, True and False, whatever its branches hold.  The
    decision of a Java for or while loop with a body has one outgoing edge
    of its own, True, into the body node, and is handed on as the node the
    next construct, or End, is entered from.  (The node a construct is
    entered from is an older node, not the fresh decision node.) *)
Theorem decision_out_edges :
  (forall (cond : string) (t : list c_parser.node) (e : option (list c_parser.node))
          (prev : string) (last : option string) (st : c_parser.rstate),
     let d := ("N" ++ str_of_nat (S (c_parser.node_counter st)))%string in
     prev <> d ->
     exists added : list edge,
       edges_of (c_parser.lines (c_parser.render_from [c_parser.if_ cond t e] prev last st))
       = edges_of (c_parser.lines st) ++ added
       /\ length (out_edges d added) = 2
       /\ NoDup (out_labels d added)
       /\ In (Some "Yes") (out_labels d added) /\ In (Some "No") (out_labels d added))
  /\
  (forall (cond : string) (t : list c_parser.node) (e : option (list c_parser.node))
          (nd : c_parser.node) (rest : list c_parser.node)
          (prev : string) (last : option string) (st : c_parser.rstate),
     let c := c_parser.node_counter st in
     let d := ("N" ++ str_of_nat (S c))%string in
     let m := ("N" ++ str_of_nat (S (S c) + length t + length (c_parser.or_empty e)))%string in
     prev <> d ->
     exists (st' : c_parser.rstate) (added : list edge),
       c_parser.render_from (c_parser.if_ cond t e :: nd :: rest) prev last st
       = c_parser.render_from (nd :: rest) m last st'
       /\ edges_of (c_parser.lines st') = edges_of (c_parser.lines st) ++ added
       /\ length (out_edges d added) = 2
       /\ NoDup (out_labels d added)
       /\ In (Some "Yes") (out_labels d added) /\ In (Some "No") (out_labels d added))
  /\
  (forall (test : string) (body orelse : list python_parser.stmt) (text cur : string)
          (is_last : bool) (st : python_parser.rstate),
     let c := python_parser.node_counter st in
     let d := ("n" ++ str_of_nat (S c))%string in
     cur <> d ->
     exists added : list edge,
       edges_of (python_parser.lines
                   (snd (python_parser.handle_if_elif_else
                           (python_parser.If test body orelse text) cur is_last st)))
       = edges_of (python_parser.lines st) ++ added
       /\ out_edges d added
          = [ MkEdge d (Some "Yes") ("n" ++ str_of_nat (S (S c)))%string;
              MkEdge d (if PySpec.is_elif orelse then None else Some "No")
                ("n" ++ str_of_nat (S (S c) + Nat.max 1 (length body)))%string ])
  /\
  (forall (loop_node : python_parser.stmt) (cur : string) (is_last : bool)
          (st : python_parser.rstate),
     let c := python_parser.node_counter st in
     let d := ("n" ++ str_of_nat (S c))%string in
     let k := Nat.max 1 (length (python_parser.loop_body loop_node)) in
     cur <> d ->
     exists added : list edge,
       edges_of (python_parser.lines (snd (python_parser.handle_loop loop_node cur is_last st)))
       = edges_of (python_parser.lines st) ++ added
       /\ out_edges d added
          = [ MkEdge d (Some "Yes") ("n" ++ str_of_nat (S (S c)))%string;
              MkEdge d (Some "No") ("n" ++ str_of_nat (S (S c) + k))%string ])
  /\
  (forall (subject : string) (cases : list (option string * list python_parser.stmt))
          (last : string) (is_last : bool) (st : python_parser.rstate),
     let match_id := ("n" ++ str_of_nat (S (python_parser.node_counter st)))%string in
     last <> match_id ->
     exists added : list edge,
       edges_of (python_parser.lines
                   (snd (python_parser.handle_match subject cases last is_last st)))
       = edges_of (python_parser.lines st) ++ added
       /\ out_labels match_id added = map (fun cs => Some (PySpec.case_label cs)) cases)
  /\
  (forall (cond : string) (cases : list (string * list string))
          (first last : option string) (st : java_parser.rstate),
     let c := java_parser.id_counter st in
     let switch_n := ("N" ++ str_of_nat (S c))%string in
     let merge_n := ("N" ++ str_of_nat (S (S c)))%string in
     java_parser.edges
       (snd (java_parser.render_node (java_parser.switch cond cases) first last st))
     = java_parser.edges st ++ JSpec.enter_edges last (Some switch_n)
       ++ flat_map (fun case_n =>
                      [ java_parser.JEdge (Some switch_n) (Some case_n) (Some "case");
                        java_parser.JEdge (Some case_n) (Some merge_n) None ])
                   (ids_from "N" (S (S (S c))) (length cases)))
  /\
  (forall (cond : string) (then_block : list java_parser.node)
          (else_block : option (list java_parser.node)) (st : java_parser.rstate),
     let d := ("N" ++ str_of_nat (S (S (java_parser.id_counter st))))%string in
     exists added : list java_parser.jedge,
       java_parser.edges
         (snd (java_parser.render_if_chain [(cond, then_block)] else_block st))
       = java_parser.edges st ++ added
       /\ map java_parser.e_label (JSpec.out_of d added) = [Some "True"; Some "False"])
  /\
  (forall (is_for : bool) (cond : string) (body : list java_parser.node)
          (first last : option string) (st : java_parser.rstate),
     let nd := if is_for then java_parser.for_ cond body else java_parser.while_ cond body in
     let cond_n := ("N" ++ str_of_nat (S (java_parser.id_counter st)))%string in
     let body_n := ("N" ++ str_of_nat (S (S (java_parser.id_counter st))))%string in
     body <> [] -> last <> Some cond_n ->
     snd (fst (java_parser.render_node nd first last st)) = Some cond_n
     /\ exists added : list java_parser.jedge,
          java_parser.edges (snd (java_parser.render_node nd first last st))
          = java_parser.edges st ++ added
          /\ JSpec.out_of cond_n added
             = [java_parser.JEdge (Some cond_n) (Some body_n) (Some "True")]).
Proof.
  split; [|split; [|split; [|split; [|split; [|split; [|split]]]]]].
  - intros cond t e prev last st d Hprev.
    destruct (c_if_last cond t e prev last st) as [He _]. cbv zeta in He.
    eexists. split; [exact He|].
    apply c_if_out_edges; [exact Hprev| |]; apply (pid_not_in_later "N"); lia.
  - intros cond t e nd rest prev last st c d m Hprev.
    destruct (c_if_more cond t e nd rest prev last st) as (st' & H1 & _ & He & _).
    cbv zeta in H1, He. exists st'. eexists. split; [exact H1|]. split; [exact He|].
    apply c_if_out_edges; [exact Hprev| |]; apply (pid_not_in_later "N"); lia.
  - intros test body orelse text cur is_last st c d Hcur.
    apply (py_if_out_edges_any test body orelse text cur is_last st Hcur).
  - intros loop_node cur is_last st c d k Hcur.
    apply (py_loop_out_edges loop_node cur is_last st Hcur).
  - intros subject cases last is_last st match_id Hlast.
    apply (handle_match_out_labels subject cases last is_last st Hlast).
  - intros cond cases first last st. cbv zeta.
    apply (java_switch_edges cond cases first last st).
  - intros cond then_block else_block st.
    apply (java_if_out_edges cond then_block else_block st).
  - intros is_for cond body first last st.
    apply (java_loop_out_edges is_for cond body first last st).
Qed.

Lemma decision_out_edges_witness :
  (exists added : list edge,
     edges_of (c_parser.lines
                 (c_parser.render_from
                    [c_parser.if_ "x > 0" [c_parser.stmt "a = 1;"] None]
                    "Start" None c_parser.init_state))
     = edges_of (c_parser.lines c_parser.init_state) ++ added
     /\ length (out_edges "N1" added) = 2
     /\ NoDup (out_labels "N1" added)
     /\ In (Some "Yes") (out_labels "N1" added) /\ In (Some "No") (out_labels "N1" added))
  /\
  (exists added : list edge,
     edges_of (python_parser.lines
                 (snd (python_parser.handle_loop
                         (python_parser.While "n < 5"
                            [python_parser.OtherStmt "AugAssign" "n += 1"] "while n < 5:")
                         "Start" true python_parser.init_state)))
     = edges_of (python_parser.lines python_parser.init_state) ++ added
     /\ out_edges "n1" added
        = [MkEdge "n1" (Some "Yes") "n2"; MkEdge "n1" (Some "No") "n3"]).
Proof.
  split.
  - refine (proj1 decision_out_edges "x > 0" [c_parser.stmt "a = 1;"] None "Start" None
              c_parser.init_state _).
    discriminate.
  - refine (proj1 (proj2 (proj2 (proj2 decision_out_edges)))
              (python_parser.While "n < 5"
                 [python_parser.OtherStmt "AugAssign" "n += 1"] "while n < 5:")
              "Start" true python_parser.init_state _).
    discriminate.
Defined.

(** C6 does not hold as stated: for a switch with two cases the Java
    adapter draws two edges out of the switch node N3, both labelled case:
    the labels are not pairwise distinct. *)
Lemma java_switch_labels_repeat :
  let text := ("switch (x) {" ++ nl ++ "case 1:" ++ nl ++ "a();" ++ nl
               ++ "case 2:" ++ nl ++ "b();" ++ nl ++ "}")%string in
  let ast := [java_parser.switch "x" [("case 1", ["a();"]); ("case 2", ["b();"])]] in
  option_map fst (java_parser._parse_block (java_parser._preprocess_lines text)) = Some ast
  /\ map java_parser.e_label
       (filter (fun e => str_eqb (java_parser.show_id (java_parser.e_from e)) "N3")
          (snd (java_parser.render ast)))
     = [Some "case"; Some "case"]
  /\ ~ NoDup (map java_parser.e_label
                (filter (fun e => str_eqb (java_parser.show_id (java_parser.e_from e)) "N3")
                   (snd (java_parser.render ast)))).
Proof.
  cbv zeta. split; [vm_compute; reflexivity|]. split; [vm_compute; reflexivity|].
  intros H. vm_compute in H. inversion H as [|x l Hnotin Hnd]. apply Hnotin. now left.
Qed.

(** * Further properties of the code *)

(** ** Texts: what stripping, replacing and substituting keep *)

Section Texts.
Import StrSpec.

Lemma all_chars_app (p : ascii -> bool) (a b : string) :
  all_chars p (a ++ b) = all_chars p a && all_chars p b.
Proof.
  induction a as [|c a IH]; [reflexivity|]. cbn. now rewrite IH, andb_assoc.
Qed.

Lemma all_chars_impl (p q : ascii -> bool) (s : string) :
  (forall c, p c = true -> q c = true) -> all_chars p s = true -> all_chars q s = true.
Proof.
  intros Hpq. induction s as [|c s IH]; [reflexivity|]. cbn.
  intros H. apply andb_true_iff in H as [Hc Hs]. now rewrite (Hpq c Hc), IH.
Qed.

Lemma all_chars_map_chars (p : ascii -> bool) (f : ascii -> string) (s : string) :
  (forall c, all_chars p (f c) = true) -> all_chars p (map_chars f s) = true.
Proof.
  intros Hf. induction s as [|c s IH]; [reflexivity|].
  cbn. now rewrite all_chars_app, Hf, IH.
Qed.

Lemma all_chars_drop (p : ascii -> bool) (n : nat) (s : string) :
  all_chars p s = true -> all_chars p (drop n s) = true.
Proof.
  revert s. induction n as [|n IH]; intros s H; [destruct s; exact H|].
  destruct s as [|c s]; [reflexivity|]. cbn in H |- *.
  apply andb_true_iff in H as [_ H]. now apply IH.
Qed.

Lemma all_chars_take (p : ascii -> bool) (n : nat) (s : string) :
  all_chars p s = true -> all_chars p (take n s) = true.
Proof.
  revert s. induction n as [|n IH]; intros s H; [destruct s; reflexivity|].
  destruct s as [|c s]; [reflexivity|]. cbn in H |- *.
  apply andb_true_iff in H as [Hc H]. now rewrite Hc, IH.
Qed.

Lemma all_chars_lstrip_by (p q : ascii -> bool) (s : string) :
  all_chars p s = true -> all_chars p (lstrip_by q s) = true.
Proof.
  induction s as [|c s IH]; [reflexivity|]. intros H. cbn.
  destruct (q c); [|exact H]. cbn in H. apply andb_true_iff in H as [_ H]. now apply IH.
Qed.

Lemma all_chars_rstrip_by (p q : ascii -> bool) (s : string) :
  all_chars p s = true -> all_chars p (rstrip_by q s) = true.
Proof.
  induction s as [|c s IH]; [reflexivity|]. intros H. cbn in H |- *.
  apply andb_true_iff in H as [Hc H].
  destruct (is_empty (rstrip_by q s) && q c); [reflexivity|]. cbn. now rewrite Hc, IH.
Qed.

Lemma all_chars_strip (p : ascii -> bool) (s : string) :
  all_chars p s = true -> all_chars p (strip s) = true.
Proof. intros H. now apply all_chars_rstrip_by, all_chars_lstrip_by. Qed.

Lemma all_chars_rev_str (p : ascii -> bool) (s acc : string) :
  all_chars p (rev_str s acc) = all_chars p s && all_chars p acc.
Proof.
  revert acc. induction s as [|c s IH]; intros acc; [reflexivity|].
  cbn. rewrite IH. cbn. now destruct (p c), (all_chars p s), (all_chars p acc).
Qed.

(** A replacement puts nothing into the text but the new text. *)
Lemma all_chars_replace_from (p : ascii -> bool) (old new : string) (s : string) :
  all_chars p new = true -> all_chars p s = true ->
  forall skip, all_chars p (replace_from old new skip s) = true.
Proof.
  intros Hnew. induction s as [|c s IH]; intros Hs skip; [reflexivity|].
  cbn in Hs. apply andb_true_iff in Hs as [Hc Hs]. cbn [replace_from].
  destruct skip as [|k]; [|now apply IH].
  destruct (startswith old (String c s)).
  - now rewrite all_chars_app, Hnew, IH.
  - cbn. now rewrite Hc, IH.
Qed.

Lemma all_chars_replace (p : ascii -> bool) (old new s : string) :
  all_chars p new = true -> all_chars p s = true ->
  all_chars p (replace old new s) = true.
Proof. intros Hn Hs. now apply all_chars_replace_from. Qed.

(** Replacing one character: every occurrence goes. *)
Lemma replace_char (c : ascii) (new s : string) :
  replace (String c EmptyString) new s
  = map_chars (fun x => if Ascii.eqb c x then new else String x EmptyString) s.
Proof.
  unfold replace. induction s as [|x s IH]; [reflexivity|].
  cbn [replace_from map_chars startswith len String.length Nat.sub].
  rewrite IH. destruct (Ascii.eqb c x); reflexivity.
Qed.

Lemma all_chars_replace_char (p : ascii -> bool) (c : ascii) (new s : string) :
  all_chars p new = true ->
  (forall x, Ascii.eqb c x = false -> p x = true) ->
  all_chars p (replace (String c EmptyString) new s) = true.
Proof.
  intros Hnew Hp. rewrite replace_char. apply all_chars_map_chars.
  intros x. destruct (Ascii.eqb c x) eqn:E; [exact Hnew|]. cbn. now rewrite Hp.
Qed.

(** A substitution puts nothing into the text but the replacements. *)
Lemma all_chars_sub_from (p : ascii -> bool) (r : Re.regex) (repl : Re.rmatch -> string)
  (s : string) :
  (forall m, all_chars p (repl m) = true) -> all_chars p s = true ->
  forall pv skip, all_chars p (Re.sub_from r repl pv skip s) = true.
Proof.
  intros Hrepl. induction s as [|c s IH]; intros Hs pv skip; [reflexivity|].
  cbn in Hs. apply andb_true_iff in Hs as [Hc Hs]. cbn [Re.sub_from].
  destruct skip as [|k]; [|now apply IH].
  destruct (Re.match_here r pv (String c s)) as [m|].
  - destruct (Re.span m) as [|k].
    + cbn. now rewrite Hc, IH.
    + now rewrite all_chars_app, Hrepl, IH.
  - cbn. now rewrite Hc, IH.
Qed.

Lemma all_chars_sub (p : ascii -> bool) (r : Re.regex) (repl : Re.rmatch -> string)
  (s : string) :
  (forall m, all_chars p (repl m) = true) -> all_chars p s = true ->
  all_chars p (Re.sub r repl s) = true.
Proof. intros Hr Hs. now apply all_chars_sub_from. Qed.

End Texts.

Section Labels.
Import StrSpec.

Lemma all_chars_and (p q : ascii -> bool) (s : string) :
  all_chars (fun c => p c && q c) s = all_chars p s && all_chars q s.
Proof.
  induction s as [|c s IH]; [reflexivity|]. cbn. rewrite IH.
  now destruct (p c), (q c), (all_chars p s), (all_chars q s).
Qed.

(** A greedy star whose continuation never fails stops somewhere in the text. *)
Lemma star_greedy_total {A : Type} (p : ascii -> bool) (s : string) :
  forall (pv : option ascii) (k : option ascii -> string -> option A),
    (forall pv' s', k pv' s' <> None) ->
    exists pv' s', len s' <= len s /\ Re.star_greedy p pv s k = k pv' s'.
Proof.
  induction s as [|c s IH]; intros pv k Hk.
  - exists pv, EmptyString. split; [lia|reflexivity].
  - cbn [Re.star_greedy]. destruct (p c).
    + destruct (IH (Some c) k Hk) as (pv' & s' & Hl & E). rewrite E.
      destruct (k pv' s') eqn:Ek; [|now apply Hk in Ek].
      exists pv', s'. split; [unfold len in *; cbn; lia|now symmetry].
    + exists pv, (String c s). split; [lia|reflexivity].
Qed.

(** At a white-space character the pattern [\s+] matches, and not emptily. *)
Lemma plus_ws_matches (pv : option ascii) (c : ascii) (s : string) :
  isspace c = true ->
  exists m k, Re.match_here (Re.Plus Re.ws) pv (String c s) = Some m /\ Re.span m = S k.
Proof.
  intros Hc. unfold Re.match_here, Re.Plus. cbn [Re.run Re.rest Re.caps Re.prev].
  unfold Re.ws at 1. rewrite Hc.
  match goal with
  | |- context [Re.star_greedy ?p ?v ?t ?k] =>
      destruct (star_greedy_total p t v k) as (pv' & s' & Hl & ->); [discriminate|]
  end.
  cbn [Re.rest Re.caps]. eexists _, (len s - len s'). split; [reflexivity|].
  cbn [Re.span]. unfold len in *. cbn [String.length]. lia.
Qed.

(** After [re.sub(r'\s+', ' ', s)] the only white space left is the blank. *)
Lemma sub_ws_blank (s : string) :
  forall pv skip,
    all_chars blank_or_ink (Re.sub_from (Re.Plus Re.ws) (fun _ => " ") pv skip s) = true.
Proof.
  induction s as [|c s IH]; intros pv skip; [reflexivity|]. cbn [Re.sub_from].
  destruct skip as [|k]; [|apply IH].
  destruct (isspace c) eqn:Hc.
  - destruct (plus_ws_matches pv c s Hc) as (m & k & -> & ->).
    rewrite all_chars_app, IH. reflexivity.
  - assert (Hb : blank_or_ink c = true) by (unfold blank_or_ink; now rewrite Hc).
    destruct (Re.match_here _ pv (String c s)) as [m|].
    + destruct (Re.span m); [cbn; now rewrite Hb, IH|].
      rewrite all_chars_app, IH. reflexivity.
    + cbn. now rewrite Hb, IH.
Qed.

Lemma all_chars_escape (p : ascii -> bool) (s : string) :
  all_chars p "&amp;" = true -> all_chars p "&lt;" = true -> all_chars p "&gt;" = true ->
  all_chars p s = true -> all_chars p (html_escape_noquote s) = true.
Proof.
  intros Ha Hl Hg Hs. unfold html_escape_noquote.
  apply all_chars_replace; [exact Hg|]. apply all_chars_replace; [exact Hl|].
  apply all_chars_replace; [exact Ha|exact Hs].
Qed.

Lemma escape_no_angles (s : string) :
  all_chars (fun c => negb (Ascii.eqb c "<") && negb (Ascii.eqb c ">"))
    (html_escape_noquote s) = true.
Proof.
  unfold html_escape_noquote. rewrite all_chars_and. apply andb_true_iff. split.
  - apply all_chars_replace; [reflexivity|].
    apply all_chars_replace_char; [reflexivity|].
    intros x Hx. rewrite Ascii.eqb_sym. now rewrite Hx.
  - apply all_chars_replace_char; [reflexivity|].
    intros x Hx. rewrite Ascii.eqb_sym. now rewrite Hx.
Qed.

(** X1.  A label cleaned by [c_parser._clean_label] can stand between the
    double quotes of a Mermaid node: it holds no double quote, no single
    quote and no angle bracket, and no white space but the blank, so it is
    one line. *)
Theorem c_clean_label_is_quotable :
  forall s : string,
    all_chars plain_char (c_parser._clean_label s) = true
    /\ all_chars blank_or_ink (c_parser._clean_label s) = true.
Proof.
  intros s. unfold c_parser._clean_label.
  set (q := fun c : ascii => negb (Ascii.eqb c (chr 34)) && negb (Ascii.eqb c (chr 39))).
  assert (Hq : all_chars q (Re.sub (Re.Plus Re.ws) (fun _ => " ")
                              (strip (replace sq "" (replace dq "" s)))) = true).
  { apply all_chars_sub; [reflexivity|]. apply all_chars_strip.
    unfold q. rewrite all_chars_and. apply andb_true_iff. split.
    - apply all_chars_replace; [reflexivity|].
      apply all_chars_replace_char; [reflexivity|].
      intros x Hx. rewrite Ascii.eqb_sym. now rewrite Hx.
    - apply all_chars_replace_char; [reflexivity|].
      intros x Hx. rewrite Ascii.eqb_sym. now rewrite Hx. }
  split.
  - apply (all_chars_escape q) in Hq; try reflexivity.
    pose proof (escape_no_angles (Re.sub (Re.Plus Re.ws) (fun _ => " ")
                                    (strip (replace sq "" (replace dq "" s))))) as Ha.
    assert (H : all_chars (fun c => q c && (negb (Ascii.eqb c "<") && negb (Ascii.eqb c ">")))
                  (html_escape_noquote
                     (Re.sub (Re.Plus Re.ws) (fun _ => " ")
                        (strip (replace sq "" (replace dq "" s))))) = true)
      by (rewrite all_chars_and, Hq, Ha; reflexivity).
    revert H. apply all_chars_impl. intros c. unfold q, plain_char.
    now rewrite andb_assoc.
  - apply all_chars_escape; try reflexivity. apply sub_ws_blank.
Qed.

End Labels.

Section PyLabels.
Import StrSpec.

Lemma str_app_assoc (a b c : string) : ((a ++ b) ++ c = a ++ (b ++ c))%string.
Proof. induction a as [|x a IH]; [reflexivity|]. cbn. now rewrite IH. Qed.

Lemma map_chars_app (f : ascii -> string) (a b : string) :
  map_chars f (a ++ b) = (map_chars f a ++ map_chars f b)%string.
Proof.
  induction a as [|c a IH]; [reflexivity|]. cbn. rewrite IH.
  now rewrite str_app_assoc.
Qed.

Lemma map_chars_ext (f g : ascii -> string) (s : string) :
  (forall c, f c = g c) -> map_chars f s = map_chars g s.
Proof. intros H. induction s as [|c s IH]; [reflexivity|]. cbn. now rewrite H, IH. Qed.

Lemma map_chars_comp (f g : ascii -> string) (s : string) :
  map_chars g (map_chars f s) = map_chars (fun c => map_chars g (f c)) s.
Proof.
  induction s as [|c s IH]; [reflexivity|]. cbn. now rewrite map_chars_app, IH.
Qed.

(** [html.escape(s, quote=False)] escapes each character on its own: the
    ampersands it writes for the angle brackets are not escaped again. *)
Lemma html_escape_by_char (s : string) :
  html_escape_noquote s = map_chars escape_char s.
Proof.
  unfold html_escape_noquote. rewrite !replace_char, !map_chars_comp.
  apply map_chars_ext. intros c. unfold escape_char.
  rewrite (Ascii.eqb_sym c "&"), (Ascii.eqb_sym c "<"), (Ascii.eqb_sym c ">").
  destruct (Ascii.eqb "&" c) eqn:Ea; [reflexivity|].
  cbn [map_chars String.append].
  destruct (Ascii.eqb "<" c) eqn:El; [reflexivity|].
  cbn [map_chars String.append]. now destruct (Ascii.eqb ">" c).
Qed.

Lemma replace_absent (old new s : string) :
  contains old s = false -> forall skip, skip = 0 -> replace_from old new skip s = s.
Proof.
  induction s as [|c s IH]; intros H skip ->; [reflexivity|].
  cbn [contains] in H. apply orb_false_iff in H as [Hs Hc].
  cbn [replace_from]. rewrite Hs. now rewrite IH.
Qed.

Lemma contains_cons_other (p : string) (a c : ascii) (s : string) :
  Ascii.eqb a c = false ->
  contains (String a p) (String c s) = contains (String a p) s.
Proof. intros H. cbn [contains startswith]. now rewrite H. Qed.

(** No entity of a quote stands in an escaped text: each ampersand there
    opens [&amp;], [&lt;] or [&gt;]. *)
Lemma no_quote_entity (p : string) (s : string) :
  (Ascii.eqb (match p with String x _ => x | EmptyString => "a"%char end) "a"
   || Ascii.eqb (match p with String x _ => x | EmptyString => "a"%char end) "l"
   || Ascii.eqb (match p with String x _ => x | EmptyString => "a"%char end) "g") = false ->
  contains (String "&" p) (map_chars safe_char s) = false.
Proof.
  intros Hp. destruct p as [|x p]; [discriminate Hp|].
  apply orb_false_iff in Hp as [Hp Hg]. apply orb_false_iff in Hp as [Ha Hl].
  induction s as [|c s IH]; [reflexivity|].
  cbn [map_chars]. unfold safe_char, escape_char.
  destruct (Ascii.eqb c (chr 10)) eqn:En.
  { cbn [String.append]. now rewrite contains_cons_other. }
  destruct (Ascii.eqb c "&") eqn:Ec.
  { cbn [String.append contains startswith]. rewrite Ha. cbn. exact IH. }
  destruct (Ascii.eqb c "<") eqn:Ec1.
  { cbn [String.append contains startswith]. rewrite Hl. cbn. exact IH. }
  destruct (Ascii.eqb c ">") eqn:Ec2.
  { cbn [String.append contains startswith]. rewrite Hg. cbn. exact IH. }
  cbn [String.append]. rewrite contains_cons_other; [exact IH|].
  now rewrite Ascii.eqb_sym.
Qed.

(** X2.  [python_parser.safe_label] works character by character: a line
    feed becomes a blank, the ampersand and the two angle brackets become
    their entities, every other character stays.  Its last two steps, which
    turn the entities of the quotes back into quotes, never find one.  So a
    label holds no angle bracket and no line feed. *)
Theorem py_safe_label_by_char :
  forall text : string,
    python_parser.safe_label text = map_chars safe_char text
    /\ python_parser.safe_label text = replace nl " " (html_escape_noquote text)
    /\ all_chars (fun c => negb (Ascii.eqb c "<") && negb (Ascii.eqb c ">")
                           && negb (Ascii.eqb c (chr 10)))
         (python_parser.safe_label text) = true.
Proof.
  intros text.
  assert (E : replace nl " " (html_escape_noquote text) = map_chars safe_char text).
  { rewrite html_escape_by_char. unfold nl. rewrite replace_char, map_chars_comp.
    apply map_chars_ext. intros c. unfold safe_char, escape_char.
    destruct (Ascii.eqb c (chr 10)) eqn:En.
    { apply Ascii.eqb_eq in En. subst c. reflexivity. }
    assert (En' : Ascii.eqb (chr 10) c = false) by (rewrite Ascii.eqb_sym; exact En).
    destruct (Ascii.eqb c "&"); [reflexivity|].
    destruct (Ascii.eqb c "<"); [reflexivity|].
    destruct (Ascii.eqb c ">"); [reflexivity|].
    cbn [map_chars String.append]. now rewrite En'. }
  assert (S : python_parser.safe_label text = map_chars safe_char text).
  { unfold python_parser.safe_label. rewrite E. unfold replace.
    rewrite (replace_absent "&quot;" dq) by (try reflexivity; now apply no_quote_entity).
    apply replace_absent; [|reflexivity]. now apply no_quote_entity. }
  split; [exact S|]. split; [now rewrite E|].
  rewrite S. apply all_chars_map_chars. intros c. unfold safe_char, escape_char.
  destruct (Ascii.eqb c (chr 10)) eqn:En; [reflexivity|].
  destruct (Ascii.eqb c "&"); [reflexivity|].
  destruct (Ascii.eqb c "<") eqn:El; [reflexivity|].
  destruct (Ascii.eqb c ">") eqn:Eg; [reflexivity|].
  cbn [all_chars]. now rewrite El, Eg, En.
Qed.

End PyLabels.

(** ** The readers of the C adapter *)

Section Readers.
Import ReadSpec.

Lemma drop_app_len (a b : string) : drop (len a) (a ++ b) = b.
Proof. induction a as [|c a IH]; [now destruct b|]. exact IH. Qed.

Lemma take_app_len (a b : string) : take (len a) (a ++ b) = a.
Proof.
  induction a as [|c a IH]; [now destruct b|]. cbn. f_equal. exact IH.
Qed.

Lemma get_app_len (a : string) (c : ascii) (b : string) :
  String.get (len a) (a ++ String c b) = Some c.
Proof. induction a as [|x a IH]; [reflexivity|]. exact IH. Qed.

Lemma len_app (a b : string) : len (a ++ b) = len a + len b.
Proof. unfold len. induction a as [|c a IH]; [reflexivity|]. cbn. now rewrite IH. Qed.

(** The scan of a block whose content nests. *)
Lemma read_block_scan_nests (o c : ascii) (rest : string) :
  c_parser.char_is o c = false ->
  forall (t : string) (d j : nat) (buf : string),
    nests o c d t = true ->
    c_parser.read_block_scan o c (t ++ String c rest) (S d) j buf
    = (rev_str buf t, j + len t + 1).
Proof.
  intros Hoc. induction t as [|ch t IH]; intros d j buf H.
  - cbn in H. apply Nat.eqb_eq in H. subst d.
    cbn [String.append c_parser.read_block_scan]. rewrite Hoc.
    unfold c_parser.char_is at 1. rewrite Ascii.eqb_refl. cbn. f_equal. lia.
  - cbn [nests] in H. cbn [String.append c_parser.read_block_scan].
    replace (j + len (String ch t) + 1) with (S j + len t + 1)
      by (unfold len; cbn; lia).
    destruct (c_parser.char_is o ch).
    + change (S (S d) =? 1)%nat with false. cbv iota. now rewrite IH.
    + destruct (c_parser.char_is c ch).
      * destruct d as [|d']; [discriminate H|].
        cbn [Nat.pred]. change (S d' =? 0)%nat with false. cbv iota. now rewrite IH.
      * now rewrite IH.
Qed.

(** X3.  [c_parser._read_block] returns what stands between a bracket and
    the bracket that closes it, and the index after the closing bracket,
    whenever the brackets in between nest; this holds for the parentheses
    of a condition and for the braces of a block. *)
Theorem c_read_block_returns_content :
  forall (pre t rest : string),
    (nests c_parser.lparen c_parser.rparen 0 t = true ->
     c_parser._read_block (pre ++ "(" ++ t ++ ")" ++ rest) (len pre)
     = (t, len pre + len t + 2))
    /\ (nests c_parser.lbrace c_parser.rbrace 0 t = true ->
        c_parser._read_block (pre ++ "{" ++ t ++ "}" ++ rest) (len pre)
        = (t, len pre + len t + 2)).
Proof.
  intros pre t rest. split; intros H; unfold c_parser._read_block;
    cbn [String.append]; rewrite get_app_len, drop_app_len;
    cbn [c_parser.read_block_scan].
  - change (c_parser.char_is c_parser.lparen "(") with true. cbv iota.
    change (c_parser.char_is "(" "(") with true. cbv iota.
    change (1 =? 1)%nat with true. cbv iota.
    etransitivity;
      [exact (read_block_scan_nests "(" ")" rest eq_refl t 0 (S (len pre)) EmptyString H)|].
    cbn [rev_str]. f_equal. lia.
  - change (c_parser.char_is c_parser.lparen "{") with false. cbv iota.
    change (c_parser.char_is "{" "{") with true. cbv iota.
    change (1 =? 1)%nat with true. cbv iota.
    etransitivity;
      [exact (read_block_scan_nests "{" "}" rest eq_refl t 0 (S (len pre)) EmptyString H)|].
    cbn [rev_str]. f_equal. lia.
Qed.

Lemma c_read_block_returns_content_witness :
  c_parser._read_block ("if " ++ "(" ++ "f(a) > (b)" ++ ")" ++ " { x; }") (len "if ")
  = ("f(a) > (b)", len "if " + len "f(a) > (b)" + 2).
Proof.
  apply (proj1 (c_read_block_returns_content "if " "f(a) > (b)" " { x; }")).
  reflexivity.
Defined.

(** The scan of a statement up to its semicolon. *)
Lemma read_stmt_scan_inside (rest : string) :
  forall (t : string) (d j : nat),
    inside_stmt d t = true ->
    c_parser.read_stmt_scan (t ++ String c_parser.semi rest) d j = (j + len t, true).
Proof.
  induction t as [|ch t IH]; intros d j H.
  - cbn in H. apply Nat.eqb_eq in H. subst d.
    cbn. f_equal. unfold len. cbn. lia.
  - cbn [inside_stmt] in H. cbn [String.append c_parser.read_stmt_scan].
    replace (j + len (String ch t)) with (S j + len t) by (unfold len; cbn; lia).
    destruct (c_parser.char_is c_parser.lparen ch); [now apply IH|].
    destruct (c_parser.char_is c_parser.rparen ch); [now apply IH|].
    destruct (c_parser.char_is c_parser.semi ch && (d =? 0)%nat); [discriminate H|].
    now apply IH.
Qed.

(** X4.  [c_parser._read_stmt] ends a statement at the first semicolon that
    stands outside parentheses: a semicolon between parentheses, as in the
    header of a for loop, is part of the statement.  The text returned is
    the statement with its semicolon, stripped, and the index is the one
    after the semicolon. *)
Theorem c_read_stmt_stops_outside_parentheses :
  forall (pre t rest : string),
    inside_stmt 0 t = true ->
    c_parser._read_stmt (pre ++ t ++ ";" ++ rest) (len pre)
    = (strip (t ++ ";"), len pre + len t + 1).
Proof.
  intros pre t rest H. unfold c_parser._read_stmt.
  rewrite drop_app_len. cbn [String.append].
  replace (c_parser.read_stmt_scan (t ++ String ";" rest) 0 (len pre))
    with (len pre + len t, true)
    by (symmetry; exact (read_stmt_scan_inside rest t 0 (len pre) H)).
  unfold slice. rewrite drop_app_len.
  replace (len pre + len t + 1 - len pre) with (len (t ++ ";")) by (rewrite len_app; cbn; lia).
  replace (t ++ String ";" rest)%string with ((t ++ ";") ++ rest)%string
    by (rewrite str_app_assoc; reflexivity).
  now rewrite take_app_len.
Qed.

Lemma c_read_stmt_stops_outside_parentheses_witness :
  c_parser._read_stmt ("x = 1; " ++ "f(a; b)" ++ ";" ++ " y = 2;") (len "x = 1; ")
  = (strip ("f(a; b)" ++ ";"), len "x = 1; " + len "f(a; b)" + 1).
Proof.
  apply (c_read_stmt_stops_outside_parentheses "x = 1; " "f(a; b)" " y = 2;").
  reflexivity.
Defined.

End Readers.

(** ** The diagram of the C renderer as a whole *)

Section CWellFormed.
Import c_parser CSpec FlowSpec CFlowSpec.

Lemma ids_from_app (prefix : string) (first a b : nat) :
  ids_from prefix first (a + b) = ids_from prefix first a ++ ids_from prefix (first + a) b.
Proof. unfold ids_from. now rewrite seq_app, map_app. Qed.

Lemma ids_from_length (prefix : string) (first count : nat) :
  length (ids_from prefix first count) = count.
Proof. unfold ids_from. now rewrite length_map, length_seq. Qed.

Lemma ids_from_snoc (prefix : string) (first count : nat) :
  ids_from prefix first count ++ [(prefix ++ str_of_nat (first + count))%string]
  = ids_from prefix first (S count).
Proof.
  replace (S count) with (count + 1) by lia. now rewrite ids_from_app.
Qed.

Lemma ids_from_mono (prefix x : string) (first a b : nat) :
  a <= b -> In x (ids_from prefix first a) -> In x (ids_from prefix first b).
Proof.
  intros Hab Hin. apply in_ids_from in Hin as (j & Hj & ->).
  apply in_ids_from. exists j. split; [lia|reflexivity].
Qed.

Lemma ids_from_sub (prefix x : string) (first a f b : nat) :
  first <= f -> f + b <= first + a ->
  In x (ids_from prefix f b) -> In x (ids_from prefix first a).
Proof.
  intros H1 H2 Hin. apply in_ids_from in Hin as (j & Hj & ->).
  apply in_ids_from. exists j. split; [lia|reflexivity].
Qed.

Lemma ids_from_nodup (c : ascii) (first count : nat) :
  NoDup (ids_from (String c EmptyString) first count).
Proof.
  revert first. induction count as [|k IH]; intros first; [constructor|].
  rewrite ids_from_S. constructor; [|apply IH].
  apply pid_not_in_later. lia.
Qed.

Lemma chain_edges_in (ids : list string) (e : edge) :
  In e (chain_edges ids) -> In (src e) ids /\ In (dst e) ids.
Proof.
  induction ids as [|a [|b ids] IH]; cbn [chain_edges]; try easy.
  intros [<-|Hin].
  - cbn. auto.
  - destruct (IH Hin) as [H1 H2]. split; now right.
Qed.

Lemma branch_edges_in (d lbl : string) (ids : list string) (e : edge) :
  In e (branch_edges d lbl ids) -> In (src e) (d :: ids) /\ In (dst e) ids.
Proof.
  destruct ids as [|i ids]; [easy|]. cbn [branch_edges].
  intros [<-|Hin].
  - cbn. auto.
  - destruct (chain_edges_in _ _ Hin) as [H1 H2]. split; [now right|exact H2].
Qed.

Lemma tail_edge_in (d lbl : string) (ids : list string) (target : string) :
  In (src (tail_edge d lbl ids target)) (d :: ids)
  /\ dst (tail_edge d lbl ids target) = target.
Proof.
  destruct ids as [|i ids]; cbn [tail_edge src dst]; [now split; [left|]|].
  split; [|reflexivity]. right. apply last_in.
Qed.

Lemma declared_app (a b : list line) : declared (a ++ b) = declared a ++ declared b.
Proof. unfold declared. now rewrite decls_of_app, map_app. Qed.

Lemma node_decl_ids (ids : list string) (ns : list node) :
  length ids = length ns ->
  map (fun d => fst (fst d)) (map (fun p => node_decl (fst p) (snd p)) (combine ids ns)) = ids.
Proof.
  revert ns. induction ids as [|i ids IH]; intros [|n ns] H; try discriminate H; [reflexivity|].
  cbn. f_equal. apply IH. now injection H.
Qed.

Lemma in_known_mono (x : string) (a b : nat) :
  a <= b -> In x ("Start" :: ids_from "N" 1 a) -> In x ("Start" :: ids_from "N" 1 b).
Proof.
  intros Hab [H|H]; [now left|right]. eapply ids_from_mono; eassumption.
Qed.

Lemma in_known_new (x : string) (f n b : nat) :
  1 <= f -> f + n <= 1 + b ->
  In x (ids_from "N" f n) -> In x ("Start" :: ids_from "N" 1 b).
Proof. intros H1 H2 H. right. eapply ids_from_sub; eassumption. Qed.

Lemma loop_inv_finish (k : nat) (prev : string) (st : rstate) :
  loop_inv k prev st ->
  closed_diagram k (lines (append end_line (connect prev "End" None st))).
Proof.
  intros (Hc & Hd & He & Hp). split.
  - cbn [connect]. unfold c_parser.append.
    cbn [lines]. rewrite !declared_app, Hd.
    cbn. now rewrite app_nil_r.
  - intros e. cbn [connect]. unfold c_parser.append.
    cbn [lines]. rewrite !edges_of_app.
    cbn [edges_of flat_map edge_of app ref_id bare]. rewrite app_nil_r.
    intros Hin. apply in_app_or in Hin as [Hin|[<-|[]]].
    + destruct (He e Hin) as [H1 H2]. split; [exact H1|]. apply in_or_app. now left.
    + cbn [src dst]. split; [exact Hp|]. apply in_or_app. right. now left.
Qed.

Lemma loop_inv_plain (k : nat) (prev l : string) (kd : kind) (st : rstate) :
  loop_inv k prev st ->
  loop_inv (S k) ("N" ++ str_of_nat (S k))
    (connect prev (fst (add_node l kd st)) None (snd (add_node l kd st))).
Proof.
  intros (Hc & Hd & He & Hp).
  unfold loop_inv, add_node, new_id. cbn [fst snd connect]. unfold c_parser.append.
  cbn [lines node_counter].
  rewrite Hc. split; [reflexivity|]. split; [|split].
  - rewrite !declared_app, Hd. cbn [declared decls_of flat_map decls_of_line decl_of decl bare
      ref_decl ref_id map app fst]. rewrite app_nil_r.
    cbn [app]. f_equal. exact (ids_from_snoc "N" 1 k).
  - intros e H. rewrite !edges_of_app in H.
    cbn [edges_of flat_map edge_of app ref_id bare decl] in H. rewrite app_nil_r in H.
    apply in_app_or in H as [H|[<-|[]]].
    + split.
      * eapply in_known_mono; [|apply (He e H)]. lia.
      * eapply ids_from_mono; [|apply (He e H)]. lia.
    + cbn [src dst]. split.
      * eapply in_known_mono; [|exact Hp]. lia.
      * apply in_ids_from. exists (S k). split; [lia|reflexivity].
  - right. apply in_ids_from. exists (S k). split; [lia|reflexivity].
Qed.

Lemma closed_return (k : nat) (prev l : string) (kd : kind) (st : rstate) :
  loop_inv k prev st ->
  closed_diagram (S k)
    (lines (append end_line
       (connect (fst (add_node l kd st)) "End" None
          (connect prev (fst (add_node l kd st)) None (snd (add_node l kd st)))))).
Proof.
  intros H. pose proof (proj1 H) as Hc.
  apply (loop_inv_plain k prev l kd st) in H.
  replace (fst (add_node l kd st)) with ("N" ++ str_of_nat (S k))%string at 1
    by (now rewrite <- Hc).
  now apply loop_inv_finish.
Qed.

Lemma ids_from_if (k a b : nat) :
  ids_from "N" 1 k ++ [("N" ++ str_of_nat (S k))%string]
    ++ ids_from "N" (S (S k)) a ++ ids_from "N" (S (S k) + a) b
  = ids_from "N" 1 (S k + a + b).
Proof.
  replace (S k + a + b) with (k + (1 + (a + b))) by lia.
  rewrite (ids_from_app "N" 1 k), (ids_from_app "N" (1 + k) 1), (ids_from_app "N" (1 + k + 1) a).
  replace (1 + k + 1) with (S (S k)) by lia. reflexivity.
Qed.

(** The endpoints of the edges a conditional adds, when its decision is
    N(k+1), its branches take the next [a] and [b] ids, and both join
    [target]. *)
Lemma if_edges_in (k a b : nat) (prev target : string) (e : edge) :
  let d := ("N" ++ str_of_nat (S k))%string in
  let ids_t := ids_from "N" (S (S k)) a in
  let ids_e := ids_from "N" (S (S k) + a) b in
  In e ([MkEdge prev None d] ++ branch_edges d "Yes" ids_t ++ branch_edges d "No" ids_e
        ++ [tail_edge d "Yes" ids_t target; tail_edge d "No" ids_e target]) ->
  (src e = prev \/ In (src e) (ids_from "N" (S k) (S a + b)))
  /\ (dst e = target \/ In (dst e) (ids_from "N" (S k) (S a + b))).
Proof.
  cbv zeta. intros H.
  assert (Hd : In ("N" ++ str_of_nat (S k))%string (ids_from "N" (S k) (S a + b))).
  { apply in_ids_from. exists (S k). split; [lia|reflexivity]. }
  assert (Ht : forall x, In x (ids_from "N" (S (S k)) a) -> In x (ids_from "N" (S k) (S a + b))).
  { intros x Hx. eapply ids_from_sub; [| |exact Hx]; lia. }
  assert (He : forall x, In x (ids_from "N" (S (S k) + a) b) -> In x (ids_from "N" (S k) (S a + b))).
  { intros x Hx. eapply ids_from_sub; [| |exact Hx]; lia. }
  assert (Hdt : forall x, In x (("N" ++ str_of_nat (S k))%string :: ids_from "N" (S (S k)) a) ->
                          In x (ids_from "N" (S k) (S a + b))).
  { intros x [<-|Hx]; auto. }
  assert (Hde : forall x, In x (("N" ++ str_of_nat (S k))%string :: ids_from "N" (S (S k) + a) b) ->
                          In x (ids_from "N" (S k) (S a + b))).
  { intros x [<-|Hx]; auto. }
  apply in_app_or in H as [[<-|[]]|H]; [cbn [src dst]; auto|].
  apply in_app_or in H as [H|H].
  { apply branch_edges_in in H as [H1 H2]. auto. }
  apply in_app_or in H as [H|H].
  { apply branch_edges_in in H as [H1 H2]. auto. }
  destruct H as [<-|[<-|[]]].
  - destruct (tail_edge_in ("N" ++ str_of_nat (S k)) "Yes" (ids_from "N" (S (S k)) a) target)
      as [H1 H2]. auto.
  - destruct (tail_edge_in ("N" ++ str_of_nat (S k)) "No" (ids_from "N" (S (S k) + a) b) target)
      as [H1 H2]. auto.
Qed.

Lemma loop_inv_if_more (cond : string) (t : list node) (e : option (list node))
  (nd : node) (rest : list node) (k : nat) (prev : string) (last : option string)
  (st : rstate) :
  loop_inv k prev st ->
  exists (st' : rstate) (m : string),
    render_from (if_ cond t e :: nd :: rest) prev last st
    = render_from (nd :: rest) m last st'
    /\ loop_inv (S (S k) + length t + length (or_empty e)) m st'.
Proof.
  intros (Hc & Hd & He & Hp).
  destruct (c_if_more cond t e nd rest prev last st) as (st' & Hr & Hc' & Hes & Hds).
  rewrite Hc in *.
  set (a := length t) in *. set (b := length (or_empty e)) in *.
  exists st', ("N" ++ str_of_nat (S (S k) + a + b))%string.
  split; [exact Hr|]. split; [exact Hc'|]. split; [|split].
  - unfold declared. rewrite Hds, !map_app.
    unfold declared in Hd. rewrite Hd.
    rewrite !node_decl_ids by (now rewrite ids_from_length).
    cbn [map fst app]. f_equal.
    replace (S (S k) + a + b) with (S (S k + a + b)) by lia.
    rewrite <- (ids_from_snoc "N" 1 (S k + a + b)), <- ids_from_if.
    rewrite <- !app_assoc. cbn [app]. reflexivity.
  - intros x Hx. rewrite Hes in Hx. apply in_app_or in Hx as [Hx|Hx].
    + destruct (He x Hx) as [H1 H2]. split.
      * eapply in_known_mono; [|exact H1]. lia.
      * eapply ids_from_mono; [|exact H2]. lia.
    + apply if_edges_in in Hx as [H1 H2]. split.
      * destruct H1 as [->|H1].
        -- eapply in_known_mono; [|exact Hp]. lia.
        -- eapply in_known_new; [| |exact H1]; lia.
      * destruct H2 as [->|H2].
        -- apply in_ids_from. exists (S (S k) + a + b). split; [lia|reflexivity].
        -- eapply ids_from_sub; [| |exact H2]; lia.
  - right. apply in_ids_from. exists (S (S k) + a + b). split; [lia|reflexivity].
Qed.

Lemma closed_if_last (cond : string) (t : list node) (e : option (list node))
  (k : nat) (prev : string) (last : option string) (st : rstate) :
  loop_inv k prev st ->
  closed_diagram (S k + length t + length (or_empty e))
    (lines (render_from [if_ cond t e] prev last st)).
Proof.
  intros (Hc & Hd & He & Hp).
  destruct (c_if_last cond t e prev last st) as (Hes & Hds).
  rewrite Hc in *.
  set (a := length t) in *. set (b := length (or_empty e)) in *.
  split.
  - unfold declared. rewrite Hds, !map_app.
    unfold declared in Hd. rewrite Hd.
    rewrite !node_decl_ids by (now rewrite ids_from_length).
    cbn [map fst app]. f_equal.
    rewrite <- ids_from_if.
    rewrite <- !app_assoc. cbn [app]. reflexivity.
  - intros x Hx. rewrite Hes in Hx. apply in_app_or in Hx as [Hx|Hx].
    + destruct (He x Hx) as [H1 H2]. split.
      * eapply in_known_mono; [|exact H1]. lia.
      * apply in_or_app. left. eapply ids_from_mono; [|exact H2]. lia.
    + apply if_edges_in in Hx as [H1 H2]. split.
      * destruct H1 as [->|H1].
        -- eapply in_known_mono; [|exact Hp]. lia.
        -- eapply in_known_new; [| |exact H1]; lia.
      * apply in_or_app. destruct H2 as [->|H2].
        -- right. now left.
        -- left. eapply ids_from_sub; [| |exact H2]; lia.
Qed.

(** The loop as a whole: from a buffer in the state above it returns a
    closed diagram. *)
Lemma render_from_closed (ast : list node) :
  forall (k : nat) (prev : string) (last : option string) (st : rstate),
    loop_inv k prev st ->
    exists k', closed_diagram k' (lines (render_from ast prev last st)).
Proof.
  induction ast as [|nd rest IH]; intros k prev last st Hinv.
  - exists k. cbn [render_from]. now apply loop_inv_finish.
  - destruct (is_if nd) eqn:Hif.
    + destruct nd as [| cond t e | | | |]; try discriminate Hif.
      destruct rest as [|nd' rest'].
      * eexists. apply closed_if_last. exact Hinv.
      * destruct (loop_inv_if_more cond t e nd' rest' k prev last st Hinv)
          as (st' & m & -> & Hinv').
        eapply IH, Hinv'.
    + rewrite render_from_plain by exact Hif.
      destruct (negb (truthy (label_of nd))); [eapply IH, Hinv|].
      destruct (opt_eqb (Some (label_of nd)) last); [eapply IH, Hinv|].
      pose proof (loop_inv_plain k prev (label_of nd) (io_or_proc (kind_of nd)) st Hinv) as Hn.
      pose proof (closed_return k prev (label_of nd) (io_or_proc (kind_of nd)) st Hinv) as Hr.
      destruct (add_node (label_of nd) (io_or_proc (kind_of nd)) st) as [nid st1] eqn:Ea.
      cbn [fst snd] in Hn, Hr.
      assert (En : nid = ("N" ++ str_of_nat (S k))%string).
      { destruct Hinv as (Hc & _). unfold add_node, new_id in Ea.
        injection Ea as <- _. now rewrite Hc. }
      cbv zeta. destruct (str_eqb (label_of nd) "Return").
      * eexists. exact Hr.
      * rewrite En in Hn |- *. eapply IH, Hn.
Qed.

Lemma init_state_inv : loop_inv 0 "Start" init_state.
Proof.
  split; [reflexivity|]. split; [reflexivity|]. split; [|now left].
  intros e [].
Qed.

Lemma no_start_end_in_ids (first count : nat) :
  ~ In "Start" (ids_from "N" first count) /\ ~ In "End" (ids_from "N" first count).
Proof.
  split; intros H; apply in_ids_from in H as (j & _ & E); discriminate E.
Qed.

Lemma closed_nodup (k : nat) : NoDup ("Start" :: ids_from "N" 1 k ++ ["End"]).
Proof.
  destruct (no_start_end_in_ids 1 k) as [Hs He].
  constructor.
  - intros H. apply in_app_or in H as [H|[H|[]]]; [now apply Hs|discriminate H].
  - apply NoDup_app.
    + apply ids_from_nodup.
    + constructor; [easy|constructor].
    + intros x Hx [<-|[]]. now apply He.
Qed.

(** X5.  The diagram the C renderer gives for any tree, and so for any source
    text, is closed: the nodes it declares are Start, N1, ..., Nk and End, in
    this order and each once; every edge leaves one of Start, N1, ..., Nk and
    enters one of N1, ..., Nk, End, so that no edge names an undeclared node,
    none enters Start and none leaves End. *)
Theorem c_flowchart_is_closed :
  (forall ast : list node,
     exists k : nat,
       declared (render ast) = "Start" :: ids_from "N" 1 k ++ ["End"]
       /\ NoDup (declared (render ast))
       /\ edges_within ("Start" :: ids_from "N" 1 k) (ids_from "N" 1 k ++ ["End"])
                       (render ast))
  /\ (forall code : string,
        exists (ls : list line) (k : nat),
          code_to_flowchart code = Some (show ls)
          /\ declared ls = "Start" :: ids_from "N" 1 k ++ ["End"]
          /\ edges_within ("Start" :: ids_from "N" 1 k) (ids_from "N" 1 k ++ ["End"]) ls).
Proof.
  assert (H : forall ast, exists k, closed_diagram k (render ast)).
  { intros ast. exact (render_from_closed ast 0 "Start" None init_state init_state_inv). }
  split.
  - intros ast. destruct (H ast) as (k & Hd & He). exists k.
    split; [exact Hd|]. split; [|exact He]. rewrite Hd. apply closed_nodup.
  - intros code. unfold code_to_flowchart.
    destruct (c_parse_block_total (main_body (_remove_comments_and_preproc code))) as [ast ->].
    destruct (H ast) as (k & Hd & He). exists (render ast), k.
    split; [reflexivity|]. split; assumption.
Qed.

End CWellFormed.

(** ** The explanation of a C program *)

Section Explanation.
Import c_parser ExplSpec.

Lemma in_flat_map_of {A B : Type} (f : A -> list B) (l : list A) (x : A) (y : B) :
  In x l -> In y (f x) -> In y (flat_map f l).
Proof. intros Hx Hy. apply in_flat_map. now exists x. Qed.

(** The lines of a block under a node are among the lines of the node, one
    or two levels further in. *)
Lemma walk_under (nd : node) (inner : list node) (depth : nat) (l : string) :
  In inner (blocks_of nd) ->
  inner <> [] ->
  (match nd with switch_ _ _ => In l (walk inner (S (S depth)))
            | _ => In l (walk inner (S depth)) end) ->
  In l (walk_node depth nd).
Proof.
  intros Hin Hne H. unfold walk in *.
  destruct nd as [text|cond t e|hdr b|cond b|cond b|expr cases]; cbn [blocks_of] in Hin.
  - destruct Hin.
  - cbn [walk_node]. right. apply in_or_app. destruct Hin as [<-|Hin]; [now left|].
    right. destruct e as [el|]; [|destruct Hin].
    destruct Hin as [<-|[]]. destruct el as [|x el]; [now destruct Hne|].
    cbn [is_nil]. now right.
  - destruct Hin as [<-|[]]. cbn [walk_node]. now right.
  - destruct Hin as [<-|[]]. cbn [walk_node]. now right.
  - destruct Hin as [<-|[]]. cbn [walk_node]. right. apply in_or_app. now left.
  - cbn [walk_node]. right. apply in_map_iff in Hin as ([lbl body] & <- & Hc).
    eapply in_flat_map_of; [exact Hc|]. cbn [snd]. now right.
Qed.

Lemma occurs_nonempty (x : node) (block : list node) : occurs x block -> block <> [].
Proof. intros [b H|nd b inner H _ _]; intros ->; destruct H. Qed.

Lemma occurs_bullet (text : string) (block : list node) :
  occurs (stmt text) block ->
  forall depth, exists d, depth <= d /\ In (bullet d text) (walk block depth).
Proof.
  induction 1 as [block Hin|nd block inner Hnd Hinner Hocc IH]; intros depth.
  - exists depth. split; [lia|]. unfold walk.
    eapply in_flat_map_of; [exact Hin|]. now left.
  - assert (Hne := occurs_nonempty _ _ Hocc).
    destruct nd as [t0|cond t e|hdr b|cond b|cond b|expr cases].
    + destruct Hinner.
    + destruct (IH (S depth)) as (d & Hd & Hl). exists d. split; [lia|].
      unfold walk at 1. eapply in_flat_map_of; [exact Hnd|].
      apply (walk_under _ inner); auto.
    + destruct (IH (S depth)) as (d & Hd & Hl). exists d. split; [lia|].
      unfold walk at 1. eapply in_flat_map_of; [exact Hnd|].
      apply (walk_under _ inner); auto.
    + destruct (IH (S depth)) as (d & Hd & Hl). exists d. split; [lia|].
      unfold walk at 1. eapply in_flat_map_of; [exact Hnd|].
      apply (walk_under _ inner); auto.
    + destruct (IH (S depth)) as (d & Hd & Hl). exists d. split; [lia|].
      unfold walk at 1. eapply in_flat_map_of; [exact Hnd|].
      apply (walk_under _ inner); auto.
    + destruct (IH (S (S depth))) as (d & Hd & Hl). exists d. split; [lia|].
      unfold walk at 1. eapply in_flat_map_of; [exact Hnd|].
      apply (walk_under _ inner); auto.
Qed.

(** X6.  The explanation of a C program is the line Program Explanation:
    followed by the lines of the walk over the parsed tree, and it has a
    bullet for every plain statement of the tree, however deep the statement
    lies in branches, loop bodies and switch cases: the statement's label
    after a dash, closed by a full stop, behind some indentation. *)
Theorem c_explanation_names_every_statement :
  forall code : string,
    exists ast : list node,
      _parse_block (main_body (_remove_comments_and_preproc code)) = Some ast
      /\ code_to_explanation code
         = Some (join nl ("Program Explanation:" :: walk ast 0))
      /\ forall text : string,
           occurs (stmt text) ast ->
           exists depth : nat, In (bullet depth text) (walk ast 0).
Proof.
  intros code.
  destruct (c_parse_block_total (main_body (_remove_comments_and_preproc code))) as [ast Hp].
  exists ast. split; [exact Hp|]. split.
  - unfold code_to_explanation. rewrite Hp. reflexivity.
  - intros text Hocc. destruct (occurs_bullet text ast Hocc 0) as (d & _ & Hd).
    now exists d.
Qed.

End Explanation.

(** ** Error diagrams and the web handler *)

Section Handler.
Import StrSpec AppSpec parser app.

(** [html.escape(s)] escapes each character on its own. *)
Lemma html_escape_full_by_char (s : string) :
  html_escape s = map_chars entity_char s.
Proof.
  unfold html_escape. rewrite html_escape_by_char.
  unfold dq, sq. rewrite !replace_char, !map_chars_comp.
  apply map_chars_ext. intros c. unfold entity_char, escape_char.
  destruct (Ascii.eqb c (chr 34)) eqn:Eq.
  { apply Ascii.eqb_eq in Eq. subst c. reflexivity. }
  destruct (Ascii.eqb c (chr 39)) eqn:Es.
  { apply Ascii.eqb_eq in Es. subst c. reflexivity. }
  assert (Eq' : Ascii.eqb (chr 34) c = false) by (now rewrite Ascii.eqb_sym).
  assert (Es' : Ascii.eqb (chr 39) c = false) by (now rewrite Ascii.eqb_sym).
  destruct (Ascii.eqb c "&") eqn:Ea.
  { apply Ascii.eqb_eq in Ea. subst c. reflexivity. }
  destruct (Ascii.eqb c "<") eqn:El.
  { apply Ascii.eqb_eq in El. subst c. reflexivity. }
  destruct (Ascii.eqb c ">") eqn:Eg.
  { apply Ascii.eqb_eq in Eg. subst c. reflexivity. }
  cbn [map_chars String.append]. rewrite Eq'. cbn [map_chars String.append].
  now rewrite Es'.
Qed.

Lemma entity_char_plain (c : ascii) : all_chars plain_char (entity_char c) = true.
Proof.
  unfold entity_char, escape_char.
  destruct (Ascii.eqb c (chr 34)) eqn:Eq; [reflexivity|].
  destruct (Ascii.eqb c (chr 39)) eqn:Es; [reflexivity|].
  destruct (Ascii.eqb c "&") eqn:Ea; [reflexivity|].
  destruct (Ascii.eqb c "<") eqn:El; [reflexivity|].
  destruct (Ascii.eqb c ">") eqn:Eg; [reflexivity|].
  cbn [all_chars]. unfold plain_char. now rewrite Eq, Es, El, Eg.
Qed.

(** X7.  The message of an error diagram cannot close the quotes of its
    label: html.escape rewrites it character by character, the two quotes,
    the ampersand and the angles into their entities, so that what stands
    between the quotes of the label holds no double quote, no single quote,
    no '<' and no '>'.  This is the label of the diagram the Python adapter
    returns for a syntax error, and of the fallback diagram of the web
    handler. *)
Theorem error_label_is_escaped :
  forall message : string,
    html_escape message = map_chars entity_char message
    /\ all_chars plain_char (html_escape message) = true
    /\ python_parser.code_to_flowchart_of (python_parser.SyntaxError message)
       = Returns ("graph TD" ++ nl ++ "Start((Start))" ++ nl
                  ++ "error[" ++ dq ++ "Error: " ++ html_escape message ++ dq
                  ++ "] --> End((End))" ++ nl)%string
    /\ fallback message
       = ("graph TD" ++ nl ++ "Error[" ++ dq ++ "Server Error" ++ dq ++ "] --> Msg["
          ++ dq ++ html_escape message ++ dq ++ "]")%string.
Proof.
  intros message. split; [apply html_escape_full_by_char|]. split.
  - rewrite html_escape_full_by_char. apply all_chars_map_chars, entity_char_plain.
  - split; [|reflexivity].
    unfold python_parser.code_to_flowchart_of, python_parser.error_lines, show, join.
    cbn [map show_line show_nref ref_decl ref_id decl decl_text python_parser.start_line
         String.concat].
    f_equal. rewrite <- !str_app_assoc. cbn. rewrite !str_app_assoc. reflexivity.
Qed.

(** A text with a character that is no white space is not blank. *)
Lemma lstrip_keeps_ink (s : string) :
  all_chars isspace s = false ->
  exists c r, lstrip s = String c r /\ isspace c = false.
Proof.
  unfold lstrip. induction s as [|c s IH]; [discriminate|].
  cbn [all_chars lstrip_by]. destruct (isspace c) eqn:E.
  - cbn [andb]. exact IH.
  - intros _. now exists c, s.
Qed.

Lemma strip_nonblank (s : string) :
  all_chars isspace s = false -> truthy (strip s) = true.
Proof.
  intros H. unfold strip. destruct (lstrip_keeps_ink s H) as (c & r & -> & Hc).
  unfold rstrip. cbn [rstrip_by]. rewrite Hc, andb_false_r. reflexivity.
Qed.

Lemma contains_ink (c : ascii) (p s : string) :
  isspace c = false -> contains (String c p) s = true -> all_chars isspace s = false.
Proof.
  intros Hc. induction s as [|x s IH]; [discriminate|].
  cbn [contains startswith all_chars]. intros H.
  apply orb_true_iff in H as [H|H].
  - apply andb_true_iff in H as [H _]. apply Ascii.eqb_eq in H. subst x.
    now rewrite Hc.
  - rewrite (IH H). apply andb_false_r.
Qed.

Lemma contains_nonblank (c : ascii) (p s : string) :
  isspace c = false -> contains (String c p) s = true -> truthy (strip s) = true.
Proof. intros Hc H. eapply strip_nonblank, contains_ink; eassumption. Qed.

(** A text the dispatcher takes for Java or for C is not blank. *)
Lemma detected_nonblank (code : string) :
  detect_language code <> "python" -> truthy (strip code) = true.
Proof.
  unfold detect_language. intros H.
  destruct (contains "public class" code) eqn:E1.
  { eapply contains_nonblank; [|exact E1]. reflexivity. }
  destruct (contains "System.out" code) eqn:E2.
  { eapply contains_nonblank; [|exact E2]. reflexivity. }
  destruct (contains "#include" code) eqn:E3.
  { eapply contains_nonblank; [|exact E3]. reflexivity. }
  destruct (contains "printf" code) eqn:E4.
  { eapply contains_nonblank; [|exact E4]. reflexivity. }
  destruct (contains "scanf" code) eqn:E5.
  { eapply contains_nonblank; [|exact E5]. reflexivity. }
  now destruct H.
Qed.

(** X8.  What the web handler answers to a JSON request whose body is an
    object with a string under the key code.  A text the dispatcher takes for
    Java is never drawn: the answer is status 500 for an AttributeError,
    whatever the text.  A text it takes for C is always answered with status
    200 and the diagram of the C adapter.  A text it takes for Python that
    does not parse is answered with status 200 as well, with the error
    diagram; and a blank text with status 400. *)
Theorem web_handler_answers :
  forall (ast_parse : string -> python_parser.parse_outcome)
         (items : list (string * json)) (code : string),
    dict_get items "code" (JStr EmptyString) = JStr code ->
    let answer := generate_mermaid ast_parse (Request true (Some (JDict items))) in
    (detect_language code = "java" -> answer = Error500 "AttributeError")
    /\ (detect_language code = "c" ->
        exists diagram, c_parser.code_to_flowchart code = Some diagram
                        /\ answer = Ok200 diagram)
    /\ (detect_language code = "python" -> truthy (strip code) = true ->
        forall message, ast_parse code = python_parser.SyntaxError message ->
        answer = Ok200 (show (python_parser.error_lines message) ++ nl))
    /\ (truthy (strip code) = false -> answer = Error400 "No code provided").
Proof.
  intros ast_parse items code Hget. cbv zeta.
  unfold generate_mermaid. cbn [is_json get_json negb]. rewrite Hget.
  split; [|split; [|split]].
  - intros Hj. rewrite detected_nonblank by (rewrite Hj; discriminate).
    cbn [negb]. unfold flowchart_from_input. rewrite Hj. reflexivity.
  - intros Hc. rewrite detected_nonblank by (rewrite Hc; discriminate).
    cbn [negb]. unfold flowchart_from_input. rewrite Hc.
    destruct (c_code_to_flowchart_total code) as [d Hd].
    exists d. split; [exact Hd|].
    cbn. rewrite Hd. reflexivity.
  - intros Hp Hne message Hs. rewrite Hne. cbn [negb].
    unfold flowchart_from_input. rewrite Hp. cbn.
    unfold python_parser.code_to_flowchart. rewrite Hs. reflexivity.
  - intros Hb. rewrite Hb. reflexivity.
Qed.

Lemma web_handler_answers_witness :
  dict_get [("lang", JStr "java"); ("code", JStr "System.out.println(1);")] "code"
    (JStr EmptyString) = JStr "System.out.println(1);"
  /\ generate_mermaid (fun _ => python_parser.Parsed [])
       (Request true (Some (JDict [("lang", JStr "java");
                                   ("code", JStr "System.out.println(1);")])))
     = Error500 "AttributeError".
Proof.
  split; [reflexivity|].
  apply (proj1 (web_handler_answers (fun _ => python_parser.Parsed [])
                  [("lang", JStr "java"); ("code", JStr "System.out.println(1);")]
                  "System.out.println(1);" eq_refl)).
  reflexivity.
Defined.

End Handler.

(** ** The diagram of the Java renderer as a whole *)

Section JavaClosed.
Import java_parser JSpec FlowSpec JFlowSpec.

Lemma numbered_mono (lo hi hi' : nat) (o : option string) :
  hi <= hi' -> numbered lo hi o -> numbered lo hi' o.
Proof. intros H (k & Hk & ->). exists k. split; [lia|reflexivity]. Qed.

Lemma numbered_fresh (lo c : nat) :
  lo <= c -> numbered lo (S c) (Some ("N" ++ str_of_nat (S c))%string).
Proof. intros H. exists (S c). split; [lia|reflexivity]. Qed.

Lemma numbered_some (lo hi : nat) (o : option string) : numbered lo hi o -> o <> None.
Proof. intros (k & _ & ->). discriminate. Qed.

Lemma numbered_truthy (lo hi : nat) (o : option string) :
  numbered lo hi o -> opt_truthy o = true.
Proof. intros (k & _ & ->). reflexivity. Qed.

Lemma edge_within_mono (lo hi hi' : nat) (e : jedge) :
  hi <= hi' -> edge_within lo hi e -> edge_within lo hi' e.
Proof. intros H [H1 H2]. split; eapply numbered_mono; eassumption. Qed.

Lemma extends_refl (lo : nat) (st : rstate) : extends lo st st.
Proof.
  split; [lia|]. split.
  - exists []. rewrite app_nil_r, Nat.sub_diag. now split.
  - exists []. rewrite app_nil_r. now split.
Qed.

Lemma extends_trans (lo : nat) (st st1 st2 : rstate) :
  extends lo st st1 -> extends lo st1 st2 -> extends lo st st2.
Proof.
  intros (H1 & (m1 & N1 & D1) & a1 & E1 & F1) (H2 & (m2 & N2 & D2) & a2 & E2 & F2).
  split; [lia|]. split.
  - exists (m1 ++ m2)%list. split; [now rewrite N2, N1, app_assoc|].
    unfold declared in *. rewrite decls_of_app, map_app, D1, D2.
    replace (id_counter st2 - id_counter st)
      with ((id_counter st1 - id_counter st) + (id_counter st2 - id_counter st1)) by lia.
    rewrite ids_from_app. do 2 f_equal. lia.
  - exists (a1 ++ a2)%list. split; [now rewrite E2, E1, app_assoc|].
    apply Forall_app. split; [|exact F2].
    eapply Forall_impl; [|exact F1]. intros e. apply edge_within_mono, H2.
Qed.

(** A node under a fresh id. *)
Lemma extends_new_node (lo : nat) (st : rstate) (sh : shape) (label : string) :
  extends lo st
    (push_node (Node (decl ("N" ++ str_of_nat (S (id_counter st))) sh label))
       (RState (nodes st) (edges st) (S (id_counter st)))).
Proof.
  split; [cbn; lia|]. split.
  - eexists. split; [reflexivity|]. cbn [id_counter push_node].
    replace (S (id_counter st) - id_counter st) with 1 by lia. reflexivity.
  - exists []. cbn. rewrite app_nil_r. now split.
Qed.

Lemma extends_push_edge (lo : nat) (st : rstate) (a b label : option string) :
  numbered lo (id_counter st) a -> numbered lo (id_counter st) b ->
  extends lo st (push_edge a b label st).
Proof.
  intros Ha Hb. split; [cbn; lia|]. split.
  - exists []. cbn. rewrite app_nil_r, Nat.sub_diag. now split.
  - exists [JEdge a b label]. split; [reflexivity|].
    constructor; [|constructor]. now split.
Qed.

Lemma add_node_rect_spec (lo : nat) (label : string) (st : rstate) :
  fst (add_node_rect label st) = ("N" ++ str_of_nat (S (id_counter st)))%string
  /\ id_counter (snd (add_node_rect label st)) = S (id_counter st)
  /\ extends lo st (snd (add_node_rect label st)).
Proof.
  unfold add_node_rect, new_id. cbv zeta. cbn [fst snd].
  split; [reflexivity|]. split; [reflexivity|]. apply extends_new_node.
Qed.

Lemma add_node_diamond_spec (lo : nat) (label : string) (st : rstate) :
  fst (add_node_diamond label st) = ("N" ++ str_of_nat (S (id_counter st)))%string
  /\ id_counter (snd (add_node_diamond label st)) = S (id_counter st)
  /\ extends lo st (snd (add_node_diamond label st)).
Proof.
  unfold add_node_diamond, new_id. cbv zeta. cbn [fst snd].
  split; [reflexivity|]. split; [reflexivity|]. apply extends_new_node.
Qed.

Lemma add_merge_spec (lo : nat) (st : rstate) :
  fst (add_merge st) = ("N" ++ str_of_nat (S (id_counter st)))%string
  /\ id_counter (snd (add_merge st)) = S (id_counter st)
  /\ extends lo st (snd (add_merge st)).
Proof.
  unfold add_merge, new_id. cbv zeta. cbn [fst snd].
  split; [reflexivity|]. split; [reflexivity|]. apply extends_new_node.
Qed.

Lemma ends_ok_mono (lo : nat) (st st' : rstate) (first last : option string) :
  id_counter st <= id_counter st' -> ends_ok lo st first last -> ends_ok lo st' first last.
Proof.
  intros H (Hf & Hl & Hi). split; [|split; [|exact Hi]].
  - destruct Hf as [Hf|Hf]; [now left|right]. eapply numbered_mono; eassumption.
  - destruct Hl as [Hl|Hl]; [now left|right]. eapply numbered_mono; eassumption.
Qed.

(** The two steps a construct takes with its entry node. *)
Lemma enter_spec (lo : nat) (entry first last : option string) (st : rstate) :
  ends_ok lo st first last -> numbered lo (id_counter st) entry ->
  extends lo st (snd (enter entry first last st))
  /\ id_counter (snd (enter entry first last st)) = id_counter st
  /\ numbered lo (id_counter st) (fst (enter entry first last st)).
Proof.
  intros (Hf & Hl & Hi) He. unfold enter. cbn [fst snd].
  split; [|split].
  - destruct last as [l|]; cbn [is_none].
    + apply extends_push_edge; [|exact He]. now destruct Hl.
    + apply extends_refl.
  - now destruct last.
  - destruct first as [f|]; cbn [is_none]; [|exact He]. now destruct Hf.
Qed.

(** The result of a turn that has drawn: [first] from [enter], and a fresh
    or earlier id as [last]. *)
Lemma step_closed_drawn (lo : nat) (drawn : bool) (first first' last' : option string)
  (st st' : rstate) :
  extends lo st st' ->
  numbered lo (id_counter st') first' -> numbered lo (id_counter st') last' ->
  step_closed lo drawn first st (first', last', st').
Proof.
  intros He Hf Hl. split; [exact He|]. split.
  - split; [now right|]. split; [now right|].
    split; intros H; [now apply numbered_some in Hf|now apply numbered_some in Hl].
  - intros _. eapply numbered_some, Hf.
Qed.

(** The loop of a block. *)
Lemma render_stmts_closed (block : list node) :
  Forall node_closed block ->
  forall (lo : nat) (first last : option string) (st : rstate),
    forallb sound block = true -> lo <= id_counter st -> ends_ok lo st first last ->
    step_closed lo (existsb draws block) first st
      (render_stmts render_node block first last st).
Proof.
  induction 1 as [|x block Hx _ IH]; intros lo first last st Hs Hc He;
    cbn [render_stmts existsb].
  - split; [apply extends_refl|]. split; [exact He|].
    intros [H|H]; [exact H|discriminate H].
  - cbn [forallb] in Hs. apply andb_true_iff in Hs as [Hs1 Hs2].
    specialize (Hx lo first last st Hs1 Hc He).
    destruct (render_node x first last st) as [[f1 l1] st1].
    destruct Hx as (Hx1 & Hx2 & Hx3). cbn [fst snd] in Hx1, Hx2, Hx3.
    assert (Hc1 : lo <= id_counter st1) by (destruct Hx1; lia).
    specialize (IH lo f1 l1 st1 Hs2 Hc1 Hx2).
    destruct IH as (I1 & I2 & I3).
    split; [eapply extends_trans; eassumption|]. split; [exact I2|].
    intros H. apply I3. destruct H as [H|H].
    + left. apply Hx3. now left.
    + apply orb_true_iff in H as [H|H]; [|now right].
      left. apply Hx3. now right.
Qed.

Lemma render_block_closed (block : list node) :
  Forall node_closed block ->
  forall (lo : nat) (st : rstate),
    forallb sound block = true -> lo <= id_counter st ->
    step_closed lo (existsb draws block) None st (render_block block st).
Proof.
  intros Hb lo st Hs Hc.
  apply (render_stmts_closed block Hb lo None None st Hs Hc).
  split; [now left|]. split; [now left|]. tauto.
Qed.

(** The cases of a switch. *)
Lemma render_cases_closed (lo : nat) (switch_n merge_n : string)
  (cases : list (string * list string)) :
  forall st : rstate,
    lo <= id_counter st ->
    numbered lo (id_counter st) (Some switch_n) ->
    numbered lo (id_counter st) (Some merge_n) ->
    extends lo st (render_cases switch_n merge_n cases st).
Proof.
  induction cases as [|[label body] cases IH]; intros st Hc Hs Hm; cbn [render_cases].
  - apply extends_refl.
  - cbv zeta.
    match goal with
    | |- context [add_node_rect ?l st] =>
        destruct (add_node_rect_spec lo l st) as (En & Ec & Hx);
        destruct (add_node_rect l st) as [case_n st1]
    end.
    cbn [fst snd] in En, Ec, Hx. subst case_n.
    assert (Hn : numbered lo (id_counter st1) (Some ("N" ++ str_of_nat (S (id_counter st)))%string)).
    { rewrite Ec. now apply numbered_fresh. }
    assert (Hs1 : numbered lo (id_counter st1) (Some switch_n)).
    { eapply numbered_mono; [|exact Hs]. lia. }
    assert (Hm1 : numbered lo (id_counter st1) (Some merge_n)).
    { eapply numbered_mono; [|exact Hm]. lia. }
    set (st2 := push_edge (Some switch_n) _ (Some "case") st1).
    set (st3 := push_edge _ (Some merge_n) None st2).
    assert (H2 : extends lo st1 st2) by (apply extends_push_edge; assumption).
    assert (H3 : extends lo st2 st3) by (apply extends_push_edge; assumption).
    eapply extends_trans; [exact Hx|].
    eapply extends_trans; [exact H2|].
    eapply extends_trans; [exact H3|].
    apply IH; [change (id_counter st3) with (id_counter st1); lia|assumption|assumption].
Qed.

(** A branch of a conditional joins the merge node: from its last node when
    it has drawn one, from the condition otherwise. *)
Lemma branch_join_closed (lo : nat) (from : option string) (merge_id : string)
  (label : string) (bf bl : option string) (st : rstate) :
  numbered lo (id_counter st) from ->
  numbered lo (id_counter st) (Some merge_id) ->
  ends_ok lo st bf bl ->
  let st' := if opt_truthy bf
             then push_edge bl (Some merge_id) None (push_edge from bf (Some label) st)
             else push_edge from (Some merge_id) (Some label) st in
  extends lo st st' /\ id_counter st' = id_counter st.
Proof.
  intros Hf Hm (Hbf & Hbl & Hi). cbv zeta.
  destruct Hbf as [->|Hbf].
  - cbn [opt_truthy]. split; [|reflexivity]. now apply extends_push_edge.
  - rewrite (numbered_truthy _ _ _ Hbf). split; [|reflexivity].
    assert (Hbl' : numbered lo (id_counter st) bl).
    { destruct Hbl as [Hbl|Hbl]; [|exact Hbl].
      apply Hi in Hbl. now apply numbered_some in Hbf. }
    eapply extends_trans; [apply (extends_push_edge lo st from bf (Some label)); assumption|].
    apply extends_push_edge; assumption.
Qed.

(** The clauses of a conditional. *)
Lemma render_clauses_closed (lo : nat) (merge_id : string)
  (clauses : list (string * list node)) :
  Forall (fun cl => Forall node_closed (snd cl)) clauses ->
  forallb (fun cl : string * list node => forallb sound (snd cl)) clauses = true ->
  forall (prev fc : option string) (st : rstate),
    lo <= id_counter st ->
    numbered lo (id_counter st) (Some merge_id) ->
    (prev = None \/ numbered lo (id_counter st) prev) ->
    (fc = None \/ numbered lo (id_counter st) fc) ->
    let r := render_clauses render_node merge_id clauses prev fc st in
    extends lo st (snd r)
    /\ (fst (fst r) = None \/ numbered lo (id_counter (snd r)) (fst (fst r)))
    /\ (snd (fst r) = None \/ numbered lo (id_counter (snd r)) (snd (fst r)))
    /\ (clauses <> [] \/ prev <> None -> fst (fst r) <> None)
    /\ (clauses <> [] \/ fc <> None -> snd (fst r) <> None).
Proof.
  induction 1 as [|[cond then_block] clauses Hb _ IH];
    intros Hs prev fc st Hc Hm Hp Hf; cbv zeta; cbn [render_clauses].
  - cbn [fst snd]. split; [apply extends_refl|]. split; [exact Hp|]. split; [exact Hf|].
    split; (intros [H|H]; [now destruct H|exact H]).
  - cbn [forallb snd] in Hs, Hb. apply andb_true_iff in Hs as [Hs1 Hs2].
    cbv zeta.
    destruct (add_node_diamond_spec lo (_safe_label cond) st) as (En & Ec & Hx).
    destruct (add_node_diamond (_safe_label cond) st) as [cond_id st1].
    cbn [fst snd] in En, Ec, Hx. subst cond_id.
    set (cond_id := ("N" ++ str_of_nat (S (id_counter st)))%string) in *.
    assert (Hcond : numbered lo (id_counter st1) (Some cond_id)).
    { rewrite Ec. now apply numbered_fresh. }
    set (fc1 := if is_none fc then Some cond_id else fc).
    set (st2 := if is_none prev then st1 else push_edge prev (Some cond_id) (Some "False") st1).
    assert (H2 : extends lo st1 st2 /\ id_counter st2 = id_counter st1).
    { subst st2. destruct prev as [p|]; cbn [is_none].
      - split; [|reflexivity]. apply extends_push_edge; [|exact Hcond].
        destruct Hp as [Hp|Hp]; [discriminate Hp|].
        eapply numbered_mono; [|exact Hp]. lia.
      - split; [apply extends_refl|reflexivity]. }
    destruct H2 as [H2 Ec2].
    pose proof (render_block_closed then_block Hb lo st2 Hs1) as Hthen.
    change (render_block_with render_node then_block st2) with (render_block then_block st2).
    destruct (render_block then_block st2) as [[tf tl] st3].
    destruct Hthen as (T1 & T2 & _); [lia|]. cbn [fst snd] in T1, T2.
    assert (Hc3 : id_counter st1 <= id_counter st3) by (destruct T1; lia).
    match goal with
    | |- context [render_clauses _ _ _ _ _ ?s] => set (st4 := s)
    end.
    assert (H4 : extends lo st3 st4 /\ id_counter st4 = id_counter st3).
    { apply (branch_join_closed lo (Some cond_id) merge_id "True" tf tl st3).
      - eapply numbered_mono; [|exact Hcond]. lia.
      - eapply numbered_mono; [|exact Hm]. lia.
      - exact T2. }
    destruct H4 as [H4 Ec4].
    specialize (IH Hs2 (Some cond_id) fc1 st4).
    cbv zeta in IH.
    destruct IH as (I1 & I2 & I3 & I4 & I5).
    + lia.
    + eapply numbered_mono; [|exact Hm]. lia.
    + right. eapply numbered_mono; [|exact Hcond]. lia.
    + subst fc1. destruct fc as [f|]; cbn [is_none].
      * destruct Hf as [Hf|Hf]; [discriminate Hf|]. right.
        eapply numbered_mono; [|exact Hf]. lia.
      * right. eapply numbered_mono; [|exact Hcond]. lia.
    + split.
      { eapply extends_trans; [exact Hx|]. eapply extends_trans; [exact H2|].
        eapply extends_trans; [exact T1|]. eapply extends_trans; [exact H4|exact I1]. }
      split; [exact I2|]. split; [exact I3|]. split.
      * intros _. apply I4. now right.
      * intros _. apply I5. right. subst fc1. now destruct fc.
Qed.

(** A conditional as a whole: its first condition and its merge node. *)
Lemma render_if_chain_closed (clauses : list (string * list node))
  (else_block : option (list node)) :
  Forall (fun cl => Forall node_closed (snd cl)) clauses ->
  match else_block with Some eb => Forall node_closed eb | None => True end ->
  sound (if_chain clauses else_block) = true ->
  forall (lo : nat) (st : rstate),
    lo <= id_counter st ->
    let r := render_if_chain clauses else_block st in
    extends lo st (snd r)
    /\ numbered lo (id_counter (snd r)) (fst (fst r))
    /\ numbered lo (id_counter (snd r)) (snd (fst r)).
Proof.
  intros Hcl Helse Hs lo st Hc. cbv zeta.
  cbn [sound] in Hs. apply andb_true_iff in Hs as [Hs Hse].
  apply andb_true_iff in Hs as [Hne Hsc].
  assert (Hne' : clauses <> []) by (destruct clauses; [discriminate Hne|discriminate]).
  unfold render_if_chain, render_if_chain_with.
  destruct (add_merge_spec lo st) as (En & Ec & Hx).
  destruct (add_merge st) as [merge_id st1]. cbn [fst snd] in En, Ec, Hx. subst merge_id.
  set (merge_id := ("N" ++ str_of_nat (S (id_counter st)))%string) in *.
  assert (Hm : numbered lo (id_counter st1) (Some merge_id)).
  { rewrite Ec. now apply numbered_fresh. }
  pose proof (render_clauses_closed lo merge_id clauses Hcl Hsc None None st1) as Hr.
  cbv zeta in Hr.
  destruct (render_clauses render_node merge_id clauses None None st1) as [[prev fc] st2].
  cbn [fst snd] in Hr.
  destruct Hr as (R1 & R2 & R3 & R4 & R5); [lia|exact Hm|now left|now left|].
  assert (Hc2 : id_counter st1 <= id_counter st2) by (destruct R1; lia).
  assert (Hprev : numbered lo (id_counter st2) prev).
  { destruct R2 as [R2|R2]; [|exact R2]. exfalso. apply R4; [now left|exact R2]. }
  assert (Hfc : numbered lo (id_counter st2) fc).
  { destruct R3 as [R3|R3]; [|exact R3]. exfalso. apply R5; [now left|exact R3]. }
  assert (Hm2 : numbered lo (id_counter st2) (Some merge_id)).
  { eapply numbered_mono; [|exact Hm]. lia. }
  match goal with
  | |- context [(fc, Some merge_id, ?s)] => set (st3 := s)
  end.
  assert (H3 : extends lo st2 st3 /\ id_counter st2 <= id_counter st3).
  { subst st3. destruct else_block as [eb|].
    - pose proof (render_block_closed eb Helse lo st2 Hse) as He.
      change (render_block_with render_node eb st2) with (render_block eb st2).
      destruct (render_block eb st2) as [[ef el] st'].
      destruct He as (E1 & E2 & _); [lia|]. cbn [fst snd] in E1, E2.
      assert (Hc' : id_counter st2 <= id_counter st') by (destruct E1; lia).
      destruct (branch_join_closed lo prev merge_id "False" ef el st') as [J1 J2].
      + eapply numbered_mono; [|exact Hprev]. lia.
      + eapply numbered_mono; [|exact Hm2]. lia.
      + exact E2.
      + cbv zeta in J1, J2. split; [|lia].
        eapply extends_trans; [exact E1|exact J1].
    - split; [|cbn; lia]. now apply extends_push_edge. }
  destruct H3 as [H3 Hc3]. cbn [fst snd].
  split; [|split].
  - eapply extends_trans; [exact Hx|]. eapply extends_trans; [exact R1|exact H3].
  - eapply numbered_mono; [|exact Hfc]. lia.
  - eapply numbered_mono; [|exact Hm2]. lia.
Qed.

(** One turn of the loop of a block, for every statement of a sound tree. *)
Lemma render_node_closed : forall nd, node_closed nd.
Proof.
  apply java_node_nested_ind.
  - (* a plain statement *)
    intros code lo first last st _ Hc He. cbn [render_node draws skipped].
    destruct (_ || _).
    + cbn [negb]. split; [apply extends_refl|]. split; [exact He|].
      intros [H|H]; [exact H|discriminate H].
    + destruct (add_node_rect_spec lo (_safe_label code) st) as (En & Ec & Hx).
      destruct (add_node_rect (_safe_label code) st) as [nid st1].
      cbn [fst snd] in En, Ec, Hx. subst nid.
      assert (Hn : numbered lo (id_counter st1)
                     (Some ("N" ++ str_of_nat (S (id_counter st)))%string)).
      { rewrite Ec. now apply numbered_fresh. }
      assert (He1 : ends_ok lo st1 first last) by (eapply ends_ok_mono; [|exact He]; lia).
      destruct (enter_spec lo _ first last st1 He1 Hn) as (X1 & X2 & X3).
      destruct (enter _ first last st1) as [f' st2]. cbn [fst snd] in X1, X2, X3.
      apply step_closed_drawn.
      * eapply extends_trans; eassumption.
      * now rewrite X2.
      * now rewrite X2.
  - (* a conditional *)
    intros clauses else_block Hcl Helse lo first last st Hs Hc He.
    cbn [render_node].
    pose proof (render_if_chain_closed clauses else_block Hcl Helse Hs lo st Hc) as Hr.
    cbv zeta in Hr.
    change (render_if_chain_with render_node clauses else_block st)
      with (render_if_chain clauses else_block st).
    destruct (render_if_chain clauses else_block st) as [[cf cl] st1].
    cbn [fst snd] in Hr. destruct Hr as (R1 & R2 & R3).
    assert (He1 : ends_ok lo st1 first last).
    { eapply ends_ok_mono; [|exact He]. destruct R1; lia. }
    destruct (enter_spec lo cf first last st1 He1 R2) as (X1 & X2 & X3).
    destruct (enter cf first last st1) as [f' st2]. cbn [fst snd] in X1, X2, X3.
    apply step_closed_drawn.
    + eapply extends_trans; eassumption.
    + now rewrite X2.
    + now rewrite X2.
  - (* for *)
    intros cond body _ lo first last st _ Hc He. cbn [render_node draws].
    match goal with
    | |- context [add_node_diamond ?l st] =>
        destruct (add_node_diamond_spec lo l st) as (En & Ec & Hx);
        destruct (add_node_diamond l st) as [cond_n st1]
    end.
    cbn [fst snd] in En, Ec, Hx. subst cond_n.
    set (cond_n := ("N" ++ str_of_nat (S (id_counter st)))%string) in *.
    assert (Hn : numbered lo (id_counter st1) (Some cond_n)).
    { rewrite Ec. now apply numbered_fresh. }
    assert (He1 : ends_ok lo st1 first last) by (eapply ends_ok_mono; [|exact He]; lia).
    destruct (enter_spec lo _ first last st1 He1 Hn) as (X1 & X2 & X3).
    destruct (enter _ first last st1) as [f' st2]. cbn [fst snd] in X1, X2, X3.
    destruct body as [|b body].
    + apply step_closed_drawn.
      * eapply extends_trans; eassumption.
      * now rewrite X2.
      * now rewrite X2.
    + match goal with
      | |- context [add_node_rect ?l st2] =>
          destruct (add_node_rect_spec lo l st2) as (Bn & Bc & Bx);
          destruct (add_node_rect l st2) as [body_n st3]
      end.
      cbn [fst snd] in Bn, Bc, Bx. subst body_n.
      assert (Hb : numbered lo (id_counter st3)
                     (Some ("N" ++ str_of_nat (S (id_counter st2)))%string)).
      { rewrite Bc. apply numbered_fresh. lia. }
      assert (Hn3 : numbered lo (id_counter st3) (Some cond_n)).
      { eapply numbered_mono; [|exact Hn]. lia. }
      apply step_closed_drawn.
      * eapply extends_trans; [exact Hx|]. eapply extends_trans; [exact X1|].
        eapply extends_trans; [exact Bx|].
        eapply extends_trans;
          [apply (extends_push_edge lo st3 _ _ (Some "True") Hn3 Hb)|].
        apply extends_push_edge; assumption.
      * cbn [push_edge id_counter]. eapply numbered_mono; [|exact X3]. lia.
      * exact Hn3.
  - (* while *)
    intros cond body _ lo first last st _ Hc He. cbn [render_node draws].
    match goal with
    | |- context [add_node_diamond ?l st] =>
        destruct (add_node_diamond_spec lo l st) as (En & Ec & Hx);
        destruct (add_node_diamond l st) as [cond_n st1]
    end.
    cbn [fst snd] in En, Ec, Hx. subst cond_n.
    set (cond_n := ("N" ++ str_of_nat (S (id_counter st)))%string) in *.
    assert (Hn : numbered lo (id_counter st1) (Some cond_n)).
    { rewrite Ec. now apply numbered_fresh. }
    assert (He1 : ends_ok lo st1 first last) by (eapply ends_ok_mono; [|exact He]; lia).
    destruct (enter_spec lo _ first last st1 He1 Hn) as (X1 & X2 & X3).
    destruct (enter _ first last st1) as [f' st2]. cbn [fst snd] in X1, X2, X3.
    destruct body as [|b body].
    + apply step_closed_drawn.
      * eapply extends_trans; eassumption.
      * now rewrite X2.
      * now rewrite X2.
    + match goal with
      | |- context [add_node_rect ?l st2] =>
          destruct (add_node_rect_spec lo l st2) as (Bn & Bc & Bx);
          destruct (add_node_rect l st2) as [body_n st3]
      end.
      cbn [fst snd] in Bn, Bc, Bx. subst body_n.
      assert (Hb : numbered lo (id_counter st3)
                     (Some ("N" ++ str_of_nat (S (id_counter st2)))%string)).
      { rewrite Bc. apply numbered_fresh. lia. }
      assert (Hn3 : numbered lo (id_counter st3) (Some cond_n)).
      { eapply numbered_mono; [|exact Hn]. lia. }
      apply step_closed_drawn.
      * eapply extends_trans; [exact Hx|]. eapply extends_trans; [exact X1|].
        eapply extends_trans; [exact Bx|].
        eapply extends_trans;
          [apply (extends_push_edge lo st3 _ _ (Some "True") Hn3 Hb)|].
        apply extends_push_edge; assumption.
      * cbn [push_edge id_counter]. eapply numbered_mono; [|exact X3]. lia.
      * exact Hn3.
  - (* do-while *)
    intros cond body Hb lo first last st Hs Hc He. cbn [render_node draws].
    cbn [sound] in Hs. apply andb_true_iff in Hs as [Hd Hsb].
    pose proof (render_block_closed body Hb lo st Hsb Hc) as Hr.
    change (render_block_with render_node body st) with (render_block body st).
    destruct (render_block body st) as [[bf bl] st1].
    destruct Hr as (R1 & (Rf & Rl & Ri) & R3). cbn [fst snd] in R1, Rf, Rl, Ri, R3.
    assert (Hc1 : id_counter st <= id_counter st1) by (destruct R1; lia).
    assert (Hbf : numbered lo (id_counter st1) bf).
    { destruct Rf as [Rf|Rf]; [|exact Rf]. exfalso. apply R3; [right; exact Hd|exact Rf]. }
    assert (Hbl : numbered lo (id_counter st1) bl).
    { destruct Rl as [Rl|Rl]; [|exact Rl]. apply Ri in Rl. now apply numbered_some in Hbf. }
    match goal with
    | |- context [add_node_diamond ?l st1] =>
        destruct (add_node_diamond_spec lo l st1) as (En & Ec & Hx);
        destruct (add_node_diamond l st1) as [cond_n st2]
    end.
    cbn [fst snd] in En, Ec, Hx. subst cond_n.
    set (cond_n := ("N" ++ str_of_nat (S (id_counter st1)))%string) in *.
    assert (Hn : numbered lo (id_counter st2) (Some cond_n)).
    { rewrite Ec. apply numbered_fresh. lia. }
    assert (He2 : ends_ok lo st2 first last) by (eapply ends_ok_mono; [|exact He]; lia).
    assert (Hbf2 : numbered lo (id_counter st2) bf) by (eapply numbered_mono; [|exact Hbf]; lia).
    assert (Hbl2 : numbered lo (id_counter st2) bl) by (eapply numbered_mono; [|exact Hbl]; lia).
    destruct (enter_spec lo bf first last st2 He2 Hbf2) as (X1 & X2 & X3).
    destruct (enter bf first last st2) as [f' st3]. cbn [fst snd] in X1, X2, X3.
    rewrite <- X2 in Hn, Hbf2, Hbl2, X3.
    apply step_closed_drawn.
    + eapply extends_trans; [exact R1|]. eapply extends_trans; [exact Hx|].
      eapply extends_trans; [exact X1|].
      eapply extends_trans; [apply (extends_push_edge lo st3 bl (Some cond_n) None Hbl2 Hn)|].
      apply extends_push_edge; assumption.
    + exact X3.
    + exact Hn.
  - (* switch *)
    intros cond cases lo first last st _ Hc He. cbn [render_node draws].
    match goal with
    | |- context [add_node_diamond ?l st] =>
        destruct (add_node_diamond_spec lo l st) as (En & Ec & Hx);
        destruct (add_node_diamond l st) as [switch_n st1]
    end.
    cbn [fst snd] in En, Ec, Hx. subst switch_n.
    set (switch_n := ("N" ++ str_of_nat (S (id_counter st)))%string) in *.
    assert (Hn : numbered lo (id_counter st1) (Some switch_n)).
    { rewrite Ec. now apply numbered_fresh. }
    assert (He1 : ends_ok lo st1 first last) by (eapply ends_ok_mono; [|exact He]; lia).
    destruct (enter_spec lo _ first last st1 He1 Hn) as (X1 & X2 & X3).
    destruct (enter _ first last st1) as [f' st2]. cbn [fst snd] in X1, X2, X3.
    destruct (add_merge_spec lo st2) as (Mn & Mc & Mx).
    destruct (add_merge st2) as [merge_n st3]. cbn [fst snd] in Mn, Mc, Mx. subst merge_n.
    set (merge_n := ("N" ++ str_of_nat (S (id_counter st2)))%string) in *.
    assert (Hm : numbered lo (id_counter st3) (Some merge_n)).
    { rewrite Mc. apply numbered_fresh. lia. }
    assert (Hn3 : numbered lo (id_counter st3) (Some switch_n)).
    { eapply numbered_mono; [|exact Hn]. lia. }
    pose proof (render_cases_closed lo switch_n merge_n cases st3) as Hcs.
    assert (Hc4 : id_counter st3 <= id_counter (render_cases switch_n merge_n cases st3)).
    { destruct Hcs as (H & _); [lia|assumption|assumption|exact H]. }
    apply step_closed_drawn.
    + eapply extends_trans; [exact Hx|]. eapply extends_trans; [exact X1|].
      eapply extends_trans; [exact Mx|]. apply Hcs; [lia|assumption|assumption].
    + eapply numbered_mono; [|exact X3]. lia.
    + eapply numbered_mono; [|exact Hm]. lia.
Qed.

Lemma numbered_final (k : nat) (o : option string) :
  numbered 2 k o ->
  exists a, o = Some a /\ In a (ids_from "N" 1 k) /\ a <> "N2" /\ a <> "N1".
Proof.
  intros (j & Hj & ->). eexists. split; [reflexivity|]. split; [|split].
  - apply in_ids_from. exists j. split; [lia|reflexivity].
  - intros E. change "N2" with ("N" ++ str_of_nat 2)%string in E.
    apply id_inj in E. lia.
  - intros E. change "N1" with ("N" ++ str_of_nat 1)%string in E.
    apply id_inj in E. lia.
Qed.

Lemma edge_within_final (k : nat) (e : jedge) : edge_within 2 k e -> final_edge_ok k e.
Proof.
  intros [Ha Hb].
  apply numbered_final in Ha as (a & Ea & Ia & Na & _).
  apply numbered_final in Hb as (b & Eb & Ib & _ & Nb).
  now exists a, b.
Qed.

Lemma start_end_in_ids (k : nat) :
  2 <= k -> In "N1" (ids_from "N" 1 k) /\ In "N2" (ids_from "N" 1 k).
Proof.
  intros H. split; apply in_ids_from; [exists 1|exists 2]; (split; [lia|reflexivity]).
Qed.

(** X9.  The diagram of the Java renderer for a tree in which every
    conditional has a condition and the body of every do-while loop draws a
    node: the nodes declared are N1, ..., Nk in this order, each once, N1
    being Start and N2 End; every edge joins two of them, none leaves End
    and none enters Start. *)
Theorem java_diagram_is_closed :
  forall ast : list node,
    forallb sound ast = true ->
    exists k : nat,
      2 <= k
      /\ declared (fst (render ast)) = ids_from "N" 1 k
      /\ NoDup (declared (fst (render ast)))
      /\ (exists rest,
            decls_of (fst (render ast))
            = ("N1", Circle, "Start") :: ("N2", Circle, "End") :: rest)
      /\ Forall (final_edge_ok k) (snd (render ast)).
Proof.
  intros ast Hs. unfold render, add_node_circle, new_id. cbv zeta.
  pose (st2 := RState [Node (decl "N1" Circle "Start"); Node (decl "N2" Circle "End")] [] 2).
  match goal with
  | |- context [render_block ast ?s] => change s with st2
  end.
  change ("N" ++ str_of_nat (S (id_counter (RState [] [] 0))))%string with "N1".
  match goal with
  | |- context [Some ("N" ++ str_of_nat (S (id_counter ?s)))%string] =>
      change ("N" ++ str_of_nat (S (id_counter s)))%string with "N2"
  end.
  assert (Hall : Forall node_closed ast).
  { apply Forall_forall. intros nd _. apply render_node_closed. }
  pose proof (render_block_closed ast Hall 2 st2 Hs) as Hr.
  destruct (render_block ast st2) as [[first last] st].
  destruct Hr as ((Hc & (more & Hn & Hd) & added & He & Hf) & (Ef & El & Ei) & _);
    [cbn; lia|].
  cbn [fst snd] in Hc, Hn, Hd, He, Hf, Ef, El, Ei.
  change (id_counter st2) with 2 in *. change (edges st2) with (@nil jedge) in He.
  cbn [app] in He.
  exists (id_counter st).
  destruct (start_end_in_ids (id_counter st) Hc) as [H1 H2].
  assert (Hids : declared (nodes st) = ids_from "N" 1 (id_counter st)).
  { rewrite Hn. unfold declared in *. rewrite decls_of_app, map_app, Hd.
    replace (id_counter st) with (2 + (id_counter st - 2)) at 2 by lia.
    rewrite (ids_from_app "N" 1 2). reflexivity. }
  split; [exact Hc|]. cbn [fst snd]. split; [exact Hids|]. split; [|split].
  - rewrite Hids. apply ids_from_nodup.
  - rewrite Hn, decls_of_app. eexists. reflexivity.
  - assert (Hadded : Forall (final_edge_ok (id_counter st)) (edges st)).
    { rewrite He. eapply Forall_impl; [|exact Hf]. intros e. apply edge_within_final. }
    assert (Hse : final_edge_ok (id_counter st) (JEdge (Some "N1") (Some "N2") None)).
    { exists "N1", "N2". repeat split; try assumption; discriminate. }
    destruct Ef as [->|Hfirst].
    + assert (last = None) by now apply Ei. subst last. cbn [opt_truthy].
      apply Forall_app. split; [now constructor|]. constructor; [exact Hse|constructor].
    + assert (Hlast : numbered 2 (id_counter st) last).
      { destruct El as [El|El]; [|exact El]. apply Ei in El.
        now apply numbered_some in Hfirst. }
      rewrite (numbered_truthy _ _ _ Hfirst), (numbered_truthy _ _ _ Hlast).
      apply numbered_final in Hfirst as (a & -> & Ia & Na & Na1).
      apply numbered_final in Hlast as (b & -> & Ib & Nb & Nb1).
      apply Forall_app. split.
      * constructor; [|exact Hadded].
        exists "N1", a. repeat split; try assumption; discriminate.
      * constructor; [|constructor].
        exists b, "N2". repeat split; try assumption; discriminate.
Qed.

Lemma java_diagram_is_closed_witness :
  forallb sound
    [stmt "int x = 1;";
     do_while "x < 3" [stmt "x++;"];
     if_chain [("x > 2", [stmt "x = 0;"])] None] = true
  /\ exists k : nat,
       2 <= k
       /\ declared (fst (render
            [stmt "int x = 1;";
             do_while "x < 3" [stmt "x++;"];
             if_chain [("x > 2", [stmt "x = 0;"])] None])) = ids_from "N" 1 k
       /\ NoDup (declared (fst (render
            [stmt "int x = 1;";
             do_while "x < 3" [stmt "x++;"];
             if_chain [("x > 2", [stmt "x = 0;"])] None])))
       /\ (exists rest,
             decls_of (fst (render
               [stmt "int x = 1;";
                do_while "x < 3" [stmt "x++;"];
                if_chain [("x > 2", [stmt "x = 0;"])] None]))
             = ("N1", Circle, "Start") :: ("N2", Circle, "End") :: rest)
       /\ Forall (final_edge_ok k) (snd (render
            [stmt "int x = 1;";
             do_while "x < 3" [stmt "x++;"];
             if_chain [("x > 2", [stmt "x = 0;"])] None])).
Proof.
  split; [vm_compute; reflexivity|].
  apply (java_diagram_is_closed
           [stmt "int x = 1;";
            do_while "x < 3" [stmt "x++;"];
            if_chain [("x > 2", [stmt "x = 0;"])] None]).
  vm_compute. reflexivity.
Defined.

End JavaClosed.

(** ** A do-while loop whose body draws nothing *)

Section JavaEmptyDoWhile.
Import java_parser JSpec.

Lemma render_stmts_app (a b : list node) (first last : option string) (st : rstate) :
  render_stmts render_node (a ++ b) first last st
  = let '(f, l, s) := render_stmts render_node a first last st in
    render_stmts render_node b f l s.
Proof.
  revert first last st. induction a as [|x a IH]; intros first last st; [reflexivity|].
  cbn [app render_stmts]. destruct (render_node x first last st) as [[f l] s]. apply IH.
Qed.

(** Statements that are passed over leave the loop of a block as it was. *)
Lemma render_stmts_skipped (body : list node) (first last : option string) (st : rstate) :
  forallb skipped body = true ->
  render_stmts render_node body first last st = (first, last, st).
Proof.
  induction body as [|x body IH]; intros H; [reflexivity|].
  cbn [forallb] in H. apply andb_true_iff in H as [Hx Hb].
  cbn [render_stmts]. destruct x; try discriminate Hx.
  cbn [skipped] in Hx. cbn [render_node]. rewrite Hx. now apply IH.
Qed.

(** The edges drawn stay: the loop of a block only appends. *)
Lemma render_stmts_keeps_edges (block : list node) (first last : option string)
  (st : rstate) (e : jedge) :
  later_id 0 last ->
  In e (edges st) ->
  In e (edges (snd (render_stmts render_node block first last st))).
Proof.
  intros Hl Hin.
  assert (Hall : Forall node_grows block).
  { apply Forall_forall. intros nd _. apply render_node_grows. }
  destruct (render_stmts_grows block Hall 0 first last st (Nat.le_0_l _) Hl)
    as (_ & _ & added & -> & _).
  apply in_or_app. now left.
Qed.

Lemma in_final_edges (first last : option string) (st : rstate) (s_id e_id : string)
  (e : jedge) :
  In e (edges st) ->
  In e (let es := edges st in
        let es := if opt_truthy first then JEdge (Some s_id) first None :: es
                  else JEdge (Some s_id) (Some e_id) None :: es in
        if opt_truthy last then (es ++ [JEdge last (Some e_id) None])%list
        else (es ++ [JEdge (Some s_id) (Some e_id) None])%list).
Proof.
  intros H. cbv zeta.
  destruct (opt_truthy first), (opt_truthy last); apply in_or_app; left; now right.
Qed.

(** X10.  A do-while loop whose body draws nothing, an empty body or one of
    statements that are passed over, is drawn with edges to and from a node
    called None, wherever the loop stands among the top-level statements:
    the diagram has the line None --> Nj and the line Nj -->|True| None for
    the id Nj of the loop's condition. *)
Theorem java_do_while_without_body_draws_none :
  forall (pre post : list node) (cond : string) (body : list node),
    forallb skipped body = true ->
    exists j : nat,
      let n := ("N" ++ str_of_nat j)%string in
      let text := mermaid_lines (render (pre ++ do_while cond body :: post)) in
      In ("None --> " ++ n)%string text
      /\ In (n ++ " -->|True| None")%string text.
Proof.
  intros pre post cond body Hb.
  pose (st2 := RState [Node (decl "N1" Circle "Start"); Node (decl "N2" Circle "End")] [] 2).
  assert (Hr : render (pre ++ do_while cond body :: post)
               = let '(first_id, last_id, st) :=
                   render_stmts render_node (pre ++ do_while cond body :: post)
                     None None st2 in
                 (nodes st,
                  let es := edges st in
                  let es := if opt_truthy first_id then JEdge (Some "N1") first_id None :: es
                            else JEdge (Some "N1") (Some "N2") None :: es in
                  if opt_truthy last_id then (es ++ [JEdge last_id (Some "N2") None])%list
                  else (es ++ [JEdge (Some "N1") (Some "N2") None])%list)) by reflexivity.
  assert (Hgrow : forall block, Forall node_grows block).
  { intros block. apply Forall_forall. intros nd _. apply render_node_grows. }
  (* the statements before the loop *)
  pose proof (render_stmts_grows pre (Hgrow pre) 0 None None st2 (Nat.le_0_l _) I) as Hpre.
  rewrite render_stmts_app in Hr.
  destruct (render_stmts render_node pre None None st2) as [[f1 l1] sa].
  cbn [fst snd] in Hpre. destruct Hpre as (_ & Hl1 & _).
  (* the loop *)
  cbn [render_stmts render_node] in Hr.
  unfold render_block_with in Hr. rewrite (render_stmts_skipped body None None sa Hb) in Hr.
  unfold add_node_diamond, new_id in Hr. cbv zeta in Hr.
  set (c := id_counter sa) in *.
  set (cond_n := ("N" ++ str_of_nat (S c))%string) in *.
  destruct (enter None f1 l1 _) as [f2 sb] eqn:Eenter.
  set (sc := push_edge (Some cond_n) None (Some "True")
               (push_edge None (Some cond_n) None sb)) in *.
  assert (E1 : In (JEdge None (Some cond_n) None) (edges sc)).
  { cbn. apply in_or_app. left. apply in_or_app. right. now left. }
  assert (E2 : In (JEdge (Some cond_n) None (Some "True")) (edges sc)).
  { cbn. apply in_or_app. right. now left. }
  (* the statements after the loop *)
  assert (Hlater : later_id 0 (Some cond_n)).
  { exists (S c). split; [lia|reflexivity]. }
  pose proof (render_stmts_keeps_edges post f2 (Some cond_n) sc _ Hlater E1) as K1.
  pose proof (render_stmts_keeps_edges post f2 (Some cond_n) sc _ Hlater E2) as K2.
  destruct (render_stmts render_node post f2 (Some cond_n) sc) as [[f3 l3] sd].
  cbn [fst snd] in K1, K2.
  exists (S c). cbv zeta. fold cond_n. rewrite Hr. split.
  - unfold mermaid_lines. right. apply in_or_app. right. cbn [snd].
    apply in_map_iff. exists (JEdge None (Some cond_n) None).
    split; [reflexivity|]. now apply in_final_edges.
  - unfold mermaid_lines. right. apply in_or_app. right. cbn [snd].
    apply in_map_iff. exists (JEdge (Some cond_n) None (Some "True")).
    split; [reflexivity|]. now apply in_final_edges.
Qed.

Lemma java_do_while_without_body_draws_none_witness :
  forallb skipped [] = true
  /\ exists j : nat,
       let n := ("N" ++ str_of_nat j)%string in
       let text := mermaid_lines (render ([stmt "int i = 0;"] ++ do_while "i < 3" [] :: [])) in
       In ("None --> " ++ n)%string text /\ In (n ++ " -->|True| None")%string text.
Proof.
  split; [reflexivity|].
  apply (java_do_while_without_body_draws_none [stmt "int i = 0;"] [] "i < 3" []).
  reflexivity.
Defined.

End JavaEmptyDoWhile.

(** ** A conditional with an elif at the end of a Python module *)

Section PyLastElif.
Import python_parser.

(** A conditional that is the last statement hands back End. *)
Lemma handle_if_last_returns_end (test : string) (body orelse : list stmt) (text cur : string)
  (st : rstate) :
  fst (handle_if_elif_else (If test body orelse text) cur true st) = "End".
Proof.
  cbn [handle_if_elif_else]. unfold merge.
  repeat match goal with
         | |- context [let '(_, _) := ?x in _] => destruct x
         end.
  reflexivity.
Qed.

(** One step of a conditional whose else part is an elif. *)
Lemma handle_if_elif_eq (test : string) (body : list stmt) (t2 : string)
  (b2 o2 : list stmt) (tx2 text cur : string) (is_last : bool) (st : rstate) :
  handle_if_elif_else (If test body [If t2 b2 o2 tx2] text) cur is_last st
  = let '(cond_id, st) := get_id st in
    let st := append (Node (decl cond_id Diamond (safe_label (strip test)))) st in
    let st := append (Edge (bare cur) None (bare cond_id)) st in
    let '(yes_last, st) :=
      match body with
      | [] =>
          let '(yes_id, st) := get_id st in
          (yes_id, append (Edge (bare cond_id) (Some "Yes") (placeholder yes_id "No action")) st)
      | _ => chain_labelled "Yes" cond_id body st
      end in
    let '(no_end, st) := handle_if_elif_else (If t2 b2 o2 tx2) cond_id is_last st in
    merge [yes_last; no_end] is_last st.
Proof. reflexivity. Qed.

(** A last conditional whose else part is an elif joins End to End. *)
Lemma handle_if_last_elif (test : string) (body : list stmt) (t2 : string)
  (b2 o2 : list stmt) (tx2 text cur : string) (st : rstate) :
  let r := handle_if_elif_else (If test body [If t2 b2 o2 tx2] text) cur true st in
  fst r = "End" /\ In (Edge (bare "End") None (bare "End")) (lines (snd r)).
Proof.
  cbv zeta. split; [apply handle_if_last_returns_end|].
  rewrite handle_if_elif_eq. unfold get_id at 1. cbv zeta.
  set (cond_id := ("n" ++ str_of_nat (S (node_counter st)))%string).
  match goal with
  | |- context [match body with [] => ?x | _ :: _ => ?y end] =>
      destruct (match body with [] => x | _ :: _ => y end) as [yes_last st2]
  end.
  pose proof (handle_if_last_returns_end t2 b2 o2 tx2 cond_id st2) as Hin.
  destruct (handle_if_elif_else (If t2 b2 o2 tx2) cond_id true st2) as [no_end st3].
  cbn [fst] in Hin. subst no_end.
  unfold merge. cbn [join_ends snd append lines].
  apply in_or_app. right. now left.
Qed.

(** The loop over the statements of a module keeps what is drawn. *)
Lemma run_body_last_elif (pre : list stmt) (test : string) (body : list stmt) (t2 : string)
  (b2 o2 : list stmt) (tx2 text : string) :
  forall (last : string) (st : rstate),
    let r := run_body (pre ++ [If test body [If t2 b2 o2 tx2] text]) last st in
    fst r = "End" /\ In (Edge (bare "End") None (bare "End")) (lines (snd r)).
Proof.
  induction pre as [|a pre IH]; intros last st; cbv zeta.
  - cbn [app run_body is_nil step].
    pose proof (handle_if_last_elif test body t2 b2 o2 tx2 text last st) as H.
    cbv zeta in H.
    destruct (handle_if_elif_else _ last true st) as [l s]. exact H.
  - cbn [app run_body].
    destruct (step a _ last st) as [l s]. apply IH.
Qed.

(** X11.  A Python module whose last statement is a conditional with an
    elif is drawn with an edge from End to End: the elif chain hands back End
    as the end of its branch, and the enclosing conditional joins every
    branch end to End. *)
Theorem py_last_elif_joins_end_to_end :
  forall (pre : list stmt) (test : string) (body : list stmt) (t2 : string)
         (b2 o2 : list stmt) (tx2 text : string),
    In "End --> End"
       (map show_line (render (pre ++ [If test body [If t2 b2 o2 tx2] text]))).
Proof.
  intros pre test body t2 b2 o2 tx2 text.
  apply in_map_iff. exists (Edge (bare "End") None (bare "End")).
  split; [reflexivity|].
  unfold render.
  pose proof (run_body_last_elif pre test body t2 b2 o2 tx2 text "Start" init_state) as H.
  cbv zeta in H.
  destruct (run_body _ "Start" init_state) as [last st]. cbn [fst snd] in H.
  destruct H as [-> Hin]. cbn [str_eqb String.eqb Ascii.eqb Bool.eqb].
  change (str_eqb "End" "End") with true. cbn [append lines].
  apply in_or_app. now left.
Qed.

End PyLastElif.

(** ** The lines the Java tree builder reads *)

Section JavaLines.
Import StrSpec LineSpec java_parser.

Lemma isolate_replaces (s : string) :
  replace "}" (nl ++ "}" ++ nl) (replace "{" (nl ++ "{" ++ nl) s) = map_chars isolate s.
Proof.
  rewrite !replace_char, map_chars_comp. apply map_chars_ext. intros c.
  unfold isolate. rewrite (Ascii.eqb_sym c "{"), (Ascii.eqb_sym c "}").
  destruct (Ascii.eqb "{" c) eqn:E1; [reflexivity|].
  cbn [map_chars String.append]. now destruct (Ascii.eqb "}" c).
Qed.

Lemma inner_rev (cur : string) :
  all_chars inner_char cur = true -> brace_alone (rev_str cur EmptyString).
Proof.
  intros H. right. right. now rewrite all_chars_rev_str, H.
Qed.

(** The lines of a text in which every brace stands between two line
    feeds. *)
Lemma splitlines_isolated (s : string) :
  forall (cur : string) (after_cr : bool),
    all_chars inner_char cur = true ->
    Forall brace_alone (splitlines_from cur after_cr (map_chars isolate s)).
Proof.
  induction s as [|c s IH]; intros cur cr Hcur.
  - cbn [map_chars splitlines_from]. destruct (is_empty cur); constructor; [|constructor].
    now apply inner_rev.
  - cbn [map_chars]. unfold isolate at 1.
    destruct (Ascii.eqb c "{") eqn:Eo; [|destruct (Ascii.eqb c "}") eqn:Ec].
    + cbn [String.append nl]. cbn [splitlines_from].
      change (ord (chr 10) =? 10)%nat with true. change (islinebreak (chr 10)) with true.
      change (ord (chr 10) =? 13)%nat with false.
      change (islinebreak "{") with false. change (ord "{" =? 10)%nat with false.
      rewrite !andb_false_r, !andb_true_r. cbn [andb is_empty].
      destruct (cr && is_empty cur).
      * constructor; [now left|]. now apply IH.
      * constructor; [now apply inner_rev|]. constructor; [now left|]. now apply IH.
    + cbn [String.append nl]. cbn [splitlines_from].
      change (ord (chr 10) =? 10)%nat with true. change (islinebreak (chr 10)) with true.
      change (ord (chr 10) =? 13)%nat with false.
      change (islinebreak "}") with false. change (ord "}" =? 10)%nat with false.
      rewrite !andb_false_r, !andb_true_r. cbn [andb is_empty].
      destruct (cr && is_empty cur).
      * constructor; [right; now left|]. now apply IH.
      * constructor; [now apply inner_rev|]. constructor; [right; now left|]. now apply IH.
    + cbn [String.append splitlines_from].
      destruct (cr && (ord c =? 10)%nat && is_empty cur); [now apply IH|].
      destruct (islinebreak c) eqn:Eb.
      * constructor; [now apply inner_rev|]. now apply IH.
      * apply IH. cbn [all_chars]. unfold inner_char at 1, is_brace.
        now rewrite Eb, Eo, Ec, Hcur.
Qed.

(** X12.  Every line _preprocess_lines hands to the Java tree builder is
    non-empty, and a brace stands alone on its line: the line is one opening
    brace, one closing brace, or it holds no brace at all; no line holds a
    line boundary. *)
Theorem java_preprocess_isolates_braces :
  forall code : string,
    Forall (fun ln => ln <> EmptyString /\ brace_alone ln) (_preprocess_lines code).
Proof.
  intros code. unfold _preprocess_lines. cbv zeta. rewrite isolate_replaces.
  apply Forall_forall. intros ln Hin.
  apply in_map_iff in Hin as (raw & <- & Hraw).
  apply filter_In in Hraw as [Hraw Hne].
  pose proof (splitlines_isolated (_remove_comments code) EmptyString false eq_refl) as Hall.
  rewrite Forall_forall in Hall. specialize (Hall raw Hraw).
  split.
  - intros E. rewrite E in Hne. discriminate Hne.
  - destruct Hall as [->|[->|H]]; [now left|right; now left|].
    right. right. now apply all_chars_strip.
Qed.

End JavaLines.

(** ** Keywords in the Java tree builder *)

Section JavaKeywords.
Import Re java_parser JSpec.

Lemma startswith_other (a b : ascii) (p q s : string) :
  Ascii.eqb a b = false ->
  startswith (String a p) s = true -> startswith (String b q) s = false.
Proof.
  intros Hab. destruct s as [|c s]; [discriminate|]. cbn [startswith].
  intros H. apply andb_true_iff in H as [H _]. apply Ascii.eqb_eq in H. subst c.
  rewrite Ascii.eqb_sym, Hab. reflexivity.
Qed.

Lemma startswith_not_brace (a : ascii) (p s : string) :
  Ascii.eqb a "}" = false -> startswith (String a p) s = true -> str_eqb s "}" = false.
Proof.
  intros Ha. destruct s as [|c s]; [discriminate|]. cbn [startswith].
  intros H. apply andb_true_iff in H as [H _]. apply Ascii.eqb_eq in H. subst c.
  unfold str_eqb. cbn [String.eqb]. now rewrite Ha.
Qed.

(** The first turn of the loop of [_parse_block] on a line that is no
    closing brace and names neither a class nor main. *)
Lemma parse_first_line (line : string) (more : list string) :
  str_eqb line "}" = false ->
  found re_class line || found re_main line = false ->
  exists fuel : nat,
    parse_ok fuel (line :: more) /\ else_ok fuel (line :: more)
    /\ length (line :: more) < fuel
    /\ _parse_block (line :: more)
       = (let lines := line :: more in
          let n := length lines in
          let braced := fun start : nat =>
            let j := find_brace lines start in
            if (n <=? j)%nat then Some ([], j) else _parse_block_fuel fuel lines (j + 1) in
          if startswith "if" line then
            '(then_block, j) <- braced 1 ;;
            '(more, else_block, k) <- else_loop fuel lines j ;;
            '(rest, e) <- _parse_block_fuel fuel lines k ;;
            Some (if_chain ((_extract_paren line, then_block) :: more) else_block :: rest, e)
          else if startswith "for" line then
            '(body, j) <- braced 1 ;;
            '(rest, e) <- _parse_block_fuel fuel lines j ;;
            Some (for_ (_extract_paren line) body :: rest, e)
          else if startswith "while" line then
            '(body, j) <- braced 1 ;;
            '(rest, e) <- _parse_block_fuel fuel lines j ;;
            Some (while_ (_extract_paren line) body :: rest, e)
          else if startswith "do" line then
            '(body, j) <- braced 1 ;;
            let '(cond, j) :=
              match nth_error lines j with
              | Some l => if startswith "while" l then (_extract_paren l, j + 1)
                          else (EmptyString, j)
              | None => (EmptyString, j)
              end in
            '(rest, e) <- _parse_block_fuel fuel lines j ;;
            Some (do_while cond body :: rest, e)
          else if startswith "switch" line then
            let j := find_brace lines 1 + 1 in
            let '(cases, j) := switch_scan (skipn j lines) j [] None in
            '(rest, e) <- _parse_block_fuel fuel lines (j + 1) ;;
            Some (switch (_extract_paren line) cases :: rest, e)
          else
            '(rest, e) <- _parse_block_fuel fuel lines 1 ;;
            Some (stmt line :: rest, e)).
Proof.
  intros Hb Hc.
  exists (2 * length (line :: more) + 1).
  destruct (java_parse_block_fuel_total (line :: more) (2 * length (line :: more) + 1))
    as [Hp He].
  split; [exact Hp|]. split; [exact He|]. split; [lia|].
  unfold _parse_block.
  replace (2 * length (line :: more) + 2) with (S (2 * length (line :: more) + 1)) by lia.
  cbn [_parse_block_fuel nth_error]. rewrite Hb, Hc. reflexivity.
Qed.

(** The block a construct reads after its first line. *)
Lemma braced_total (fuel : nat) (lines : list string) (start : nat) :
  parse_ok fuel lines -> length lines < fuel ->
  exists block j,
    (if (length lines <=? find_brace lines start)%nat
     then Some ([], find_brace lines start)
     else _parse_block_fuel fuel lines (find_brace lines start + 1))
    = Some (block, j).
Proof.
  intros Hp Hf. destruct (braced_ok fuel lines start Hp) as (b & j & H & _); [lia|].
  now exists b, j.
Qed.

Lemma parse_rest_total (fuel : nat) (lines : list string) (i : nat) :
  parse_ok fuel lines -> length lines < fuel ->
  exists rest e, _parse_block_fuel fuel lines i = Some (rest, e).
Proof.
  intros Hp Hf. destruct (Hp i) as (b & e & H & _); [lia|]. now exists b, e.
Qed.

(** X13.  The Java tree builder takes a keyword for any line that begins
    with its letters: a line that names neither a class nor main and begins
    with do, such as the declaration of a double, becomes a do-while loop;
    one that begins with for, while, if or switch becomes that construct,
    with whatever stands between the line's outermost parentheses as its
    condition. *)
Theorem java_keywords_are_line_prefixes :
  forall (line : string) (more : list string),
    found re_class line || found re_main line = false ->
    (startswith "do" line = true ->
     exists cond body rest e,
       _parse_block (line :: more) = Some (do_while cond body :: rest, e))
    /\ (startswith "for" line = true ->
        exists body rest e,
          _parse_block (line :: more) = Some (for_ (_extract_paren line) body :: rest, e))
    /\ (startswith "while" line = true ->
        exists body rest e,
          _parse_block (line :: more) = Some (while_ (_extract_paren line) body :: rest, e))
    /\ (startswith "if" line = true ->
        exists then_block clauses else_block rest e,
          _parse_block (line :: more)
          = Some (if_chain ((_extract_paren line, then_block) :: clauses) else_block :: rest, e))
    /\ (startswith "switch" line = true ->
        exists cases rest e,
          _parse_block (line :: more) = Some (switch (_extract_paren line) cases :: rest, e)).
Proof.
  intros line more Hc.
  split; [|split; [|split; [|split]]]; intros Hs.
  - destruct (parse_first_line line more (startswith_not_brace "d" "o" line eq_refl Hs) Hc)
      as (fuel & Hp & He & Hf & ->). cbv zeta.
    rewrite (startswith_other "d" "i" "o" "f" line eq_refl Hs).
    rewrite (startswith_other "d" "f" "o" "or" line eq_refl Hs).
    rewrite (startswith_other "d" "w" "o" "hile" line eq_refl Hs).
    rewrite Hs.
    destruct (braced_total fuel (line :: more) 1 Hp Hf) as (body & j & ->).
    cbn [obind].
    match goal with
    | |- context [let '(_, _) := ?x in _] => destruct x as [cond j']
    end.
    destruct (parse_rest_total fuel (line :: more) j' Hp Hf) as (rest & e & ->).
    cbn [obind]. now exists cond, body, rest, e.
  - destruct (parse_first_line line more (startswith_not_brace "f" "or" line eq_refl Hs) Hc)
      as (fuel & Hp & He & Hf & ->). cbv zeta.
    rewrite (startswith_other "f" "i" "or" "f" line eq_refl Hs).
    rewrite Hs.
    destruct (braced_total fuel (line :: more) 1 Hp Hf) as (body & j & ->).
    cbn [obind].
    destruct (parse_rest_total fuel (line :: more) j Hp Hf) as (rest & e & ->).
    cbn [obind]. now exists body, rest, e.
  - destruct (parse_first_line line more (startswith_not_brace "w" "hile" line eq_refl Hs) Hc)
      as (fuel & Hp & He & Hf & ->). cbv zeta.
    rewrite (startswith_other "w" "i" "hile" "f" line eq_refl Hs).
    rewrite (startswith_other "w" "f" "hile" "or" line eq_refl Hs).
    rewrite Hs.
    destruct (braced_total fuel (line :: more) 1 Hp Hf) as (body & j & ->).
    cbn [obind].
    destruct (parse_rest_total fuel (line :: more) j Hp Hf) as (rest & e & ->).
    cbn [obind]. now exists body, rest, e.
  - destruct (parse_first_line line more (startswith_not_brace "i" "f" line eq_refl Hs) Hc)
      as (fuel & Hp & He & Hf & ->). cbv zeta.
    rewrite Hs.
    destruct (braced_total fuel (line :: more) 1 Hp Hf) as (body & j & ->).
    cbn [obind].
    destruct (He j) as (cl & eb & k & -> & _); [lia|]. cbn [obind].
    destruct (parse_rest_total fuel (line :: more) k Hp Hf) as (rest & e & ->).
    cbn [obind]. now exists body, cl, eb, rest, e.
  - destruct (parse_first_line line more (startswith_not_brace "s" "witch" line eq_refl Hs) Hc)
      as (fuel & Hp & He & Hf & ->). cbv zeta.
    rewrite (startswith_other "s" "i" "witch" "f" line eq_refl Hs).
    rewrite (startswith_other "s" "f" "witch" "or" line eq_refl Hs).
    rewrite (startswith_other "s" "w" "witch" "hile" line eq_refl Hs).
    rewrite (startswith_other "s" "d" "witch" "o" line eq_refl Hs).
    rewrite Hs.
    match goal with
    | |- context [let '(_, _) := ?x in _] => destruct x as [cases j]
    end.
    destruct (parse_rest_total fuel (line :: more) (j + 1) Hp Hf) as (rest & e & ->).
    cbn [obind]. now exists cases, rest, e.
Qed.

Lemma java_keywords_are_line_prefixes_witness :
  found re_class "double x = 1.5;" || found re_main "double x = 1.5;" = false
  /\ exists cond body rest e,
       _parse_block ["double x = 1.5;"] = Some (do_while cond body :: rest, e).
Proof.
  split; [vm_compute; reflexivity|].
  apply (proj1 (java_keywords_are_line_prefixes "double x = 1.5;" [] eq_refl)).
  reflexivity.
Defined.

End JavaKeywords.

(** ** The names of a C declaration *)

Section CNames.
Import StrSpec DeclSpec c_parser.

Lemma split_char_keeps (p : ascii -> bool) (sep : ascii) (s : string) :
  all_chars p s = true -> Forall (fun w => all_chars p w = true) (split_char sep s).
Proof.
  induction s as [|c s IH]; intros H; cbn [split_char].
  - constructor; [reflexivity|constructor].
  - cbn [all_chars] in H. apply andb_true_iff in H as [Hc Hs]. specialize (IH Hs).
    destruct (Ascii.eqb c sep).
    + constructor; [reflexivity|exact IH].
    + destruct (split_char sep s) as [|w ws].
      * constructor; [cbn; now rewrite Hc|constructor].
      * inversion IH as [|? ? Hw Hws]; subst.
        constructor; [cbn; now rewrite Hc, Hw|exact Hws].
Qed.

Lemma split_char_no_sep (sep : ascii) (s : string) :
  Forall (fun w => all_chars (fun x => negb (Ascii.eqb x sep)) w = true) (split_char sep s).
Proof.
  induction s as [|c s IH]; cbn [split_char].
  - constructor; [reflexivity|constructor].
  - destruct (Ascii.eqb c sep) eqn:E.
    + constructor; [reflexivity|exact IH].
    + destruct (split_char sep s) as [|w ws].
      * constructor; [cbn; now rewrite E|constructor].
      * inversion IH as [|? ? Hw Hws]; subst.
        constructor; [cbn; now rewrite E, Hw|exact Hws].
Qed.

Lemma hd_forall {A : Type} (P : A -> Prop) (d : A) (l : list A) :
  P d -> Forall P l -> P (hd d l).
Proof. intros Hd [|x l' Hx _]; assumption. Qed.

(** The words of a text: none is empty, none holds white space, and each
    keeps what holds of every character of the text. *)
Lemma split_ws_from_words (p : ascii -> bool) (s : string) :
  forall cur,
    all_chars p cur = true -> all_chars (fun x => negb (isspace x)) cur = true ->
    all_chars p s = true ->
    Forall (fun w => w <> EmptyString
                     /\ all_chars (fun x => negb (isspace x)) w = true
                     /\ all_chars p w = true)
           (split_ws_from cur s).
Proof.
  assert (Hrev : forall cur, cur <> EmptyString -> rev_str cur EmptyString <> EmptyString).
  { intros [|c cur] H; [now destruct H|]. cbn [rev_str].
    assert (G : forall t acc, acc <> EmptyString -> rev_str t acc <> EmptyString).
    { intros t. induction t as [|x t IHt]; intros acc Ha; [exact Ha|].
      cbn. apply IHt. discriminate. }
    apply G. discriminate. }
  induction s as [|c s IH]; intros cur Hp Hn Hs; cbn [split_ws_from].
  - destruct cur as [|x cur]; [constructor|]. cbn [is_empty].
    constructor; [|constructor]. split; [apply Hrev; discriminate|].
    rewrite !all_chars_rev_str, Hp, Hn. now split.
  - cbn [all_chars] in Hs. apply andb_true_iff in Hs as [Hc Hs].
    destruct (isspace c) eqn:E.
    + destruct cur as [|x cur]; cbn [is_empty].
      * now apply IH.
      * constructor; [|now apply IH]. split; [apply Hrev; discriminate|].
        rewrite !all_chars_rev_str, Hp, Hn. now split.
    + apply IH; [cbn; now rewrite Hc|cbn; now rewrite E|exact Hs].
Qed.

Lemma split_ws_from_nonempty (s cur : string) :
  cur <> EmptyString -> split_ws_from cur s <> [].
Proof.
  revert cur. induction s as [|c s IH]; intros cur H; cbn [split_ws_from].
  - destruct cur; [now destruct H|discriminate].
  - destruct (isspace c).
    + destruct cur; [now destruct H|discriminate].
    + apply IH. discriminate.
Qed.

(** A stripped text that is not empty begins with a character that is no
    white space. *)
Lemma strip_head (s : string) :
  strip s = EmptyString \/ exists c r, strip s = String c r /\ isspace c = false.
Proof.
  unfold strip, lstrip, rstrip.
  assert (H : lstrip_by isspace s = EmptyString
              \/ exists c r, lstrip_by isspace s = String c r /\ isspace c = false).
  { induction s as [|c s IH]; [now left|]. cbn [lstrip_by].
    destruct (isspace c) eqn:E; [exact IH|]. right. now exists c, s. }
  destruct H as [->|(c & r & -> & Hc)]; [now left|].
  right. cbn [rstrip_by]. rewrite Hc, andb_false_r. now eexists _, _.
Qed.

Lemma last_word_clean (p : ascii -> bool) (s : string) :
  all_chars p s = true -> truthy (strip s) = true ->
  last_word (strip s) <> EmptyString
  /\ all_chars (fun x => negb (isspace x)) (last_word (strip s)) = true
  /\ all_chars p (last_word (strip s)) = true.
Proof.
  intros Hp Ht. unfold last_word, split_ws.
  pose proof (split_ws_from_words p (strip s) EmptyString eq_refl eq_refl
                (all_chars_strip p s Hp)) as Hall.
  destruct (strip_head s) as [E|(c & r & E & Hc)]; [rewrite E in Ht; discriminate Ht|].
  rewrite E in *. cbn [split_ws_from] in *. rewrite Hc in *.
  pose proof (split_ws_from_nonempty r (String c EmptyString)) as Hne.
  destruct (split_ws_from (String c EmptyString) r) as [|w ws]; [now destruct Hne|].
  rewrite Forall_forall in Hall. apply Hall, last_in.
Qed.

(** X14.  Every name _extract_var_names returns for a declaration is
    non-empty and holds no white space, no comma, no '=' and no '*': what the
    labels Declare variable ... list are single words. *)
Theorem c_declared_names_are_words :
  forall (decl_text name : string),
    In name (_extract_var_names decl_text) ->
    name <> EmptyString /\ all_chars name_char name = true.
Proof.
  intros decl_text name. unfold _extract_var_names. cbv zeta.
  destruct (Re.re_match re_decl _) as [m|]; [|intros []].
  intros Hin. apply in_flat_map in Hin as (part & Hpart & Hname).
  apply filter_In in Hpart as [Hpart _].
  apply in_map_iff in Hpart as (raw & <- & Hraw).
  pose proof (split_char_no_sep "," (strip (Re.group 1 m))) as Hcomma.
  rewrite Forall_forall in Hcomma. specialize (Hcomma raw Hraw).
  set (q := fun x : ascii => negb (Ascii.eqb x ",") && negb (Ascii.eqb x "=")
                             && negb (Ascii.eqb x "*")).
  match type of Hname with
  | In name (if truthy (strip ?t) then _ else _) =>
      assert (Hq : all_chars q t = true); [|destruct (truthy (strip t)) eqn:Ht]
  end.
  - apply all_chars_sub; [reflexivity|]. apply all_chars_strip.
    unfold q. rewrite !all_chars_and.
    apply andb_true_iff. split; [apply andb_true_iff; split|].
    + apply all_chars_replace; [reflexivity|]. apply all_chars_strip.
      apply hd_forall; [reflexivity|]. apply split_char_keeps. now apply all_chars_strip.
    + apply all_chars_replace; [reflexivity|]. apply all_chars_strip.
      apply hd_forall; [reflexivity|]. apply split_char_no_sep.
    + apply all_chars_replace_char; [reflexivity|].
      intros x Hx. now rewrite Ascii.eqb_sym, Hx.
  - destruct Hname as [<-|[]].
    match goal with
    | |- context [last_word (strip ?t)] =>
        destruct (last_word_clean q t Hq Ht) as (Hne & Hsp & Hqq)
    end.
    split; [exact Hne|].
    unfold name_char.
    match goal with
    | |- all_chars _ ?w = true =>
        replace (all_chars (fun c => negb (isspace c) && negb (Ascii.eqb c ",")
                                     && negb (Ascii.eqb c "=") && negb (Ascii.eqb c "*")) w)
          with (all_chars (fun x => negb (isspace x)) w && all_chars q w)
    end.
    + now rewrite Hsp, Hqq.
    + rewrite <- all_chars_and. unfold q.
      match goal with
      | |- all_chars ?f ?w = all_chars ?g ?w =>
          assert (Hext : forall s, all_chars f s = all_chars g s)
      end.
      { intros t. induction t as [|x t IHt]; [reflexivity|]. cbn [all_chars]. rewrite IHt.
        f_equal. now rewrite !andb_assoc. }
      apply Hext.
  - destruct Hname.
Qed.

Lemma c_declared_names_are_words_witness :
  In "b" (_extract_var_names "int a = 1, *b, c[10];")
  /\ "b" <> EmptyString /\ all_chars name_char "b" = true.
Proof.
  assert (H : In "b" (_extract_var_names "int a = 1, *b, c[10];")).
  { vm_compute. right. left. reflexivity. }
  split; [exact H|].
  exact (c_declared_names_are_words "int a = 1, *b, c[10];" "b" H).
Defined.

End CNames.

(** ** The diagram of the Python renderer as a whole *)

Section PyClosed.
Import python_parser FlowSpec PyFlowSpec.

Lemma handed_out_mono (c c' : nat) (x : string) :
  c <= c' -> handed_out c x -> handed_out c' x.
Proof. intros H (k & Hk & ->). exists k. split; [lia|reflexivity]. Qed.

Lemma known_mono (c c' : nat) (x : string) : c <= c' -> known c x -> known c' x.
Proof.
  intros H [Hx|[Hx|Hx]]; [now left|right; now left|].
  right. right. eapply handed_out_mono; eassumption.
Qed.

Lemma enterable_mono (c c' : nat) (x : string) : c <= c' -> enterable c x -> enterable c' x.
Proof.
  intros H [Hx|Hx]; [now left|]. right. eapply handed_out_mono; eassumption.
Qed.

Lemma edge_ok_mono (c c' : nat) (e : edge) : c <= c' -> edge_ok c e -> edge_ok c' e.
Proof.
  intros H [H1 H2]. split; [eapply known_mono|eapply enterable_mono]; eassumption.
Qed.

Lemma handed_out_fresh (c : nat) : handed_out (S c) ("n" ++ str_of_nat (S c))%string.
Proof. exists (S c). split; [lia|reflexivity]. Qed.

Lemma fresh_not_handed_out (c : nat) (ds : list string) :
  Forall (handed_out c) ds -> ~ In ("n" ++ str_of_nat (S c))%string ds.
Proof.
  intros H Hin. rewrite Forall_forall in H. destruct (H _ Hin) as (k & Hk & E).
  apply id_inj in E. lia.
Qed.

(** Taking an id leaves the buffer in order. *)
Lemma state_ok_get_id (st : rstate) : state_ok st -> state_ok (snd (get_id st)).
Proof.
  intros (ds & Hd & Hn & Hf & He). exists ds. cbn [get_id snd lines node_counter].
  split; [exact Hd|]. split; [exact Hn|]. split.
  - eapply Forall_impl; [|exact Hf]. intros x. apply handed_out_mono. lia.
  - eapply Forall_impl; [|exact He]. intros x. apply edge_ok_mono. lia.
Qed.

(** A node declared under a fresh id. *)
Lemma state_ok_node (sh : shape) (label : string) (st : rstate) :
  state_ok st ->
  state_ok (append (Node (decl ("n" ++ str_of_nat (S (node_counter st))) sh label))
              (snd (get_id st))).
Proof.
  intros (ds & Hd & Hn & Hf & He).
  exists (ds ++ [("n" ++ str_of_nat (S (node_counter st)))%string])%list.
  cbn [get_id snd append lines node_counter].
  split; [|split; [|split]].
  - unfold declared in *. rewrite decls_of_app, map_app, Hd. reflexivity.
  - apply NoDup_app; [exact Hn|constructor; [easy|constructor]|].
    intros x Hx [<-|[]]. now apply (fresh_not_handed_out _ _ Hf).
  - apply Forall_app. split.
    + eapply Forall_impl; [|exact Hf]. intros x. apply handed_out_mono. lia.
    + constructor; [apply handed_out_fresh|constructor].
  - rewrite edges_of_app. cbn [edges_of flat_map edge_of app]. rewrite app_nil_r.
    eapply Forall_impl; [|exact He]. intros x. apply edge_ok_mono. lia.
Qed.

(** An edge into a node declared under a fresh id. *)
Lemma state_ok_edge_decl (cur : string) (lbl : option string) (sh : shape) (label : string)
  (st : rstate) :
  state_ok st -> known (node_counter st) cur ->
  state_ok (append (Edge (bare cur) lbl
                      (decl ("n" ++ str_of_nat (S (node_counter st))) sh label))
              (snd (get_id st))).
Proof.
  intros (ds & Hd & Hn & Hf & He) Hc.
  exists (ds ++ [("n" ++ str_of_nat (S (node_counter st)))%string])%list.
  cbn [get_id snd append lines node_counter].
  split; [|split; [|split]].
  - unfold declared in *. rewrite decls_of_app, map_app, Hd. reflexivity.
  - apply NoDup_app; [exact Hn|constructor; [easy|constructor]|].
    intros x Hx [<-|[]]. now apply (fresh_not_handed_out _ _ Hf).
  - apply Forall_app. split.
    + eapply Forall_impl; [|exact Hf]. intros x. apply handed_out_mono. lia.
    + constructor; [apply handed_out_fresh|constructor].
  - rewrite edges_of_app. apply Forall_app. split.
    + eapply Forall_impl; [|exact He]. intros x. apply edge_ok_mono. lia.
    + constructor; [|constructor]. split; cbn [src dst ref_id bare decl].
      * eapply known_mono; [|exact Hc]. lia.
      * right. apply handed_out_fresh.
Qed.

(** An edge between two nodes, neither declared on the line. *)
Lemma state_ok_edge (a b : string) (lbl : option string) (st : rstate) :
  state_ok st -> known (node_counter st) a -> enterable (node_counter st) b ->
  state_ok (append (Edge (bare a) lbl (bare b)) st).
Proof.
  intros (ds & Hd & Hn & Hf & He) Ha Hb. exists ds.
  cbn [append lines node_counter]. split; [|split; [exact Hn|split; [exact Hf|]]].
  - unfold declared in *. rewrite decls_of_app, map_app, Hd. cbn. now rewrite app_nil_r.
  - rewrite edges_of_app. apply Forall_app. split; [exact He|].
    constructor; [|constructor]. now split.
Qed.

Lemma known_fresh (c : nat) : known (S c) ("n" ++ str_of_nat (S c))%string.
Proof. right. right. apply handed_out_fresh. Qed.

Lemma stmt_ref_decl (sid : string) (node : stmt) :
  stmt_ref sid node = decl sid (fst (handle_expr node)) (snd (handle_expr node)).
Proof. unfold stmt_ref. now destruct (handle_expr node). Qed.

(** The statements of a branch, under one edge label. *)
Lemma chain_labelled_ok (lbl : string) (body : list stmt) :
  forall (cur : string) (st : rstate),
    state_ok st -> known (node_counter st) cur ->
    handler_ok st (chain_labelled lbl cur body st).
Proof.
  induction body as [|s body IH]; intros cur st Hst Hc; cbn [chain_labelled].
  - split; [exact Hst|]. cbn [fst snd]. split; [lia|exact Hc].
  - unfold get_id at 1. cbv zeta. rewrite stmt_ref_decl.
    match goal with
    | |- handler_ok _ (chain_labelled _ ?sid _ ?s1) =>
        destruct (IH sid s1) as (I1 & I2 & I3)
    end.
    + apply (state_ok_edge_decl cur (Some lbl) _ _ st Hst Hc).
    + apply known_fresh.
    + split; [exact I1|]. split; [|exact I3]. cbn [append node_counter] in I2. lia.
Qed.

Lemma chain_plain_ok (body : list stmt) :
  forall (cur : string) (st : rstate),
    state_ok st -> known (node_counter st) cur ->
    handler_ok st (chain_plain cur body st).
Proof.
  induction body as [|s body IH]; intros cur st Hst Hc; cbn [chain_plain].
  - split; [exact Hst|]. cbn [fst snd]. split; [lia|exact Hc].
  - unfold get_id at 1. cbv zeta. rewrite stmt_ref_decl.
    match goal with
    | |- handler_ok _ (chain_plain ?sid _ ?s1) =>
        destruct (IH sid s1) as (I1 & I2 & I3)
    end.
    + apply (state_ok_edge_decl cur None _ _ st Hst Hc).
    + apply known_fresh.
    + split; [exact I1|]. split; [|exact I3]. cbn [append node_counter] in I2. lia.
Qed.

Lemma join_ends_ok (ends : list string) (target : string) :
  forall st : rstate,
    state_ok st -> Forall (known (node_counter st)) ends ->
    enterable (node_counter st) target ->
    state_ok (join_ends ends target st)
    /\ node_counter (join_ends ends target st) = node_counter st.
Proof.
  induction ends as [|b ends IH]; intros st Hst He Ht; cbn [join_ends].
  - now split.
  - inversion He as [|? ? Hb Hends]; subst.
    destruct (IH (append (Edge (bare b) None (bare target)) st)) as [I1 I2].
    + now apply state_ok_edge.
    + exact Hends.
    + exact Ht.
    + split; [exact I1|]. rewrite I2. reflexivity.
Qed.

Lemma merge_ok (ends : list string) (is_last : bool) (st : rstate) :
  state_ok st -> Forall (known (node_counter st)) ends ->
  handler_ok st (merge ends is_last st).
Proof.
  intros Hst He. unfold merge. destruct is_last.
  - destruct (join_ends_ok ends "End" st Hst He) as [J1 J2]; [now left|].
    split; [exact J1|]. cbn [fst snd]. rewrite J2. split; [lia|]. right. now left.
  - unfold get_id. cbv zeta.
    set (st1 := RState (lines st) (S (node_counter st))).
    destruct (join_ends_ok ends ("n" ++ str_of_nat (S (node_counter st))) st1) as [J1 J2].
    + apply (state_ok_get_id st Hst).
    + eapply Forall_impl; [|exact He]. intros x. apply known_mono. cbn. lia.
    + right. apply handed_out_fresh.
    + split; [exact J1|]. cbn [fst snd]. rewrite J2. cbn [st1 node_counter].
      split; [lia|]. apply known_fresh.
Qed.

Lemma handler_ok_trans (st st1 : rstate) (r : string * rstate) :
  node_counter st <= node_counter st1 -> handler_ok st1 r -> handler_ok st r.
Proof. intros H (H1 & H2 & H3). split; [exact H1|]. split; [lia|exact H3]. Qed.

(** A branch: its statements, or the placeholder of an empty branch. *)
Lemma branch_ok (lbl text : string) (d : string) (body : list stmt) (st : rstate) :
  state_ok st -> known (node_counter st) d ->
  handler_ok st
    (match body with
     | [] =>
         let '(id, st') := get_id st in
         (id, append (Edge (bare d) (Some lbl) (placeholder id text)) st')
     | _ :: _ => chain_labelled lbl d body st
     end).
Proof.
  intros Hst Hd. destruct body as [|s body]; [|now apply chain_labelled_ok].
  unfold get_id, placeholder. cbv zeta.
  split; [apply (state_ok_edge_decl d (Some lbl) Subroutine text st Hst Hd)|].
  cbn [fst snd append node_counter]. split; [lia|apply known_fresh].
Qed.

(** A conditional, elif chains included. *)
Lemma handle_if_ok : forall node, if_ok node.
Proof.
  apply elif_chain_ind; [|intros s Hs cur is_last st _ _; destruct s; easy].
  intros test body orelse text IH cur is_last st Hst Hc.
  cbn [handle_if_elif_else]. unfold get_id at 1. cbv zeta.
  set (c := node_counter st).
  set (d := ("n" ++ str_of_nat (S c))%string).
  match goal with
  | |- context [append (Edge (bare cur) None (bare d)) ?s] =>
      set (st1 := append (Edge (bare cur) None (bare d)) s)
  end.
  assert (H1 : state_ok st1).
  { apply state_ok_edge.
    - apply (state_ok_node Diamond _ st Hst).
    - eapply known_mono; [|exact Hc]. cbn. lia.
    - right. apply handed_out_fresh. }
  assert (Hd1 : known (node_counter st1) d) by apply known_fresh.
  pose proof (branch_ok "Yes" "No action" d body st1 H1 Hd1) as Hy.
  match goal with
  | |- context [match body with [] => ?x | _ :: _ => ?y end] =>
      change (match body with [] => x | _ :: _ => y end)
        with (match body with
              | [] => let '(id, st') := get_id st1 in
                      (id, append (Edge (bare d) (Some "Yes") (placeholder id "No action")) st')
              | _ :: _ => chain_labelled "Yes" d body st1
              end);
      destruct (match body with
                | [] => let '(id, st') := get_id st1 in
                        (id, append (Edge (bare d) (Some "Yes") (placeholder id "No action")) st')
                | _ :: _ => chain_labelled "Yes" d body st1
                end) as [yes_last st2]
  end.
  destruct Hy as (Y1 & Y2 & Y3). cbn [fst snd] in Y1, Y2, Y3.
  assert (Hd2 : known (node_counter st2) d) by (eapply known_mono; [|exact Hd1]; lia).
  assert (Hno : exists no_end st3,
            match orelse with
            | [] =>
                let '(no_id, st') := get_id st2 in
                (no_id, append (Edge (bare d) (Some "No") (placeholder no_id "No action")) st')
            | [If _ _ _ _ as elif_node] => handle_if_elif_else elif_node d is_last st2
            | _ => chain_labelled "No" d orelse st2
            end = (no_end, st3)
            /\ handler_ok st2 (no_end, st3)).
  { assert (Hpair : forall e : string * rstate, e = (fst e, snd e)) by now intros [? ?].
    destruct orelse as [|e [|e2 rest]].
    - eexists _, _. split; [apply Hpair|]. rewrite <- Hpair.
      apply (branch_ok "No" "No action" d [] st2 Y1 Hd2).
    - destruct e; try (eexists _, _; split; [apply Hpair|]; rewrite <- Hpair;
                       apply chain_labelled_ok; assumption).
      eexists _, _. split; [apply Hpair|]. rewrite <- Hpair.
      apply (IH d is_last st2 Y1 Hd2).
    - destruct e; (eexists _, _; split; [apply Hpair|]; rewrite <- Hpair;
                   apply chain_labelled_ok; assumption). }
  destruct Hno as (no_end & st3 & -> & N1 & N2 & N3). cbn [fst snd] in N1, N2, N3.
  eapply handler_ok_trans; [|apply merge_ok; [exact N1|]].
  - unfold c. cbn [st1 append node_counter] in Y2. lia.
  - constructor; [eapply known_mono; [|exact Y3]; lia|].
    constructor; [exact N3|constructor].
Qed.

(** A loop: its decision, its body, the back-edge and the exit. *)
Lemma handle_loop_ok (loop_node : stmt) (cur : string) (is_last : bool) (st : rstate) :
  state_ok st -> known (node_counter st) cur ->
  handler_ok st (handle_loop loop_node cur is_last st).
Proof.
  intros Hst Hc. unfold handle_loop. unfold get_id at 1. cbv zeta.
  set (c := node_counter st).
  set (d := ("n" ++ str_of_nat (S c))%string).
  match goal with
  | |- context [append (Edge (bare cur) None (bare d)) ?s] =>
      set (st1 := append (Edge (bare cur) None (bare d)) s)
  end.
  assert (H1 : state_ok st1).
  { apply state_ok_edge.
    - apply (state_ok_node Diamond _ st Hst).
    - eapply known_mono; [|exact Hc]. cbn. lia.
    - right. apply handed_out_fresh. }
  assert (Hd1 : known (node_counter st1) d) by apply known_fresh.
  assert (Hbody : handler_ok st1
            (match loop_body loop_node with
             | first_stmt_in_body :: others =>
                 let '(first_body_node_id, st') := get_id st1 in
                 let st' := append (Edge (bare d) (Some "Yes")
                                      (stmt_ref first_body_node_id first_stmt_in_body)) st' in
                 chain_plain first_body_node_id others st'
             | [] =>
                 let '(empty_body_id, st') := get_id st1 in
                 (empty_body_id,
                  append (Edge (bare d) (Some "Yes")
                            (placeholder empty_body_id "Empty Loop Body")) st')
             end)).
  { destruct (loop_body loop_node) as [|b others].
    - unfold get_id, placeholder. cbv zeta.
      split; [apply (state_ok_edge_decl d (Some "Yes") Subroutine _ st1 H1 Hd1)|].
      cbn [fst snd append node_counter]. split; [lia|apply known_fresh].
    - unfold get_id at 1. cbv zeta. rewrite stmt_ref_decl.
      eapply handler_ok_trans; [|apply chain_plain_ok].
      + cbn. lia.
      + apply (state_ok_edge_decl d (Some "Yes") _ _ st1 H1 Hd1).
      + apply known_fresh. }
  match goal with
  | |- context [let '(_, _) := ?x in _] =>
      match x with
      | match loop_body loop_node with _ => _ end => destruct x as [body_last st2]
      end
  end.
  destruct Hbody as (B1 & B2 & B3). cbn [fst snd] in B1, B2, B3.
  assert (Hd2 : handed_out (node_counter st2) d).
  { eapply handed_out_mono; [|apply handed_out_fresh]. cbn [st1 append node_counter] in B2.
    exact B2. }
  set (st3 := append (Edge (bare body_last) None (bare d)) st2).
  assert (H3 : state_ok st3).
  { apply state_ok_edge; [exact B1|exact B3|now right]. }
  unfold get_id. cbv zeta.
  set (x := ("n" ++ str_of_nat (S (node_counter st3)))%string).
  match goal with
  | |- context [append (Edge (bare d) (Some "No") (bare x)) ?s] =>
      set (st4 := append (Edge (bare d) (Some "No") (bare x)) s)
  end.
  assert (H4 : state_ok st4).
  { apply state_ok_edge.
    - apply (state_ok_get_id st3 H3).
    - right. right. eapply handed_out_mono; [|exact Hd2]. cbn. lia.
    - right. apply handed_out_fresh. }
  assert (Hc4 : c <= node_counter st4).
  { cbn [st4 st3 append node_counter]. cbn [st1 append node_counter] in B2. lia. }
  destruct is_last.
  - split; [|cbn [fst snd append node_counter]; split; [exact Hc4|right; now left]].
    apply state_ok_edge; [exact H4|apply known_fresh|now left].
  - split; [exact H4|]. cbn [fst snd]. split; [exact Hc4|apply known_fresh].
Qed.

(** The cases of a match: the buffer stays in order and every branch end is
    a node an edge may leave. *)
Lemma handle_cases_ok (match_id : string) (cases : list (option string * list stmt)) :
  forall st : rstate,
    state_ok st -> known (node_counter st) match_id ->
    state_ok (snd (handle_cases match_id cases st))
    /\ node_counter st <= node_counter (snd (handle_cases match_id cases st))
    /\ Forall (known (node_counter (snd (handle_cases match_id cases st))))
              (fst (handle_cases match_id cases st)).
Proof.
  induction cases as [|[pattern body] cases IH]; intros st Hst Hm; cbn [handle_cases].
  - cbn [fst snd]. split; [exact Hst|]. split; [lia|constructor].
  - cbv zeta.
    match goal with
    | |- context [Edge (bare match_id) (Some ?l) _] => set (case_lbl := l)
    end.
    assert (Hb : handler_ok st
              (match body with
               | first_stmt :: others =>
                   let '(first_case_id, st') := get_id st in
                   let st' := append (Edge (bare match_id) (Some case_lbl)
                                        (stmt_ref first_case_id first_stmt)) st' in
                   chain_plain first_case_id others st'
               | [] =>
                   let '(empty_case_id, st') := get_id st in
                   (empty_case_id,
                    append (Edge (bare match_id) (Some case_lbl)
                              (placeholder empty_case_id "No action")) st')
               end)).
    { destruct body as [|b others].
      - unfold get_id, placeholder. cbv zeta.
        split; [apply (state_ok_edge_decl match_id (Some case_lbl) Subroutine _ st Hst Hm)|].
        cbn [fst snd append node_counter]. split; [lia|apply known_fresh].
      - unfold get_id at 1. cbv zeta. rewrite stmt_ref_decl.
        eapply handler_ok_trans; [|apply chain_plain_ok].
        + cbn. lia.
        + apply (state_ok_edge_decl match_id (Some case_lbl) _ _ st Hst Hm).
        + apply known_fresh. }
    match goal with
    | |- context [let '(_, _) := ?x in _] =>
        match x with
        | match body with _ => _ end => destruct x as [case_last st1]
        end
    end.
    destruct Hb as (B1 & B2 & B3). cbn [fst snd] in B1, B2, B3.
    destruct (IH st1 B1) as (I1 & I2 & I3); [eapply known_mono; [|exact Hm]; lia|].
    destruct (handle_cases match_id cases st1) as [ends st2]. cbn [fst snd] in *.
    split; [exact I1|]. split; [lia|].
    constructor; [eapply known_mono; [|exact B3]; lia|exact I3].
Qed.

Lemma handle_match_ok (subject : string) (cases : list (option string * list stmt))
  (cur : string) (is_last : bool) (st : rstate) :
  state_ok st -> known (node_counter st) cur ->
  handler_ok st (handle_match subject cases cur is_last st).
Proof.
  intros Hst Hc. unfold handle_match. unfold get_id at 1. cbv zeta.
  set (c := node_counter st).
  set (d := ("n" ++ str_of_nat (S c))%string).
  match goal with
  | |- context [append (Edge (bare cur) None (bare d)) ?s] =>
      set (st1 := append (Edge (bare cur) None (bare d)) s)
  end.
  assert (H1 : state_ok st1).
  { apply state_ok_edge.
    - apply (state_ok_node Diamond _ st Hst).
    - eapply known_mono; [|exact Hc]. cbn. lia.
    - right. apply handed_out_fresh. }
  destruct (handle_cases_ok d cases st1 H1 (known_fresh c)) as (C1 & C2 & C3).
  destruct (handle_cases d cases st1) as [ends st2]. cbn [fst snd] in C1, C2, C3.
  eapply handler_ok_trans; [|apply merge_ok; assumption].
  cbn [st1 append node_counter] in C2. unfold c. lia.
Qed.

Lemma plain_stmt_ok (node : stmt) (cur : string) (st : rstate) :
  state_ok st -> known (node_counter st) cur ->
  handler_ok st (plain_stmt node cur st).
Proof.
  intros Hst Hc. unfold plain_stmt, get_id. cbv zeta. rewrite stmt_ref_decl.
  split; [|cbn [fst snd append node_counter]; split; [lia|apply known_fresh]].
  cbn [fst snd]. apply state_ok_edge.
  - apply (state_ok_node _ _ st Hst).
  - eapply known_mono; [|exact Hc]. cbn. lia.
  - right. apply handed_out_fresh.
Qed.

Lemma step_ok (node : stmt) (is_last : bool) (cur : string) (st : rstate) :
  state_ok st -> known (node_counter st) cur ->
  handler_ok st (step node is_last cur st).
Proof.
  intros Hst Hc. destruct node; cbn [step];
    try (now apply plain_stmt_ok); try (now apply handle_loop_ok).
  - exact (handle_if_ok (If test body orelse text) cur is_last st Hst Hc).
  - now apply handle_match_ok.
Qed.

Lemma run_body_ok (body : list stmt) :
  forall (cur : string) (st : rstate),
    state_ok st -> known (node_counter st) cur ->
    handler_ok st (run_body body cur st).
Proof.
  induction body as [|node body IH]; intros cur st Hst Hc; cbn [run_body].
  - split; [exact Hst|]. cbn [fst snd]. split; [lia|exact Hc].
  - destruct (step_ok node (is_nil body) cur st Hst Hc) as (S1 & S2 & S3).
    destruct (step node (is_nil body) cur st) as [l s]. cbn [fst snd] in S1, S2, S3.
    eapply handler_ok_trans; [exact S2|]. now apply IH.
Qed.

Lemma init_state_ok : state_ok init_state.
Proof.
  exists []. split; [reflexivity|]. split; [constructor|]. split; constructor.
Qed.

(** X15.  The diagram the Python renderer gives for any module: after Start
    the nodes declared are ids n1 .. nk the counter has handed out, none of
    them twice, and then End, once or twice; every edge leaves Start, End or
    an id handed out and enters End or an id handed out, so that none enters
    Start. *)
Theorem py_diagram_ids_are_fresh :
  forall body : list stmt,
    exists (k : nat) (ds : list string),
      (declared (render body) = "Start" :: ds ++ ["End"]
       \/ declared (render body) = "Start" :: ds ++ ["End"; "End"])
      /\ NoDup ds
      /\ Forall (handed_out k) ds
      /\ Forall (edge_ok k) (edges_of (render body)).
Proof.
  intros body. unfold render.
  destruct (run_body_ok body "Start" init_state init_state_ok) as (R1 & _ & R3);
    [now left|].
  destruct (run_body body "Start" init_state) as [last st]. cbn [fst snd] in R1, R3.
  destruct R1 as (ds & Hd & Hn & Hf & He).
  exists (node_counter st), ds.
  destruct (str_eqb last "End").
  - split; [left|split; [exact Hn|split; [exact Hf|]]].
    + cbn [append lines]. unfold declared in *. rewrite decls_of_app, map_app, Hd. reflexivity.
    + cbn [append lines]. rewrite edges_of_app. cbn [edges_of flat_map end_line edge_of app].
      now rewrite app_nil_r.
  - split; [right|split; [exact Hn|split; [exact Hf|]]].
    + cbn [append lines]. unfold declared in *. rewrite !decls_of_app, !map_app, Hd.
      cbn. now rewrite <- app_assoc.
    + cbn [append lines]. rewrite !edges_of_app.
      cbn [edges_of flat_map end_line edge_of app]. rewrite app_nil_r.
      apply Forall_app. split; [exact He|].
      constructor; [|constructor]. split; [exact R3|now left].
Qed.

End PyClosed.

(** ** The C tree builder on plain statements *)

Section CPlainParse.
Import StrSpec ReadSpec CParseSpec c_parser.

(** The turn of the loop of [_parse_block] that reads a plain statement. *)
Lemma parse_loop_default (fuel : nat) (s : string) (i : nat) :
  (len s <=? skip_ws s i)%nat = false ->
  kw_at "if" s (skip_ws s i) = false ->
  kw_at "for" s (skip_ws s i) = false ->
  kw_at "while" s (skip_ws s i) = false ->
  kw_at "do" s (skip_ws s i) = false ->
  kw_at "switch" s (skip_ws s i) = false ->
  parse_loop (S fuel) s i
  = (let '(st, j) := _read_stmt s (skip_ws s i) in
     rest <- parse_loop fuel s j ;;
     Some (if truthy st then stmt (strip st) :: rest else rest)).
Proof.
  intros Hn H1 H2 H3 H4 H5. cbn [parse_loop]. cbv zeta.
  rewrite Hn, H1, H2, H3, H4, H5. reflexivity.
Qed.

(** The turn of the loop at the end of the text. *)
Lemma parse_loop_end (fuel : nat) (s : string) (i : nat) :
  (len s <=? skip_ws s i)%nat = true -> parse_loop (S fuel) s i = Some [].
Proof. intros Hn. cbn [parse_loop]. cbv zeta. now rewrite Hn. Qed.

Lemma skip_ws_scan_app (w u : string) (i : nat) :
  all_chars isspace w = true ->
  (u = EmptyString \/ begins_with_ink u = true) ->
  skip_ws_scan (w ++ u) i = i + len w.
Proof.
  revert i. induction w as [|c w IH]; intros i Hw Hu.
  - cbn [String.append len String.length]. rewrite Nat.add_0_r.
    destruct Hu as [->|Hu]; [reflexivity|].
    destruct u as [|c u]; [discriminate Hu|]. cbn in Hu |- *.
    apply negb_true_iff in Hu. now rewrite Hu.
  - cbn [all_chars] in Hw. apply andb_true_iff in Hw as [Hc Hw].
    cbn [String.append skip_ws_scan]. rewrite Hc, IH by assumption.
    unfold len. cbn. lia.
Qed.

Lemma startswith_app (kw t x : string) :
  startswith kw t = true -> startswith kw (t ++ x) = true.
Proof.
  revert t. induction kw as [|c kw IH]; intros t H; [reflexivity|].
  destruct t as [|a t]; [discriminate H|]. cbn in H |- *.
  apply andb_true_iff in H as [H1 H2]. now rewrite H1, IH.
Qed.

(** A word without semicolon begins [t;...] only if it begins [t]. *)
Lemma startswith_before_semi (kw t rest : string) :
  all_chars (fun c => negb (Ascii.eqb c semi)) kw = true ->
  startswith kw (t ++ String semi rest) = startswith kw t.
Proof.
  revert kw. induction t as [|a t IH]; intros kw Hk.
  - destruct kw as [|c kw]; [reflexivity|]. cbn in Hk |- *.
    apply andb_true_iff in Hk as [Hc _]. apply negb_true_iff in Hc. now rewrite Hc.
  - destruct kw as [|c kw]; [reflexivity|]. cbn in Hk |- *.
    apply andb_true_iff in Hk as [_ Hk]. now rewrite IH.
Qed.

Lemma startswith_len (kw t : string) : startswith kw t = true -> len kw <= len t.
Proof.
  revert t. induction kw as [|c kw IH]; intros t H; [unfold len; cbn; lia|].
  destruct t as [|a t]; [discriminate H|]. cbn in H.
  apply andb_true_iff in H as [_ H]. apply IH in H. unfold len in *. cbn. lia.
Qed.

Lemma get_app_right (a b : string) (k : nat) :
  String.get (len a + k) (a ++ b) = String.get k b.
Proof. induction a as [|c a IH]; [reflexivity|]. exact IH. Qed.

Lemma get_app_left (a b : string) (k : nat) :
  k < len a -> String.get k (a ++ b) = String.get k a.
Proof.
  revert k. induction a as [|c a IH]; intros k H; [unfold len in H; cbn in H; lia|].
  destruct k as [|k]; [reflexivity|]. cbn. apply IH. unfold len in *. cbn in H. lia.
Qed.

(** No keyword stands where a statement without keyword begins. *)
Lemma kw_at_plain (kw pre t rest : string) :
  In kw keywords -> no_keyword t = true ->
  kw_at kw (pre ++ t ++ String semi rest) (len pre) = false.
Proof.
  intros Hin Hno. unfold no_keyword in Hno. rewrite forallb_forall in Hno.
  specialize (Hno kw Hin). unfold kw_at, startswith_at.
  rewrite drop_app_len.
  assert (Hk : all_chars (fun c => negb (Ascii.eqb c semi)) kw = true).
  { destruct Hin as [<-|[<-|[<-|[<-|[<-|[]]]]]]; reflexivity. }
  rewrite (startswith_before_semi kw t rest Hk).
  destruct (startswith kw t) eqn:Es; [|now rewrite andb_false_r].
  cbn [negb orb] in Hno. apply startswith_len in Es.
  rewrite get_app_right.
  replace (t ++ String semi rest)%string with ((t ++ ";") ++ rest)%string
    by (rewrite str_app_assoc; reflexivity).
  rewrite get_app_left by (rewrite len_app; cbn; lia).
  assert (Hlen : (len pre + len kw =? len (pre ++ (t ++ ";") ++ rest))%nat = false).
  { apply Nat.eqb_neq. rewrite !len_app. cbn. lia. }
  rewrite Hlen. cbn [orb].
  destruct (String.get (len kw) (t ++ ";")) as [c|]; [|now rewrite andb_false_r].
  apply orb_true_iff in Hno. rewrite andb_true_r.
  destruct Hno as [H|H]; rewrite H; cbn [negb andb]; now rewrite ?andb_false_r.
Qed.

Lemma rstrip_by_idem (p : ascii -> bool) (s : string) :
  rstrip_by p (rstrip_by p s) = rstrip_by p s.
Proof.
  induction s as [|c s IH]; [reflexivity|]. cbn [rstrip_by].
  destruct (is_empty (rstrip_by p s) && p c) eqn:E; [reflexivity|].
  cbn [rstrip_by]. rewrite IH, E. reflexivity.
Qed.

Lemma strip_idem (s : string) : strip (strip s) = strip s.
Proof.
  destruct (strip_head s) as [->|(c & r & E & Hc)]; [reflexivity|].
  unfold strip at 1. unfold lstrip. rewrite E. cbn [lstrip_by]. rewrite Hc.
  rewrite <- E. unfold strip, rstrip. apply rstrip_by_idem.
Qed.

Lemma read_stmt_at (pre t rest : string) :
  inside_stmt 0 t = true ->
  _read_stmt (pre ++ t ++ String semi rest) (len pre)
  = (strip (t ++ ";"), len pre + len t + 1).
Proof.
  intros H. unfold _read_stmt. rewrite drop_app_len.
  rewrite (read_stmt_scan_inside rest t 0 (len pre) H).
  unfold slice. rewrite drop_app_len.
  replace (len pre + len t + 1 - len pre) with (len (t ++ ";")) by (rewrite len_app; cbn; lia).
  replace (t ++ String semi rest)%string with ((t ++ ";") ++ rest)%string
    by (rewrite str_app_assoc; reflexivity).
  now rewrite take_app_len.
Qed.

Lemma ink_not_blank (t x : string) :
  begins_with_ink t = true -> all_chars isspace (t ++ x) = false.
Proof.
  destruct t as [|c t]; [discriminate|]. cbn. intros H.
  apply negb_true_iff in H. now rewrite H.
Qed.

(** One plain statement behind white space: the loop appends its node and
    goes on behind its semicolon. *)
Lemma parse_loop_plain (fuel : nat) (pre w t rest : string) :
  all_chars isspace w = true -> simple t = true ->
  parse_loop (S fuel) (pre ++ w ++ t ++ String semi rest) (len pre)
  = (r <- parse_loop fuel (pre ++ w ++ t ++ String semi rest)
            (len (pre ++ w ++ t ++ ";")) ;;
     Some (stmt (strip (t ++ ";")) :: r)).
Proof.
  intros Hw Hs. unfold simple in Hs.
  apply andb_true_iff in Hs as [Hs Hno]. apply andb_true_iff in Hs as [Hink Hin].
  assert (Es : (pre ++ w ++ t ++ String semi rest)%string
               = ((pre ++ w) ++ t ++ String semi rest)%string).
  { now rewrite str_app_assoc. }
  assert (Hskip : skip_ws ((pre ++ w) ++ t ++ String semi rest) (len pre) = len (pre ++ w)).
  { rewrite <- Es. unfold skip_ws. rewrite drop_app_len, skip_ws_scan_app, len_app; auto.
    right. destruct t; [discriminate Hink|exact Hink]. }
  rewrite Es.
  rewrite parse_loop_default; rewrite Hskip.
  - rewrite read_stmt_at by exact Hin.
    rewrite (strip_nonblank (t ++ ";")) by (now apply ink_not_blank).
    rewrite strip_idem.
    replace (len (pre ++ w) + len t + 1) with (len (pre ++ w ++ t ++ ";"))
      by (rewrite !len_app; cbn; lia).
    reflexivity.
  - apply Nat.leb_gt. rewrite !len_app. cbn. lia.
  - apply kw_at_plain; [|exact Hno]. now left.
  - apply kw_at_plain; [|exact Hno]. right. now left.
  - apply kw_at_plain; [|exact Hno]. do 2 right. now left.
  - apply kw_at_plain; [|exact Hno]. do 3 right. now left.
  - apply kw_at_plain; [|exact Hno]. do 4 right. now left.
Qed.

(** The statements after the first. *)
Lemma parse_following (ts : list string) :
  forall (pre : string) (fuel : nat),
    forallb simple ts = true -> length ts < fuel ->
    parse_loop fuel (pre ++ following ts) (len pre)
    = Some (map (fun t => stmt (strip (t ++ ";"))) ts).
Proof.
  induction ts as [|t ts IH]; intros pre fuel Hs Hf.
  - destruct fuel as [|fuel]; [lia|]. cbn [following map].
    apply parse_loop_end. apply Nat.leb_le.
    unfold skip_ws. rewrite drop_app_len. cbn [skip_ws_scan].
    rewrite len_app. unfold len. cbn. lia.
  - destruct fuel as [|fuel]; [cbn in Hf; lia|].
    cbn [forallb] in Hs. apply andb_true_iff in Hs as [Ht Hts].
    cbn [following map].
    change (" " ++ t ++ ";" ++ following ts)%string
      with (" " ++ t ++ String semi (following ts))%string.
    rewrite (parse_loop_plain fuel pre " " t (following ts) eq_refl Ht).
    replace (pre ++ " " ++ t ++ String semi (following ts))%string
      with ((pre ++ " " ++ t ++ ";") ++ following ts)%string.
    + rewrite IH; [reflexivity|exact Hts|cbn in Hf; lia].
    + rewrite !str_app_assoc. reflexivity.
Qed.

Lemma rstrip_app_fixed (p : ascii -> bool) (a b : string) :
  b <> EmptyString -> rstrip_by p b = b -> rstrip_by p (a ++ b)%string = (a ++ b)%string.
Proof.
  intros Hb Hr. induction a as [|c a IH]; [exact Hr|].
  cbn [String.append rstrip_by]. rewrite IH.
  destruct (a ++ b)%string eqn:E; [|reflexivity].
  destruct a; [now destruct Hb|discriminate E].
Qed.

Lemma following_fixed (ts : list string) :
  rstrip (following ts) = following ts.
Proof.
  unfold rstrip. induction ts as [|t ts IH]; [reflexivity|]. cbn [following].
  destruct (following ts) eqn:E.
  - replace (" " ++ t ++ ";" ++ "")%string with ((" " ++ t) ++ ";")%string
      by (rewrite str_app_assoc; reflexivity).
    apply (rstrip_app_fixed isspace (" " ++ t) ";"); [discriminate|reflexivity].
  - replace (" " ++ t ++ ";" ++ String a s)%string
      with ((" " ++ t ++ ";") ++ String a s)%string
      by (rewrite !str_app_assoc; reflexivity).
    apply (rstrip_app_fixed isspace (" " ++ t ++ ";") (String a s)); [discriminate|exact IH].
Qed.

Lemma block_text_stripped (t : string) (ts : list string) :
  begins_with_ink t = true -> strip (block_text t ts) = block_text t ts.
Proof.
  intros Hink. unfold strip, block_text.
  assert (Hl : lstrip (t ++ ";" ++ following ts) = (t ++ ";" ++ following ts)%string).
  { destruct t as [|c t]; [discriminate Hink|]. cbn in Hink.
    apply negb_true_iff in Hink. unfold lstrip. cbn [String.append lstrip_by].
    now rewrite Hink. }
  rewrite Hl. unfold rstrip. destruct (following ts) as [|a s] eqn:E.
  - apply (rstrip_app_fixed isspace t ";"); [discriminate|reflexivity].
  - replace (t ++ ";" ++ String a s)%string with ((t ++ ";") ++ String a s)%string
      by (rewrite str_app_assoc; reflexivity).
    apply (rstrip_app_fixed isspace (t ++ ";") (String a s)); [discriminate|].
    rewrite <- E. apply following_fixed.
Qed.

Lemma following_len (ts : list string) : length ts <= len (following ts).
Proof.
  induction ts as [|t ts IH]; [cbn; lia|]. cbn [following length].
  rewrite !len_app. cbn. lia.
Qed.

(** X16.  The C tree builder reads a block of plain statements back as they
    were written: for statements that begin with a character that is no
    white space, whose semicolons all stand between parentheses that close,
    and that do not begin with a keyword, the text t1; t2; ... tn; gives one
    stmt node per statement, in order, each holding its statement with the
    semicolon, stripped; repeated statements are all kept. *)
Theorem c_plain_block_parses_back :
  forall (t : string) (ts : list string),
    simple t = true -> forallb simple ts = true ->
    _parse_block (block_text t ts)
    = Some (map (fun x => stmt (strip (x ++ ";"))) (t :: ts)).
Proof.
  intros t ts Ht Hts.
  assert (Hink : begins_with_ink t = true).
  { unfold simple in Ht. apply andb_true_iff in Ht as [Ht _].
    now apply andb_true_iff in Ht as [Ht _]. }
  unfold _parse_block. rewrite block_text_stripped by exact Hink.
  unfold block_text.
  change (t ++ ";" ++ following ts)%string
    with (EmptyString ++ EmptyString ++ t ++ String semi (following ts))%string.
  change 0 with (len EmptyString).
  rewrite (parse_loop_plain _ EmptyString EmptyString t (following ts) eq_refl Ht).
  cbn [String.append].
  change (t ++ String semi (following ts))%string with (t ++ ";" ++ following ts)%string.
  replace (t ++ ";" ++ following ts)%string with ((t ++ ";") ++ following ts)%string
    by (rewrite str_app_assoc; reflexivity).
  rewrite parse_following; [reflexivity|exact Hts|].
  pose proof (following_len ts). rewrite !len_app. cbn. lia.
Qed.

Lemma c_plain_block_parses_back_witness :
  simple "int x = 0" = true
  /\ forallb simple ["for_each(x; 3)"; "x = x + 1"; "x = x + 1"] = true
  /\ _parse_block (block_text "int x = 0" ["for_each(x; 3)"; "x = x + 1"; "x = x + 1"])
     = Some (map (fun x => stmt (strip (x ++ ";")))
               ("int x = 0" :: ["for_each(x; 3)"; "x = x + 1"; "x = x + 1"])).
Proof.
  split; [reflexivity|]. split; [reflexivity|].
  apply (c_plain_block_parses_back "int x = 0" ["for_each(x; 3)"; "x = x + 1"; "x = x + 1"]);
    reflexivity.
Defined.

End CPlainParse.

(** ** The labels of the Java renderer *)

Section JavaLabels.
Import StrSpec java_parser.

Lemma no_dq_join (sep : string) (l : list string) :
  all_chars (fun c => negb (Ascii.eqb c (chr 34))) sep = true ->
  Forall (fun s => all_chars (fun c => negb (Ascii.eqb c (chr 34))) s = true) l ->
  all_chars (fun c => negb (Ascii.eqb c (chr 34))) (join sep l) = true.
Proof.
  intros Hsep. unfold join. induction 1 as [|s l Hs Hl IH]; [reflexivity|].
  cbn [String.concat]. destruct l as [|s' l']; [exact Hs|].
  rewrite !all_chars_app, Hs, Hsep. exact IH.
Qed.

(** X17.  A label made by _safe_label holds no double quote, whatever the
    text: the last step turns every double quote into a single one.  The
    same holds of the text the Java renderer writes into the node of a loop
    body, which joins such labels and three dots by line feeds. *)
Theorem java_safe_label_has_no_double_quote :
  (forall s : string,
     all_chars (fun c => negb (Ascii.eqb c (chr 34))) (_safe_label s) = true)
  /\ (forall body : list node,
        all_chars (fun c => negb (Ascii.eqb c (chr 34))) (body_text body) = true).
Proof.
  assert (H : forall s, all_chars (fun c => negb (Ascii.eqb c (chr 34))) (_safe_label s) = true).
  { intros s. unfold _safe_label. cbv zeta. unfold dq.
    apply all_chars_replace_char; [reflexivity|].
    intros x Hx. now rewrite Ascii.eqb_sym, Hx. }
  split; [exact H|].
  intros body. unfold body_text. apply no_dq_join; [reflexivity|].
  apply Forall_forall. intros l Hin. apply in_map_iff in Hin as (nd & <- & _).
  destruct nd; try reflexivity. apply H.
Qed.

End JavaLabels.

(** * The claims on merge nodes, plain statements, empty branches and repeated calls *)


(** ** What the Java renderer adds to its nodes *)

Section JavaNodes.
Import java_parser JSpec NodeSpec.















End JavaNodes.


(** ** C4: conditionals and merge nodes *)

Section JavaMerge.
Import java_parser JSpec NodeSpec.









End JavaMerge.




(** ** C8: empty branches *)

Section CEmpty.
Import c_parser CSpec NodeSpec.













End CEmpty.

Section PyEmpty.
Import python_parser PySpec NodeSpec.

#[local] Arguments handle_expr : simpl never.
#[local] Arguments str_of_nat : simpl never.
#[local] Arguments String.append : simpl never.
#[local] Arguments safe_label : simpl never.















Lemma in_line_edge (a : nref) (lbl : option string) (b : nref) (ls : list line) :
  In (Edge a lbl b) ls -> In (MkEdge (ref_id a) lbl (ref_id b)) (edges_of ls).
Proof.
  intros H. unfold edges_of. apply in_flat_map. exists (Edge a lbl b).
  split; [exact H|now left].
Qed.

Lemma in_line_decl (a : nref) (lbl : option string) (id : string) (sh : shape)
  (text : string) (ls : list line) :
  In (Edge a lbl (decl id sh text)) ls -> In (id, sh, text) (decls_of ls).
Proof.
  intros H. unfold decls_of. apply in_flat_map. exists (Edge a lbl (decl id sh text)).
  split; [exact H|]. cbn [decls_of_line]. apply in_or_app. right. now left.
Qed.

End PyEmpty.

Section PyMissingElse.
Import python_parser PySpec NodeSpec.

#[local] Arguments handle_expr : simpl never.
#[local] Arguments str_of_nat : simpl never.
#[local] Arguments String.append : simpl never.
#[local] Arguments safe_label : simpl never.


End PyMissingElse.

Section JavaEmpty.
Import java_parser JSpec NodeSpec.









End JavaEmpty.




(** ** C5: input made of plain statements *)

Section CPlainInput.
Import StrSpec ReadSpec CParseSpec PlainSpec c_parser.






End CPlainInput.

Section JavaPlainInput.
Import Re java_parser JSpec PlainSpec.







End JavaPlainInput.

Section JavaWrappedInput.
Import Re java_parser JSpec PlainSpec.









End JavaWrappedInput.

Section PlainChains.
Import java_parser JSpec.


End PlainChains.




(** ** C9: the diagram and the stream of ids *)

Section Ids.
Import IdSpec.

Lemma counted_str_of_nat (k : nat) : counted (str_of_nat k) = Some k.
Proof.
  unfold counted, str_of_nat.
  rewrite (NilZero.usu _ (to_uint_nonnil k)), DecimalNat.Unsigned.of_to.
  now rewrite String.eqb_refl.
Qed.

Lemma counted_inv (d : string) (k : nat) : counted d = Some k -> d = str_of_nat k.
Proof.
  unfold counted. destruct (NilZero.uint_of_string d) as [u|]; [|discriminate].
  destruct (String.eqb _ d) eqn:E; [|discriminate].
  intros H. injection H as <-. symmetry. now apply String.eqb_eq.
Qed.

(** An id the counter has made moves up by [c]. *)
Lemma shift_made (p : ascii) (c k : nat) :
  shift_id p c (String p (str_of_nat k)) = String p (str_of_nat (k + c)).
Proof. cbn [shift_id]. now rewrite Ascii.eqb_refl, counted_str_of_nat. Qed.

(** What [shift_id] makes of a text: the text itself, or the shifted id. *)
Lemma shift_cases (p : ascii) (c : nat) (s : string) :
  (shift_id p c s = s /\ forall k, s <> String p (str_of_nat k))
  \/ exists k, s = String p (str_of_nat k)
               /\ shift_id p c s = String p (str_of_nat (k + c)).
Proof.
  destruct s as [|a d]; [left; split; [reflexivity|discriminate]|].
  cbn [shift_id]. destruct (Ascii.eqb a p) eqn:Ea.
  - apply Ascii.eqb_eq in Ea. subst a. destruct (counted d) as [k|] eqn:Ec.
    + right. exists k. apply counted_inv in Ec. subst d. split; reflexivity.
    + left. split; [reflexivity|]. intros k E. injection E as ->.
      rewrite counted_str_of_nat in Ec. discriminate.
  - left. split; [reflexivity|]. intros k E. injection E as -> _.
    rewrite Ascii.eqb_refl in Ea. discriminate.
Qed.

(** The renaming is one to one. *)
Lemma shift_inj (p : ascii) (c : nat) (a b : string) :
  shift_id p c a = shift_id p c b -> a = b.
Proof.
  destruct (shift_cases p c a) as [[Ea Na]|(k & -> & Ea)];
    destruct (shift_cases p c b) as [[Eb Nb]|(k' & -> & Eb)];
    rewrite Ea, Eb; intros H.
  - exact H.
  - exfalso. apply (Na (k' + c)). exact H.
  - exfalso. apply (Nb (k + c)). now symmetry.
  - injection H as H. apply str_of_nat_inj in H. f_equal. f_equal. lia.
Qed.

Lemma shift_truthy (p : ascii) (c : nat) (s : string) :
  truthy (shift_id p c s) = truthy s.
Proof.
  destruct (shift_cases p c s) as [[E _]|(k & -> & E)]; rewrite E; reflexivity.
Qed.

Lemma shift_opt_truthy (p : ascii) (c : nat) (o : option string) :
  java_parser.opt_truthy (option_map (shift_id p c) o) = java_parser.opt_truthy o.
Proof. destruct o as [s|]; [apply shift_truthy|reflexivity]. Qed.

Lemma shift_is_none (p : ascii) (c : nat) (o : option string) :
  java_parser.is_none (option_map (shift_id p c) o) = java_parser.is_none o.
Proof. now destruct o. Qed.

(** End stays End, and nothing else becomes End. *)
Lemma shift_end_eqb (c : nat) (s : string) :
  str_eqb (shift_id "n" c s) "End" = str_eqb s "End".
Proof.
  destruct (shift_cases "n" c s) as [[E _]|(k & -> & E)]; rewrite E; reflexivity.
Qed.

Lemma rename_bare (f : string -> string) (id : string) :
  rename_nref f (bare id) = bare (f id).
Proof. reflexivity. Qed.

Lemma rename_decl (f : string -> string) (id : string) (sh : shape) (l : string) :
  rename_nref f (decl id sh l) = decl (f id) sh l.
Proof. reflexivity. Qed.

End Ids.

Section CIds.
Import IdSpec c_parser.

Lemma c_append_lift (c : nat) (l : line) (st : rstate) :
  append (rename_line (shift_id "N" c) l) (c_lift c st) = c_lift c (append l st).
Proof. unfold append, c_lift. cbn [lines node_counter]. now rewrite map_app. Qed.

Lemma c_add_node_lift (c : nat) (label : string) (k : kind) (st : rstate) :
  add_node label k (c_lift c st)
  = (shift_id "N" c (fst (add_node label k st)), c_lift c (snd (add_node label k st))).
Proof.
  unfold add_node, new_id. cbv zeta. cbn [fst snd c_lift lines node_counter append].
  change ("N" ++ str_of_nat (S (node_counter st)))%string
    with (String "N" (str_of_nat (S (node_counter st)))).
  rewrite (shift_made "N" c (S (node_counter st))).
  unfold c_lift, append. cbn [lines node_counter]. rewrite map_app.
  cbn [map rename_line]. rewrite rename_decl.
  rewrite (shift_made "N" c (S (node_counter st))). reflexivity.
Qed.

Lemma c_connect_lift (c : nat) (a b : string) (lbl : option string) (st : rstate) :
  connect (shift_id "N" c a) (shift_id "N" c b) lbl (c_lift c st) = c_lift c (connect a b lbl st).
Proof.
  unfold connect. destruct lbl as [l|]; [destruct (truthy l)|];
    rewrite <- c_append_lift; reflexivity.
Qed.

Lemma c_connect_end_lift (c : nat) (a : string) (lbl : option string) (st : rstate) :
  connect (shift_id "N" c a) "End" lbl (c_lift c st) = c_lift c (connect a "End" lbl st).
Proof. apply (c_connect_lift c a "End"). Qed.

Lemma c_end_lift (c : nat) (st : rstate) :
  append end_line (c_lift c st) = c_lift c (append end_line st).
Proof. apply (c_append_lift c end_line). Qed.

Lemma c_render_tail_lift (c : nat) (ns : list node) :
  forall (cur : string) (st : rstate),
    render_tail (shift_id "N" c cur) ns (c_lift c st)
    = (shift_id "N" c (fst (render_tail cur ns st)), c_lift c (snd (render_tail cur ns st))).
Proof.
  induction ns as [|nd ns IH]; intros cur st; [reflexivity|].
  cbn [render_tail]. destruct (_label_and_kind nd) as [l t].
  rewrite c_add_node_lift. destruct (add_node l (io_or_proc t) st) as [nid st1].
  cbn [fst snd]. rewrite c_connect_lift. apply IH.
Qed.

Lemma c_render_branch_lift (c : nat) (d : string) (ns : list node) (lbl : string)
  (st : rstate) :
  render_branch (shift_id "N" c d) ns lbl (c_lift c st)
  = (option_map (shift_id "N" c) (fst (render_branch d ns lbl st)),
     c_lift c (snd (render_branch d ns lbl st))).
Proof.
  destruct ns as [|nd ns]; [reflexivity|].
  cbn [render_branch]. destruct (_label_and_kind nd) as [l t].
  rewrite c_add_node_lift. destruct (add_node l (io_or_proc t) st) as [fid st1].
  cbn [fst snd]. rewrite c_connect_lift, c_render_tail_lift.
  destruct (render_tail fid ns _) as [cur st2]. reflexivity.
Qed.

Lemma c_join_branch_lift (c : nat) (d : string) (b : option string)
  (lbl target : string) (st : rstate) :
  join_branch (shift_id "N" c d) (option_map (shift_id "N" c) b) lbl (shift_id "N" c target) (c_lift c st)
  = c_lift c (join_branch d b lbl target st).
Proof. destruct b as [x|]; cbn [join_branch option_map]; apply c_connect_lift. Qed.

(** The renderer's loop from a counter that stands [c] higher: the same
    lines, with every id moved up by [c]. *)
Lemma c_render_from_lift (c : nat) (ast : list node) :
  forall (prev : string) (last : option string) (st : rstate),
    render_from ast (shift_id "N" c prev) last (c_lift c st)
    = c_lift c (render_from ast prev last st).
Proof.
  induction ast as [|nd rest IH]; intros prev last st.
  - cbn [render_from]. now rewrite c_connect_end_lift, c_end_lift.
  - assert (Hplain : forall l t,
      (if negb (truthy l) then render_from rest (shift_id "N" c prev) last (c_lift c st)
       else if opt_eqb (Some l) last then render_from rest (shift_id "N" c prev) last (c_lift c st)
       else let '(nid, st0) := add_node l (io_or_proc t) (c_lift c st) in
            if str_eqb l "Return"
            then append end_line (connect nid "End" None (connect (shift_id "N" c prev) nid None st0))
            else render_from rest nid (Some l) (connect (shift_id "N" c prev) nid None st0))
      = c_lift c
          (if negb (truthy l) then render_from rest prev last st
           else if opt_eqb (Some l) last then render_from rest prev last st
           else let '(nid, st0) := add_node l (io_or_proc t) st in
                if str_eqb l "Return"
                then append end_line (connect nid "End" None (connect prev nid None st0))
                else render_from rest nid (Some l) (connect prev nid None st0))).
    { intros l t. destruct (negb (truthy l)); [apply IH|].
      destruct (opt_eqb (Some l) last); [apply IH|].
      rewrite c_add_node_lift. destruct (add_node l (io_or_proc t) st) as [nid st1].
      cbn [fst snd]. rewrite c_connect_lift.
      destruct (str_eqb l "Return"); [|apply IH].
      now rewrite c_connect_end_lift, c_end_lift. }
    cbn [render_from].
    destruct (_label_and_kind nd) as [l t] eqn:E.
    destruct nd as [text|cond tn en|h b|cd b|cd b|e cs]; try exact (Hplain l t).
    clear Hplain.
    rewrite c_add_node_lift. destruct (add_node l decision st) as [d st1].
    cbn [fst snd]. rewrite c_connect_lift, c_render_branch_lift.
    destruct (render_branch d tn "Yes" _) as [tl st2]. cbn [fst snd].
    rewrite c_render_branch_lift.
    destruct (render_branch d (or_empty en) "No" st2) as [el st3]. cbn [fst snd].
    destruct (is_nil rest).
    + rewrite (c_join_branch_lift c d tl "Yes" "End").
      rewrite (c_join_branch_lift c d el "No" "End"). apply c_end_lift.
    + rewrite c_add_node_lift. destruct (add_node "Merge" proc st3) as [m st4].
      cbn [fst snd]. rewrite !c_join_branch_lift. apply IH.
Qed.

(** The diagrams of the C renderer from two counters, one [d] ahead of the
    other. *)
Lemma c_render_at_shift (c d : nat) (ast : list node) :
  c_render_at (c + d) ast = map (rename_line (shift_id "N" d)) (c_render_at c ast).
Proof.
  unfold c_render_at.
  change (RState [Header "graph TD"; start_line] (c + d))
    with (c_lift d (RState [Header "graph TD"; start_line] c)).
  change "Start" with (shift_id "N" d "Start") at 1.
  now rewrite c_render_from_lift.
Qed.

End CIds.

Section PyIds.
Import IdSpec python_parser.

#[local] Arguments handle_expr : simpl never.
#[local] Arguments str_of_nat : simpl never.
#[local] Arguments String.append : simpl never.
#[local] Arguments safe_label : simpl never.
#[local] Arguments shift_id : simpl never.

Lemma py_append_lift (c : nat) (l : line) (st : rstate) :
  append (rename_line (shift_id "n" c) l) (py_lift c st) = py_lift c (append l st).
Proof. unfold append, py_lift. cbn [lines node_counter]. now rewrite map_app. Qed.

Lemma py_get_id_lift (c : nat) (st : rstate) :
  get_id (py_lift c st) = (shift_id "n" c (fst (get_id st)), py_lift c (snd (get_id st))).
Proof.
  unfold get_id. cbv zeta. cbn [fst snd py_lift lines node_counter].
  change ("n" ++ str_of_nat (S (node_counter st)))%string
    with (String "n" (str_of_nat (S (node_counter st)))).
  rewrite (shift_made "n" c (S (node_counter st))). reflexivity.
Qed.

Lemma py_edge_lift (c : nat) (a b : string) (lbl : option string) (st : rstate) :
  append (Edge (bare (shift_id "n" c a)) lbl (bare (shift_id "n" c b))) (py_lift c st)
  = py_lift c (append (Edge (bare a) lbl (bare b)) st).
Proof. now rewrite <- py_append_lift. Qed.

Lemma py_edge_end_lift (c : nat) (a : string) (lbl : option string) (st : rstate) :
  append (Edge (bare (shift_id "n" c a)) lbl (bare "End")) (py_lift c st)
  = py_lift c (append (Edge (bare a) lbl (bare "End")) st).
Proof. apply (py_edge_lift c a "End"). Qed.

Lemma py_edge_decl_lift (c : nat) (a id : string) (lbl : option string) (sh : shape)
  (text : string) (st : rstate) :
  append (Edge (bare (shift_id "n" c a)) lbl (decl (shift_id "n" c id) sh text))
    (py_lift c st)
  = py_lift c (append (Edge (bare a) lbl (decl id sh text)) st).
Proof. now rewrite <- py_append_lift. Qed.

Lemma py_edge_stmt_lift (c : nat) (a id : string) (lbl : option string) (s : stmt)
  (st : rstate) :
  append (Edge (bare (shift_id "n" c a)) lbl (stmt_ref (shift_id "n" c id) s))
    (py_lift c st)
  = py_lift c (append (Edge (bare a) lbl (stmt_ref id s)) st).
Proof. rewrite !stmt_ref_decl. apply py_edge_decl_lift. Qed.

Lemma py_edge_placeholder_lift (c : nat) (a id : string) (lbl : option string)
  (text : string) (st : rstate) :
  append (Edge (bare (shift_id "n" c a)) lbl (placeholder (shift_id "n" c id) text))
    (py_lift c st)
  = py_lift c (append (Edge (bare a) lbl (placeholder id text)) st).
Proof. apply py_edge_decl_lift. Qed.

Lemma py_node_lift (c : nat) (id : string) (sh : shape) (text : string) (st : rstate) :
  append (Node (decl (shift_id "n" c id) sh text)) (py_lift c st)
  = py_lift c (append (Node (decl id sh text)) st).
Proof. now rewrite <- py_append_lift. Qed.

Lemma py_node_stmt_lift (c : nat) (id : string) (s : stmt) (st : rstate) :
  append (Node (stmt_ref (shift_id "n" c id) s)) (py_lift c st)
  = py_lift c (append (Node (stmt_ref id s)) st).
Proof. rewrite !stmt_ref_decl. apply py_node_lift. Qed.

Lemma chain_labelled_lift (c : nat) (lbl : string) (body : list stmt) :
  forall (cur : string) (st : rstate),
    chain_labelled lbl (shift_id "n" c cur) body (py_lift c st)
    = (shift_id "n" c (fst (chain_labelled lbl cur body st)),
       py_lift c (snd (chain_labelled lbl cur body st))).
Proof.
  induction body as [|a body IH]; intros cur st; [reflexivity|].
  cbn [chain_labelled]. rewrite py_get_id_lift. destruct (get_id st) as [sid st1].
  cbn [fst snd]. rewrite py_edge_stmt_lift. apply IH.
Qed.

Lemma chain_plain_lift (c : nat) (body : list stmt) :
  forall (cur : string) (st : rstate),
    chain_plain (shift_id "n" c cur) body (py_lift c st)
    = (shift_id "n" c (fst (chain_plain cur body st)),
       py_lift c (snd (chain_plain cur body st))).
Proof.
  induction body as [|a body IH]; intros cur st; [reflexivity|].
  cbn [chain_plain]. rewrite py_get_id_lift. destruct (get_id st) as [sid st1].
  cbn [fst snd]. rewrite py_edge_stmt_lift. apply IH.
Qed.

Lemma join_ends_lift (c : nat) (ends : list string) (target : string) :
  forall st : rstate,
    join_ends (map (shift_id "n" c) ends) (shift_id "n" c target) (py_lift c st)
    = py_lift c (join_ends ends target st).
Proof.
  induction ends as [|b ends IH]; intros st; [reflexivity|].
  cbn [map join_ends]. rewrite py_edge_lift. apply IH.
Qed.

Lemma merge_lift (c : nat) (ends : list string) (is_last : bool) (st : rstate) :
  merge (map (shift_id "n" c) ends) is_last (py_lift c st)
  = (shift_id "n" c (fst (merge ends is_last st)), py_lift c (snd (merge ends is_last st))).
Proof.
  unfold merge. destruct is_last.
  - cbn [fst snd]. now rewrite <- (join_ends_lift c ends "End").
  - rewrite py_get_id_lift. destruct (get_id st) as [m st1]. cbn [fst snd].
    now rewrite join_ends_lift.
Qed.

(** A conditional, elif chains included, from a counter that stands [c]
    higher. *)
Lemma handle_if_lift (c : nat) (node : stmt) :
  forall (cur : string) (is_last : bool) (st : rstate),
    handle_if_elif_else node (shift_id "n" c cur) is_last (py_lift c st)
    = (shift_id "n" c (fst (handle_if_elif_else node cur is_last st)),
       py_lift c (snd (handle_if_elif_else node cur is_last st))).
Proof.
  pattern node. revert node.
  apply elif_chain_ind; [|intros s Hs cur is_last st; destruct s; easy].
  intros test body orelse text IH cur is_last st.
  cbn [handle_if_elif_else]. rewrite py_get_id_lift. destruct (get_id st) as [d st0].
  cbn [fst snd]. rewrite py_node_lift, py_edge_lift.
  match goal with
  | |- context [py_lift c ?s] => set (st1 := s)
  end.
  assert (Hno : forall (y : string) (st2 : rstate),
    (let '(no_end, s) :=
       match orelse with
       | [] =>
           let '(no_id, st') := get_id (py_lift c st2) in
           (no_id, append (Edge (bare (shift_id "n" c d)) (Some "No")
                             (placeholder no_id "No action")) st')
       | [If _ _ _ _ as elif_node] =>
           handle_if_elif_else elif_node (shift_id "n" c d) is_last (py_lift c st2)
       | _ => chain_labelled "No" (shift_id "n" c d) orelse (py_lift c st2)
       end in
     merge [shift_id "n" c y; no_end] is_last s)
    = (let r :=
         (let '(no_end, s) :=
            match orelse with
            | [] =>
                let '(no_id, st') := get_id st2 in
                (no_id, append (Edge (bare d) (Some "No")
                                  (placeholder no_id "No action")) st')
            | [If _ _ _ _ as elif_node] => handle_if_elif_else elif_node d is_last st2
            | _ => chain_labelled "No" d orelse st2
            end in
          merge [y; no_end] is_last s) in
       (shift_id "n" c (fst r), py_lift c (snd r)))).
  { intros y st2. cbv zeta.
    destruct orelse as [|e [|e2 rest]].
    - rewrite py_get_id_lift. destruct (get_id st2) as [n st3]. cbn [fst snd].
      rewrite py_edge_placeholder_lift. apply (merge_lift c [y; n]).
    - destruct e;
        try (rewrite chain_labelled_lift;
             match goal with
             | |- context [chain_labelled "No" d ?o st2] =>
                 destruct (chain_labelled "No" d o st2) as [n st3]
             end;
             cbn [fst snd]; apply (merge_lift c [y; n])).
      rewrite IH.
      match goal with
      | |- context [handle_if_elif_else ?e d is_last st2] =>
          destruct (handle_if_elif_else e d is_last st2) as [n st3]
      end.
      cbn [fst snd]. apply (merge_lift c [y; n]).
    - destruct e;
        (rewrite chain_labelled_lift;
         match goal with
         | |- context [chain_labelled "No" d ?o st2] =>
             destruct (chain_labelled "No" d o st2) as [n st3]
         end;
         cbn [fst snd]; apply (merge_lift c [y; n])). }
  destruct body as [|b body'].
  - rewrite py_get_id_lift. destruct (get_id st1) as [y st2]. cbn [fst snd].
    rewrite py_edge_placeholder_lift. apply Hno.
  - rewrite chain_labelled_lift.
    destruct (chain_labelled "Yes" d (b :: body') st1) as [y st2]. cbn [fst snd].
    apply Hno.
Qed.

Lemma handle_loop_lift (c : nat) (loop_node : stmt) (cur : string) (is_last : bool)
  (st : rstate) :
  handle_loop loop_node (shift_id "n" c cur) is_last (py_lift c st)
  = (shift_id "n" c (fst (handle_loop loop_node cur is_last st)),
     py_lift c (snd (handle_loop loop_node cur is_last st))).
Proof.
  unfold handle_loop. rewrite py_get_id_lift. destruct (get_id st) as [d st0].
  cbn [fst snd]. rewrite py_node_lift, py_edge_lift.
  match goal with
  | |- context [py_lift c ?s] => set (st1 := s)
  end.
  assert (Htail : forall (y : string) (st2 : rstate),
    (let st3 := append (Edge (bare (shift_id "n" c y)) None (bare (shift_id "n" c d)))
                  (py_lift c st2) in
     let '(x, st4) := get_id st3 in
     let st5 := append (Edge (bare (shift_id "n" c d)) (Some "No") (bare x)) st4 in
     if is_last then ("End", append (Edge (bare x) None (bare "End")) st5) else (x, st5))
    = (let r :=
         (let st3 := append (Edge (bare y) None (bare d)) st2 in
          let '(x, st4) := get_id st3 in
          let st5 := append (Edge (bare d) (Some "No") (bare x)) st4 in
          if is_last then ("End", append (Edge (bare x) None (bare "End")) st5)
          else (x, st5)) in
       (shift_id "n" c (fst r), py_lift c (snd r)))).
  { intros y st2. cbv zeta. rewrite py_edge_lift, py_get_id_lift.
    destruct (get_id _) as [x st4]. cbn [fst snd]. rewrite py_edge_lift.
    destruct is_last; cbn [fst snd]; [|reflexivity].
    now rewrite py_edge_end_lift. }
  destruct (loop_body loop_node) as [|f others].
  - rewrite py_get_id_lift. destruct (get_id st1) as [y st2]. cbn [fst snd].
    rewrite py_edge_placeholder_lift. apply Htail.
  - rewrite py_get_id_lift. destruct (get_id st1) as [y0 st2]. cbn [fst snd].
    rewrite py_edge_stmt_lift, chain_plain_lift.
    destruct (chain_plain y0 others _) as [y st3]. cbn [fst snd]. apply Htail.
Qed.

Lemma handle_cases_lift (c : nat) (match_id : string)
  (cases : list (option string * list stmt)) :
  forall st : rstate,
    handle_cases (shift_id "n" c match_id) cases (py_lift c st)
    = (map (shift_id "n" c) (fst (handle_cases match_id cases st)),
       py_lift c (snd (handle_cases match_id cases st))).
Proof.
  induction cases as [|[pattern body] cases IH]; intros st; [reflexivity|].
  cbn [handle_cases].
  destruct body as [|f others].
  - rewrite py_get_id_lift. destruct (get_id st) as [y st1]. cbn [fst snd].
    rewrite py_edge_placeholder_lift, IH.
    destruct (handle_cases match_id cases _) as [ends st2]. reflexivity.
  - rewrite py_get_id_lift. destruct (get_id st) as [y0 st1]. cbn [fst snd].
    rewrite py_edge_stmt_lift, chain_plain_lift.
    destruct (chain_plain y0 others _) as [y st2]. cbn [fst snd]. rewrite IH.
    destruct (handle_cases match_id cases st2) as [ends st3]. reflexivity.
Qed.

Lemma handle_match_lift (c : nat) (subject : string)
  (cases : list (option string * list stmt)) (last : string) (is_last : bool)
  (st : rstate) :
  handle_match subject cases (shift_id "n" c last) is_last (py_lift c st)
  = (shift_id "n" c (fst (handle_match subject cases last is_last st)),
     py_lift c (snd (handle_match subject cases last is_last st))).
Proof.
  unfold handle_match. rewrite py_get_id_lift. destruct (get_id st) as [m st0].
  cbn [fst snd]. rewrite py_node_lift, py_edge_lift, handle_cases_lift.
  destruct (handle_cases m cases _) as [ends st1]. cbn [fst snd]. apply merge_lift.
Qed.

Lemma plain_stmt_lift (c : nat) (node : stmt) (last : string) (st : rstate) :
  plain_stmt node (shift_id "n" c last) (py_lift c st)
  = (shift_id "n" c (fst (plain_stmt node last st)),
     py_lift c (snd (plain_stmt node last st))).
Proof.
  unfold plain_stmt. rewrite py_get_id_lift. destruct (get_id st) as [nid st0].
  cbn [fst snd]. now rewrite py_node_stmt_lift, py_edge_lift.
Qed.

Lemma step_lift (c : nat) (node : stmt) (is_last : bool) (last : string) (st : rstate) :
  step node is_last (shift_id "n" c last) (py_lift c st)
  = (shift_id "n" c (fst (step node is_last last st)),
     py_lift c (snd (step node is_last last st))).
Proof.
  destruct node; cbn [step];
    first [apply plain_stmt_lift | apply handle_if_lift | apply handle_match_lift
          | apply handle_loop_lift].
Qed.

(** The top-level loop from a counter that stands [c] higher. *)
Lemma run_body_lift (c : nat) (body : list stmt) :
  forall (last : string) (st : rstate),
    run_body body (shift_id "n" c last) (py_lift c st)
    = (shift_id "n" c (fst (run_body body last st)),
       py_lift c (snd (run_body body last st))).
Proof.
  induction body as [|node body IH]; intros last st; [reflexivity|].
  cbn [run_body]. rewrite step_lift.
  destruct (step node (is_nil body) last st) as [l st1]. cbn [fst snd]. apply IH.
Qed.

(** The diagrams of the Python renderer from two counters, one [d] ahead of
    the other. *)
Lemma py_render_at_shift (c d : nat) (body : list stmt) :
  py_render_at (c + d) body = map (rename_line (shift_id "n" d)) (py_render_at c body).
Proof.
  unfold py_render_at.
  change (RState [Header "graph TD"; start_line] (c + d))
    with (py_lift d (RState [Header "graph TD"; start_line] c)).
  change "Start" with (shift_id "n" d "Start") at 1.
  rewrite run_body_lift.
  destruct (run_body body "Start" (RState [Header "graph TD"; start_line] c)) as [last st].
  cbn [fst snd]. rewrite shift_end_eqb.
  assert (Hend : forall s : rstate,
            lines (append end_line (py_lift d s))
            = map (rename_line (shift_id "n" d)) (lines (append end_line s))).
  { intros s. change end_line with (rename_line (shift_id "n" d) end_line) at 1.
    now rewrite py_append_lift. }
  destruct (str_eqb last "End"); [apply Hend|].
  rewrite (py_edge_decl_lift d last "End"). apply Hend.
Qed.

End PyIds.

Section JavaIds.
Import IdSpec java_parser.

#[local] Arguments str_of_nat : simpl never.
#[local] Arguments String.append : simpl never.
#[local] Arguments shift_id : simpl never.
#[local] Arguments _safe_label : simpl never.

Ltac rew H :=
  let E := fresh "E" in
  pose proof H as E; cbn [option_map] in E; rewrite E; clear E.

Lemma j_push_node_lift (c : nat) (id : string) (sh : shape) (label : string)
  (st : rstate) :
  push_node (Node (decl (shift_id "N" c id) sh label)) (java_lift c st)
  = java_lift c (push_node (Node (decl id sh label)) st).
Proof. unfold push_node, java_lift. cbn [nodes edges id_counter]. now rewrite map_app. Qed.

Lemma j_new_id_lift (c : nat) (st : rstate) :
  new_id (java_lift c st) = (shift_id "N" c (fst (new_id st)), java_lift c (snd (new_id st))).
Proof.
  unfold new_id. cbv zeta. cbn [fst snd java_lift nodes edges id_counter].
  change ("N" ++ str_of_nat (S (id_counter st)))%string
    with (String "N" (str_of_nat (S (id_counter st)))).
  rewrite (shift_made "N" c (S (id_counter st))). reflexivity.
Qed.

Lemma add_node_rect_lift (c : nat) (label : string) (st : rstate) :
  add_node_rect label (java_lift c st)
  = (shift_id "N" c (fst (add_node_rect label st)),
     java_lift c (snd (add_node_rect label st))).
Proof.
  unfold add_node_rect. cbv zeta. rewrite j_new_id_lift.
  destruct (new_id st) as [nid st1]. cbn [fst snd]. now rewrite j_push_node_lift.
Qed.

Lemma add_node_diamond_lift (c : nat) (label : string) (st : rstate) :
  add_node_diamond label (java_lift c st)
  = (shift_id "N" c (fst (add_node_diamond label st)),
     java_lift c (snd (add_node_diamond label st))).
Proof.
  unfold add_node_diamond. rewrite j_new_id_lift.
  destruct (new_id st) as [nid st1]. cbn [fst snd]. now rewrite j_push_node_lift.
Qed.

Lemma add_node_circle_lift (c : nat) (label : string) (st : rstate) :
  add_node_circle label (java_lift c st)
  = (shift_id "N" c (fst (add_node_circle label st)),
     java_lift c (snd (add_node_circle label st))).
Proof.
  unfold add_node_circle. rewrite j_new_id_lift.
  destruct (new_id st) as [nid st1]. cbn [fst snd]. now rewrite j_push_node_lift.
Qed.

Lemma add_merge_lift (c : nat) (st : rstate) :
  add_merge (java_lift c st)
  = (shift_id "N" c (fst (add_merge st)), java_lift c (snd (add_merge st))).
Proof.
  unfold add_merge. rewrite j_new_id_lift.
  destruct (new_id st) as [nid st1]. cbn [fst snd]. now rewrite j_push_node_lift.
Qed.

Lemma push_edge_lift (c : nat) (a b lbl : option string) (st : rstate) :
  push_edge (option_map (shift_id "N" c) a) (option_map (shift_id "N" c) b) lbl
    (java_lift c st)
  = java_lift c (push_edge a b lbl st).
Proof. unfold push_edge, java_lift. cbn [nodes edges id_counter]. now rewrite map_app. Qed.

Lemma enter_lift (c : nat) (entry first last : option string) (st : rstate) :
  enter (option_map (shift_id "N" c) entry) (option_map (shift_id "N" c) first)
    (option_map (shift_id "N" c) last) (java_lift c st)
  = (option_map (shift_id "N" c) (fst (enter entry first last st)),
     java_lift c (snd (enter entry first last st))).
Proof.
  unfold enter. rewrite !shift_is_none. cbn [fst snd]. f_equal.
  - now destruct (is_none first).
  - destruct (is_none last); [reflexivity|]. apply (push_edge_lift c last entry None).
Qed.

Lemma render_cases_lift (c : nat) (sw mg : string) (cases : list (string * list string)) :
  forall st : rstate,
    render_cases (shift_id "N" c sw) (shift_id "N" c mg) cases (java_lift c st)
    = java_lift c (render_cases sw mg cases st).
Proof.
  induction cases as [|[label body] cases IH]; intros st; [reflexivity|].
  cbn [render_cases]. cbv zeta. rewrite add_node_rect_lift.
  destruct (add_node_rect _ st) as [case_n st1]. cbn [fst snd].
  rew (push_edge_lift c (Some sw) (Some case_n) (Some "case")).
  rew (push_edge_lift c (Some case_n) (Some mg) None). apply IH.
Qed.

Lemma render_stmts_lift (c : nat) (block : list node) :
  Forall (node_lifts c) block ->
  forall (first last : option string) (st : rstate),
    render_stmts render_node block (option_map (shift_id "N" c) first)
      (option_map (shift_id "N" c) last) (java_lift c st)
    = (let r := render_stmts render_node block first last st in
       (option_map (shift_id "N" c) (fst (fst r)),
        option_map (shift_id "N" c) (snd (fst r)), java_lift c (snd r))).
Proof.
  induction 1 as [|x block Hx _ IH]; intros first last st; [reflexivity|].
  cbn [render_stmts]. rewrite Hx. cbv zeta.
  destruct (render_node x first last st) as [[f l] st1]. cbn [fst snd]. apply IH.
Qed.

Lemma render_block_with_lift (c : nat) (block : list node) (st : rstate) :
  Forall (node_lifts c) block ->
  render_block_with render_node block (java_lift c st)
  = (let r := render_block_with render_node block st in
     (option_map (shift_id "N" c) (fst (fst r)),
      option_map (shift_id "N" c) (snd (fst r)), java_lift c (snd r))).
Proof. intros H. apply (render_stmts_lift c block H None None st). Qed.

(** The edges by which a block joins the merge node. *)
Lemma branch_join_lift (c : nat) (from bf bl : option string) (m lbl : string)
  (st : rstate) :
  (if opt_truthy (option_map (shift_id "N" c) bf)
   then push_edge (option_map (shift_id "N" c) bl) (Some (shift_id "N" c m)) None
          (push_edge (option_map (shift_id "N" c) from) (option_map (shift_id "N" c) bf)
             (Some lbl) (java_lift c st))
   else push_edge (option_map (shift_id "N" c) from) (Some (shift_id "N" c m)) (Some lbl)
          (java_lift c st))
  = java_lift c
      (if opt_truthy bf
       then push_edge bl (Some m) None (push_edge from bf (Some lbl) st)
       else push_edge from (Some m) (Some lbl) st).
Proof.
  rewrite shift_opt_truthy. destruct (opt_truthy bf).
  - rewrite push_edge_lift. apply (push_edge_lift c bl (Some m) None).
  - apply (push_edge_lift c from (Some m) (Some lbl)).
Qed.

Lemma render_clauses_lift (c : nat) (m : string) (clauses : list (string * list node)) :
  Forall (fun cl => Forall (node_lifts c) (snd cl)) clauses ->
  forall (prev fc : option string) (st : rstate),
    render_clauses render_node (shift_id "N" c m) clauses
      (option_map (shift_id "N" c) prev) (option_map (shift_id "N" c) fc) (java_lift c st)
    = (let r := render_clauses render_node m clauses prev fc st in
       (option_map (shift_id "N" c) (fst (fst r)),
        option_map (shift_id "N" c) (snd (fst r)), java_lift c (snd r))).
Proof.
  induction 1 as [|[cond tb] clauses Hb _ IH]; intros prev fc st; [reflexivity|].
  cbn [snd] in Hb. cbn [render_clauses]. rewrite add_node_diamond_lift.
  destruct (add_node_diamond (_safe_label cond) st) as [d st1]. cbn [fst snd].
  rewrite !shift_is_none.
  assert (E1 : (if is_none prev then java_lift c st1
                else push_edge (option_map (shift_id "N" c) prev) (Some (shift_id "N" c d))
                       (Some "False") (java_lift c st1))
               = java_lift c (if is_none prev then st1
                              else push_edge prev (Some d) (Some "False") st1)).
  { destruct (is_none prev); [reflexivity|].
    apply (push_edge_lift c prev (Some d) (Some "False")). }
  rewrite E1. rewrite (render_block_with_lift c tb _ Hb). cbv zeta.
  destruct (render_block_with render_node tb _) as [[tf tl] st2]. cbn [fst snd].
  pose proof (branch_join_lift c (Some d) tf tl m "True" st2) as E3.
  cbn [option_map] in E3. rewrite E3. clear E3.
  assert (E2 : (if is_none fc then Some (shift_id "N" c d)
                else option_map (shift_id "N" c) fc)
               = option_map (shift_id "N" c) (if is_none fc then Some d else fc)).
  { now destruct (is_none fc). }
  rewrite E2. apply (IH (Some d)).
Qed.

Lemma render_if_chain_lift (c : nat) (clauses : list (string * list node))
  (else_block : option (list node)) (st : rstate) :
  Forall (fun cl => Forall (node_lifts c) (snd cl)) clauses ->
  match else_block with Some eb => Forall (node_lifts c) eb | None => True end ->
  render_if_chain_with render_node clauses else_block (java_lift c st)
  = (let r := render_if_chain_with render_node clauses else_block st in
     (option_map (shift_id "N" c) (fst (fst r)),
      option_map (shift_id "N" c) (snd (fst r)), java_lift c (snd r))).
Proof.
  intros Hcl Hel. unfold render_if_chain_with. rewrite add_merge_lift.
  destruct (add_merge st) as [m st1]. cbn [fst snd].
  pose proof (render_clauses_lift c m clauses Hcl None None st1) as E.
  cbn [option_map] in E. rewrite E. clear E. cbv zeta.
  destruct (render_clauses render_node m clauses None None st1) as [[prev fc] st2].
  cbn [fst snd]. destruct else_block as [eb|].
  - rew (render_block_with_lift c eb st2 Hel). cbv zeta.
    destruct (render_block_with render_node eb st2) as [[ef el] st3]. cbn [fst snd].
    rewrite (branch_join_lift c prev ef el m "False" st3). reflexivity.
  - rew (push_edge_lift c prev (Some m) (Some "False")). reflexivity.
Qed.

(** The body of a for or while loop: one rectangle, joined to the decision
    both ways. *)
Lemma loop_body_lift (c : nat) (cond_n : string) (body : list node) (st : rstate) :
  match body with
  | [] => java_lift c st
  | _ :: _ =>
      let '(body_n, st0) := add_node_rect (body_text body) (java_lift c st) in
      push_edge (Some body_n) (Some (shift_id "N" c cond_n)) None
        (push_edge (Some (shift_id "N" c cond_n)) (Some body_n) (Some "True") st0)
  end
  = java_lift c
      match body with
      | [] => st
      | _ :: _ =>
          let '(body_n, st0) := add_node_rect (body_text body) st in
          push_edge (Some body_n) (Some cond_n) None
            (push_edge (Some cond_n) (Some body_n) (Some "True") st0)
      end.
Proof.
  destruct body as [|b body]; [reflexivity|].
  rewrite add_node_rect_lift. destruct (add_node_rect _ st) as [body_n st1].
  cbn [fst snd].
  rew (push_edge_lift c (Some cond_n) (Some body_n) (Some "True")).
  apply (push_edge_lift c (Some body_n) (Some cond_n) None).
Qed.

(** Every statement is drawn alike from a counter that stands [c] higher. *)
Lemma render_node_lift (c : nat) : forall nd, node_lifts c nd.
Proof.
  apply java_node_nested_ind.
  - intros code first last st. cbn [render_node]. cbv zeta.
    destruct (_ || _); [reflexivity|].
    rewrite add_node_rect_lift. destruct (add_node_rect _ st) as [nid st1].
    cbn [fst snd]. rew (enter_lift c (Some nid) first last st1).
    destruct (enter (Some nid) first last st1) as [f st2]. reflexivity.
  - intros clauses else_block Hcl Hel first last st. cbn [render_node].
    rew (render_if_chain_lift c clauses else_block st Hcl Hel). cbv zeta.
    destruct (render_if_chain_with render_node clauses else_block st) as [[cf cl] st1].
    cbn [fst snd]. rewrite enter_lift.
    destruct (enter cf first last st1) as [f st2]. reflexivity.
  - intros cond body _ first last st. cbn [render_node].
    rewrite add_node_diamond_lift. destruct (add_node_diamond _ st) as [cond_n st1].
    cbn [fst snd]. rew (enter_lift c (Some cond_n) first last st1).
    destruct (enter (Some cond_n) first last st1) as [f st2]. cbn [fst snd].
    rew (loop_body_lift c cond_n body st2). reflexivity.
  - intros cond body _ first last st. cbn [render_node].
    rewrite add_node_diamond_lift. destruct (add_node_diamond _ st) as [cond_n st1].
    cbn [fst snd]. rew (enter_lift c (Some cond_n) first last st1).
    destruct (enter (Some cond_n) first last st1) as [f st2]. cbn [fst snd].
    rew (loop_body_lift c cond_n body st2). reflexivity.
  - intros cond body Hb first last st. cbn [render_node].
    rew (render_block_with_lift c body st Hb). cbv zeta.
    destruct (render_block_with render_node body st) as [[bf bl] st1]. cbn [fst snd].
    rewrite add_node_diamond_lift. destruct (add_node_diamond _ st1) as [cond_n st2].
    cbn [fst snd]. rewrite enter_lift.
    destruct (enter bf first last st2) as [f st3]. cbn [fst snd].
    rew (push_edge_lift c bl (Some cond_n) None).
    rew (push_edge_lift c (Some cond_n) bf (Some "True")). reflexivity.
  - intros cond cases first last st. cbn [render_node].
    rewrite add_node_diamond_lift. destruct (add_node_diamond _ st) as [switch_n st1].
    cbn [fst snd]. rew (enter_lift c (Some switch_n) first last st1).
    destruct (enter (Some switch_n) first last st1) as [f st2]. cbn [fst snd].
    rewrite add_merge_lift. destruct (add_merge st2) as [merge_n st3]. cbn [fst snd].
    rewrite render_cases_lift. reflexivity.
Qed.

(** A block from a counter that stands [c] higher. *)
Lemma render_block_lift (c : nat) (block : list node) (st : rstate) :
  render_block block (java_lift c st)
  = (let r := render_block block st in
     (option_map (shift_id "N" c) (fst (fst r)),
      option_map (shift_id "N" c) (snd (fst r)), java_lift c (snd r))).
Proof.
  apply render_block_with_lift. apply Forall_forall. intros nd _. apply render_node_lift.
Qed.

(** The diagrams of the Java renderer from two counters, one [d] ahead of
    the other. *)
Lemma java_render_at_shift (c d : nat) (ast : list node) :
  java_render_at (c + d) ast
  = (map (rename_line (shift_id "N" d)) (fst (java_render_at c ast)),
     map (rename_jedge (shift_id "N" d)) (snd (java_render_at c ast))).
Proof.
  unfold java_render_at. cbv zeta.
  change (RState [] [] (c + d)) with (java_lift d (RState [] [] c)).
  rewrite add_node_circle_lift.
  destruct (add_node_circle "Start" (RState [] [] c)) as [s_id st1]. cbn [fst snd].
  rewrite add_node_circle_lift.
  destruct (add_node_circle "End" st1) as [e_id st2]. cbn [fst snd].
  rewrite render_block_lift. cbv zeta.
  destruct (render_block ast st2) as [[f l] st3]. cbn [fst snd].
  rewrite !shift_opt_truthy.
  destruct (opt_truthy f), (opt_truthy l);
    cbn [java_lift nodes edges map]; rewrite ?map_app; reflexivity.
Qed.

End JavaIds.

Section IdFacts.
Import IdSpec.

Lemma shift_eqb (p : ascii) (c : nat) (a b : string) :
  str_eqb (shift_id p c a) (shift_id p c b) = str_eqb a b.
Proof.
  unfold str_eqb. destruct (String.eqb_spec a b) as [->|Hne].
  - apply String.eqb_refl.
  - apply String.eqb_neq. intros H. apply Hne. eapply shift_inj, H.
Qed.

Lemma shift_zero (p : ascii) (s : string) : shift_id p 0 s = s.
Proof.
  destruct (shift_cases p 0 s) as [[E _]|(k & -> & E)]; rewrite E; [reflexivity|].
  now rewrite Nat.add_0_r.
Qed.

End IdFacts.

(** C9, as the renderers have it.  Every call of an entry point starts its
    counter at 0 and its buffers afresh: the diagram it returns is the one
    drawn from the counter at 0, so two calls on the same text return the
    same diagram; the C and the Java entry point return one for every
    text.  And a diagram does not depend on where the counter
    starts but for the names of its nodes: of two renderings of the same
    tree, one from the counter at c and one from the counter at c + d, by
    the C, the Python or the Java renderer, the second has the lines, nodes
    and edges of the first in the same order, with the same shapes and
    labels, every id of the counter moved up by d and Start and End as they
    are.  This renaming of the ids is one to one, and the identity for
    d = 0.  The same holds of the loops of the renderers from any state
    they are in. *)
Theorem entry_points_deterministic :
  (forall (p : ascii) (c : nat) (a b : string),
     str_eqb (IdSpec.shift_id p c a) (IdSpec.shift_id p c b) = str_eqb a b)
  /\
  (forall (p : ascii) (c k : nat),
     IdSpec.shift_id p c (String p (str_of_nat k)) = String p (str_of_nat (k + c)))
  /\
  (forall (p : ascii) (s : string), IdSpec.shift_id p 0 s = s)
  /\
  (forall c : nat,
     IdSpec.shift_id "N" c "Start" = "Start" /\ IdSpec.shift_id "N" c "End" = "End"
     /\ IdSpec.shift_id "n" c "Start" = "Start" /\ IdSpec.shift_id "n" c "End" = "End")
  /\
  (forall code : string, exists diagram, c_parser.code_to_flowchart code = Some diagram)
  /\
  (forall code : string, exists diagram, java_parser.parse_java_code code = Some diagram)
  /\
  (forall code : string,
     c_parser.code_to_flowchart code
     = c_parser.obind
         (c_parser._parse_block
            (c_parser.main_body (c_parser._remove_comments_and_preproc code)))
         (fun ast => Some (show (IdSpec.c_render_at 0 ast))))
  /\
  (forall ast : list c_parser.node, IdSpec.c_render_at 0 ast = c_parser.render ast)
  /\
  (forall (c d : nat) (ast : list c_parser.node),
     IdSpec.c_render_at (c + d) ast
     = map (IdSpec.rename_line (IdSpec.shift_id "N" d)) (IdSpec.c_render_at c ast))
  /\
  (forall (c : nat) (ast : list c_parser.node) (prev : string) (last : option string)
          (st : c_parser.rstate),
     c_parser.render_from ast (IdSpec.shift_id "N" c prev) last (IdSpec.c_lift c st)
     = IdSpec.c_lift c (c_parser.render_from ast prev last st))
  /\
  (forall body : list python_parser.stmt,
     python_parser.code_to_flowchart_of (python_parser.Parsed body)
     = Returns (show (IdSpec.py_render_at 0 body)))
  /\
  (forall body : list python_parser.stmt,
     IdSpec.py_render_at 0 body = python_parser.render body)
  /\
  (forall (c d : nat) (body : list python_parser.stmt),
     IdSpec.py_render_at (c + d) body
     = map (IdSpec.rename_line (IdSpec.shift_id "n" d)) (IdSpec.py_render_at c body))
  /\
  (forall (c : nat) (body : list python_parser.stmt) (last : string)
          (st : python_parser.rstate),
     python_parser.run_body body (IdSpec.shift_id "n" c last) (IdSpec.py_lift c st)
     = (IdSpec.shift_id "n" c (fst (python_parser.run_body body last st)),
        IdSpec.py_lift c (snd (python_parser.run_body body last st))))
  /\
  (forall code : string,
     java_parser.parse_java_code code
     = java_parser.obind
         (java_parser._parse_block (java_parser._preprocess_lines code))
         (fun r => Some (join nl (java_parser.mermaid_lines
                                    (IdSpec.java_render_at 0 (fst r))))))
  /\
  (forall ast : list java_parser.node,
     IdSpec.java_render_at 0 ast = java_parser.render ast)
  /\
  (forall (c d : nat) (ast : list java_parser.node),
     IdSpec.java_render_at (c + d) ast
     = (map (IdSpec.rename_line (IdSpec.shift_id "N" d))
            (fst (IdSpec.java_render_at c ast)),
        map (IdSpec.rename_jedge (IdSpec.shift_id "N" d))
            (snd (IdSpec.java_render_at c ast))))
  /\
  (forall (c : nat) (block : list java_parser.node) (st : java_parser.rstate),
     java_parser.render_block block (IdSpec.java_lift c st)
     = (let r := java_parser.render_block block st in
        (option_map (IdSpec.shift_id "N" c) (fst (fst r)),
         option_map (IdSpec.shift_id "N" c) (snd (fst r)),
         IdSpec.java_lift c (snd r)))).
Proof.
  split; [exact shift_eqb|].
  split; [exact shift_made|].
  split; [exact shift_zero|].
  split; [intros c; repeat split; reflexivity|].
  split; [exact c_code_to_flowchart_total|].
  split; [exact parse_java_code_total|].
  split; [intros code; reflexivity|].
  split; [intros ast; reflexivity|].
  split; [exact c_render_at_shift|].
  split; [exact c_render_from_lift|].
  split; [intros body; reflexivity|].
  split; [intros body; reflexivity|].
  split; [exact py_render_at_shift|].
  split; [exact run_body_lift|].
  split.
  { intros code. unfold java_parser.parse_java_code.
    destruct (java_parser._parse_block _) as [[ast e]|]; reflexivity. }
  split; [intros ast; reflexivity|].
  split; [exact java_render_at_shift|].
  exact render_block_lift.
Qed.

